(** * Self-supervised ViT training (BYOL / MoCo / SimCLR style)

    A shallow embedding of [vision_transformer.py], [pl_train_moco.py] and
    [pl_train_simclr.py], with the properties of the specification that can
    be stated over it.

    Conventions of the embedding.
    - Tensor entries are real numbers: the arithmetic of the code is read
      over [R], exact, where the program computes in float32.  A theorem
      that concludes an exact value or an equality of computed values
      carries the hypotheses under which float32 computes it without
      rounding, overflow or underflow ([in_range], [power_of_two]); the
      others state shapes, exceptions, counts, the expression the code
      itself evaluates, or bounds that leave room for rounding.
    - A tensor shape is a [list nat]; the shape rules of the torch
      operators used by the code (convolution, [cat], broadcasting, [Linear],
      [reshape], ...) are written out where the code calls them.
    - A Python exception is the [Err] case of [result]; code that can raise
      runs in that error monad.
    - Parameters live in ordered, named parameter lists, in registration
      order, as [Module.named_parameters] yields them. *)

From Stdlib Require Import String Reals List Lia Lra PeanoNat Bool Arith.
From Stdlib Require Import Permutation Sorted.
From Stdlib Require DecimalString.
Import ListNotations.

Set Implicit Arguments.

(* ------------------------------------------------------------------ *)
(** ** Python results and exceptions *)

Module Py.

Inductive exn : Type :=
| IndexError
| ZeroDivisionError
| AttributeError
| ValueError (msg : string)
| AssertionError (msg : string)
| RuntimeError (msg : string).

Inductive result (A : Type) : Type :=
| Ok (a : A)
| Err (e : exn).

Arguments Ok {A} a.
Arguments Err {A} e.

Definition bind {A B : Type} (r : result A) (k : A -> result B) : result B :=
  match r with
  | Ok a => k a
  | Err e => Err e
  end.

Definition is_ok {A : Type} (r : result A) : bool :=
  match r with Ok _ => true | Err _ => false end.

(** [xs[i]] for a non-negative index. *)
Definition index {A : Type} (xs : list A) (i : nat) : result A :=
  match nth_error xs i with
  | Some x => Ok x
  | None => Err IndexError
  end.

(** [xs[-1]]. *)
Definition index_last {A : Type} (xs : list A) : result A :=
  match rev xs with
  | x :: _ => Ok x
  | [] => Err IndexError
  end.

End Py.
Import Py.

Notation "x <- r ;; k" := (bind r (fun x => k))
  (at level 61, r at next level, right associativity).

(* ------------------------------------------------------------------ *)
(** ** Flat real tensors: the data of a parameter *)

Definition tensor := list R.

Fixpoint map2 {A B C : Type} (f : A -> B -> C) (xs : list A) (ys : list B) : list C :=
  match xs, ys with
  | x :: xs', y :: ys' => f x y :: map2 f xs' ys'
  | _, _ => []
  end.

(** [t * m] and [m * t] for a Python scalar [m]. *)
Definition tmul_scalar (t : tensor) (m : R) : tensor := map (fun v => (v * m)%R) t.
Definition scalar_tmul (m : R) (t : tensor) : tensor := map (fun v => (m * v)%R) t.

(** [a + b] on one-dimensional data: equal sizes add entry by entry, a
    one-element operand is broadcast, anything else raises. *)
Definition tadd (a b : tensor) : result tensor :=
  if length a =? length b then Ok (map2 Rplus a b)
  else if length a =? 1 then Ok (map (fun y => (hd 0%R a + y)%R) b)
  else if length b =? 1 then Ok (map (fun x => (x + hd 0%R b)%R) a)
  else Err (RuntimeError "The size of tensor a must match the size of tensor b").

(* ------------------------------------------------------------------ *)
(** ** Parameters and modules *)

Record Param : Type := mkParam {
  data : tensor;
  ndim : nat;                 (* len(param.shape) *)
  requires_grad : bool;
  grad : option tensor
}.

Definition set_data (p : Param) (d : tensor) : Param :=
  {| data := d; ndim := ndim p; requires_grad := requires_grad p; grad := grad p |}.

Definition set_requires_grad (p : Param) (b : bool) : Param :=
  {| data := data p; ndim := ndim p; requires_grad := b; grad := grad p |}.

Definition set_grad (p : Param) (g : option tensor) : Param :=
  {| data := data p; ndim := ndim p; requires_grad := requires_grad p; grad := g |}.

(** [named_parameters()] of a module, in registration order. *)
Definition module := list (string * Param).

Definition datas (m : module) : list tensor := map (fun np => data (snd np)) m.

(** Modelled from the spec: [byol_pytorch.NetWrapper] is not among the
    sources.  The training code reads a backbone [net], a [projector] that is
    a container of heads (the student's is indexed with [-1] when the
    intermediate-layer modes differ, "only the student's final-layer head
    component is averaged into the teacher's single head") and, on the
    student, a prediction head. *)
Record NetWrapper : Type := mkNetWrapper {
  net : module;
  projector : list module;
  predictor : module
}.

Definition projector_parameters (w : NetWrapper) : module := concat (projector w).

(** Writes a flat parameter list back into the children it was read from. *)
Fixpoint regroup (children : list module) (flat : module) : list module :=
  match children with
  | [] => []
  | c :: cs => firstn (length c) flat :: regroup cs (skipn (length c) flat)
  end.

(* ------------------------------------------------------------------ *)
(** ** The learner of [pl_train_moco.py] *)

(** A parameter of the learner is named by the wrapper that owns it, the
    sub-module inside the wrapper and its name there: the optimizer keeps
    such references to the parameters it was given. *)
Inductive owner : Type := Student | Teacher.

Inductive part : Type :=
| InNet
| InProjector (child : nat)
| InPredictor.

Record ref : Type := mkRef {
  ref_owner : owner;
  ref_part : part;
  ref_name : string
}.

Record ParamGroup : Type := mkParamGroup {
  params : list ref;
  lr : R;
  weight_decay : R
}.

(** Calls that change parameters or optimizer state, in the order made. *)
Inductive event : Type :=
| EvZeroGrad
| EvBackward
| EvOptimizerStep
| EvMomentumUpdate.

Record PLLearner : Type := mkPLLearner {
  student : NetWrapper;
  teacher : NetWrapper;
  st_inter : bool;
  t_inter : bool;
  ratio : R;
  optimizer : option (list ParamGroup);  (* self.optimizer.param_groups, when set *)
  lr_schedule : list R;
  wd_schedule : list R;
  ratio_schedule : list R;
  momentum_schedule : list R;
  global_step : nat;
  scalars : list (string * R * nat);  (* logger.experiment.add_scalar, newest first *)
  calls : list event                  (* newest first *)
}.

Definition with_teacher (l : PLLearner) (t : NetWrapper) : PLLearner :=
  {| student := student l; teacher := t; st_inter := st_inter l; t_inter := t_inter l;
     ratio := ratio l; optimizer := optimizer l;
     lr_schedule := lr_schedule l; wd_schedule := wd_schedule l;
     ratio_schedule := ratio_schedule l; momentum_schedule := momentum_schedule l;
     global_step := global_step l; scalars := scalars l; calls := calls l |}.

Definition with_student (l : PLLearner) (s : NetWrapper) : PLLearner :=
  {| student := s; teacher := teacher l; st_inter := st_inter l; t_inter := t_inter l;
     ratio := ratio l; optimizer := optimizer l;
     lr_schedule := lr_schedule l; wd_schedule := wd_schedule l;
     ratio_schedule := ratio_schedule l; momentum_schedule := momentum_schedule l;
     global_step := global_step l; scalars := scalars l; calls := calls l |}.

Definition with_call (l : PLLearner) (e : event) : PLLearner :=
  {| student := student l; teacher := teacher l; st_inter := st_inter l; t_inter := t_inter l;
     ratio := ratio l; optimizer := optimizer l;
     lr_schedule := lr_schedule l; wd_schedule := wd_schedule l;
     ratio_schedule := ratio_schedule l; momentum_schedule := momentum_schedule l;
     global_step := global_step l; scalars := scalars l; calls := e :: calls l |}.

Definition with_optimizer (l : PLLearner) (o : option (list ParamGroup)) : PLLearner :=
  {| student := student l; teacher := teacher l; st_inter := st_inter l; t_inter := t_inter l;
     ratio := ratio l; optimizer := o;
     lr_schedule := lr_schedule l; wd_schedule := wd_schedule l;
     ratio_schedule := ratio_schedule l; momentum_schedule := momentum_schedule l;
     global_step := global_step l; scalars := scalars l; calls := calls l |}.

Definition with_ratio (l : PLLearner) (r : R) : PLLearner :=
  {| student := student l; teacher := teacher l; st_inter := st_inter l; t_inter := t_inter l;
     ratio := r; optimizer := optimizer l;
     lr_schedule := lr_schedule l; wd_schedule := wd_schedule l;
     ratio_schedule := ratio_schedule l; momentum_schedule := momentum_schedule l;
     global_step := global_step l; scalars := scalars l; calls := calls l |}.

Definition with_global_step (l : PLLearner) (n : nat) : PLLearner :=
  {| student := student l; teacher := teacher l; st_inter := st_inter l; t_inter := t_inter l;
     ratio := ratio l; optimizer := optimizer l;
     lr_schedule := lr_schedule l; wd_schedule := wd_schedule l;
     ratio_schedule := ratio_schedule l; momentum_schedule := momentum_schedule l;
     global_step := n; scalars := scalars l; calls := calls l |}.

(** [self.logger.experiment.add_scalar(tag, value, self.global_step)]. *)
Definition add_scalar (l : PLLearner) (tag : string) (v : R) : PLLearner :=
  {| student := student l; teacher := teacher l; st_inter := st_inter l; t_inter := t_inter l;
     ratio := ratio l; optimizer := optimizer l;
     lr_schedule := lr_schedule l; wd_schedule := wd_schedule l;
     ratio_schedule := ratio_schedule l; momentum_schedule := momentum_schedule l;
     global_step := global_step l;
     scalars := (tag, v, global_step l) :: scalars l; calls := calls l |}.

(** The body of the three loops of [momentum_update]:
    [for current_params, ma_params in zip(current, ma):
         ma_params.data = old_weight * m + (1 - m) * up_weight].
    [zip] stops at the shorter list; the parameters of [ma] beyond it stay. *)
Fixpoint ema_zip (m : R) (current ma : module) : result module :=
  match current, ma with
  | (_, current_params) :: cs, (name, ma_params) :: ms =>
      w <- tadd (tmul_scalar (data ma_params) m)
                (scalar_tmul (1 - m) (data current_params)) ;;
      rest <- ema_zip m cs ms ;;
      Ok ((name, set_data ma_params w) :: rest)
  | _, _ => Ok ma
  end.

(** [PLLearner.momentum_update]. *)
Definition momentum_update (self : PLLearner) : result PLLearner :=
  m <- index (momentum_schedule self) (global_step self) ;;
  t_net <- ema_zip m (net (student self)) (net (teacher self)) ;;
  current <- (if negb (Bool.eqb (st_inter self) (t_inter self))
              then index_last (projector (student self))
              else Ok (projector_parameters (student self))) ;;
  t_proj <- ema_zip m current (projector_parameters (teacher self)) ;;
  Ok (with_call
        (with_teacher self
           {| net := t_net;
              projector := regroup (projector (teacher self)) t_proj;
              predictor := predictor (teacher self) |})
        EvMomentumUpdate).

(** What [load_state_dict] checks before copying: same keys in the same
    order, same sizes. *)
Fixpoint same_layout (a b : module) : bool :=
  match a, b with
  | [], [] => true
  | (na, pa) :: a', (nb, pb) :: b' =>
      String.eqb na nb && (length (data pa) =? length (data pb)) && same_layout a' b'
  | _, _ => false
  end.

(** The student and the teacher as [PLLearner.__init__] leaves them: the
    teacher's backbone loaded from the student's, the teacher's projector
    loaded from the student's last head ([st_inter != t_inter]) or from its
    whole projector. *)
Definition mirrored (self : PLLearner) : bool :=
  same_layout (net (student self)) (net (teacher self)) &&
  (if negb (Bool.eqb (st_inter self) (t_inter self))
   then match index_last (projector (student self)) with
        | Ok head => same_layout head (projector_parameters (teacher self))
        | Err _ => false
        end
   else same_layout (projector_parameters (student self))
                    (projector_parameters (teacher self))).

(** The moving average the specification asks for, [m * teacher + (1 - m) *
    student] entry by entry, for comparison with [ema_zip]. *)
Definition ema_module (m : R) (current ma : module) : module :=
  map2 (fun c t =>
          (fst t, set_data (snd t)
                    (map2 (fun x y => (m * x + (1 - m) * y)%R) (data (snd t)) (data (snd c)))))
       current ma.

(* ------------------------------------------------------------------ *)
(** ** Two-dimensional real tensors and the torch functions of the losses *)

(** A batch of embeddings, [batch x dim], row by row. *)
Definition matrix := list (list R).

(** [c * x]. *)
Definition scale (c : R) (x : matrix) : matrix := map (map (Rmult c)) x.

Definition sum_list (v : list R) : R := fold_right Rplus 0%R v.

(** [v.norm(2)]. *)
Definition l2norm (v : list R) : R := sqrt (sum_list (map (fun x => (x * x)%R) v)).

(** The default [eps] of [F.normalize], [1e-12]. *)
Definition normalize_eps : R := (/ 1000000000000)%R.

(** [F.normalize(x, dim=1)]: every row divided by
    [max(norm, eps)]. *)
Definition normalize_row (v : list R) : list R :=
  map (fun x => (x / Rmax (l2norm v) normalize_eps)%R) v.

Definition normalize (x : matrix) : matrix := map normalize_row x.

Definition dot (u v : list R) : R := sum_list (map2 Rmult u v).

(** The second dimension of a matrix, read on its first row. *)
Definition width (x : matrix) : nat :=
  match x with
  | r :: _ => length r
  | [] => 0
  end.

Definition has_width (d : nat) (x : matrix) : bool :=
  forallb (fun r => length r =? d) x.

(** [torch.matmul(a, b.T)] for [a : n x d] and [b : k x d]: entry [(i, j)] is
    the dot product of row [i] of [a] and row [j] of [b]; the inner
    dimensions must agree. *)
Definition matmul_T (a b : matrix) : result matrix :=
  let d := match a with [] => width b | _ => width a end in
  if has_width d a && has_width d b
  then Ok (map (fun ai => map (fun bj => dot ai bj) b) a)
  else Err (RuntimeError "mat1 and mat2 shapes cannot be multiplied").

(** [x / t] for a scalar [t]. *)
Definition div_scalar (x : matrix) (t : R) : matrix := map (map (fun v => (v / t)%R)) x.

(** [ln (sum_j exp(row_j))]. *)
Definition logsumexp (row : list R) : R := ln (sum_list (map exp row)).

(** One term of the cross-entropy: minus the log-softmax of [row] at
    [label]. *)
Definition nll (row : list R) (label : nat) : R :=
  (logsumexp row - nth label row 0)%R.

(** [nn.CrossEntropyLoss()(logits, labels)], mean reduction: one label per
    row, every label a column of [logits]. *)
Definition criterion (logits : matrix) (labels : list nat) : result R :=
  if negb (length logits =? length labels)
  then Err (ValueError "Expected input batch_size to match target batch_size")
  else if negb (forallb (fun rl => snd rl <? length (fst rl)) (combine logits labels))
  then Err (IndexError)
  else Ok (sum_list (map2 nll logits labels) / INR (length logits))%R.

(** [torch.arange(n) + off], as a list of class indices. *)
Definition arange_plus (n off : nat) : list nat := map (fun i => i + off) (seq 0 n).

Definition tau : R := (2 / 10)%R.   (* tau = 0.2 *)

(** [PLLearner.info_nce_loss] of [pl_train_moco.py]; [rank] is
    [torch.distributed.get_rank()]. *)
Definition info_nce_loss (rank : nat) (s_features t_features : matrix) : result R :=
  let batch_size := length s_features in
  let labels := arange_plus batch_size (batch_size * rank) in
  let s_features := normalize s_features in
  let t_features := normalize t_features in
  similarity_matrix <- matmul_T s_features t_features ;;
  let logits := div_scalar similarity_matrix tau in
  loss <- criterion logits labels ;;
  Ok (2 * tau * loss)%R.

(** [math.ceil(a / b)] for naturals, [b] non-zero: the number of entries of
    [torch.arange(a / b)]. *)
Definition ceil_div (a b : nat) : nat := (a + b - 1) / b.

(** [PLLearner.info_nce_loss_layer]: [batch_size /= depth] makes
    [batch_size] a float, [torch.arange] of a float end has its ceiling as
    length, [int(...)] truncates. *)
Definition info_nce_loss_layer (st_inter : bool) (rank : nat)
    (s_features t_features : matrix) (d : option nat) : result R :=
  let batch_size := length s_features in
  let depth := match d with
               | Some d => d
               | None => if st_inter then 11 else 1
               end in
  if depth =? 0 then Err ZeroDivisionError else
  let labels :=
    concat (repeat (arange_plus (ceil_div batch_size depth) (batch_size * rank / depth)) depth) in
  let s_features := normalize s_features in
  let t_features := normalize t_features in
  similarity_matrix <- matmul_T s_features t_features ;;
  let logits := div_scalar similarity_matrix tau in
  loss <- criterion logits labels ;;
  Ok (2 * tau * loss)%R.

(* ------------------------------------------------------------------ *)
(** ** The self-similarity loss of [pl_train_simclr.py] *)

(** [x[mask]] for a boolean mask of the shape of [x]: the selected entries
    in row-major order. *)
Definition masked_select {A : Type} (x : list (list A)) (mask : list (list bool))
  : result (list A) :=
  if (length x =? length mask) &&
     forallb (fun rm => length (fst rm) =? length (snd rm)) (combine x mask)
  then Ok (concat (map2 (fun row mrow =>
                           map fst (filter snd (combine row mrow))) x mask))
  else Err IndexError.

(** [n] consecutive rows of [w] entries. *)
Fixpoint chunks {A : Type} (n w : nat) (flat : list A) : list (list A) :=
  match n with
  | 0 => []
  | S n' => firstn w flat :: chunks n' w (skipn w flat)
  end.

(** [flat.view(n, -1)]: a tensor of 0 elements leaves the size [-1] open,
    and the view raises. *)
Definition view_rows {A : Type} (n : nat) (flat : list A) : result (list (list A)) :=
  if length flat =? 0
  then Err (RuntimeError "cannot reshape tensor of 0 elements: the unspecified dimension size -1 is ambiguous")
  else if n =? 0 then Err (RuntimeError "shape is invalid for input size")
  else if length flat mod n =? 0 then Ok (chunks n (length flat / n) flat)
  else Err (RuntimeError "shape is invalid for input size").

(** [torch.cat([a, b], dim=1)]. *)
Definition cat_dim1 {A : Type} (a b : list (list A)) : result (list (list A)) :=
  if length a =? length b then Ok (map2 (@app A) a b)
  else Err (RuntimeError "Sizes of tensors must match except in dimension 1").

Definition mask_not (m : list (list bool)) : list (list bool) := map (map negb) m.

(** [torch.eye(n, dtype=torch.bool)]. *)
Definition eye (n : nat) : list (list bool) :=
  map (fun i => map (fun j => i =? j) (seq 0 n)) (seq 0 n).

Module Simclr.

(** The fields of the learner the loss reads and caches.  [labels] is stored
    by the code as a 0/1 float matrix and read back through [.bool()]; it is
    kept here as the boolean matrix. *)
Record PLLearner : Type := mkPLLearner {
  temperature : R;
  labels : option (list (list bool));
  mask : option (list (list bool));
  label : option (list nat)
}.

(** [PLLearner.info_nce_loss(features)]: the loss and the learner with its
    caches filled. *)
Definition info_nce_loss (self : PLLearner) (features : matrix)
  : result (R * PLLearner) :=
  let self_labels :=
    match labels self with
    | None =>
        let b := length features in
        let v := arange_plus (ceil_div b 2) 0 ++ arange_plus (ceil_div b 2) 0 in
        map (fun vi => map (fun vj => vj =? vi) v) v
    | Some l => l
    end in
  let features := normalize features in
  similarity_matrix <- matmul_T features features ;;
  let self_mask :=
    match mask self with
    | None => eye (length self_labels)
    | Some m => m
    end in
  l_flat <- masked_select self_labels (mask_not self_mask) ;;
  labels_ <- view_rows (length self_labels) l_flat ;;
  s_flat <- masked_select similarity_matrix (mask_not self_mask) ;;
  similarity_matrix <- view_rows (length similarity_matrix) s_flat ;;
  p_flat <- masked_select similarity_matrix labels_ ;;
  positives <- view_rows (length labels_) p_flat ;;
  n_flat <- masked_select similarity_matrix (mask_not labels_) ;;
  negatives <- view_rows (length similarity_matrix) n_flat ;;
  logits <- cat_dim1 positives negatives ;;
  let self_label :=
    match label self with
    | None => repeat 0 (length logits)
    | Some l => l
    end in
  let logits := div_scalar logits (temperature self) in
  loss <- criterion logits self_label ;;
  Ok (loss, {| temperature := temperature self;
               labels := Some self_labels;
               mask := Some self_mask;
               label := Some self_label |}).

End Simclr.

(** Rows whose norm is not below the [eps] of [F.normalize], before and
    after the rescaling by [c]. *)
Definition norms_above_eps (c : R) (x : matrix) : Prop :=
  Forall (fun v => (normalize_eps <= l2norm v)%R /\
                   (normalize_eps <= Rabs c * l2norm v)%R) x.

(** The scalars [+-2^k]: rescaling a binary floating-point number by one of
    them changes its exponent and nothing else. *)
Definition power_of_two (c : R) : Prop := exists k : Z, Rabs c = powerRZ 2 k.

(** An entry that is zero or of a magnitude between [2^-30] and [2^30]:
    its square and the sums of such squares stay clear of the overflow and
    of the underflow of float32. *)
Definition in_range (a : R) : Prop :=
  a = 0%R \/ (/ 2 ^ 30 <= Rabs a <= 2 ^ 30)%R.

(** A batch whose entries are in range before and after the rescaling by
    [c], every row with an entry that is not zero. *)
Definition exactly_rescaled (c : R) (x : matrix) : Prop :=
  Forall (fun v => Forall (fun a => in_range a /\ in_range (c * a)) v /\
                   Exists (fun a => a <> 0%R) v) x.

(** Embeddings of norm [5e-13], below the [eps] of [F.normalize]: two
    student rows, two teacher rows of dimension one. *)
Definition tiny : R := (/ 2000000000000)%R.
Definition tiny_s : matrix := [[tiny]; [tiny]].
Definition tiny_t : matrix := [[tiny]; [(- tiny)%R]].

(** Two embeddings of dimension one and of ordinary size. *)
Definition unit_s : matrix := [[1%R]; [2%R]].
Definition unit_t : matrix := [[1%R]; [(- 1)%R]].

(** The cross-entropy of the similarity logits, scaled by the temperature
    [temp], against [labels]: the value before the final factor of the
    cross-batch losses. *)
Definition similarity_cross_entropy (temp : R) (labels : list nat)
    (s_features t_features : matrix) : result R :=
  similarity_matrix <- matmul_T (normalize s_features) (normalize t_features) ;;
  criterion (div_scalar similarity_matrix temp) labels.

(** The labels of the two cross-batch losses: the identity permutation
    shifted by the rank, and the same for a batch that stacks [depth]
    layers. *)
Definition identity_labels (batch_size rank : nat) : list nat :=
  arange_plus batch_size (batch_size * rank).

Definition layer_labels (batch_size rank depth : nat) : list nat :=
  concat (repeat (arange_plus (ceil_div batch_size depth) (batch_size * rank / depth)) depth).

Definition default_depth (st_inter : bool) (d : option nat) : nat :=
  match d with
  | Some d => d
  | None => if st_inter then 11 else 1
  end.

(* ------------------------------------------------------------------ *)
(** ** Activations of [vision_transformer.py]: shape and autograd graph *)

(** What the forward pass is followed on: the shape of a tensor and the
    names of the parameters that its autograd graph reaches and that
    require a gradient (the parameters [backward] would fill). *)
Record Tensor : Type := mkTensor {
  shape : list nat;
  graph : list string
}.

(** A registered parameter: its qualified name, its shape, its
    [requires_grad] flag. *)
Record PInfo : Type := mkPInfo {
  p_name : string;
  p_shape : list nat;
  p_requires_grad : bool
}.

Definition freeze (p : PInfo) : PInfo :=
  {| p_name := p_name p; p_shape := p_shape p; p_requires_grad := false |}.

(** The names, among [ps], of the parameters that take part in the graph. *)
Definition trainable (ps : list PInfo) : list string :=
  map p_name (filter p_requires_grad ps).

(** The union of two graphs, as a duplicate-free list of names. *)
Definition mem (n : string) (g : list string) : bool := existsb (String.eqb n) g.

Definition union (a b : list string) : list string :=
  a ++ filter (fun n => negb (mem n a)) b.

Definition as_tensor (p : PInfo) : Tensor :=
  {| shape := p_shape p; graph := trainable [p] |}.

Definition opt_list {A : Type} (o : option A) : list A :=
  match o with Some a => [a] | None => [] end.

Definition numel (s : list nat) : nat := fold_right Nat.mul 1 s.

Definition str_of_nat (n : nat) : string := DecimalString.NilZero.string_of_uint (Nat.to_uint n).

Definition shape_error : exn :=
  RuntimeError "The size of tensor a must match the size of tensor b".

(** Broadcasting of two shapes, read from the last dimension. *)
Fixpoint broadcast_rev (a b : list nat) : result (list nat) :=
  match a, b with
  | [], _ => Ok b
  | _, [] => Ok a
  | x :: a', y :: b' =>
      rest <- broadcast_rev a' b' ;;
      if x =? y then Ok (x :: rest)
      else if x =? 1 then Ok (y :: rest)
      else if y =? 1 then Ok (x :: rest)
      else Err shape_error
  end.

(** [a + b]. *)
Definition add (a b : Tensor) : result Tensor :=
  s <- broadcast_rev (rev (shape a)) (rev (shape b)) ;;
  Ok {| shape := rev s; graph := union (graph a) (graph b) |}.

Fixpoint set_nth (i : nat) (v : nat) (s : list nat) : list nat :=
  match s, i with
  | [], _ => []
  | _ :: s', 0 => v :: s'
  | x :: s', S i' => x :: set_nth i' v s'
  end.

Fixpoint shape_eqb (a b : list nat) : bool :=
  match a, b with
  | [], [] => true
  | x :: a', y :: b' => (x =? y) && shape_eqb a' b'
  | _, _ => false
  end.

(** [torch.cat([a, b], dim)]: the shapes agree outside [dim]. *)
Definition cat (a b : Tensor) (dim : nat) : result Tensor :=
  if (length (shape a) =? length (shape b)) && (dim <? length (shape a)) &&
     shape_eqb (set_nth dim 0 (shape a)) (set_nth dim 0 (shape b))
  then Ok {| shape := set_nth dim (nth dim (shape a) 0 + nth dim (shape b) 0) (shape a);
             graph := union (graph a) (graph b) |}
  else Err (RuntimeError "Sizes of tensors must match except in the cat dimension").

(** [torch.cat([a, b], dim=-1)]. *)
Definition cat_last (a b : Tensor) : result Tensor :=
  cat a b (length (shape a) - 1).

(** [x.reshape(s)]. *)
Definition reshape (x : Tensor) (s : list nat) : result Tensor :=
  if numel (shape x) =? numel s then Ok {| shape := s; graph := graph x |}
  else Err (RuntimeError "shape is invalid for input size").

(** [x.mean(dim=1)]. *)
Definition mean_dim1 (x : Tensor) : result Tensor :=
  match shape x with
  | b :: _ :: rest => Ok {| shape := b :: rest; graph := graph x |}
  | _ => Err IndexError
  end.

(** [x.detach()]. *)
Definition detach (x : Tensor) : Tensor := {| shape := shape x; graph := [] |}.

(** *** Layers *)

Record Linear : Type := mkLinear {
  in_features : nat;
  out_features : nat;
  l_weight : PInfo;
  l_bias : option PInfo
}.

Definition Linear_init (prefix : string) (in_f out_f : nat) (bias : bool) : Linear :=
  {| in_features := in_f; out_features := out_f;
     l_weight := mkPInfo (prefix ++ ".weight") [out_f; in_f] true;
     l_bias := if bias then Some (mkPInfo (prefix ++ ".bias") [out_f] true) else None |}.

Definition Linear_parameters (l : Linear) : list PInfo := l_weight l :: opt_list (l_bias l).

(** [F.linear]: the last dimension is [in_features]. *)
Definition Linear_forward (l : Linear) (x : Tensor) : result Tensor :=
  match rev (shape x) with
  | last :: lead =>
      if last =? in_features l
      then Ok {| shape := rev (out_features l :: lead);
                 graph := union (graph x) (trainable (Linear_parameters l)) |}
      else Err (RuntimeError "mat1 and mat2 shapes cannot be multiplied")
  | [] => Err (RuntimeError "mat1 and mat2 shapes cannot be multiplied")
  end.

Record LayerNorm : Type := mkLayerNorm {
  normalized_shape : nat;
  ln_weight : PInfo;
  ln_bias : PInfo
}.

Definition LayerNorm_init (prefix : string) (dim : nat) : LayerNorm :=
  {| normalized_shape := dim;
     ln_weight := mkPInfo (prefix ++ ".weight") [dim] true;
     ln_bias := mkPInfo (prefix ++ ".bias") [dim] true |}.

Definition LayerNorm_parameters (n : LayerNorm) : list PInfo := [ln_weight n; ln_bias n].

Definition LayerNorm_forward (n : LayerNorm) (x : Tensor) : result Tensor :=
  match rev (shape x) with
  | last :: _ =>
      if last =? normalized_shape n
      then Ok {| shape := shape x; graph := union (graph x) (trainable (LayerNorm_parameters n)) |}
      else Err (RuntimeError "Given normalized_shape, expected input of matching last dimension")
  | [] => Err (RuntimeError "Given normalized_shape, expected input of matching last dimension")
  end.

Record Conv2d : Type := mkConv2d {
  in_channels : nat;
  out_channels : nat;
  kernel_size : nat;
  stride : nat;
  c_weight : PInfo;
  c_bias : PInfo
}.

Definition Conv2d_init (prefix : string) (in_c out_c k s : nat) : Conv2d :=
  {| in_channels := in_c; out_channels := out_c; kernel_size := k; stride := s;
     c_weight := mkPInfo (prefix ++ ".weight") [out_c; in_c; k; k] true;
     c_bias := mkPInfo (prefix ++ ".bias") [out_c] true |}.

Definition Conv2d_parameters (c : Conv2d) : list PInfo := [c_weight c; c_bias c].

(** A convolution without padding on a batch [B x C x H x W]. *)
Definition Conv2d_forward (c : Conv2d) (x : Tensor) : result Tensor :=
  match shape x with
  | [B; C; H; W] =>
      if negb (C =? in_channels c)
      then Err (RuntimeError "expected input to have in_channels channels")
      else if (H <? kernel_size c) || (W <? kernel_size c)
      then Err (RuntimeError "Kernel size can't be greater than actual input size")
      else if stride c =? 0
      then Err (RuntimeError "non-positive stride is not supported")
      else Ok {| shape := [B; out_channels c;
                           (H - kernel_size c) / stride c + 1;
                           (W - kernel_size c) / stride c + 1];
                 graph := union (graph x) (trainable (Conv2d_parameters c)) |}
  | _ => Err (RuntimeError "Expected 4D input to conv2d")
  end.

Record Mlp : Type := mkMlp {
  fc1 : Linear;
  fc2 : Linear
}.

(** [Mlp.__init__]: [hidden_features or in_features] replaces a hidden size
    of 0 by the input size. *)
Definition Mlp_init (prefix : string) (in_f hidden_f : nat) : Mlp :=
  let hidden_f := if hidden_f =? 0 then in_f else hidden_f in
  {| fc1 := Linear_init (prefix ++ ".fc1") in_f hidden_f true;
     fc2 := Linear_init (prefix ++ ".fc2") hidden_f in_f true |}.

Definition Mlp_parameters (m : Mlp) : list PInfo :=
  Linear_parameters (fc1 m) ++ Linear_parameters (fc2 m).

(** [Mlp.forward]; the activation and the dropouts keep shape and graph. *)
Definition Mlp_forward (m : Mlp) (x : Tensor) : result Tensor :=
  x <- Linear_forward (fc1 m) x ;;
  Linear_forward (fc2 m) x.

Record Attention : Type := mkAttention {
  a_num_heads : nat;
  qkv : Linear;
  a_proj : Linear
}.

(** [Attention.__init__] with [qk_scale=None]: [dim // num_heads] and
    [head_dim ** -0.5] both raise on a zero divisor. *)
Definition Attention_init (prefix : string) (dim num_heads : nat) (qkv_bias : bool)
  : result Attention :=
  if num_heads =? 0 then Err ZeroDivisionError
  else if dim / num_heads =? 0 then Err ZeroDivisionError
  else Ok {| a_num_heads := num_heads;
             qkv := Linear_init (prefix ++ ".qkv") dim (dim * 3) qkv_bias;
             a_proj := Linear_init (prefix ++ ".proj") dim dim true |}.

Definition Attention_parameters (a : Attention) : list PInfo :=
  Linear_parameters (qkv a) ++ Linear_parameters (a_proj a).

(** [a @ b] on two four-dimensional tensors. *)
Definition matmul4 (a b : Tensor) : result Tensor :=
  match shape a, shape b with
  | [b1; h1; n; m], [b2; h2; m'; p] =>
      if (b1 =? b2) && (h1 =? h2) && (m =? m')
      then Ok {| shape := [b1; h1; n; p]; graph := union (graph a) (graph b) |}
      else Err (RuntimeError "mat1 and mat2 shapes cannot be multiplied")
  | _, _ => Err (RuntimeError "mat1 and mat2 shapes cannot be multiplied")
  end.

(** [Attention.forward]: the output and the attention weights. *)
Definition Attention_forward (self : Attention) (x : Tensor) : result (Tensor * Tensor) :=
  match shape x with
  | [B; N; C] =>
      qkv_ <- Linear_forward (qkv self) x ;;
      if a_num_heads self =? 0 then Err ZeroDivisionError else
      let head_dim := C / a_num_heads self in
      qkv_ <- reshape qkv_ [B; N; 3; a_num_heads self; head_dim] ;;
      (* permute(2, 0, 3, 1, 4), then qkv[0], qkv[1], qkv[2] *)
      let q := {| shape := [B; a_num_heads self; N; head_dim]; graph := graph qkv_ |} in
      let k := q in
      let v := q in
      let k_t := {| shape := [B; a_num_heads self; head_dim; N]; graph := graph k |} in
      attn <- matmul4 q k_t ;;
      (* softmax(dim=-1), attn_drop *)
      x <- matmul4 attn v ;;
      (* transpose(1, 2) *)
      let x := {| shape := [B; N; a_num_heads self; head_dim]; graph := graph x |} in
      x <- reshape x [B; N; C] ;;
      x <- Linear_forward (a_proj self) x ;;
      Ok (x, attn)
  | _ => Err (ValueError "not enough values to unpack")
  end.

Record Block : Type := mkBlock {
  b_proj : Linear;
  norm1 : LayerNorm;
  attn : Attention;
  norm2 : LayerNorm;
  mlp : Mlp
}.

Definition Block_init (prefix : string) (dim num_heads mlp_ratio : nat) (qkv_bias : bool)
  : result Block :=
  a <- Attention_init (prefix ++ ".attn") dim num_heads qkv_bias ;;
  Ok {| b_proj := Linear_init (prefix ++ ".proj") (2 * dim) dim true;
        norm1 := LayerNorm_init (prefix ++ ".norm1") dim;
        attn := a;
        norm2 := LayerNorm_init (prefix ++ ".norm2") dim;
        mlp := Mlp_init (prefix ++ ".mlp") dim (dim * mlp_ratio) |}.

Definition Block_parameters (b : Block) : list PInfo :=
  Linear_parameters (b_proj b) ++ LayerNorm_parameters (norm1 b) ++
  Attention_parameters (attn b) ++ LayerNorm_parameters (norm2 b) ++
  Mlp_parameters (mlp b).

Definition Block_linears (b : Block) : list Linear :=
  [b_proj b; qkv (attn b); a_proj (attn b); fc1 (mlp b); fc2 (mlp b)].

(** [Block.forward(x, return_attention)]; [drop_path] keeps shape and
    graph. *)
Definition Block_forward (self : Block) (x : Tensor) (return_attention : bool)
  : result Tensor :=
  x <- Linear_forward (b_proj self) x ;;
  n <- LayerNorm_forward (norm1 self) x ;;
  ya <- Attention_forward (attn self) n ;;
  if return_attention then Ok (snd ya)
  else
    x <- add x (fst ya) ;;
    n <- LayerNorm_forward (norm2 self) x ;;
    m <- Mlp_forward (mlp self) n ;;
    add x m.

(** A Python float quotient [num / den], kept exact. *)
Record quotient : Type := mkQuotient { q_num : nat; q_den : nat }.

(** The length of [torch.arange(q)]: the ceiling of [q]. *)
Definition arange_len (q : quotient) : nat := ceil_div (q_num q) (q_den q).

Record PatchEmbed : Type := mkPatchEmbed {
  pe_img_size : nat;
  pe_patch_size : nat * nat;
  grid_size : quotient * quotient;
  num_patches : nat;
  pe_proj : Conv2d
}.

Definition PatchEmbed_init (img_size patch_size in_chans embed_dim : nat)
  : result PatchEmbed :=
  if patch_size =? 0 then Err ZeroDivisionError
  else Ok {| pe_img_size := img_size;
             pe_patch_size := (patch_size, patch_size);
             grid_size := (mkQuotient img_size patch_size, mkQuotient img_size patch_size);
             num_patches := (img_size / patch_size) * (img_size / patch_size);
             pe_proj := Conv2d_init "patch_embed.proj" in_chans embed_dim patch_size patch_size |}.

(** [PatchEmbed.forward]: [proj(x).flatten(2).transpose(1, 2)]. *)
Definition PatchEmbed_forward (self : PatchEmbed) (x : Tensor) : result Tensor :=
  match shape x with
  | [_; _; _; _] =>
      y <- Conv2d_forward (pe_proj self) x ;;
      match shape y with
      | [B; E; Hp; Wp] => Ok {| shape := [B; Hp * Wp; E]; graph := graph y |}
      | _ => Err (RuntimeError "Expected 4D input to conv2d")
      end
  | _ => Err (ValueError "not enough values to unpack")
  end.

(** *** The Vision Transformer *)

(** The keyword arguments of [VisionTransformer.__init__] that shapes and
    parameters depend on ([qk_scale] at its default [None], [norm_layer] a
    [LayerNorm], [mlp_ratio] a whole number). *)
Record Config : Type := mkConfig {
  img_size : list nat;
  patch_size : nat;
  in_chans : nat;
  num_classes : nat;
  embed_dim : nat;
  depth : nat;
  num_heads : nat;
  mlp_ratio : nat;
  qkv_bias : bool;
  dis_token : bool
}.

Record VisionTransformer : Type := mkVisionTransformer {
  self_embed_dim : nat;
  self_depth : nat;
  patch_embed : PatchEmbed;
  cls_token : PInfo;
  self_dis_token : option PInfo;
  pos_embed : PInfo;
  blocks : list Block;
  norm : LayerNorm;
  norms : list LayerNorm;
  head : option Linear
}.

Definition sincos_message : string :=
  "Embed dimension must be divisible by 4 for 2D sin-cos position embedding".

(** [VisionTransformer.build_2d_sincos_position_embedding], on the fields
    set before it is called: the parameter [pos_embed] it registers. *)
Definition build_2d_sincos_position_embedding (self_embed_dim : nat)
    (patch_embed : PatchEmbed) (self_dis_token : option PInfo) : result PInfo :=
  let (h, w) := grid_size patch_embed in
  let grid_w := arange_len w in
  let grid_h := arange_len h in
  (* torch.meshgrid(grid_w, grid_h): two tensors of shape [grid_w; grid_h] *)
  if negb (self_embed_dim mod 4 =? 0) then Err (AssertionError sincos_message) else
  let pos_dim := self_embed_dim / 4 in
  (* out_w, out_h = einsum('m,d->md', grid.flatten(), omega) *)
  let out := {| shape := [grid_w * grid_h; pos_dim]; graph := [] |} in
  c <- cat out out 1 ;;
  c <- cat c out 1 ;;
  c <- cat c out 1 ;;
  let pos_emb := {| shape := 1 :: shape c; graph := [] |} in
  let num_token := match self_dis_token with Some _ => 2 | None => 1 end in
  let pe_token := {| shape := [1; num_token; self_embed_dim]; graph := [] |} in
  pos <- cat pe_token pos_emb 1 ;;
  Ok {| p_name := "pos_embed"; p_shape := shape pos; p_requires_grad := false |}.

(** [[Block(...) for i in range(depth)]]. *)
Fixpoint build_blocks (dim num_heads mlp_ratio : nat) (qkv_bias : bool) (indices : list nat)
  : result (list Block) :=
  match indices with
  | [] => Ok []
  | i :: rest =>
      b <- Block_init ("blocks." ++ str_of_nat i) dim num_heads mlp_ratio qkv_bias ;;
      bs <- build_blocks dim num_heads mlp_ratio qkv_bias rest ;;
      Ok (b :: bs)
  end.

(** The weight initialisation loop over the [nn.Linear] modules:
    [nn.init.zeros_(m.bias)] needs a bias. *)
Fixpoint init_linear_weights (linears : list Linear) : result unit :=
  match linears with
  | [] => Ok tt
  | l :: rest =>
      match l_bias l with
      | Some _ => init_linear_weights rest
      | None => Err AttributeError
      end
  end.

Definition freeze_patch_embed (pe : PatchEmbed) : PatchEmbed :=
  {| pe_img_size := pe_img_size pe;
     pe_patch_size := pe_patch_size pe;
     grid_size := grid_size pe;
     num_patches := num_patches pe;
     pe_proj := {| in_channels := in_channels (pe_proj pe);
                   out_channels := out_channels (pe_proj pe);
                   kernel_size := kernel_size (pe_proj pe);
                   stride := stride (pe_proj pe);
                   c_weight := freeze (c_weight (pe_proj pe));
                   c_bias := freeze (c_bias (pe_proj pe)) |} |}.

(** [VisionTransformer.__init__]. *)
Definition VisionTransformer_init (kw : Config) : result VisionTransformer :=
  img <- index (img_size kw) 0 ;;
  pe <- PatchEmbed_init img (patch_size kw) (in_chans kw) (embed_dim kw) ;;
  let cls := mkPInfo "cls_token" [1; 1; embed_dim kw] true in
  let dis := if dis_token kw
             then Some (mkPInfo "dis_token" [1; 1; embed_dim kw] true)
             else None in
  pos <- build_2d_sincos_position_embedding (embed_dim kw) pe dis ;;
  bs <- build_blocks (embed_dim kw) (num_heads kw) (mlp_ratio kw) (qkv_bias kw)
                     (seq 0 (depth kw)) ;;
  let norm_ := LayerNorm_init "norm" (embed_dim kw) in
  let norms_ := map (fun i => LayerNorm_init ("norms." ++ str_of_nat i) (embed_dim kw))
                    (seq 0 (depth kw)) in
  let head_ := if 0 <? num_classes kw
               then Some (Linear_init "head" (embed_dim kw) (num_classes kw) true)
               else None in
  u <- init_linear_weights (concat (map Block_linears bs) ++ opt_list head_) ;;
  Ok {| self_embed_dim := embed_dim kw;
        self_depth := depth kw;
        patch_embed := freeze_patch_embed pe;
        cls_token := cls;
        self_dis_token := dis;
        pos_embed := pos;
        blocks := bs;
        norm := norm_;
        norms := norms_;
        head := head_ |}.

(** [named_parameters()]: the parameters of the module itself, then those
    of its children in registration order. *)
Definition named_parameters (self : VisionTransformer) : list PInfo :=
  cls_token self :: opt_list (self_dis_token self) ++ [pos_embed self] ++
  Conv2d_parameters (pe_proj (patch_embed self)) ++
  concat (map Block_parameters (blocks self)) ++
  LayerNorm_parameters (norm self) ++
  concat (map LayerNorm_parameters (norms self)) ++
  match head self with Some l => Linear_parameters l | None => [] end.

(** [p.expand(B, -1, -1)] of a parameter of shape [1 x 1 x D]. *)
Definition expand_batch (p : PInfo) (B : nat) : result Tensor :=
  match p_shape p with
  | [b; n; d] =>
      if (b =? 1) || (b =? B) then Ok {| shape := [B; n; d]; graph := trainable [p] |}
      else Err (RuntimeError "The expanded size of the tensor must match the existing size")
  | _ => Err (RuntimeError "the number of sizes provided must match the tensor dimensions")
  end.

(** [VisionTransformer.prepare_tokens(x, dino)]. *)
Definition prepare_tokens (self : VisionTransformer) (x : Tensor) (dino : bool)
  : result Tensor :=
  match shape x with
  | [B; nc; w; h] =>
      x <- PatchEmbed_forward (patch_embed self) x ;;
      let x := if negb dino then detach x else x in
      cls_tokens <- expand_batch (cls_token self) B ;;
      x <- match self_dis_token self with
           | Some dis =>
               dis_tokens <- expand_batch dis B ;;
               c <- cat cls_tokens dis_tokens 1 ;;
               cat c x 1
           | None => cat cls_tokens x 1
           end ;;
      (* self.pos_drop keeps shape and graph *)
      add x (as_tensor (pos_embed self))
  | _ => Err (ValueError "not enough values to unpack")
  end.

(** [for blk in self.blocks: x = torch.cat([x, x], dim=-1); x = blk(x)]. *)
Fixpoint forward_blocks (blks : list Block) (x : Tensor) : result Tensor :=
  match blks with
  | [] => Ok x
  | blk :: rest =>
      x <- cat_last x x ;;
      x <- Block_forward blk x false ;;
      forward_blocks rest x
  end.

(** [VisionTransformer.forward(x, dino)]. *)
Definition forward (self : VisionTransformer) (x : Tensor) (dino : bool) : result Tensor :=
  x <- prepare_tokens self x dino ;;
  x <- forward_blocks (blocks self) x ;;
  n <- index_last (norms self) ;;
  x <- LayerNorm_forward n x ;;
  mean_dim1 x.

(** The loop of [get_last_selfattention], from block [i] on; falling off the
    end of the loop returns [None]. *)
Fixpoint last_selfattention_loop (len i : nat) (blks : list Block) (x : Tensor)
  : result (option Tensor) :=
  match blks with
  | [] => Ok None
  | blk :: rest =>
      if i <? len - 1
      then x <- Block_forward blk x false ;;
           last_selfattention_loop len (S i) rest x
      else a <- Block_forward blk x true ;;
           Ok (Some a)
  end.

(** [VisionTransformer.get_last_selfattention(x)]. *)
Definition get_last_selfattention (self : VisionTransformer) (x : Tensor)
  : result (option Tensor) :=
  x <- prepare_tokens self x false ;;
  last_selfattention_loop (length (blocks self)) 0 (blocks self) x.

(** [vit_small(patch_size=16, img_size=[224])]. *)
Definition vit_small_224 : Config :=
  {| img_size := [224]; patch_size := 16; in_chans := 3; num_classes := 0;
     embed_dim := 384; depth := 12; num_heads := 12; mlp_ratio := 4;
     qkv_bias := true; dis_token := false |}.

Definition image_batch (B C H W : nat) : Tensor :=
  {| shape := [B; C; H; W]; graph := [] |}.

(** The number of special tokens: 2 with a distillation token, 1 without. *)
Definition num_token (dis : bool) : nat := if dis then 2 else 1.




(** The blocks [__init__] builds, all for the same dimensions. *)
Definition built_block (dim heads ratio : nat) (bias : bool) (b : Block) : Prop :=
  heads <> 0 /\ dim / heads <> 0 /\
  exists prefix,
    b = {| b_proj := Linear_init (prefix ++ ".proj") (2 * dim) dim true;
           norm1 := LayerNorm_init (prefix ++ ".norm1") dim;
           attn := {| a_num_heads := heads;
                      qkv := Linear_init ((prefix ++ ".attn") ++ ".qkv") dim (dim * 3) bias;
                      a_proj := Linear_init ((prefix ++ ".attn") ++ ".proj") dim dim true |};
           norm2 := LayerNorm_init (prefix ++ ".norm2") dim;
           mlp := Mlp_init (prefix ++ ".mlp") dim (dim * ratio) |}.

(* ------------------------------------------------------------------ *)
(** ** The values [VisionTransformer.forward] returns *)

Module Values.

(** [x.mean(dim=1)] for one image, a sequence of [N] tokens of dimension
    [D]: entry [d] of the result is the sum of the entries [d] of all the
    tokens, divided by [N]. *)
Definition mean_tokens (tokens : matrix) : list R :=
  map (fun d => (sum_list (map (fun tok => nth d tok 0%R) tokens)
                 / INR (length tokens))%R)
      (seq 0 (width tokens)).

(** [x.mean(dim=1)] for a batch [B x N x D]. *)
Definition mean_dim1 (x : list matrix) : list (list R) := map mean_tokens x.

(** [torch.cat([x, x], dim=-1)]. *)
Definition cat_last (x : list matrix) : list matrix :=
  map (map (fun tok => tok ++ tok)) x.

Section Forward.

(** The image batches, and the learned parts of the model as the functions
    they compute: token preparation, the blocks, the final norms. *)
Variable image : Type.
Variable prepare_tokens : image -> bool -> result (list matrix).
Variable blocks : list (list matrix -> result (list matrix)).
Variable norms : list (list matrix -> result (list matrix)).

Fixpoint forward_blocks (blks : list (list matrix -> result (list matrix)))
    (x : list matrix) : result (list matrix) :=
  match blks with
  | [] => Ok x
  | blk :: rest =>
      x <- blk (cat_last x) ;;
      forward_blocks rest x
  end.

(** The sequence [forward] averages: [self.norms[-1]] applied to the output
    of the last block. *)
Definition final_sequence (x : image) (dino : bool) : result (list matrix) :=
  x <- prepare_tokens x dino ;;
  x <- forward_blocks blocks x ;;
  n <- index_last norms ;;
  n x.

(** [VisionTransformer.forward(x, dino)]. *)
Definition forward (x : image) (dino : bool) : result (list (list R)) :=
  x <- prepare_tokens x dino ;;
  x <- forward_blocks blocks x ;;
  n <- index_last norms ;;
  x <- n x ;;
  Ok (mean_dim1 x).

End Forward.

(** A sequence of a class token and one patch token, of dimension 1. *)
Definition two_tokens : matrix := [[1%R]; [3%R]].

End Values.

(* ------------------------------------------------------------------ *)
(** ** Construction of the learner and the training step *)

(** [m.load_state_dict(src.state_dict())]: strict on keys and sizes, then
    the data is copied. *)
Definition load_state_dict (m src : module) : result module :=
  if same_layout src m
  then Ok (map2 (fun d s => (fst d, set_data (snd d) (data (snd s)))) m src)
  else Err (RuntimeError "Error(s) in loading state_dict").

Definition freeze_module (m : module) : module :=
  map (fun np => (fst np, set_requires_grad (snd np) false)) m.

(** [s.endswith(suffix)]. *)
Definition endswith (s suffix : string) : bool :=
  (String.length suffix <=? String.length s) &&
  String.eqb (substring (String.length s - String.length suffix) (String.length suffix) s)
             suffix.

(** The references to the parameters of a wrapper, as [named_parameters]
    walks them. *)
Definition module_refs (o : owner) (pt : part) (m : module) : list (ref * Param) :=
  map (fun np => (mkRef o pt (fst np), snd np)) m.

Fixpoint children_refs (o : owner) (i : nat) (children : list module)
  : list (ref * Param) :=
  match children with
  | [] => []
  | c :: cs => module_refs o (InProjector i) c ++ children_refs o (S i) cs
  end.

Definition wrapper_refs (o : owner) (w : NetWrapper) : list (ref * Param) :=
  module_refs o InNet (net w) ++ children_refs o 0 (projector w) ++
  module_refs o InPredictor (predictor w).

(** Modelled from the spec: [utils.get_params_groups] is not among the
    sources.  "Per-parameter weight-decay grouping (bias/normalization
    parameters excluded from decay)": the parameters of the model that
    require a gradient, in two groups, the second one (biases and
    one-dimensional parameters) without weight decay. *)
Definition get_params_groups (o : owner) (model : NetWrapper) : list ParamGroup :=
  let trainable_refs := filter (fun rp => requires_grad (snd rp)) (wrapper_refs o model) in
  let not_regularized rp :=
    endswith (ref_name (fst rp)) ".bias" || (ndim (snd rp) =? 1) in
  [ {| params := map fst (filter (fun rp => negb (not_regularized rp)) trainable_refs);
       lr := 0; weight_decay := 0 |};
    {| params := map fst (filter not_regularized trainable_refs);
       lr := 0; weight_decay := 0 |} ].

(** [PLLearner.__init__], on the backbones and heads the wrappers are made
    of and on the four schedules [utils.cosine_scheduler] returns. *)
Definition PLLearner_init (student_ teacher_ : NetWrapper) (st_inter_ : bool)
    (optimizer_name : string) (lr_s wd_s ratio_s momentum_s : list R) : result PLLearner :=
  let t_inter_ := false in
  t_net <- load_state_dict (net teacher_) (net student_) ;;
  src <- (if negb (Bool.eqb st_inter_ t_inter_)
          then index_last (projector student_)
          else Ok (projector_parameters student_)) ;;
  t_proj <- load_state_dict (projector_parameters teacher_) src ;;
  let teacher_ :=
    {| net := freeze_module t_net;
       projector := map freeze_module (regroup (projector teacher_) t_proj);
       predictor := freeze_module (predictor teacher_) |} in
  let params_groups := get_params_groups Student student_ in
  let optimizer_ :=
    if (String.eqb optimizer_name "adamw" || String.eqb optimizer_name "sgd"
        || String.eqb optimizer_name "lars")%bool
    then Some params_groups else None in
  Ok {| student := student_; teacher := teacher_;
        st_inter := st_inter_; t_inter := t_inter_;
        ratio := 0;
        optimizer := optimizer_;
        lr_schedule := lr_s; wd_schedule := wd_s;
        ratio_schedule := ratio_s; momentum_schedule := momentum_s;
        global_step := 0; scalars := []; calls := [] |}.

(** Writing through a reference: [f] is applied to the parameter the
    reference names. *)
Definition update_module (f : Param -> Param) (name : string) (m : module) : module :=
  map (fun np => if String.eqb (fst np) name then (fst np, f (snd np)) else np) m.

Fixpoint update_child (f : Param -> Param) (i : nat) (name : string)
    (children : list module) : list module :=
  match children, i with
  | [], _ => []
  | c :: cs, 0 => update_module f name c :: cs
  | c :: cs, S i' => c :: update_child f i' name cs
  end.

Definition update_wrapper (f : Param -> Param) (pt : part) (name : string)
    (w : NetWrapper) : NetWrapper :=
  match pt with
  | InNet =>
      {| net := update_module f name (net w); projector := projector w;
         predictor := predictor w |}
  | InProjector i =>
      {| net := net w; projector := update_child f i name (projector w);
         predictor := predictor w |}
  | InPredictor =>
      {| net := net w; projector := projector w;
         predictor := update_module f name (predictor w) |}
  end.

Definition update_param (f : Param -> Param) (r : ref) (l : PLLearner) : PLLearner :=
  match ref_owner r with
  | Student => with_student l (update_wrapper f (ref_part r) (ref_name r) (student l))
  | Teacher => with_teacher l (update_wrapper f (ref_part r) (ref_name r) (teacher l))
  end.

Definition optimizer_refs (groups : list ParamGroup) : list ref :=
  concat (map params groups).

Section TrainingStep.

(** The parts of a step that the embedding takes as given: the batches; the
    forward passes and the loss of [training_step] together with the
    gradients autograd derives for it; the update rule of the optimizer
    (AdamW, SGD or LARS) for one parameter of a group; whether
    [zero_grad] resets gradients to [None] or to zero. *)
Variable batch : Type.
Variable loss_and_grads : PLLearner -> batch -> result (R * list (ref * tensor)).
Variable optimizer_rule : ParamGroup -> tensor -> tensor -> tensor.
Variable set_to_none : bool.

(** [PLLearner.update_lr]. *)
Fixpoint update_groups (self : PLLearner) (i : nat) (groups : list ParamGroup)
  : result (list ParamGroup * list (string * R * nat)) :=
  match groups with
  | [] => Ok ([], [])
  | g :: rest =>
      lr_ <- index (lr_schedule self) (global_step self) ;;
      wd_ <- (if i =? 0 then index (wd_schedule self) (global_step self)
              else Ok (weight_decay g)) ;;
      r <- update_groups self (S i) rest ;;
      Ok ({| params := params g; lr := lr_; weight_decay := wd_ |} :: fst r,
          (if i =? 0 then [("lr"%string, lr_, global_step self)] else []) ++ snd r)
  end.

Definition update_lr (self : PLLearner) : result PLLearner :=
  ratio_ <- index (ratio_schedule self) (global_step self) ;;
  let self := with_ratio self ratio_ in
  match optimizer self with
  | None => Err AttributeError
  | Some groups =>
      r <- update_groups self 0 groups ;;
      let self := with_optimizer self (Some (fst r)) in
      Ok (fold_left (fun l s => add_scalar l (fst (fst s)) (snd (fst s))) (snd r) self)
  end.

(** [opt.zero_grad()]. *)
Definition zero_param (p : Param) : Param :=
  match grad p with
  | None => p
  | Some g => set_grad p (if set_to_none then None else Some (map (fun _ => 0%R) g))
  end.

Definition zero_grad (self : PLLearner) : PLLearner :=
  match optimizer self with
  | None => self
  | Some groups =>
      with_call (fold_left (fun l r => update_param zero_param r l)
                           (optimizer_refs groups) self)
                EvZeroGrad
  end.

(** [self.manual_backward(loss)]: autograd writes the gradient of a leaf
    only where [requires_grad] is set, and accumulates. *)
Definition accumulate (g : tensor) (p : Param) : Param :=
  if requires_grad p
  then set_grad p (match grad p with
                   | None => Some g
                   | Some old => Some (map2 Rplus old g)
                   end)
  else p.

Definition manual_backward (self : PLLearner) (grads : list (ref * tensor)) : PLLearner :=
  with_call (fold_left (fun l rg => update_param (accumulate (snd rg)) (fst rg) l)
                       grads self)
            EvBackward.

(** [opt.step()]: parameters without a gradient are skipped. *)
Definition step_param (g : ParamGroup) (p : Param) : Param :=
  match grad p with
  | None => p
  | Some gr => set_data p (optimizer_rule g (data p) gr)
  end.

Definition step_group (l : PLLearner) (g : ParamGroup) : PLLearner :=
  fold_left (fun l r => update_param (step_param g) r l) (params g) l.

Definition optimizer_step (self : PLLearner) : PLLearner :=
  match optimizer self with
  | None => self
  | Some groups => with_call (fold_left step_group groups self) EvOptimizerStep
  end.

(** [PLLearner.training_step(batch, batch_idx)]: the learner after the step
    and the loss returned. *)
Definition training_step (self : PLLearner) (b : batch) : result (PLLearner * R) :=
  self <- update_lr self ;;
  lg <- loss_and_grads self b ;;
  let loss := fst lg in
  let self := zero_grad self in
  let self := manual_backward self (snd lg) in
  let self := optimizer_step self in
  let self := add_scalar self "loss" loss in
  self <- momentum_update self ;;
  Ok (self, loss).

(** The trainer's loop over the batches of an epoch: one training step per
    batch, the global step advancing after each. *)
Fixpoint fit (self : PLLearner) (batches : list batch) : result PLLearner :=
  match batches with
  | [] => Ok self
  | b :: rest =>
      r <- training_step self b ;;
      fit (with_global_step (fst r) (S (global_step (fst r)))) rest
  end.

End TrainingStep.

(** The groups of the optimizer refer to parameters of the student only. *)
Definition optimizer_on_student (self : PLLearner) : Prop :=
  forall groups, optimizer self = Some groups ->
  Forall (fun r => ref_owner r = Student) (optimizer_refs groups).

(** No parameter of the teacher requires a gradient. *)
Definition frozen (m : module) : Prop :=
  Forall (fun np => requires_grad (snd np) = false) m.

Definition teacher_frozen (self : PLLearner) : Prop :=
  frozen (net (teacher self)) /\
  Forall frozen (projector (teacher self)) /\
  frozen (predictor (teacher self)).

(** The backbone of a wrapper around a constructed Vision Transformer: its
    registered parameters, with the data [weights] gives them and no
    gradient yet. *)
Definition module_of_vit (vit : VisionTransformer) (weights : string -> tensor) : module :=
  map (fun p => (p_name p,
                 {| data := weights (p_name p); ndim := length (p_shape p);
                    requires_grad := p_requires_grad p; grad := None |}))
      (named_parameters vit).

(** *** A small learner *)

Definition toy_student : NetWrapper :=
  {| net := [("patch_embed.proj.weight"%string,
              {| data := [1; 2]%R; ndim := 4; requires_grad := false; grad := None |});
             ("cls_token"%string,
              {| data := [3]%R; ndim := 3; requires_grad := true; grad := None |})];
     projector := [[("weight"%string,
                     {| data := [4]%R; ndim := 2; requires_grad := true; grad := None |})]];
     predictor := [("weight"%string,
                    {| data := [5]%R; ndim := 2; requires_grad := true; grad := None |})] |}.

Definition toy_teacher : NetWrapper :=
  {| net := [("patch_embed.proj.weight"%string,
              {| data := [0; 0]%R; ndim := 4; requires_grad := false; grad := None |});
             ("cls_token"%string,
              {| data := [0]%R; ndim := 3; requires_grad := true; grad := None |})];
     projector := [[("weight"%string,
                     {| data := [0]%R; ndim := 2; requires_grad := true; grad := None |})]];
     predictor := [] |}.

(** The learner [PLLearner.__init__] builds from them, with one-step
    schedules: the teacher holds the student's data and is frozen. *)
Definition toy_learner : PLLearner :=
  {| student := toy_student;
     teacher :=
       {| net := [("patch_embed.proj.weight"%string,
                   {| data := [1; 2]%R; ndim := 4; requires_grad := false; grad := None |});
                  ("cls_token"%string,
                   {| data := [3]%R; ndim := 3; requires_grad := false; grad := None |})];
          projector := [[("weight"%string,
                          {| data := [4]%R; ndim := 2; requires_grad := false;
                             grad := None |})]];
          predictor := [] |};
     st_inter := false; t_inter := false;
     ratio := 0;
     optimizer :=
       Some [ {| params := [mkRef Student InNet "cls_token";
                            mkRef Student (InProjector 0) "weight";
                            mkRef Student InPredictor "weight"];
                 lr := 0; weight_decay := 0 |};
              {| params := []; lr := 0; weight_decay := 0 |} ];
     lr_schedule := [1%R]; wd_schedule := [0%R];
     ratio_schedule := [0%R]; momentum_schedule := [(1 / 2)%R];
     global_step := 0; scalars := []; calls := [] |}.

(** A loss with a gradient for the class token, and plain gradient descent
    as the optimizer's rule. *)
Definition toy_loss (self : PLLearner) (b : unit) : result (R * list (ref * tensor)) :=
  Ok (1%R, [(mkRef Student InNet "cls_token", [1%R])]).

Definition gradient_descent (g : ParamGroup) (d gr : tensor) : tensor :=
  map2 (fun x y => (x - lr g * y)%R) d gr.

(** Functions on parameters that leave alone a parameter that requires no
    gradient and has none. *)
Definition untouched (f : Param -> Param) : Prop :=
  forall p, requires_grad p = false -> grad p = None -> f p = p.

(* ------------------------------------------------------------------ *)
(** ** The k-NN evaluation of [validation_epoch_end] *)

Module Knn.

Definition k : nat := 20.
Definition num_classes : nat := 1000.
Definition temperature : R := (7 / 100)%R.   (* the 0.07 of div_(0.07) *)

(** A list in descending order. *)
Definition desc (l : list R) : Prop := StronglySorted (fun a b => (b <= a)%R) l.

(** [row.topk(k, largest=True, sorted=True)]: torch fixes neither which of
    several equal entries are kept nor their order, so the outcomes are a
    relation: [k] distinct positions of the row with their values, in
    descending order, no position left out having a larger value than one
    that was kept. *)
Definition is_topk (row : list R) (distances : list R) (indices : list nat) : Prop :=
  length indices = k /\
  NoDup indices /\
  Forall (fun i => i < length row) indices /\
  distances = map (fun i => nth i row 0%R) indices /\
  desc distances /\
  forall j, j < length row -> ~ In j indices ->
            Forall (fun d => (nth j row 0 <= d)%R) distances.

(** [row.sort(descending=True)]: the positions of the row, by descending
    value. *)
Definition is_sort_desc (row : list R) (order : list nat) : Prop :=
  Permutation order (seq 0 (length row)) /\
  desc (map (fun c => nth c row 0%R) order).

(** One entry of [retrieval_one_hot] after the [scatter_]. *)
Definition one_hot (label c : nat) : R := if label =? c then 1%R else 0%R.

(** [probs]: for every class, the sum over the neighbours of the one-hot
    entry times the transformed distance. *)
Definition probs (retrieved_neighbors : list nat) (distances_transform : list R) : list R :=
  map (fun c => sum_list (map2 (fun l w => (one_hot l c * w)%R)
                               retrieved_neighbors distances_transform))
      (seq 0 num_classes).

(** The predictions for one validation sample: the classes ordered by
    their vote, for one of the outcomes of [topk] and [sort].  The feature
    bank has the dimension of the sample, the neighbours have a label, and
    the labels are classes. *)
Definition predicts (train_features : matrix) (train_labels : list nat)
    (feature : list R) (predictions : list nat) : Prop :=
  has_width (length feature) train_features = true /\
  exists distances indices,
    is_topk (map (dot feature) train_features) distances indices /\
    Forall (fun i => i < length train_labels) indices /\
    Forall (fun i => nth i train_labels 0 < num_classes) indices /\
    is_sort_desc (probs (map (fun i => nth i train_labels 0) indices)
                        (map (fun d => exp (d / temperature)) distances))
                 predictions.

(** [correct.narrow(1, 0, n).sum()] for one sample. *)
Definition correct (n : nat) (target : nat) (predictions : list nat) : nat :=
  if existsb (Nat.eqb target) (firstn n predictions) then 1 else 0.

Definition count_correct (n : nat) (targets : list nat) (predictions : list (list nat)) : nat :=
  fold_right Nat.add 0 (map2 (correct n) targets predictions).

(** [PLLearner.validation_epoch_end]: [outs_by_rank] holds, for every rank,
    the features and labels its validation steps returned (what
    [all_gather] collects); a batch of [val_loader] is a list of samples,
    the representation the teacher gives the image and its target.  The
    relation holds of the two accuracies the method logs. *)
Definition validation_epoch_end (outs_by_rank : list (list (matrix * list nat)))
    (val_loader : list (list (list R * nat))) (top1 top5 : R) : Prop :=
  let train_features :=
    normalize (concat (map (fun outs => concat (map fst outs)) outs_by_rank)) in
  let train_labels := concat (map (fun outs => concat (map snd outs)) outs_by_rank) in
  let samples := concat val_loader in
  let total := length samples in
  exists predictions : list (list nat),
    Forall2 (fun sample p =>
               predicts train_features train_labels (normalize_row (fst sample)) p)
            samples predictions /\
    total <> 0 /\
    top1 = (INR (count_correct 1 (map snd samples) predictions) * 100 / INR total)%R /\
    top5 = (INR (count_correct 5 (map snd samples) predictions) * 100 / INR total)%R.

(** A reference bank of 20 unit vectors: the first one with label 0, the
    others, at cosine 0.96 of it, with label 1; and a validation set of one
    sample, the first vector of the bank with its label. *)
Definition near_features : matrix :=
  [1; 0]%R :: repeat [24 / 25; 7 / 25]%R 19.

Definition near_labels : list nat := 0 :: repeat 1 19.

Definition near_outs : list (list (matrix * list nat)) := [[(near_features, near_labels)]].

Definition near_val : list (list (list R * nat)) := [[([1; 0]%R, 0)]].

(** The hypotheses of the amended claim: every validation sample has a norm
    of at least the [eps] of [F.normalize] and an exact duplicate in the
    bank with its label; the bank holds at least [k] features, all of the
    dimension of the samples, and as many labels, all of them classes; and
    a feature of the bank with another label than the sample's is so far
    from it that 19 votes of its weight stay below one vote of weight
    [exp(1 / 0.07)]. *)
Definition well_separated (bank_features : matrix) (bank_labels : list nat)
    (samples : list (list R * nat)) : Prop :=
  length bank_labels = length bank_features /\
  k <= length bank_features /\
  Forall (fun l => l < num_classes) bank_labels /\
  Forall (fun sample =>
    (normalize_eps <= l2norm (fst sample))%R /\
    has_width (length (fst sample)) bank_features = true /\
    (exists i, i < length bank_features /\
               nth i bank_features [] = fst sample /\
               nth i bank_labels 0 = snd sample) /\
    (forall j, j < length bank_features ->
               nth j bank_labels 0 <> snd sample ->
               (19 * exp (dot (normalize_row (fst sample))
                              (normalize_row (nth j bank_features []))
                          / temperature)
                < exp (1 / temperature))%R))
    samples.

(** The hypotheses of the amended claim C6: those of [well_separated], with
    every entry of the bank and of the samples zero or of a magnitude
    between [2^-30] and [2^30], every sample with an entry that is not
    zero (so that [F.normalize] neither overflows nor underflows in
    float32), and a feature of the bank with another label than the
    sample's at a cosine of at most 1/2 of it. *)
Definition clearly_separated (bank_features : matrix) (bank_labels : list nat)
    (samples : list (list R * nat)) : Prop :=
  length bank_labels = length bank_features /\
  k <= length bank_features /\
  Forall (fun l => l < num_classes) bank_labels /\
  Forall (Forall in_range) bank_features /\
  Forall (fun sample =>
    Forall in_range (fst sample) /\
    Exists (fun a => a <> 0%R) (fst sample) /\
    has_width (length (fst sample)) bank_features = true /\
    (exists i, i < length bank_features /\
               nth i bank_features [] = fst sample /\
               nth i bank_labels 0 = snd sample) /\
    (forall j, j < length bank_features ->
               nth j bank_labels 0 <> snd sample ->
               (dot (normalize_row (fst sample))
                    (normalize_row (nth j bank_features [])) <= 1 / 2)%R))
    samples.

(** Every validation sample has an exact duplicate in the bank, with its
    label. *)
Definition has_duplicates (bank_features : matrix) (bank_labels : list nat)
    (samples : list (list R * nat)) : Prop :=
  Forall (fun sample =>
    exists i, i < length bank_features /\
              nth i bank_features [] = fst sample /\
              nth i bank_labels 0 = snd sample)
    samples.

(** A reference bank of two classes at a right angle, ten features each,
    and a validation set of one sample of each class. *)
Definition far_features : matrix := repeat [1; 0]%R 10 ++ repeat [0; 1]%R 10.

Definition far_labels : list nat := repeat 0 10 ++ repeat 1 10.

Definition far_outs : list (list (matrix * list nat)) := [[(far_features, far_labels)]].

Definition far_val : list (list (list R * nat)) := [[([1; 0]%R, 0); ([0; 1]%R, 1)]].

End Knn.

(* ------------------------------------------------------------------ *)
(** ** The other entry points of [vision_transformer.py] *)

(** [VisionTransformer()], every argument at its default. *)
Definition vit_defaults : Config :=
  {| img_size := [224]; patch_size := 16; in_chans := 3; num_classes := 0;
     embed_dim := 768; depth := 12; num_heads := 12; mlp_ratio := 4;
     qkv_bias := false; dis_token := false |}.

(** [torch.cat(ts, dim)] on a list: an empty list raises a [ValueError]. *)
Fixpoint cat_onto (acc : Tensor) (ts : list Tensor) (dim : nat) : result Tensor :=
  match ts with
  | [] => Ok acc
  | t :: rest => c <- cat acc t dim ;; cat_onto c rest dim
  end.

Definition cat_list (ts : list Tensor) (dim : nat) : result Tensor :=
  match ts with
  | [] => Err (ValueError "torch.cat(): expected a non-empty list of Tensors")
  | t :: rest => cat_onto t rest dim
  end.

(** The loop of [get_intermediate_layers], from block [i] on:
    [x = torch.cat([x, x], dim=-1); x = blk(x);
     if len(self.blocks) - i <= n: output.append(self.norms[i](x))]. *)
Fixpoint intermediate_loop (len n i : nat) (blks : list Block) (nrms : list LayerNorm)
    (x : Tensor) (output : list Tensor) : result (list Tensor) :=
  match blks with
  | [] => Ok output
  | blk :: rest =>
      x <- cat_last x x ;;
      x <- Block_forward blk x false ;;
      output <- (if len - i <=? n
                 then nm <- index nrms i ;;
                      y <- LayerNorm_forward nm x ;;
                      Ok (output ++ [y])
                 else Ok output) ;;
      intermediate_loop len n (S i) rest nrms x output
  end.

(** [VisionTransformer.get_intermediate_layers(x, n, dino)], [n] not
    negative. *)
Definition get_intermediate_layers (self : VisionTransformer) (x : Tensor) (n : nat)
    (dino : bool) : result Tensor :=
  x <- prepare_tokens self x dino ;;
  output <- intermediate_loop (length (blocks self)) n 0 (blocks self) (norms self) x [] ;;
  cat_list output 0.

(** [x.unsqueeze(0)] and [x[i]]. *)
Definition unsqueeze0 (x : Tensor) : Tensor :=
  {| shape := 1 :: shape x; graph := graph x |}.

Definition select0 (x : Tensor) (i : nat) : result Tensor :=
  match shape x with
  | n :: rest => if i <? n then Ok {| shape := rest; graph := graph x |} else Err IndexError
  | [] => Err IndexError
  end.

(** The loop of [forward_with_momentum], from block [i] on; [temp] is read
    from the second block on only, where the first one has bound it. *)
Fixpoint momentum_loop (i : nat) (blks : list Block) (nrms : list LayerNorm)
    (x temp : Tensor) (output : list Tensor) : result (list Tensor) :=
  match blks with
  | [] => Ok output
  | blk :: rest =>
      t <- (if 0 <? i
            then xi <- select0 x i ;; cat_last temp xi
            else x0 <- select0 x 0 ;; cat_last x0 x0) ;;
      t <- Block_forward blk t false ;;
      nm <- index nrms i ;;
      y <- LayerNorm_forward nm t ;;
      momentum_loop (S i) rest nrms x t (output ++ [y])
  end.

(** [VisionTransformer.forward_with_momentum(image, momentum_output)]. *)
Definition forward_with_momentum (self : VisionTransformer) (image momentum_output : Tensor)
  : result Tensor :=
  x <- prepare_tokens self image false ;;
  x <- cat (unsqueeze0 x) momentum_output 0 ;;
  output <- momentum_loop 0 (blocks self) (norms self) x x [] ;;
  cat_list output 0.

(** *** The factories *)

(** [default(val, def_val)]. *)
Definition default {A : Type} (val : option A) (def_val : A) : A :=
  match val with
  | None => def_val
  | Some v => v
  end.

(** The keyword arguments a caller hands to a factory, among those the
    configuration records. *)
Record Kwargs : Type := mkKwargs {
  kw_img_size : option (list nat);
  kw_in_chans : option nat;
  kw_num_classes : option nat;
  kw_dis_token : option bool
}.



(** [VisionTransformer(patch_size=patch_size, embed_dim=..., depth=...,
    num_heads=..., mlp_ratio=4, qkv_bias=True, ..., **kwargs)]. *)
Definition factory_config (patch_size_ embed_dim_ depth_ num_heads_ : nat) (dis : bool)
    (kwargs : Kwargs) : Config :=
  {| img_size := default (kw_img_size kwargs) [224];
     patch_size := patch_size_;
     in_chans := default (kw_in_chans kwargs) 3;
     num_classes := default (kw_num_classes kwargs) 0;
     embed_dim := embed_dim_; depth := depth_; num_heads := num_heads_;
     mlp_ratio := 4; qkv_bias := true; dis_token := dis |}.










(** [s.startswith(p)]. *)
Fixpoint startswith (s p : string) {struct p} : bool :=
  match p with
  | EmptyString => true
  | String c p' =>
      match s with
      | String d s' => Ascii.eqb c d && startswith s' p'
      | EmptyString => false
      end
  end.

(* ------------------------------------------------------------------ *)
(** ** The projection heads of [vision_transformer.py] *)

Record BatchNorm1d : Type := mkBatchNorm1d {
  num_features : nat;
  bn_weight : PInfo;
  bn_bias : PInfo
}.

Definition BatchNorm1d_init (prefix : string) (n : nat) : BatchNorm1d :=
  {| num_features := n;
     bn_weight := mkPInfo (prefix ++ ".weight") [n] true;
     bn_bias := mkPInfo (prefix ++ ".bias") [n] true |}.

(** [BatchNorm1d.forward] in training or evaluation mode: the input is 2-D or
    3-D, a training batch holds more than one value per channel
    ([size[0] * prod(size[2:]) != 1]), and the channels are the second
    dimension. *)
Definition BatchNorm1d_forward (training : bool) (self : BatchNorm1d) (x : Tensor)
  : result Tensor :=
  match shape x with
  | b :: c :: rest =>
      if 1 <? length rest then Err (ValueError "expected 2D or 3D input")
      else if training && (b * numel rest =? 1)
      then Err (ValueError "Expected more than 1 value per channel when training")
      else if c =? num_features self
      then Ok {| shape := shape x;
                 graph := union (graph x) (trainable [bn_weight self; bn_bias self]) |}
      else Err (RuntimeError "running_mean should contain a matching number of elements")
  | _ => Err (ValueError "expected 2D or 3D input")
  end.

(** The modules of an [nn.Sequential] of a head. *)
Inductive layer : Type :=
| Layer_Linear (l : Linear)
| Layer_BatchNorm1d (bn : BatchNorm1d)
| Layer_GELU.

Definition layer_forward (training : bool) (l : layer) (x : Tensor) : result Tensor :=
  match l with
  | Layer_Linear l => Linear_forward l x
  | Layer_BatchNorm1d bn => BatchNorm1d_forward training bn x
  | Layer_GELU => Ok x
  end.

Fixpoint sequential_forward (training : bool) (layers : list layer) (x : Tensor)
  : result Tensor :=
  match layers with
  | [] => Ok x
  | l :: rest => y <- layer_forward training l x ;; sequential_forward training rest y
  end.

(** What [__init__] appends to [layers], before the modules are named. *)
Inductive layer_kind : Type :=
| Kind_Linear (in_f out_f : nat)
| Kind_BatchNorm1d (n : nat)
| Kind_GELU.

(** the [nn.Sequential] of the layers: module [i] is registered as [prefix.i]. *)
Fixpoint Sequential_init (prefix : string) (i : nat) (kinds : list layer_kind) : list layer :=
  match kinds with
  | [] => []
  | k :: rest =>
      (match k with
       | Kind_Linear in_f out_f =>
           Layer_Linear (Linear_init (prefix ++ "." ++ str_of_nat i) in_f out_f true)
       | Kind_BatchNorm1d n =>
           Layer_BatchNorm1d (BatchNorm1d_init (prefix ++ "." ++ str_of_nat i) n)
       | Kind_GELU => Layer_GELU
       end) :: Sequential_init prefix (S i) rest
  end.

(** The [else] branch of the two heads, for [nlayers >= 2]:
    [layers = [nn.Linear(in_dim, hidden_dim)]], the optional batch norm, the
    activation, [nlayers - 2] hidden stages and the bottleneck layer. *)
Definition stage (in_f out_f : nat) (use_bn : bool) : list layer_kind :=
  Kind_Linear in_f out_f :: (if use_bn then [Kind_BatchNorm1d out_f] else []) ++ [Kind_GELU].

Definition mlp_kinds (in_dim hidden_dim bottleneck_dim nlayers : nat) (use_bn : bool)
  : list layer_kind :=
  stage in_dim hidden_dim use_bn ++
  concat (repeat (stage hidden_dim hidden_dim use_bn) (nlayers - 2)) ++
  [Kind_Linear hidden_dim bottleneck_dim].

(** The [mlp] of a head, for a number of layers that is not negative:
    [nlayers = max(nlayers, 1)], then a single linear layer or the
    sequence. *)
Definition head_mlp (prefix : string) (in_dim hidden_dim bottleneck_dim nlayers : nat)
    (use_bn : bool) : list layer :=
  let nlayers := Nat.max nlayers 1 in
  if nlayers =? 1
  then [Layer_Linear (Linear_init prefix in_dim bottleneck_dim true)]
  else Sequential_init prefix 0 (mlp_kinds in_dim hidden_dim bottleneck_dim nlayers use_bn).

(** [nn.utils.weight_norm(nn.Linear(in, out, bias=False))], with
    [weight_g] filled with ones and frozen when [norm_last_layer]. *)
Record WeightNormLinear : Type := mkWeightNormLinear {
  wn_in_features : nat;
  wn_out_features : nat;
  weight_g : PInfo;
  weight_v : PInfo
}.

Definition last_layer_init (prefix : string) (bottleneck_dim out_dim : nat)
    (norm_last_layer : bool) : WeightNormLinear :=
  {| wn_in_features := bottleneck_dim;
     wn_out_features := out_dim;
     weight_g := mkPInfo (prefix ++ ".weight_g") [out_dim; 1] (negb norm_last_layer);
     weight_v := mkPInfo (prefix ++ ".weight_v") [out_dim; bottleneck_dim] true |}.

Definition WeightNormLinear_forward (self : WeightNormLinear) (x : Tensor) : result Tensor :=
  match rev (shape x) with
  | last :: lead =>
      if last =? wn_in_features self
      then Ok {| shape := rev (wn_out_features self :: lead);
                 graph := union (graph x) (trainable [weight_g self; weight_v self]) |}
      else Err (RuntimeError "mat1 and mat2 shapes cannot be multiplied")
  | [] => Err (RuntimeError "mat1 and mat2 shapes cannot be multiplied")
  end.

(** [nn.functional.normalize(x, dim)] keeps shape and graph; the tensor has
    the dimension it normalises. *)
Definition normalize_shape (x : Tensor) (dim : nat) : result Tensor :=
  if dim <? length (shape x) then Ok x else Err IndexError.

Record DINOHead : Type := mkDINOHead {
  dh_mlp : list layer;
  dh_last_layer : WeightNormLinear
}.

(** [DINOHead.__init__]. *)
Definition DINOHead_init (in_dim out_dim : nat) (use_bn norm_last_layer : bool)
    (nlayers hidden_dim bottleneck_dim : nat) : DINOHead :=
  {| dh_mlp := head_mlp "mlp" in_dim hidden_dim bottleneck_dim nlayers use_bn;
     dh_last_layer := last_layer_init "last_layer" bottleneck_dim out_dim norm_last_layer |}.

(** [DINOHead.forward]: [normalize(x, dim=-1)]. *)
Definition DINOHead_forward (training : bool) (self : DINOHead) (x : Tensor)
  : result Tensor :=
  x <- sequential_forward training (dh_mlp self) x ;;
  x <- normalize_shape x (length (shape x) - 1) ;;
  WeightNormLinear_forward (dh_last_layer self) x.

Record StudentDINOHead : Type := mkStudentDINOHead {
  sh_layers : list (list layer);
  sh_last_layers : list WeightNormLinear
}.

(** [StudentDINOHead.__init__]: twelve heads; [nlayers] is reassigned inside
    the loop, to 3 for the last head. *)
Definition StudentDINOHead_init (in_dim out_dim : nat) (use_bn norm_last_layer : bool)
    (nlayers hidden_dim bottleneck_dim : nat) : StudentDINOHead :=
  {| sh_layers :=
       map (fun i => head_mlp ("layers." ++ str_of_nat i) in_dim hidden_dim bottleneck_dim
                              (if i =? 11 then 3 else nlayers) use_bn)
           (seq 0 12);
     sh_last_layers :=
       map (fun i => last_layer_init ("last_layers." ++ str_of_nat i) bottleneck_dim out_dim
                                     norm_last_layer)
           (seq 0 12) |}.

(** [rearrange(x, '(d bv) e -> d bv e', d=12)]. *)
Definition rearrange_layers (x : Tensor) : result Tensor :=
  match shape x with
  | [rows; e] =>
      if rows mod 12 =? 0 then Ok {| shape := [12; rows / 12; e]; graph := graph x |}
      else Err (RuntimeError "Shape mismatch, can't divide axis in chunks of 12")
  | _ => Err (RuntimeError "Wrong shape: expected 2 dims")
  end.

(** The loop of [StudentDINOHead.forward] over
    [enumerate(zip(self.layers, self.last_layers))];
    [nn.functional.normalize] at its default [dim=1]. *)
Fixpoint student_heads (training : bool) (i : nat) (heads : list (list layer * WeightNormLinear))
    (x : Tensor) : result (list Tensor) :=
  match heads with
  | [] => Ok []
  | (mlp_, last_layer) :: rest =>
      xi <- select0 x i ;;
      y <- sequential_forward training mlp_ xi ;;
      y <- normalize_shape y 1 ;;
      y <- WeightNormLinear_forward last_layer y ;;
      ys <- student_heads training (S i) rest x ;;
      Ok (y :: ys)
  end.

(** [StudentDINOHead.forward]. *)
Definition StudentDINOHead_forward (training : bool) (self : StudentDINOHead) (x : Tensor)
  : result Tensor :=
  x <- rearrange_layers x ;;
  ret <- student_heads training 0 (combine (sh_layers self) (sh_last_layers self)) x ;;
  cat_list ret 0.

(** The number of linear layers of a sequence. *)
Definition count_linear (layers : list layer) : nat :=
  length (filter (fun l => match l with Layer_Linear _ => true | _ => false end) layers).

(* ------------------------------------------------------------------ *)
(** ** Values: [loss_fn], [cos_fn], [drop_path] *)

(** [a * b] on two rows, with broadcasting of a row of one entry. *)
Definition mul_row (u v : list R) : result (list R) :=
  if length u =? length v then Ok (map2 Rmult u v)
  else if length u =? 1 then Ok (map (fun y => (hd 0%R u * y)%R) v)
  else if length v =? 1 then Ok (map (fun x => (x * hd 0%R v)%R) u)
  else Err shape_error.

Fixpoint sequence {A : Type} (rs : list (result A)) : result (list A) :=
  match rs with
  | [] => Ok []
  | r :: rest => a <- r ;; as_ <- sequence rest ;; Ok (a :: as_)
  end.

(** [x * y] on two 2-D tensors, with broadcasting along both axes.  A tensor
    without rows has no recorded width. *)
Definition mul2 (x y : matrix) : result matrix :=
  if length x =? length y then sequence (map2 mul_row x y)
  else if length x =? 1 then sequence (map (mul_row (hd [] x)) y)
  else if length y =? 1 then sequence (map (fun r => mul_row r (hd [] y)) x)
  else Err shape_error.

(** [t.mean()] of a 1-D tensor. *)
Definition mean (v : list R) : R := (sum_list v / INR (length v))%R.

(** [loss_fn(x, y)] on two batches of rows. *)
Definition loss_fn (x y : matrix) : result R :=
  let x := normalize x in
  let y := normalize y in
  p <- mul2 x y ;;
  Ok (mean (map (fun r => (2 - 2 * sum_list r)%R) p)).

(** [cos_fn(x, y)]. *)
Definition cos_fn (x y : matrix) : result R :=
  let x := normalize x in
  let y := normalize y in
  p <- mul2 x y ;;
  Ok (mean (map sum_list p)).

(** [drop_path(x, drop_prob, training)] on a batch of flattened samples;
    [rand] is what [torch.rand(shape)] draws, one number in [[0, 1)] per
    sample.  With [drop_prob = 1] the code divides by zero. *)
Definition drop_path (x : matrix) (drop_prob : R) (training : bool) (rand : list R)
  : matrix :=
  if Req_dec_T drop_prob 0 then x
  else if negb training then x
  else
    let keep_prob := (1 - drop_prob)%R in
    let random_tensor := map (fun u => IZR (Int_part (keep_prob + u))) rand in
    map2 (fun xi r => map (fun v => (v / keep_prob * r)%R) xi) x random_tensor.

(* ------------------------------------------------------------------ *)
(** ** Gathering across ranks, and the intermediate loss of [pl_train_simclr.py] *)

(** [concat_all_gather(tensor)]: [all_gather] fills [tensors_gather] with
    the tensor of every rank, in rank order, all of the shape of the local
    one; the output is their concatenation along the batch axis. *)
Definition concat_all_gather (tensors_gather : list matrix) : matrix :=
  concat tensors_gather.

(** [PLLearner.info_nce_loss_intermediate(layer_features, output)] of
    [pl_train_simclr.py]: eleven layers against the final output, at
    temperature 0.1. *)
Definition info_nce_loss_intermediate (layer_features output : matrix) : result R :=
  let b := length layer_features in
  let labels := concat (repeat (arange_plus (ceil_div b 11) 0) 11) in
  let layer_features := normalize layer_features in
  let output := normalize output in
  similarity_matrix <- matmul_T layer_features output ;;
  let logits := div_scalar similarity_matrix (1 / 10) in
  criterion logits labels.

(** What a parameter list keeps under updates of the data: the names, the
    sizes and the flags of its parameters. *)
Definition layout (m : module) : list (string * (nat * nat * bool * option tensor)) :=
  map (fun np => (fst np, (length (data (snd np)), ndim (snd np), requires_grad (snd np),
                           grad (snd np)))) m.

(** The student parameters the moving average of the projector reads:
    the last head when the intermediate modes differ, all heads
    otherwise. *)
Definition current_projector (self : PLLearner) : result module :=
  if negb (Bool.eqb (st_inter self) (t_inter self))
  then index_last (projector (student self))
  else Ok (projector_parameters (student self)).


(** A batch that batch normalisation takes: the head has no batch norm, or
    is in evaluation mode, or the batch holds more than one row. *)
Definition batch_norm_takes (training use_bn : bool) (B : nat) : Prop :=
  use_bn = false \/ training = false \/ B <> 1.

(* ================================================================== *)
(** * Properties *)

Unset Implicit Arguments.

(* ------------------------------------------------------------------ *)
(** ** Momentum update *)

Lemma map2_length_eq {A B C : Type} (f : A -> B -> C) (xs : list A) (ys : list B) :
  length xs = length ys -> length (map2 f xs ys) = length xs.
Proof.
  revert ys; induction xs as [|x xs IH]; intros [|y ys] H; simpl in *; try lia.
  now rewrite IH by lia.
Qed.

Lemma tadd_same_size (a b : tensor) :
  length a = length b -> tadd a b = Ok (map2 Rplus a b).
Proof.
  intros H. unfold tadd. now rewrite H, Nat.eqb_refl.
Qed.

(** One entry of the moving average, as the code writes it and as the
    specification writes it. *)
Lemma ema_entries (m : R) (old up : tensor) :
  map2 Rplus (tmul_scalar old m) (scalar_tmul (1 - m) up)
  = map2 (fun t s => (m * t + (1 - m) * s)%R) old up.
Proof.
  revert up; induction old as [|x old IH]; intros [|y up]; simpl; try reflexivity.
  rewrite IH. f_equal. ring.
Qed.

Lemma ema_entries_one (old up : tensor) :
  length old = length up ->
  map2 (fun t s => (1 * t + (1 - 1) * s)%R) old up = old.
Proof.
  revert up; induction old as [|x old IH]; intros [|y up] H; simpl in *; try lia; try reflexivity.
  rewrite IH by lia. f_equal. ring.
Qed.

Lemma ema_entries_zero (old up : tensor) :
  length old = length up ->
  map2 (fun t s => (0 * t + (1 - 0) * s)%R) old up = up.
Proof.
  revert up; induction old as [|x old IH]; intros [|y up] H; simpl in *; try lia; try reflexivity.
  rewrite IH by lia. f_equal. ring.
Qed.

Lemma ema_zip_same_layout (m : R) (current ma : module) :
  same_layout current ma = true ->
  ema_zip m current ma = Ok (ema_module m current ma).
Proof.
  revert ma; induction current as [|[nc pc] cs IH]; intros [|[nm pm] ms] H;
    simpl in H; try discriminate; try reflexivity.
  apply andb_prop in H as [H Hrest]. apply andb_prop in H as [_ Hlen].
  apply Nat.eqb_eq in Hlen.
  simpl. rewrite tadd_same_size.
  - simpl. rewrite (IH _ Hrest). simpl. unfold ema_module. simpl.
    now rewrite ema_entries.
  - unfold tmul_scalar, scalar_tmul. rewrite !length_map. lia.
Qed.

Lemma ema_module_one (current ma : module) :
  same_layout current ma = true -> ema_module 1 current ma = ma.
Proof.
  revert ma; induction current as [|[nc pc] cs IH]; intros [|[nm pm] ms] H;
    simpl in H; try discriminate; try reflexivity.
  apply andb_prop in H as [H Hrest]. apply andb_prop in H as [_ Hlen].
  apply Nat.eqb_eq in Hlen.
  unfold ema_module in *. simpl. rewrite (IH _ Hrest).
  rewrite ema_entries_one by lia. now destruct pm.
Qed.

Lemma ema_module_zero (current ma : module) :
  same_layout current ma = true -> datas (ema_module 0 current ma) = datas current.
Proof.
  revert ma; induction current as [|[nc pc] cs IH]; intros [|[nm pm] ms] H;
    simpl in H; try discriminate; try reflexivity.
  apply andb_prop in H as [H Hrest]. apply andb_prop in H as [_ Hlen].
  apply Nat.eqb_eq in Hlen.
  unfold ema_module, datas in *. simpl. rewrite (IH _ Hrest).
  now rewrite ema_entries_zero by lia.
Qed.

Lemma index_nth_error {A : Type} (xs : list A) (i : nat) (x : A) :
  nth_error xs i = Some x -> index xs i = Ok x.
Proof. intros H. unfold index. now rewrite H. Qed.

(** C1.  When the schedule has an entry [m] for the current global step (and
    the teacher mirrors the student, as [__init__] builds it),
    [momentum_update] returns, leaves the student alone and sets every
    teacher backbone parameter to [m * teacher + (1 - m) * student]; with
    [m = 1] the teacher backbone is unchanged and with [m = 0] its data is the
    student's. *)
Theorem C1_momentum_update_is_ema (self : PLLearner) (m : R) :
  nth_error (momentum_schedule self) (global_step self) = Some m ->
  mirrored self = true ->
  exists self',
    momentum_update self = Ok self' /\
    student self' = student self /\
    net (teacher self') = ema_module m (net (student self)) (net (teacher self)) /\
    (m = 1%R -> net (teacher self') = net (teacher self)) /\
    (m = 0%R -> datas (net (teacher self')) = datas (net (student self))).
Proof.
  intros Hm Hmir. unfold mirrored in Hmir.
  apply andb_prop in Hmir as [Hnet Hproj].
  unfold momentum_update.
  rewrite (index_nth_error _ _ _ Hm). simpl.
  rewrite (ema_zip_same_layout m _ _ Hnet). simpl.
  destruct (negb (Bool.eqb (st_inter self) (t_inter self))).
  - destruct (index_last (projector (student self))) as [head|e]; [|discriminate].
    simpl. rewrite (ema_zip_same_layout m _ _ Hproj). simpl.
    eexists; split; [reflexivity|]. simpl. repeat split.
    + intros ->. now apply ema_module_one.
    + intros ->. now apply ema_module_zero.
  - simpl. rewrite (ema_zip_same_layout m _ _ Hproj). simpl.
    eexists; split; [reflexivity|]. simpl. repeat split.
    + intros ->. now apply ema_module_one.
    + intros ->. now apply ema_module_zero.
Qed.

(* ------------------------------------------------------------------ *)
(** ** Normalisation and rescaling *)

Lemma normalize_eps_pos : (0 < normalize_eps)%R.
Proof. unfold normalize_eps. lra. Qed.

Lemma sum_list_scale (k : R) (v : list R) :
  sum_list (map (fun x => (k * x)%R) v) = (k * sum_list v)%R.
Proof.
  induction v as [|x v IH]; simpl.
  - ring.
  - rewrite IH. ring.
Qed.

Lemma sum_squares_nonneg (v : list R) :
  (0 <= sum_list (map (fun x => (x * x)%R) v))%R.
Proof.
  induction v as [|x v IH]; simpl.
  - lra.
  - nra.
Qed.

Lemma l2norm_scale (c : R) (v : list R) :
  l2norm (map (Rmult c) v) = (Rabs c * l2norm v)%R.
Proof.
  unfold l2norm. rewrite map_map.
  replace (map (fun x => (c * x * (c * x))%R) v)
    with (map (fun y => ((c * c) * y)%R) (map (fun x => (x * x)%R) v)).
  - rewrite sum_list_scale.
    rewrite sqrt_mult; [|nra|apply sum_squares_nonneg].
    f_equal. fold (Rsqr c). apply sqrt_Rsqr_abs.
  - rewrite map_map. apply map_ext. intros x. ring.
Qed.

(** The sign of a non-zero scalar. *)
Lemma sign_square (c : R) : c <> 0%R -> (c / Rabs c * (c / Rabs c) = 1)%R.
Proof.
  intros Hc. unfold Rabs. destruct (Rcase_abs c); field; lra.
Qed.

Lemma normalize_row_scale (c : R) (v : list R) :
  c <> 0%R ->
  (normalize_eps <= l2norm v)%R ->
  (normalize_eps <= Rabs c * l2norm v)%R ->
  normalize_row (map (Rmult c) v) = map (Rmult (c / Rabs c)) (normalize_row v).
Proof.
  intros Hc Hv Hcv. unfold normalize_row.
  rewrite l2norm_scale, !map_map.
  rewrite (Rmax_left _ _ Hv), (Rmax_left _ _ Hcv).
  apply map_ext. intros x.
  pose proof normalize_eps_pos. pose proof (Rabs_pos_lt c Hc).
  field. split; lra.
Qed.

Lemma normalize_scale (c : R) (x : matrix) :
  c <> 0%R -> norms_above_eps c x ->
  normalize (scale c x) = scale (c / Rabs c) (normalize x).
Proof.
  intros Hc H. unfold normalize, scale. rewrite !map_map.
  induction H as [|v x [Hv Hcv] _ IH]; simpl.
  - reflexivity.
  - rewrite IH. f_equal. now apply normalize_row_scale.
Qed.

Lemma dot_sign (k : R) (u v : list R) :
  (k * k = 1)%R -> dot (map (Rmult k) u) (map (Rmult k) v) = dot u v.
Proof.
  intros Hk. unfold dot.
  revert v; induction u as [|x u IH]; intros [|y v]; simpl; try reflexivity.
  rewrite IH.
  replace (k * x * (k * y))%R with ((k * k) * (x * y))%R by ring.
  rewrite Hk. ring.
Qed.

Lemma has_width_scale (k : R) (d : nat) (x : matrix) :
  has_width d (scale k x) = has_width d x.
Proof.
  unfold has_width, scale. induction x as [|r x IH]; simpl.
  - reflexivity.
  - now rewrite IH, length_map.
Qed.

Lemma width_scale (k : R) (x : matrix) : width (scale k x) = width x.
Proof. destruct x; simpl; [reflexivity|apply length_map]. Qed.

Lemma matmul_T_sign (k : R) (a b : matrix) :
  (k * k = 1)%R -> matmul_T (scale k a) (scale k b) = matmul_T a b.
Proof.
  intros Hk. unfold matmul_T.
  assert (Hd : match scale k a with [] => width (scale k b) | _ :: _ => width (scale k a) end
               = match a with [] => width b | _ :: _ => width a end).
  { destruct a; simpl; [apply width_scale|apply length_map]. }
  rewrite Hd, !has_width_scale.
  destruct (has_width _ a && has_width _ b); [|reflexivity].
  f_equal. unfold scale. rewrite map_map. apply map_ext. intros ai.
  rewrite map_map. apply map_ext. intros bj. now apply dot_sign.
Qed.

(** The similarity matrix of the normalised embeddings does not see a common
    non-zero factor, as long as no norm falls below [eps]. *)
Lemma similarity_scale (c : R) (s t : matrix) :
  c <> 0%R -> norms_above_eps c s -> norms_above_eps c t ->
  matmul_T (normalize (scale c s)) (normalize (scale c t))
  = matmul_T (normalize s) (normalize t).
Proof.
  intros Hc Hs Ht.
  rewrite (normalize_scale _ _ Hc Hs), (normalize_scale _ _ Hc Ht).
  apply matmul_T_sign. now apply sign_square.
Qed.

Lemma length_scale (c : R) (x : matrix) : length (scale c x) = length x.
Proof. apply length_map. Qed.

Lemma l2norm_ge_entry (a : R) (v : list R) : In a v -> (Rabs a <= l2norm v)%R.
Proof.
  intros Hin. unfold l2norm.
  rewrite <- (sqrt_Rsqr_abs a). apply sqrt_le_1_alt. unfold Rsqr.
  induction v as [|x v IH]; [contradiction|]. cbn [map sum_list fold_right].
  pose proof (sum_squares_nonneg v) as Hv. unfold sum_list in Hv.
  destruct Hin as [->|Hin].
  - lra.
  - specialize (IH Hin). unfold sum_list in IH. nra.
Qed.

Lemma eps_below_range : (normalize_eps <= / 2 ^ 30)%R.
Proof.
  unfold normalize_eps. apply Rinv_le_contravar; [|]; lra.
Qed.

Lemma power_of_two_nonzero (c : R) : power_of_two c -> c <> 0%R.
Proof.
  intros [k Hk] ->. rewrite Rabs_R0 in Hk.
  pose proof (powerRZ_lt 2 k ltac:(lra)). lra.
Qed.

Lemma exactly_rescaled_norms (c : R) (x : matrix) :
  c <> 0%R -> exactly_rescaled c x -> norms_above_eps c x.
Proof.
  intros Hc Hx. unfold exactly_rescaled, norms_above_eps in *.
  eapply Forall_impl; [|exact Hx]. intros v [Hv Hex].
  apply Exists_exists in Hex as (a & Hin & Ha).
  rewrite Forall_forall in Hv. destruct (Hv a Hin) as [Hr Hrc].
  pose proof (l2norm_ge_entry a v Hin) as Hge.
  pose proof eps_below_range as Heps.
  destruct Hr as [->|Hr]; [now elim Ha|].
  destruct Hrc as [Hz|Hrc].
  { apply Rmult_integral in Hz as [Hz|Hz]; contradiction. }
  rewrite Rabs_mult in Hrc.
  pose proof (Rabs_pos c) as Hcp.
  split; [lra|]. assert ((Rabs c * Rabs a <= Rabs c * l2norm v)%R) by nra. lra.
Qed.

(** Rescaling and the losses over the reals: for a non-zero scalar [c] and
    batches none of whose rows has a norm below the [eps] of [F.normalize],
    before or after the rescaling, the three losses give the same result. *)
Lemma info_nce_scale (c : R) (s t : matrix) :
  c <> 0%R -> norms_above_eps c s -> norms_above_eps c t ->
  (forall rank, info_nce_loss rank (scale c s) (scale c t) = info_nce_loss rank s t) /\
  (forall st_inter rank d,
      info_nce_loss_layer st_inter rank (scale c s) (scale c t) d
      = info_nce_loss_layer st_inter rank s t d) /\
  (forall self, Simclr.info_nce_loss self (scale c s) = Simclr.info_nce_loss self s).
Proof.
  intros Hc Hs Ht. repeat split.
  - intros rank. unfold info_nce_loss.
    now rewrite (similarity_scale _ _ _ Hc Hs Ht), length_scale.
  - intros st_inter rank d. unfold info_nce_loss_layer.
    now rewrite (similarity_scale _ _ _ Hc Hs Ht), length_scale.
  - intros self. unfold Simclr.info_nce_loss.
    now rewrite (similarity_scale _ _ _ Hc Hs Hs), length_scale.
Qed.

(** The claim C5 as amended.  For a scalar [c = +-2^k] and embedding batches
    whose entries are zero or of a magnitude between [2^-30] and [2^30],
    before and after the rescaling, every row with an entry that is not
    zero: the cross-batch losses ([info_nce_loss], [info_nce_loss_layer])
    and the self-similarity loss of [pl_train_simclr.py] give on the
    rescaled embeddings the result (value or exception) they give on the
    original ones.  These are the rescalings that float32 carries out
    without rounding, on rows whose norm neither overflows, underflows nor
    is clamped to the [eps = 1e-12] of [F.normalize]. *)
Theorem C5_info_nce_scale_invariant (c : R) (s t : matrix) :
  power_of_two c -> exactly_rescaled c s -> exactly_rescaled c t ->
  (forall rank, info_nce_loss rank (scale c s) (scale c t) = info_nce_loss rank s t) /\
  (forall st_inter rank d,
      info_nce_loss_layer st_inter rank (scale c s) (scale c t) d
      = info_nce_loss_layer st_inter rank s t d) /\
  (forall self, Simclr.info_nce_loss self (scale c s) = Simclr.info_nce_loss self s).
Proof.
  intros Hc Hs Ht. apply power_of_two_nonzero in Hc.
  apply info_nce_scale; [exact Hc| |]; now apply exactly_rescaled_norms.
Qed.

(* ------------------------------------------------------------------ *)
(** ** Rescaling embeddings of norm below [eps] *)

Ltac list_entries :=
  repeat match goal with
         | |- _ :: _ = _ :: _ => apply f_equal2
         end; try reflexivity.

Lemma l2norm_singleton (x : R) : l2norm [x] = Rabs x.
Proof.
  unfold l2norm; simpl. rewrite Rplus_0_r. fold (Rsqr x). apply sqrt_Rsqr_abs.
Qed.

Lemma normalize_tiny_s : normalize tiny_s = [[1 / 2]; [1 / 2]]%R.
Proof.
  unfold normalize, tiny_s, normalize_row. simpl. rewrite !l2norm_singleton.
  unfold tiny, normalize_eps. rewrite Rabs_pos_eq by lra. rewrite Rmax_right by lra.
  list_entries; field.
Qed.

Lemma normalize_tiny_t : normalize tiny_t = [[1 / 2]; [- (1 / 2)]]%R.
Proof.
  unfold normalize, tiny_t, normalize_row. simpl. rewrite !l2norm_singleton.
  unfold tiny, normalize_eps. rewrite Rabs_Ropp, Rabs_pos_eq by lra.
  rewrite Rmax_right by lra.
  list_entries; field.
Qed.

Lemma normalize_scaled_tiny_s : normalize (scale 2 tiny_s) = [[1]; [1]]%R.
Proof.
  unfold normalize, scale, tiny_s, normalize_row. simpl. rewrite !l2norm_singleton.
  unfold tiny, normalize_eps. rewrite Rabs_pos_eq by lra. rewrite Rmax_right by lra.
  list_entries; field.
Qed.

Lemma normalize_scaled_tiny_t : normalize (scale 2 tiny_t) = [[1]; [- 1]]%R.
Proof.
  unfold normalize, scale, tiny_t, normalize_row. simpl. rewrite !l2norm_singleton.
  unfold tiny, normalize_eps.
  replace (2 * - / 2000000000000)%R with (- (2 * / 2000000000000))%R by ring.
  rewrite Rabs_Ropp, Rabs_pos_eq by lra.
  rewrite Rmax_right by lra.
  list_entries; field.
Qed.

(** The cross-entropy of the two rows [[a; -a]] against the labels [0] and
    [1]. *)
Lemma nll_pair (a : R) :
  (nll [a; (- a)%R] 0 + (nll [a; (- a)%R] 1 + 0) = 2 * ln (exp a + exp (- a)))%R.
Proof.
  unfold nll, logsumexp. simpl. rewrite Rplus_0_r. ring.
Qed.

Lemma info_nce_loss_tiny :
  info_nce_loss 0 tiny_s tiny_t = Ok (2 * tau * ln (exp (5 / 4) + exp (- (5 / 4))))%R.
Proof.
  unfold info_nce_loss. rewrite normalize_tiny_s, normalize_tiny_t. simpl.
  replace (dot [1 / 2] [1 / 2] / tau)%R with (5 / 4)%R
    by (unfold dot, tau; simpl; field).
  replace (dot [1 / 2] [- (1 / 2)] / tau)%R with (- (5 / 4))%R
    by (unfold dot, tau; simpl; field).
  rewrite nll_pair. apply f_equal. unfold tau. lra.
Qed.

Lemma info_nce_loss_scaled_tiny :
  info_nce_loss 0 (scale 2 tiny_s) (scale 2 tiny_t)
  = Ok (2 * tau * ln (exp 5 + exp (Ropp 5)))%R.
Proof.
  unfold info_nce_loss. rewrite normalize_scaled_tiny_s, normalize_scaled_tiny_t. simpl.
  replace (dot [1] [1] / tau)%R with 5%R by (unfold dot, tau; simpl; field).
  replace (dot [1] [- 1] / tau)%R with (Ropp 5) by (unfold dot, tau; simpl; field).
  rewrite nll_pair. apply f_equal. unfold tau. lra.
Qed.

Lemma exp_gap :
  (exp (5 / 4) + exp (- (5 / 4)) < exp 5 + exp (Ropp 5))%R.
Proof.
  assert (H1 : (1 < exp (5 / 4))%R).
  { rewrite <- exp_0. apply exp_increasing. lra. }
  assert (H2 : (exp (- (5 / 4)) < 1)%R).
  { rewrite <- exp_0. apply exp_increasing. lra. }
  assert (H3 : (1 + 15 / 4 < exp (15 / 4))%R) by (apply exp_ineq1; lra).
  assert (H4 : (exp 5 = exp (5 / 4) * exp (15 / 4))%R).
  { rewrite <- exp_plus. f_equal. field. }
  pose proof (exp_pos (Ropp 5)).
  rewrite H4. nra.
Qed.

(** C5 as stated fails: rescaling by [c = 2] embeddings of norm [5e-13]
    changes the loss, because [F.normalize] divides by [max(norm, 1e-12)]. *)
Lemma C5_counterexample_tiny_norm :
  (2 <> 0)%R /\
  info_nce_loss 0 (scale 2 tiny_s) (scale 2 tiny_t) <> info_nce_loss 0 tiny_s tiny_t.
Proof.
  split; [lra|].
  rewrite info_nce_loss_tiny, info_nce_loss_scaled_tiny.
  intros H. injection H as H.
  pose proof exp_gap as Hgap.
  assert (Hpos : (0 < exp (5 / 4) + exp (- (5 / 4)))%R).
  { pose proof (exp_pos (5 / 4)). pose proof (exp_pos (- (5 / 4))). lra. }
  pose proof (ln_increasing _ _ Hpos Hgap) as Hln.
  unfold tau in H. lra.
Qed.

Ltac abs_cases :=
  unfold Rabs;
  repeat match goal with
         | |- context [Rcase_abs ?x] => destruct (Rcase_abs x)
         end;
  lra.

Lemma in_range_small (a : R) : (1 <= Rabs a <= 4)%R -> in_range a.
Proof.
  intros Ha. right.
  assert (H : (/ 2 ^ 30 <= / 1)%R) by (apply Rinv_le_contravar; lra).
  rewrite Rinv_1 in H. lra.
Defined.

Lemma exactly_rescaled_row (a : R) :
  (1 <= Rabs a <= 2)%R ->
  Forall (fun a => in_range a /\ in_range (2 * a)) [a] /\ Exists (fun a => a <> 0%R) [a].
Proof.
  intros Ha. split.
  - apply Forall_cons; [|apply Forall_nil]. split; apply in_range_small; [lra|].
    rewrite Rabs_mult, (Rabs_pos_eq 2) by lra. lra.
  - apply Exists_cons_hd. intros ->. rewrite Rabs_R0 in Ha. lra.
Defined.

Lemma exactly_rescaled_unit_s : exactly_rescaled 2 unit_s.
Proof.
  unfold exactly_rescaled, unit_s.
  repeat (apply Forall_cons; [apply exactly_rescaled_row; rewrite Rabs_pos_eq; lra|]).
  apply Forall_nil.
Defined.

Lemma exactly_rescaled_unit_t : exactly_rescaled 2 unit_t.
Proof.
  unfold exactly_rescaled, unit_t.
  apply Forall_cons; [apply exactly_rescaled_row; rewrite Rabs_pos_eq; lra|].
  apply Forall_cons; [apply exactly_rescaled_row; unfold Rabs; destruct (Rcase_abs _); lra|].
  apply Forall_nil.
Defined.

Lemma C5_witness :
  (forall rank, info_nce_loss rank (scale 2 unit_s) (scale 2 unit_t)
                = info_nce_loss rank unit_s unit_t) /\
  (forall st_inter rank d,
      info_nce_loss_layer st_inter rank (scale 2 unit_s) (scale 2 unit_t) d
      = info_nce_loss_layer st_inter rank unit_s unit_t d) /\
  (forall self, Simclr.info_nce_loss self (scale 2 unit_s)
                = Simclr.info_nce_loss self unit_s).
Proof.
  apply (C5_info_nce_scale_invariant 2 unit_s unit_t).
  - exists 1%Z. rewrite Rabs_pos_eq by lra. now rewrite powerRZ_1.
  - exact exactly_rescaled_unit_s.
  - exact exactly_rescaled_unit_t.
Defined.

(* ------------------------------------------------------------------ *)
(** ** The factor of the cross-batch losses *)

Lemma similarity_cross_entropy_tiny :
  similarity_cross_entropy (2 / 10) (identity_labels 2 0) tiny_s tiny_t
  = Ok (ln (exp (5 / 4) + exp (- (5 / 4))))%R.
Proof.
  unfold similarity_cross_entropy. rewrite normalize_tiny_s, normalize_tiny_t. simpl.
  replace (dot [1 / 2] [1 / 2] / (2 / 10))%R with (5 / 4)%R
    by (unfold dot; simpl; field).
  replace (dot [1 / 2] [- (1 / 2)] / (2 / 10))%R with (- (5 / 4))%R
    by (unfold dot; simpl; field).
  unfold identity_labels, criterion. simpl.
  rewrite nll_pair. apply f_equal. lra.
Qed.

Lemma layer_labels_one (batch_size rank : nat) :
  layer_labels batch_size rank 1 = identity_labels batch_size rank.
Proof.
  unfold layer_labels, identity_labels, ceil_div. cbn [repeat concat].
  rewrite app_nil_r, Nat.add_sub, !Nat.div_1_r. reflexivity.
Qed.

(** C10.  [info_nce_loss] and [info_nce_loss_layer] return [0.4] times the
    cross-entropy of the similarity logits divided by [tau = 0.2], taken
    against the rank-offset identity labels (repeated once per layer in the
    layer variant, which is the same list for depth 1; a depth of 0 raises on
    the division); on the embeddings [tiny_s], [tiny_t] the value returned
    is not that cross-entropy. *)
Theorem C10_info_nce_is_scaled_cross_entropy :
  (forall rank s t,
      info_nce_loss rank s t
      = (ce <- similarity_cross_entropy (2 / 10) (identity_labels (length s) rank) s t ;;
         Ok (4 / 10 * ce)%R)) /\
  (forall st_inter rank s t d,
      info_nce_loss_layer st_inter rank s t d
      = if default_depth st_inter d =? 0 then Err ZeroDivisionError
        else (ce <- similarity_cross_entropy (2 / 10)
                      (layer_labels (length s) rank (default_depth st_inter d)) s t ;;
              Ok (4 / 10 * ce)%R)) /\
  (forall rank s t,
      info_nce_loss_layer false rank s t None = info_nce_loss rank s t) /\
  info_nce_loss 0 tiny_s tiny_t
  <> similarity_cross_entropy (2 / 10) (identity_labels 2 0) tiny_s tiny_t.
Proof.
  repeat split.
  - intros rank s t. unfold info_nce_loss, similarity_cross_entropy, identity_labels.
    destruct (matmul_T (normalize s) (normalize t)) as [sim|e]; simpl; [|reflexivity].
    fold tau.
    destruct (criterion (div_scalar sim tau) _) as [ce|e]; simpl; [|reflexivity].
    apply f_equal. unfold tau. lra.
  - intros st_inter rank s t d.
    unfold info_nce_loss_layer, similarity_cross_entropy, layer_labels.
    fold (default_depth st_inter d).
    destruct (default_depth st_inter d =? 0); [reflexivity|].
    destruct (matmul_T (normalize s) (normalize t)) as [sim|e]; simpl; [|reflexivity].
    fold tau.
    destruct (criterion (div_scalar sim tau) _) as [ce|e]; simpl; [|reflexivity].
    apply f_equal. unfold tau. lra.
  - intros rank s t. unfold info_nce_loss_layer, info_nce_loss.
    cbn [Nat.eqb]. fold (layer_labels (length s) rank 1).
    now rewrite layer_labels_one.
  - rewrite info_nce_loss_tiny, similarity_cross_entropy_tiny.
    intros H. injection H as H.
    assert (Hgt : (1 < exp (5 / 4) + exp (- (5 / 4)))%R).
    { assert (1 < exp (5 / 4))%R by (rewrite <- exp_0; apply exp_increasing; lra).
      pose proof (exp_pos (- (5 / 4))). lra. }
    pose proof (ln_increasing 1 _ Rlt_0_1 Hgt) as Hln. rewrite ln_1 in Hln.
    unfold tau in H. lra.
Qed.

(* ------------------------------------------------------------------ *)
(** ** Shapes through the Vision Transformer *)

Lemma cat_dim1_2d (m a b : nat) (ga gb : list string) :
  cat (mkTensor [m; a] ga) (mkTensor [m; b] gb) 1
  = Ok (mkTensor [m; a + b] (union ga gb)).
Proof.
  unfold cat. cbn [shape graph length set_nth nth shape_eqb].
  now rewrite !Nat.eqb_refl.
Qed.

Lemma cat_dim1_3d (b n1 n2 d : nat) (ga gb : list string) :
  cat (mkTensor [b; n1; d] ga) (mkTensor [b; n2; d] gb) 1
  = Ok (mkTensor [b; n1 + n2; d] (union ga gb)).
Proof.
  unfold cat. cbn [shape graph length set_nth nth shape_eqb].
  now rewrite !Nat.eqb_refl.
Qed.

Lemma cat_dim1_3d_inv (b n1 d b' n2 d' : nat) (ga gb : list string) (t : Tensor) :
  cat (mkTensor [b; n1; d] ga) (mkTensor [b'; n2; d'] gb) 1 = Ok t ->
  b' = b /\ d' = d /\ t = mkTensor [b; n1 + n2; d] (union ga gb).
Proof.
  unfold cat. cbn [shape graph length set_nth nth shape_eqb Nat.eqb Nat.ltb Nat.leb andb].
  destruct (b =? b') eqn:Hb; [|discriminate].
  destruct (d =? d') eqn:Hd; [|discriminate].
  apply Nat.eqb_eq in Hb, Hd. subst. cbn. intros H. now inversion H.
Qed.

Lemma cat_last_3d (b n d : nat) (g : list string) :
  cat_last (mkTensor [b; n; d] g) (mkTensor [b; n; d] g)
  = Ok (mkTensor [b; n; d + d] (union g g)).
Proof.
  unfold cat_last, cat. cbn [shape graph length set_nth nth shape_eqb Nat.sub].
  now rewrite !Nat.eqb_refl.
Qed.

Lemma build_2d_sincos_ok (D img p ic : nat) (dis : option PInfo) (pe : PatchEmbed) :
  PatchEmbed_init img p ic D = Ok pe ->
  D mod 4 = 0 ->
  build_2d_sincos_position_embedding D pe dis
  = Ok (mkPInfo "pos_embed"
          [1; (match dis with Some _ => 2 | None => 1 end) + ceil_div img p * ceil_div img p; D]
          false).
Proof.
  unfold PatchEmbed_init. destruct (p =? 0); [discriminate|].
  intros Hpe HD. inversion Hpe; subst pe; clear Hpe.
  unfold build_2d_sincos_position_embedding.
  cbn [grid_size arange_len q_num q_den].
  rewrite HD. cbn [Nat.eqb negb].
  repeat (rewrite cat_dim1_2d; cbn [bind shape graph union app filter]).
  assert (HD4 : D / 4 + D / 4 + D / 4 + D / 4 = D).
  { pose proof (Nat.div_mod_eq D 4). lia. }
  rewrite HD4, cat_dim1_3d. reflexivity.
Qed.

Lemma build_2d_sincos_assert (D : nat) (pe : PatchEmbed) (dis : option PInfo) :
  D mod 4 <> 0 ->
  build_2d_sincos_position_embedding D pe dis = Err (AssertionError sincos_message).
Proof.
  intros HD. unfold build_2d_sincos_position_embedding.
  destruct (grid_size pe) as [h w].
  apply Nat.eqb_neq in HD. now rewrite HD.
Qed.

Lemma build_2d_sincos_no_assert (D : nat) (pe : PatchEmbed) (dis : option PInfo) :
  D mod 4 = 0 ->
  build_2d_sincos_position_embedding D pe dis <> Err (AssertionError sincos_message).
Proof.
  intros HD. unfold build_2d_sincos_position_embedding.
  destruct (grid_size pe) as [h w].
  rewrite HD. cbn [Nat.eqb negb].
  repeat (rewrite cat_dim1_2d; cbn [bind shape graph union app filter]).
  unfold cat. destruct (_ && _); discriminate.
Qed.

Lemma PatchEmbed_init_inv (img p ic D : nat) (pe : PatchEmbed) :
  PatchEmbed_init img p ic D = Ok pe ->
  p <> 0 /\
  pe = {| pe_img_size := img;
          pe_patch_size := (p, p);
          grid_size := (mkQuotient img p, mkQuotient img p);
          num_patches := (img / p) * (img / p);
          pe_proj := Conv2d_init "patch_embed.proj" ic D p p |}.
Proof.
  unfold PatchEmbed_init. destruct (p =? 0) eqn:Hp; [discriminate|].
  apply Nat.eqb_neq in Hp. intros H. now inversion H.
Qed.

(** What a successful [__init__] has built. *)
Lemma VisionTransformer_init_inv (kw : Config) (vit : VisionTransformer) :
  VisionTransformer_init kw = Ok vit ->
  exists img pe bs,
    nth_error (img_size kw) 0 = Some img /\
    PatchEmbed_init img (patch_size kw) (in_chans kw) (embed_dim kw) = Ok pe /\
    embed_dim kw mod 4 = 0 /\
    build_blocks (embed_dim kw) (num_heads kw) (mlp_ratio kw) (qkv_bias kw)
                 (seq 0 (depth kw)) = Ok bs /\
    self_embed_dim vit = embed_dim kw /\
    patch_embed vit = freeze_patch_embed pe /\
    cls_token vit = mkPInfo "cls_token" [1; 1; embed_dim kw] true /\
    self_dis_token vit
      = (if dis_token kw then Some (mkPInfo "dis_token" [1; 1; embed_dim kw] true)
         else None) /\
    pos_embed vit
      = mkPInfo "pos_embed"
          [1; num_token (dis_token kw)
              + ceil_div img (patch_size kw) * ceil_div img (patch_size kw);
           embed_dim kw] false /\
    blocks vit = bs /\
    norms vit = map (fun i => LayerNorm_init ("norms." ++ str_of_nat i) (embed_dim kw))
                    (seq 0 (depth kw)).
Proof.
  unfold VisionTransformer_init, index.
  destruct (nth_error (img_size kw) 0) as [img|] eqn:Himg; [|discriminate].
  cbn [bind].
  destruct (PatchEmbed_init img (patch_size kw) (in_chans kw) (embed_dim kw))
    as [pe|e] eqn:Hpe; [|discriminate].
  cbn [bind].
  destruct (Nat.eq_dec (embed_dim kw mod 4) 0) as [HD|HD].
  2:{ rewrite (@build_2d_sincos_assert _ _ _ HD). discriminate. }
  rewrite (@build_2d_sincos_ok _ _ _ _ _ _ Hpe HD). cbn [bind].
  destruct (build_blocks _ _ _ _ _) as [bs|e] eqn:Hbs; [|discriminate].
  cbn [bind].
  destruct (init_linear_weights _) as [u|e]; [|discriminate].
  cbn [bind]. intros H. inversion H; subst vit; clear H.
  exists img, pe, bs. cbn.
  repeat split; try reflexivity; try assumption.
  destruct (dis_token kw); reflexivity.
Qed.






(* ------------------------------------------------------------------ *)
(** ** The token sequence *)

Lemma patch_count (H p : nat) :
  0 < H -> H mod p = 0 -> p <> 0 -> p <= H /\ (H - p) / p + 1 = H / p.
Proof.
  intros HH Hmod Hp.
  pose proof (Nat.div_mod_eq H p) as Hdiv. rewrite Hmod, Nat.add_0_r in Hdiv.
  assert (Hq : 1 <= H / p).
  { destruct (H / p) as [|q]; [lia|lia]. }
  split; [nia|].
  replace (H - p) with ((H / p - 1) * p) by nia.
  rewrite Nat.div_mul by assumption. lia.
Qed.

Lemma add_broadcast_batch (B N D : nat) (ga gb : list string) :
  add (mkTensor [B; N; D] ga) (mkTensor [1; N; D] gb)
  = Ok (mkTensor [B; N; D] (union ga gb)).
Proof.
  unfold add. cbn [shape graph rev app broadcast_rev bind].
  destruct (B =? 1) eqn:HB; cbn [bind Nat.eqb];
    rewrite !Nat.eqb_refl; reflexivity.
Qed.

Lemma expand_batch_token (name : string) (D B : nat) (rg : bool) :
  expand_batch (mkPInfo name [1; 1; D] rg) B
  = Ok (mkTensor [B; 1; D] (trainable [mkPInfo name [1; 1; D] rg])).
Proof. reflexivity. Qed.

(** The patch embedding of a batch whose sides are positive multiples of the
    patch size. *)
Lemma PatchEmbed_forward_ok (img p ic D : nat) (pe : PatchEmbed) (B H W : nat) :
  PatchEmbed_init img p ic D = Ok pe ->
  0 < H -> 0 < W -> H mod p = 0 -> W mod p = 0 ->
  PatchEmbed_forward (freeze_patch_embed pe) (image_batch B ic H W)
  = Ok (mkTensor [B; (H / p) * (W / p); D] []).
Proof.
  intros Hpe HH HW HmH HmW.
  apply PatchEmbed_init_inv in Hpe as [Hp ->].
  destruct (patch_count _ _ HH HmH Hp) as [HleH HcH].
  destruct (patch_count _ _ HW HmW Hp) as [HleW HcW].
  unfold PatchEmbed_forward, image_batch, Conv2d_forward.
  cbn [shape graph freeze_patch_embed pe_proj Conv2d_init in_channels out_channels
       kernel_size stride c_weight c_bias].
  rewrite Nat.eqb_refl. cbn [negb].
  apply Nat.ltb_ge in HleH, HleW. rewrite HleH, HleW. cbn [orb].
  apply Nat.eqb_neq in Hp. rewrite Hp.
  cbn [bind shape graph]. rewrite HcH, HcW. reflexivity.
Qed.

(** The token sequence of a batch whose patch grid has as many cells as the
    grid the positional embedding was built for. *)
Lemma prepare_tokens_ok (kw : Config) (vit : VisionTransformer) (img B H W : nat)
    (dino : bool) :
  VisionTransformer_init kw = Ok vit ->
  nth_error (img_size kw) 0 = Some img ->
  0 < H -> 0 < W ->
  H mod patch_size kw = 0 -> W mod patch_size kw = 0 ->
  (H / patch_size kw) * (W / patch_size kw)
  = ceil_div img (patch_size kw) * ceil_div img (patch_size kw) ->
  prepare_tokens vit (image_batch B (in_chans kw) H W) dino
  = Ok (mkTensor
          [B; (H / patch_size kw) * (W / patch_size kw) + num_token (dis_token kw);
           embed_dim kw]
          (if dis_token kw then ["cls_token"; "dis_token"] else ["cls_token"])%string).
Proof.
  intros Hinit Himg HH HW HmH HmW Hgrid.
  apply VisionTransformer_init_inv in Hinit
    as (img' & pe & bs & Himg' & Hpe & HD & Hbs & HE & Hpatch & Hcls & Hdis & Hpos & _).
  rewrite Himg in Himg'. inversion Himg'; subst img'; clear Himg'.
  unfold prepare_tokens. cbn [image_batch shape].
  rewrite Hpatch, (@PatchEmbed_forward_ok _ _ _ _ _ B H W Hpe HH HW HmH HmW). cbn [bind].
  rewrite Hcls, Hdis, Hpos, expand_batch_token. cbn [bind].
  unfold as_tensor. cbn [p_shape].
  rewrite <- Hgrid.
  destruct (dis_token kw); cbn [num_token].
  - rewrite expand_batch_token. cbn [bind].
    rewrite cat_dim1_3d. cbn [bind].
    destruct dino; cbn [negb]; unfold detach; cbn [shape graph];
      rewrite cat_dim1_3d; cbn [bind];
      rewrite (Nat.add_comm _ 2); cbn [Nat.add];
      rewrite add_broadcast_batch; reflexivity.
  - destruct dino; cbn [negb]; unfold detach; cbn [shape graph];
      rewrite cat_dim1_3d; cbn [bind];
      rewrite (Nat.add_comm _ 1); cbn [Nat.add];
      rewrite add_broadcast_batch; reflexivity.
Qed.

Lemma add_broadcast_inv (B N D N' : nat) (ga gb : list string) (t : Tensor) :
  2 <= N ->
  add (mkTensor [B; N; D] ga) (mkTensor [1; N'; D] gb) = Ok t ->
  t = mkTensor [B; N; D] (union ga gb).
Proof.
  intros HN. unfold add. cbn [shape graph rev app broadcast_rev bind].
  assert (HB : (if B =? 1 then Ok [B]
                else if B =? 1 then Ok [1] else if 1 =? 1 then Ok [B] else Err shape_error)
               = Ok [B]).
  { destruct (B =? 1); reflexivity. }
  rewrite HB. cbn [bind].
  destruct (N =? N') eqn:HNN; cbn [bind].
  - rewrite Nat.eqb_refl. cbn. intros H. now inversion H.
  - destruct (N =? 1) eqn:HN1; [apply Nat.eqb_eq in HN1; lia|].
    destruct (N' =? 1); cbn [bind]; [|discriminate].
    rewrite Nat.eqb_refl. cbn. intros H. now inversion H.
Qed.

(** Whatever batch [prepare_tokens] accepts, the sequence it returns has one
    token per patch of the convolution plus the special tokens, and tokens of
    the embedding dimension. *)
Lemma prepare_tokens_inv (kw : Config) (vit : VisionTransformer) (x t : Tensor)
    (dino : bool) :
  VisionTransformer_init kw = Ok vit ->
  prepare_tokens vit x dino = Ok t ->
  exists B H W,
    shape x = [B; in_chans kw; H; W] /\
    patch_size kw <= H /\ patch_size kw <= W /\
    shape t = [B; ((H - patch_size kw) / patch_size kw + 1)
                  * ((W - patch_size kw) / patch_size kw + 1)
                  + num_token (dis_token kw);
               embed_dim kw].
Proof.
  intros Hinit.
  apply VisionTransformer_init_inv in Hinit
    as (img & pe & bs & Himg & Hpe & HD & Hbs & HE & Hpatch & Hcls & Hdis & Hpos & _).
  apply PatchEmbed_init_inv in Hpe as [Hp ->].
  unfold prepare_tokens.
  destruct (shape x) as [|B [|C [|H [|W [|? ?]]]]] eqn:Hx; try discriminate.
  rewrite Hpatch. unfold PatchEmbed_forward, Conv2d_forward. rewrite Hx.
  cbn [freeze_patch_embed pe_proj Conv2d_init in_channels out_channels
       kernel_size stride c_weight c_bias].
  destruct (C =? in_chans kw) eqn:HC; cbn [negb bind]; [|discriminate].
  apply Nat.eqb_eq in HC. subst C.
  destruct (H <? patch_size kw) eqn:HH; cbn [orb bind]; [discriminate|].
  destruct (W <? patch_size kw) eqn:HW; cbn [orb bind]; [discriminate|].
  apply Nat.ltb_ge in HH, HW.
  destruct (patch_size kw =? 0); cbn [bind shape graph]; [discriminate|].
  rewrite Hcls, Hdis, Hpos, expand_batch_token. cbn [bind].
  unfold as_tensor. cbn [p_shape].
  set (n := ((H - patch_size kw) / patch_size kw + 1)
            * ((W - patch_size kw) / patch_size kw + 1)).
  assert (Hn : 1 <= n) by (unfold n; nia).
  destruct (dis_token kw); cbn [num_token].
  - rewrite expand_batch_token. cbn [bind].
    rewrite cat_dim1_3d. cbn [bind].
    destruct dino; cbn [negb]; unfold detach; cbn [shape graph];
      rewrite cat_dim1_3d; cbn [bind]; rewrite (Nat.add_comm (1 + 1) n); intros Hadd;
      apply add_broadcast_inv in Hadd; try lia; subst t;
      exists B, H, W; cbn [shape]; repeat split; try assumption.
  - destruct dino; cbn [negb]; unfold detach; cbn [shape graph];
      rewrite cat_dim1_3d; cbn [bind]; rewrite (Nat.add_comm 1 n); intros Hadd;
      apply add_broadcast_inv in Hadd; try lia; subst t;
      exists B, H, W; cbn [shape]; repeat split; try assumption.
Qed.

Lemma patch_count_floor (H p : nat) : p <> 0 -> p <= H -> (H - p) / p + 1 = H / p.
Proof.
  intros Hp Hle.
  pose proof (Nat.div_mod_eq H p) as Hdiv.
  pose proof (Nat.mod_upper_bound H p Hp) as Hr.
  assert (Hq : 1 <= H / p).
  { destruct (H / p) as [|q] eqn:E; [|lia]. rewrite Nat.mul_0_r in Hdiv. lia. }
  symmetry. rewrite Nat.add_comm.
  assert (Hsub : (H - p) / p = H / p - 1).
  { symmetry. apply (Nat.div_unique (H - p) p (H / p - 1) (H mod p)); [lia|]. nia. }
  lia.
Qed.

(** Adding a positional embedding of [N'] positions to [N >= 2] tokens:
    the sizes agree, or the embedding has a single position and is
    broadcast; otherwise the addition raises. *)
Lemma add_tokens (B N N' D : nat) (ga gb : list string) :
  2 <= N ->
  add (mkTensor [B; N; D] ga) (mkTensor [1; N'; D] gb)
  = if (N =? N') || (N' =? 1)
    then Ok (mkTensor [B; N; D] (union ga gb))
    else Err shape_error.
Proof.
  intros HN. unfold add. cbn [shape graph rev app broadcast_rev bind].
  assert (HB : (if B =? 1 then Ok [B]
                else if B =? 1 then Ok [1] else if 1 =? 1 then Ok [B] else Err shape_error)
               = Ok [B]).
  { destruct (B =? 1); reflexivity. }
  rewrite HB. cbn [bind].
  assert (HN1 : (N =? 1) = false) by (apply Nat.eqb_neq; lia).
  rewrite HN1.
  destruct (N =? N') eqn:HNN; cbn [orb bind].
  - rewrite Nat.eqb_refl. reflexivity.
  - destruct (N' =? 1); cbn [bind]; [|reflexivity].
    rewrite Nat.eqb_refl. reflexivity.
Qed.

Lemma ceil_div_zero (a b : nat) : b <> 0 -> (ceil_div a b = 0 <-> a = 0).
Proof.
  intros Hb. unfold ceil_div. split.
  - intros H0. apply Nat.div_small_iff in H0; lia.
  - intros ->. apply Nat.div_small. lia.
Qed.

(** What [prepare_tokens] does with a batch of the model's channels whose
    sides are at least one patch long: the convolution yields
    [floor(H / p) * floor(W / p)] patches, and the positional embedding,
    built for [ceil(img_size / p)] patches a side, is added when it has as
    many positions, or a single one. *)
Lemma prepare_tokens_cases (kw : Config) (vit : VisionTransformer) (img B H W : nat)
    (dino : bool) :
  VisionTransformer_init kw = Ok vit ->
  nth_error (img_size kw) 0 = Some img ->
  patch_size kw <= H -> patch_size kw <= W ->
  prepare_tokens vit (image_batch B (in_chans kw) H W) dino
  = if ((H / patch_size kw) * (W / patch_size kw)
        =? ceil_div img (patch_size kw) * ceil_div img (patch_size kw))
       || (num_token (dis_token kw)
           + ceil_div img (patch_size kw) * ceil_div img (patch_size kw) =? 1)
    then Ok (mkTensor
               [B; (H / patch_size kw) * (W / patch_size kw) + num_token (dis_token kw);
                embed_dim kw]
               (if dis_token kw then ["cls_token"; "dis_token"] else ["cls_token"])%string)
    else Err shape_error.
Proof.
  intros Hinit Himg HH HW.
  apply VisionTransformer_init_inv in Hinit
    as (img' & pe & bs & Himg' & Hpe & HD & Hbs & HE & Hpatch & Hcls & Hdis & Hpos & _).
  rewrite Himg in Himg'. inversion Himg'; subst img'; clear Himg'.
  apply PatchEmbed_init_inv in Hpe as [Hp ->].
  unfold prepare_tokens. cbn [image_batch shape].
  rewrite Hpatch. unfold PatchEmbed_forward, Conv2d_forward, image_batch.
  cbn [shape graph freeze_patch_embed pe_proj Conv2d_init in_channels out_channels
       kernel_size stride c_weight c_bias].
  rewrite Nat.eqb_refl. cbn [negb].
  pose proof HH as HH'. pose proof HW as HW'.
  apply Nat.ltb_ge in HH', HW'. rewrite HH', HW'. cbn [orb].
  pose proof Hp as Hp'. apply Nat.eqb_neq in Hp'. rewrite Hp'. cbn [bind shape graph].
  rewrite Hcls, Hdis, Hpos, expand_batch_token. cbn [bind].
  unfold as_tensor. cbn [p_shape].
  rewrite (patch_count_floor H _ Hp HH), (patch_count_floor W _ Hp HW).
  set (n := (H / patch_size kw) * (W / patch_size kw)).
  set (g := ceil_div img (patch_size kw) * ceil_div img (patch_size kw)).
  assert (Hn : 1 <= n).
  { unfold n.
    assert (1 <= H / patch_size kw) by (apply Nat.div_str_pos; lia).
    assert (1 <= W / patch_size kw) by (apply Nat.div_str_pos; lia).
    nia. }
  destruct (dis_token kw); cbn [num_token].
  - rewrite expand_batch_token. cbn [bind].
    rewrite cat_dim1_3d. cbn [bind].
    assert (E : (1 + 1 + n =? 2 + g) = (n =? g)).
    { destruct (Nat.eqb_spec n g), (Nat.eqb_spec (1 + 1 + n) (2 + g)); try reflexivity; lia. }
    destruct dino; cbn [negb]; unfold detach; cbn [shape graph];
      rewrite cat_dim1_3d; cbn [bind]; rewrite add_tokens by lia;
      rewrite E, (Nat.add_comm n 2); reflexivity.
  - assert (E : (1 + n =? 1 + g) = (n =? g)).
    { destruct (Nat.eqb_spec n g), (Nat.eqb_spec (1 + n) (1 + g)); try reflexivity; lia. }
    destruct dino; cbn [negb]; unfold detach; cbn [shape graph];
      rewrite cat_dim1_3d; cbn [bind]; rewrite add_tokens by lia;
      rewrite E, (Nat.add_comm n 1); reflexivity.
Qed.

(** The claim C3 as amended.  For a constructed model and an image batch
    with the model's channels whose height and width are positive multiples
    of the patch size: when its patch grid has as many cells as the grid the
    positional embedding was built for (so for every batch of the configured
    image size), [prepare_tokens] returns a sequence of
    [grid_height * grid_width + specials] tokens of the embedding dimension,
    with 1 special token without a distillation token and 2 with one; and
    for any such batch a sequence that is returned has that length.  For
    image size 224 and patch size 16 the length is 197.  When the grid has
    another number of cells, adding the positional embedding raises, unless
    the embedding has a single position (a model built for image size 0
    without a distillation token), which is broadcast. *)
Theorem C3_token_sequence_length (kw : Config) (vit : VisionTransformer)
    (img B H W : nat) (dino : bool) :
  VisionTransformer_init kw = Ok vit ->
  nth_error (img_size kw) 0 = Some img ->
  0 < H -> 0 < W ->
  H mod patch_size kw = 0 -> W mod patch_size kw = 0 ->
  ((H / patch_size kw) * (W / patch_size kw)
   = ceil_div img (patch_size kw) * ceil_div img (patch_size kw) ->
   exists t,
     prepare_tokens vit (image_batch B (in_chans kw) H W) dino = Ok t /\
     shape t = [B; (H / patch_size kw) * (W / patch_size kw) + num_token (dis_token kw);
                embed_dim kw]) /\
  (H = img -> W = img ->
   exists t,
     prepare_tokens vit (image_batch B (in_chans kw) H W) dino = Ok t /\
     shape t = [B; (H / patch_size kw) * (W / patch_size kw) + num_token (dis_token kw);
                embed_dim kw]) /\
  (forall t,
     prepare_tokens vit (image_batch B (in_chans kw) H W) dino = Ok t ->
     shape t = [B; (H / patch_size kw) * (W / patch_size kw) + num_token (dis_token kw);
                embed_dim kw]) /\
  (v <- VisionTransformer_init vit_small_224 ;;
   t <- prepare_tokens v (image_batch 1 3 224 224) false ;;
   Ok (shape t)) = Ok [1; 197; 384] /\
  ((H / patch_size kw) * (W / patch_size kw)
   <> ceil_div img (patch_size kw) * ceil_div img (patch_size kw) ->
   dis_token kw = true \/ img <> 0 ->
   prepare_tokens vit (image_batch B (in_chans kw) H W) dino
   = Err (RuntimeError "The size of tensor a must match the size of tensor b")) /\
  (dis_token kw = false -> img = 0 ->
   exists t,
     prepare_tokens vit (image_batch B (in_chans kw) H W) dino = Ok t /\
     shape t = [B; (H / patch_size kw) * (W / patch_size kw) + 1; embed_dim kw]).
Proof.
  intros Hinit Himg HH HW HmH HmW.
  assert (Hp : patch_size kw <> 0).
  { apply VisionTransformer_init_inv in Hinit
      as (img' & pe & bs & _ & Hpe & _).
    now apply PatchEmbed_init_inv in Hpe as [Hp _]. }
  assert (Htotal :
    (H / patch_size kw) * (W / patch_size kw)
    = ceil_div img (patch_size kw) * ceil_div img (patch_size kw) ->
    exists t,
      prepare_tokens vit (image_batch B (in_chans kw) H W) dino = Ok t /\
      shape t = [B; (H / patch_size kw) * (W / patch_size kw) + num_token (dis_token kw);
                 embed_dim kw]).
  { intros Hgrid.
    eexists. split.
    - exact (@prepare_tokens_ok kw vit img B H W dino Hinit Himg HH HW HmH HmW Hgrid).
    - reflexivity. }
  assert (Hcases := prepare_tokens_cases kw vit img B H W dino Hinit Himg
                      (proj1 (patch_count _ _ HH HmH Hp))
                      (proj1 (patch_count _ _ HW HmW Hp))).
  split; [|split; [|split; [|split; [|split]]]].
  - exact Htotal.
  - intros -> ->. apply Htotal.
    assert (Hc : ceil_div img (patch_size kw) = img / patch_size kw).
    { unfold ceil_div.
      pose proof (Nat.div_mod_eq img (patch_size kw)) as Hd.
      rewrite HmH, Nat.add_0_r in Hd.
      rewrite Hd at 1.
      replace (patch_size kw * (img / patch_size kw) + patch_size kw - 1)
        with ((img / patch_size kw) * patch_size kw + (patch_size kw - 1)) by lia.
      rewrite Nat.div_add_l by assumption.
      rewrite (Nat.div_small (patch_size kw - 1)) by lia. lia. }
    now rewrite Hc.
  - intros t Ht.
    destruct (prepare_tokens_inv _ _ _ _ _ Hinit Ht) as (B' & H' & W' & Hx & _ & _ & Hs).
    cbn [image_batch shape] in Hx. inversion Hx; subst B' H' W'; clear Hx.
    destruct (patch_count _ _ HH HmH Hp) as [_ HcH].
    destruct (patch_count _ _ HW HmW Hp) as [_ HcW].
    now rewrite HcH, HcW in Hs.
  - vm_compute. reflexivity.
  - intros Hne Hpos. rewrite Hcases.
    apply Nat.eqb_neq in Hne. rewrite Hne. cbn [orb].
    assert (H1 : (num_token (dis_token kw)
                  + ceil_div img (patch_size kw) * ceil_div img (patch_size kw) =? 1)
                 = false).
    { apply Nat.eqb_neq. destruct Hpos as [-> | Himg0]; cbn [num_token]; [lia|].
      assert (ceil_div img (patch_size kw) <> 0)
        by (intros H0; apply (ceil_div_zero img _ Hp) in H0; contradiction).
      destruct (dis_token kw); cbn [num_token]; nia. }
    now rewrite H1.
  - intros Hdis ->. rewrite Hcases, Hdis. cbn [num_token].
    rewrite (proj2 (ceil_div_zero 0 _ Hp) eq_refl). cbn [Nat.mul Nat.add Nat.eqb].
    rewrite orb_true_r. eexists; split; reflexivity.
Qed.

(** C3 as stated fails: a batch of 32 x 32 images, sides divisible by the
    patch size 16, given to a model built for 224 x 224 images, has 5 tokens
    where the positional embedding has 197, and [prepare_tokens] raises. *)
Lemma C3_counterexample_other_size :
  32 mod 16 = 0 /\
  (v <- VisionTransformer_init vit_small_224 ;;
   prepare_tokens v (image_batch 2 3 32 32) false)
  = Err (RuntimeError "The size of tensor a must match the size of tensor b").
Proof. split; vm_compute; reflexivity. Qed.

Lemma C3_witness :
  exists vit,
    VisionTransformer_init vit_small_224 = Ok vit /\
    exists t,
      prepare_tokens vit (image_batch 2 3 224 224) false = Ok t /\
      shape t = [2; 197; 384].
Proof.
  destruct (VisionTransformer_init vit_small_224) as [vit|e] eqn:Hinit;
    [|vm_compute in Hinit; discriminate].
  exists vit. split; [reflexivity|].
  apply (proj1 (proj2 (@C3_token_sequence_length vit_small_224 vit 224 2 224 224 false
                         Hinit eq_refl ltac:(lia) ltac:(lia) eq_refl eq_refl)));
    reflexivity.
Defined.

(* ------------------------------------------------------------------ *)
(** ** The attention of the last block *)

Lemma build_blocks_built (dim heads ratio : nat) (bias : bool) (indices : list nat)
    (bs : list Block) :
  build_blocks dim heads ratio bias indices = Ok bs ->
  Forall (built_block dim heads ratio bias) bs /\ length bs = length indices.
Proof.
  revert bs; induction indices as [|i rest IH]; intros bs; cbn [build_blocks].
  - intros H. inversion H. split; [constructor|reflexivity].
  - unfold Block_init, Attention_init.
    destruct (heads =? 0) eqn:Hh; cbn [bind]; [discriminate|].
    destruct (dim / heads =? 0) eqn:Hd; cbn [bind]; [discriminate|].
    destruct (build_blocks dim heads ratio bias rest) as [bs'|e]; cbn [bind];
      [|discriminate].
    intros H. inversion H; subst bs; clear H.
    destruct (IH bs' eq_refl) as [IHf IHl].
    apply Nat.eqb_neq in Hh, Hd.
    split; [|cbn [length]; now rewrite IHl].
    constructor; [|exact IHf].
    repeat split; try assumption.
    exists ("blocks." ++ str_of_nat i)%string. reflexivity.
Qed.

(** A block applied to tokens that were not doubled along the last
    dimension: its first layer, [self.proj = nn.Linear(2 * dim, dim)],
    rejects them. *)
Lemma Block_forward_undoubled (dim heads ratio : nat) (bias : bool) (b : Block)
    (B N : nat) (g : list string) (return_attention : bool) :
  built_block dim heads ratio bias b ->
  Block_forward b (mkTensor [B; N; dim] g) return_attention
  = Err (RuntimeError "mat1 and mat2 shapes cannot be multiplied").
Proof.
  intros (Hh & Hd & prefix & ->).
  assert (Hdim : dim <> 0) by (intros ->; now rewrite Nat.Div0.div_0_l in Hd).
  unfold Block_forward, Linear_forward.
  cbn [b_proj Linear_init in_features shape rev app].
  assert (Hne : (dim =? 2 * dim) = false) by (apply Nat.eqb_neq; lia).
  now rewrite Hne.
Qed.

Lemma last_selfattention_loop_raises (dim heads ratio : nat) (bias : bool)
    (len i : nat) (b : Block) (rest : list Block) (B N : nat) (g : list string) :
  built_block dim heads ratio bias b ->
  last_selfattention_loop len i (b :: rest) (mkTensor [B; N; dim] g)
  = Err (RuntimeError "mat1 and mat2 shapes cannot be multiplied").
Proof.
  intros Hb. cbn [last_selfattention_loop].
  destruct (i <? len - 1);
    now rewrite (Block_forward_undoubled dim heads ratio bias b B N g _ Hb).
Qed.

(** What [get_last_selfattention] can do on a constructed model: raise, or
    return [None] when the model has no block. *)
Lemma get_last_selfattention_no_attention (kw : Config) (vit : VisionTransformer)
    (x : Tensor) :
  VisionTransformer_init kw = Ok vit ->
  (exists e, get_last_selfattention vit x = Err e) \/
  (depth kw = 0 /\ get_last_selfattention vit x = Ok None).
Proof.
  intros Hinit. unfold get_last_selfattention.
  destruct (prepare_tokens vit x false) as [t|e] eqn:Ht; cbn [bind];
    [|left; now exists e].
  destruct (prepare_tokens_inv _ _ _ _ _ Hinit Ht) as (B & H & W & _ & _ & _ & Hs).
  apply VisionTransformer_init_inv in Hinit
    as (img & pe & bs & _ & _ & _ & Hbs & _ & _ & _ & _ & _ & Hblocks & _).
  rewrite Hblocks.
  apply build_blocks_built in Hbs as [Hbuilt Hlen].
  rewrite length_seq in Hlen.
  destruct bs as [|b rest].
  - right. split; [now rewrite <- Hlen|reflexivity].
  - left. inversion Hbuilt as [|? ? Hb _]; subst.
    destruct t as [s g]. cbn [shape] in Hs. subst s.
    rewrite (last_selfattention_loop_raises _ _ _ _ _ _ _ _ _ _ _ Hb).
    eexists; reflexivity.
Qed.

(** C2 fails on the code: for no configuration and no input does
    [get_last_selfattention] return an attention matrix.  On
    [vit_small(patch_size=16, img_size=[224])] and a batch of one 224 x 224
    image it raises in the first block, whose [proj] expects tokens doubled
    along the last dimension; [forward], which doubles them, returns on the
    same input. *)
Theorem C2_get_last_selfattention_raises :
  (forall kw x a,
      (v <- VisionTransformer_init kw ;; get_last_selfattention v x) <> Ok (Some a)) /\
  (v <- VisionTransformer_init vit_small_224 ;;
   get_last_selfattention v (image_batch 1 3 224 224))
  = Err (RuntimeError "mat1 and mat2 shapes cannot be multiplied") /\
  (v <- VisionTransformer_init vit_small_224 ;;
   t <- forward v (image_batch 1 3 224 224) false ;;
   Ok (shape t)) = Ok [1; 384].
Proof.
  split; [|split].
  - intros kw x a.
    destruct (VisionTransformer_init kw) as [vit|e] eqn:Hinit; cbn [bind];
      [|discriminate].
    destruct (get_last_selfattention_no_attention kw vit x Hinit)
      as [[e ->]|[_ ->]]; discriminate.
  - vm_compute. reflexivity.
  - vm_compute. reflexivity.
Qed.

(* ------------------------------------------------------------------ *)
(** ** Shapes through the blocks *)

Lemma Linear_forward_3d (l : Linear) (x : Tensor) (B N d : nat) :
  in_features l = d -> shape x = [B; N; d] ->
  exists y, Linear_forward l x = Ok y /\ shape y = [B; N; out_features l].
Proof.
  intros Hin Hx. unfold Linear_forward. rewrite Hx. cbn [rev app].
  rewrite Hin, Nat.eqb_refl. eexists; split; reflexivity.
Qed.

Lemma LayerNorm_forward_3d (n : LayerNorm) (x : Tensor) (B N d : nat) :
  normalized_shape n = d -> shape x = [B; N; d] ->
  exists y, LayerNorm_forward n x = Ok y /\ shape y = [B; N; d].
Proof.
  intros Hn Hx. unfold LayerNorm_forward. rewrite Hx. cbn [rev app].
  rewrite Hn, Nat.eqb_refl. eexists; split; reflexivity.
Qed.

Lemma broadcast_rev_same (s : list nat) : broadcast_rev s s = Ok s.
Proof.
  induction s as [|x s IH]; cbn [broadcast_rev]; [reflexivity|].
  rewrite IH. cbn [bind]. now rewrite Nat.eqb_refl.
Qed.

Lemma add_same_3d (x y : Tensor) (B N D : nat) :
  shape x = [B; N; D] -> shape y = [B; N; D] ->
  exists z, add x y = Ok z /\ shape z = [B; N; D].
Proof.
  intros Hx Hy. unfold add. rewrite Hx, Hy, broadcast_rev_same.
  eexists; split; reflexivity.
Qed.

Lemma Attention_forward_ok (p1 p2 : string) (h hd : nat) (bias : bool)
    (x : Tensor) (B N : nat) :
  h <> 0 -> shape x = [B; N; h * hd] ->
  exists y a,
    Attention_forward
      {| a_num_heads := h;
         qkv := Linear_init p1 (h * hd) (h * hd * 3) bias;
         a_proj := Linear_init p2 (h * hd) (h * hd) true |} x = Ok (y, a) /\
    shape y = [B; N; h * hd] /\ shape a = [B; h; N; N].
Proof.
  intros Hh Hx. unfold Attention_forward. rewrite Hx.
  cbn [a_num_heads qkv a_proj].
  destruct (Linear_forward_3d (Linear_init p1 (h * hd) (h * hd * 3) bias) x B N (h * hd)
              eq_refl Hx) as (q & -> & Hq).
  cbn [bind out_features Linear_init] in *.
  apply Nat.eqb_neq in Hh. rewrite Hh.
  assert (Hdiv : h * hd / h = hd).
  { rewrite Nat.mul_comm. apply Nat.div_mul. now apply Nat.eqb_neq. }
  rewrite Hdiv.
  unfold reshape. rewrite Hq.
  assert (Hn1 : numel [B; N; h * hd * 3] = numel [B; N; 3; h; hd])
    by (cbn [numel fold_right]; ring).
  rewrite Hn1, Nat.eqb_refl. cbn [bind graph shape].
  unfold matmul4. cbn [shape graph]. rewrite !Nat.eqb_refl. cbn [andb bind shape graph].
  rewrite !Nat.eqb_refl. cbn [andb bind shape graph].
  assert (Hn2 : numel [B; N; h; hd] = numel [B; N; h * hd])
    by (cbn [numel fold_right]; ring).
  rewrite Hn2, Nat.eqb_refl. cbn [bind].
  match goal with
  | |- context [Linear_forward ?l ?t] =>
      destruct (Linear_forward_3d l t B N (h * hd) eq_refl eq_refl) as (y & -> & Hy)
  end.
  cbn [bind]. eexists; eexists; split; [reflexivity|].
  split; [exact Hy|reflexivity].
Qed.

Lemma Mlp_forward_ok (prefix : string) (d hidden : nat) (x : Tensor) (B N : nat) :
  shape x = [B; N; d] ->
  exists y, Mlp_forward (Mlp_init prefix d hidden) x = Ok y /\ shape y = [B; N; d].
Proof.
  intros Hx. unfold Mlp_forward, Mlp_init. cbn zeta.
  generalize (if hidden =? 0 then d else hidden). clear hidden. intros hidden.
  cbn [fc1 fc2].
  destruct (Linear_forward_3d (Linear_init (prefix ++ ".fc1") d hidden true) x B N d
              eq_refl Hx) as (y1 & -> & Hy1).
  cbn [bind].
  destruct (Linear_forward_3d (Linear_init (prefix ++ ".fc2") hidden d true) y1 B N hidden
              eq_refl Hy1) as (y2 & -> & Hy2).
  exists y2. split; [reflexivity|exact Hy2].
Qed.

(** A block of the model on tokens doubled along the last dimension. *)
Lemma Block_forward_doubled (dim heads ratio : nat) (bias : bool) (b : Block)
    (x : Tensor) (B N : nat) :
  built_block dim heads ratio bias b ->
  dim mod heads = 0 ->
  shape x = [B; N; dim + dim] ->
  exists y, Block_forward b x false = Ok y /\ shape y = [B; N; dim].
Proof.
  intros (Hh & Hd & prefix & ->) Hmod Hx.
  pose proof (Nat.div_mod_eq dim heads) as Hdm. rewrite Hmod, Nat.add_0_r in Hdm.
  set (hd := dim / heads) in *. clearbody hd. subst dim.
  unfold Block_forward. cbn [b_proj norm1 attn norm2 mlp].
  destruct (Linear_forward_3d
              (Linear_init (prefix ++ ".proj") (2 * (heads * hd)) (heads * hd) true)
              x B N (heads * hd + heads * hd) ltac:(cbn [in_features Linear_init]; lia) Hx)
    as (x1 & -> & Hx1).
  cbn [bind out_features Linear_init] in *.
  destruct (LayerNorm_forward_3d (LayerNorm_init (prefix ++ ".norm1") (heads * hd))
              x1 B N (heads * hd) eq_refl Hx1) as (n1 & -> & Hn1).
  cbn [bind].
  destruct (Attention_forward_ok ((prefix ++ ".attn") ++ ".qkv")
              ((prefix ++ ".attn") ++ ".proj") heads hd bias n1 B N Hh Hn1)
    as (y & a & -> & Hy & _).
  cbn [bind fst snd].
  destruct (add_same_3d x1 y B N (heads * hd) Hx1 Hy) as (x2 & -> & Hx2).
  cbn [bind].
  destruct (LayerNorm_forward_3d (LayerNorm_init (prefix ++ ".norm2") (heads * hd))
              x2 B N (heads * hd) eq_refl Hx2) as (n2 & -> & Hn2).
  cbn [bind].
  destruct (Mlp_forward_ok (prefix ++ ".mlp") (heads * hd) (heads * hd * ratio) n2 B N Hn2)
    as (m & -> & Hm).
  cbn [bind].
  exact (add_same_3d x2 m B N (heads * hd) Hx2 Hm).
Qed.

Lemma cat_last_doubles (x : Tensor) (B N d : nat) :
  shape x = [B; N; d] ->
  exists y, cat_last x x = Ok y /\ shape y = [B; N; d + d].
Proof.
  intros Hx. destruct x as [s g]. cbn [shape] in Hx. subst s.
  rewrite cat_last_3d. eexists; split; reflexivity.
Qed.

Lemma forward_blocks_ok (dim heads ratio : nat) (bias : bool) (bs : list Block)
    (x : Tensor) (B N : nat) :
  Forall (built_block dim heads ratio bias) bs ->
  dim mod heads = 0 ->
  shape x = [B; N; dim] ->
  exists y, forward_blocks bs x = Ok y /\ shape y = [B; N; dim].
Proof.
  intros Hbs Hmod. revert x.
  induction Hbs as [|b bs Hb _ IH]; intros x Hx; cbn [forward_blocks].
  - exists x. split; [reflexivity|exact Hx].
  - destruct (cat_last_doubles x B N dim Hx) as (x2 & -> & Hx2). cbn [bind].
    destruct (Block_forward_doubled dim heads ratio bias b x2 B N Hb Hmod Hx2)
      as (y & -> & Hy).
    cbn [bind]. now apply IH.
Qed.

(** [forward] on a batch the model accepts: the output is one vector of the
    embedding dimension per image. *)
Lemma forward_ok (kw : Config) (vit : VisionTransformer) (img B H W : nat) (dino : bool) :
  VisionTransformer_init kw = Ok vit ->
  nth_error (img_size kw) 0 = Some img ->
  1 <= depth kw ->
  embed_dim kw mod num_heads kw = 0 ->
  0 < H -> 0 < W ->
  H mod patch_size kw = 0 -> W mod patch_size kw = 0 ->
  (H / patch_size kw) * (W / patch_size kw)
  = ceil_div img (patch_size kw) * ceil_div img (patch_size kw) ->
  exists t,
    forward vit (image_batch B (in_chans kw) H W) dino = Ok t /\
    shape t = [B; embed_dim kw].
Proof.
  intros Hinit Himg Hdepth Hheads HH HW HmH HmW Hgrid.
  unfold forward.
  rewrite (prepare_tokens_ok kw vit img B H W dino Hinit Himg HH HW HmH HmW Hgrid).
  cbn [bind].
  apply VisionTransformer_init_inv in Hinit
    as (img' & pe & bs & _ & _ & _ & Hbs & _ & _ & _ & _ & _ & Hblocks & Hnorms).
  apply build_blocks_built in Hbs as [Hbuilt _].
  rewrite Hblocks, Hnorms.
  match goal with
  | |- context [forward_blocks bs ?x] =>
      destruct (forward_blocks_ok _ _ _ _ bs x B _ Hbuilt Hheads eq_refl) as (y & -> & Hy)
  end.
  cbn [bind].
  destruct (depth kw) as [|n] eqn:Hdep; [lia|].
  rewrite seq_S, map_app. cbn [map].
  unfold index_last. rewrite rev_app_distr. cbn [rev app bind].
  match goal with
  | |- context [LayerNorm_forward ?l y] =>
      destruct (LayerNorm_forward_3d l y B _ _ eq_refl Hy) as (z & -> & Hz)
  end.
  cbn [bind]. unfold mean_dim1. rewrite Hz.
  eexists; split; reflexivity.
Qed.

(* ------------------------------------------------------------------ *)
(** ** What [forward] returns *)

Lemma nth_map_seq (f : nat -> R) (n d : nat) :
  d < n -> nth d (map f (seq 0 n)) 0%R = f d.
Proof.
  intros Hd.
  rewrite (nth_indep _ 0%R (f 0)) by (now rewrite length_map, length_seq).
  rewrite (map_nth f (seq 0 n) 0 d), seq_nth by assumption. reflexivity.
Qed.

(** Entry [d] of the mean over the tokens: every position of the sequence
    enters the sum. *)
Lemma mean_tokens_entry (tokens : matrix) (d : nat) :
  d < width tokens ->
  nth d (Values.mean_tokens tokens) 0%R
  = (sum_list (map (fun tok => nth d tok 0%R) tokens) / INR (length tokens))%R.
Proof.
  intros Hd. unfold Values.mean_tokens. now rewrite nth_map_seq.
Qed.

Lemma forward_is_mean_of_final_sequence (image : Type)
    (prepare : image -> bool -> result (list matrix))
    (blocks norms : list (list matrix -> result (list matrix)))
    (x : image) (dino : bool) :
  Values.forward prepare blocks norms x dino
  = (y <- Values.final_sequence prepare blocks norms x dino ;;
     Ok (Values.mean_dim1 y)).
Proof.
  unfold Values.forward, Values.final_sequence.
  destruct (prepare x dino) as [x0|e]; cbn [bind]; [|reflexivity].
  destruct (Values.forward_blocks blocks x0) as [x1|e]; cbn [bind]; [|reflexivity].
  destruct (index_last norms) as [n|e]; cbn [bind]; reflexivity.
Qed.

Lemma mean_two_tokens :
  Values.mean_tokens Values.two_tokens = [2%R] /\
  hd [] Values.two_tokens = [1%R].
Proof.
  split; [|reflexivity].
  unfold Values.mean_tokens, Values.two_tokens. cbn.
  apply f_equal2; [lra|reflexivity].
Qed.

Lemma Attention_forward_inv (p1 p2 : string) (h dim : nat) (bias : bool)
    (x y a : Tensor) (B N : nat) :
  shape x = [B; N; dim] ->
  Attention_forward
    {| a_num_heads := h;
       qkv := Linear_init p1 dim (dim * 3) bias;
       a_proj := Linear_init p2 dim dim true |} x = Ok (y, a) ->
  shape y = [B; N; dim].
Proof.
  intros Hx. unfold Attention_forward. rewrite Hx. cbn [a_num_heads qkv a_proj].
  destruct (Linear_forward_3d (Linear_init p1 dim (dim * 3) bias) x B N dim eq_refl Hx)
    as (q & -> & Hq).
  cbn [bind].
  destruct (h =? 0); [discriminate|].
  destruct (reshape q _) as [q'|] eqn:Hq'; [|discriminate]. cbn [bind].
  unfold matmul4. cbn [shape graph]. rewrite !Nat.eqb_refl. cbn [andb bind shape graph].
  rewrite !Nat.eqb_refl. cbn [andb bind shape graph].
  destruct (reshape _ [B; N; dim]) as [r|] eqn:Hr; [|discriminate]. cbn [bind].
  assert (Hrs : shape r = [B; N; dim]).
  { unfold reshape in Hr. destruct (_ =? _); [|discriminate]. now inversion Hr. }
  destruct (Linear_forward_3d (Linear_init p2 dim dim true) r B N dim eq_refl Hrs)
    as (y' & -> & Hy').
  cbn [bind]. intros H. inversion H; subst. exact Hy'.
Qed.

(** When a block of the model returns, on tokens doubled along the last
    dimension, its output has the shape of the tokens. *)
Lemma Block_forward_inv (dim heads ratio : nat) (bias : bool) (b : Block)
    (x y : Tensor) (B N : nat) :
  built_block dim heads ratio bias b ->
  shape x = [B; N; dim + dim] ->
  Block_forward b x false = Ok y ->
  shape y = [B; N; dim].
Proof.
  intros (Hh & Hd & prefix & ->) Hx.
  unfold Block_forward. cbn [b_proj norm1 attn norm2 mlp].
  destruct (Linear_forward_3d
              (Linear_init (prefix ++ ".proj") (2 * dim) dim true)
              x B N (dim + dim) ltac:(cbn [in_features Linear_init]; lia) Hx)
    as (x1 & -> & Hx1).
  cbn [bind out_features Linear_init] in *.
  destruct (LayerNorm_forward_3d (LayerNorm_init (prefix ++ ".norm1") dim)
              x1 B N dim eq_refl Hx1) as (n1 & -> & Hn1).
  cbn [bind].
  destruct (Attention_forward _ n1) as [[ya at_]|] eqn:Hatt; [|discriminate].
  apply (Attention_forward_inv _ _ _ _ _ _ _ _ B N Hn1) in Hatt.
  cbn [bind fst snd].
  destruct (add_same_3d x1 ya B N dim Hx1 Hatt) as (x2 & -> & Hx2).
  cbn [bind].
  destruct (LayerNorm_forward_3d (LayerNorm_init (prefix ++ ".norm2") dim)
              x2 B N dim eq_refl Hx2) as (n2 & -> & Hn2).
  cbn [bind].
  destruct (Mlp_forward_ok (prefix ++ ".mlp") dim (dim * ratio) n2 B N Hn2)
    as (m & -> & Hm).
  cbn [bind].
  destruct (add_same_3d x2 m B N dim Hx2 Hm) as (z & -> & Hz).
  intros H. inversion H; subst. exact Hz.
Qed.

Lemma forward_blocks_inv (dim heads ratio : nat) (bias : bool) (bs : list Block)
    (x y : Tensor) (B N : nat) :
  Forall (built_block dim heads ratio bias) bs ->
  shape x = [B; N; dim] ->
  forward_blocks bs x = Ok y ->
  shape y = [B; N; dim].
Proof.
  intros Hbs. revert x.
  induction Hbs as [|b bs Hb _ IH]; intros x Hx; cbn [forward_blocks].
  - intros H. inversion H; subst. exact Hx.
  - destruct (cat_last_doubles x B N dim Hx) as (x2 & -> & Hx2). cbn [bind].
    destruct (Block_forward b x2 false) as [x3|] eqn:Hb3; [|discriminate]. cbn [bind].
    apply (Block_forward_inv _ _ _ _ _ _ _ B N Hb Hx2) in Hb3.
    now apply IH.
Qed.

(** The steps of [forward] whenever it returns: the batch has the model's
    channels and sides of at least one patch, the model has a block, and the
    result is the mean over dimension 1 of the sequence that the last of
    [norms] gives, one token per patch and per special token. *)
Lemma forward_inv (kw : Config) (vit : VisionTransformer) (x t : Tensor) (dino : bool) :
  VisionTransformer_init kw = Ok vit ->
  forward vit x dino = Ok t ->
  exists B H W x0 y n z,
    shape x = [B; in_chans kw; H; W] /\
    patch_size kw <= H /\ patch_size kw <= W /\ 1 <= depth kw /\
    prepare_tokens vit x dino = Ok x0 /\
    forward_blocks (blocks vit) x0 = Ok y /\
    index_last (norms vit) = Ok n /\
    LayerNorm_forward n y = Ok z /\
    shape z = [B; (H / patch_size kw) * (W / patch_size kw) + num_token (dis_token kw);
               embed_dim kw] /\
    mean_dim1 z = Ok t /\
    shape t = [B; embed_dim kw].
Proof.
  intros Hinit. unfold forward.
  destruct (prepare_tokens vit x dino) as [x0|] eqn:Hprep; [|discriminate]. cbn [bind].
  destruct (forward_blocks (blocks vit) x0) as [y|] eqn:Hy; [|discriminate]. cbn [bind].
  destruct (index_last (norms vit)) as [n|] eqn:Hn; [|discriminate]. cbn [bind].
  destruct (LayerNorm_forward n y) as [z|] eqn:Hz; [|discriminate]. cbn [bind].
  intros Ht.
  destruct (prepare_tokens_inv _ _ _ _ _ Hinit Hprep) as (B & H & W & Hx & HH & HW & Hs).
  pose proof (VisionTransformer_init_inv kw vit Hinit)
    as (img & pe & bs & _ & Hpe & _ & Hbs & _ & _ & _ & _ & _ & Hblocks & Hnorms).
  apply PatchEmbed_init_inv in Hpe as [Hp _].
  rewrite (patch_count_floor H _ Hp HH), (patch_count_floor W _ Hp HW) in Hs.
  apply build_blocks_built in Hbs as [Hbuilt _].
  rewrite Hblocks in Hy.
  pose proof (forward_blocks_inv _ _ _ _ _ _ _ _ _ Hbuilt Hs Hy) as Hys.
  assert (Hzs : shape z = shape y).
  { unfold LayerNorm_forward in Hz. destruct (rev (shape y)); [discriminate|].
    destruct (_ =? _); [|discriminate]. now inversion Hz. }
  assert (Hdepth : 1 <= depth kw).
  { destruct (depth kw); [|lia]. rewrite Hnorms in Hn. discriminate. }
  exists B, H, W, x0, y, n, z.
  rewrite Hblocks. repeat split; try assumption.
  - now rewrite Hzs.
  - unfold mean_dim1 in Ht. rewrite Hzs, Hys in Ht. inversion Ht. reflexivity.
Qed.

(** [forward] returns on every batch of the model's channels whose sides are
    at least one patch long and whose patches are as many as the positions
    of the positional embedding (or the embedding has a single position),
    for a model with at least one block whose heads divide the embedding
    dimension. *)
Lemma forward_returns (kw : Config) (vit : VisionTransformer) (img B H W : nat)
    (dino : bool) :
  VisionTransformer_init kw = Ok vit ->
  nth_error (img_size kw) 0 = Some img ->
  1 <= depth kw ->
  embed_dim kw mod num_heads kw = 0 ->
  patch_size kw <= H -> patch_size kw <= W ->
  (H / patch_size kw) * (W / patch_size kw)
  = ceil_div img (patch_size kw) * ceil_div img (patch_size kw)
  \/ (dis_token kw = false /\ img = 0) ->
  exists t,
    forward vit (image_batch B (in_chans kw) H W) dino = Ok t /\
    shape t = [B; embed_dim kw].
Proof.
  intros Hinit Himg Hdepth Hheads HH HW Hgrid.
  unfold forward.
  rewrite (prepare_tokens_cases kw vit img B H W dino Hinit Himg HH HW).
  pose proof (VisionTransformer_init_inv kw vit Hinit)
    as (img' & pe & bs & _ & Hpe & _ & Hbs & _ & _ & _ & _ & _ & Hblocks & Hnorms).
  apply PatchEmbed_init_inv in Hpe as [Hp _].
  assert (Hc : ((H / patch_size kw) * (W / patch_size kw)
                =? ceil_div img (patch_size kw) * ceil_div img (patch_size kw))
               || (num_token (dis_token kw)
                   + ceil_div img (patch_size kw) * ceil_div img (patch_size kw) =? 1)
               = true).
  { destruct Hgrid as [->|[-> ->]].
    - now rewrite Nat.eqb_refl.
    - rewrite (proj2 (ceil_div_zero 0 _ Hp) eq_refl). cbn [num_token Nat.mul Nat.add Nat.eqb].
      apply orb_true_r. }
  rewrite Hc. cbn [bind].
  apply build_blocks_built in Hbs as [Hbuilt _].
  rewrite Hblocks, Hnorms.
  match goal with
  | |- context [forward_blocks bs ?x] =>
      destruct (forward_blocks_ok _ _ _ _ bs x B _ Hbuilt Hheads eq_refl) as (y & -> & Hy)
  end.
  cbn [bind].
  destruct (depth kw) as [|n] eqn:Hdep; [lia|].
  rewrite seq_S, map_app. cbn [map].
  unfold index_last. rewrite rev_app_distr. cbn [rev app bind].
  match goal with
  | |- context [LayerNorm_forward ?l y] =>
      destruct (LayerNorm_forward_3d l y B _ _ eq_refl Hy) as (z & -> & Hz)
  end.
  cbn [bind]. unfold mean_dim1. rewrite Hz.
  eexists; split; reflexivity.
Qed.

(** The claim C8 as amended.  Whenever [forward] returns, on whatever
    input, the input is a batch of the model's channels with sides of at
    least one patch, and the result is the mean over dimension 1 of the
    sequence [self.norms[-1]] gives for the output of the last block, of
    shape [B x (patches + specials) x D]: the output has shape [B x D].
    [forward] returns on every batch whose patches are as many as the
    positions of the positional embedding (or the embedding has a single
    position, which is broadcast), the model having at least one block and
    heads that divide the embedding dimension.  On values, what [forward]
    returns is the mean over the tokens of that final sequence: entry [d] is
    the sum of entry [d] of every token (class token, distillation token and
    patches alike) divided by their number, which for a class token [1] and
    a patch token [3] is [2] and not the class token. *)
Theorem C8_forward_mean_over_all_tokens (kw : Config) (vit : VisionTransformer)
    (dino : bool) :
  VisionTransformer_init kw = Ok vit ->
  (forall x t,
      forward vit x dino = Ok t ->
      exists B H W x0 y n z,
        shape x = [B; in_chans kw; H; W] /\
        patch_size kw <= H /\ patch_size kw <= W /\ 1 <= depth kw /\
        prepare_tokens vit x dino = Ok x0 /\
        forward_blocks (blocks vit) x0 = Ok y /\
        index_last (norms vit) = Ok n /\
        LayerNorm_forward n y = Ok z /\
        shape z = [B; (H / patch_size kw) * (W / patch_size kw) + num_token (dis_token kw);
                   embed_dim kw] /\
        mean_dim1 z = Ok t /\
        shape t = [B; embed_dim kw]) /\
  (forall img B H W,
      nth_error (img_size kw) 0 = Some img ->
      1 <= depth kw ->
      embed_dim kw mod num_heads kw = 0 ->
      patch_size kw <= H -> patch_size kw <= W ->
      (H / patch_size kw) * (W / patch_size kw)
      = ceil_div img (patch_size kw) * ceil_div img (patch_size kw)
      \/ (dis_token kw = false /\ img = 0) ->
      exists t,
        forward vit (image_batch B (in_chans kw) H W) dino = Ok t /\
        shape t = [B; embed_dim kw]) /\
  (forall (image : Type) (prepare : image -> bool -> result (list matrix))
          (blks nrms : list (list matrix -> result (list matrix)))
          (xv : image),
      Values.forward prepare blks nrms xv dino
      = (yv <- Values.final_sequence prepare blks nrms xv dino ;;
         Ok (map Values.mean_tokens yv))) /\
  (forall (tokens : matrix) (d : nat),
      d < width tokens ->
      nth d (Values.mean_tokens tokens) 0%R
      = (sum_list (map (fun tok => nth d tok 0%R) tokens) / INR (length tokens))%R) /\
  Values.mean_tokens Values.two_tokens <> hd [] Values.two_tokens.
Proof.
  intros Hinit.
  split; [|split; [|split; [|split]]].
  - intros x t Ht. exact (forward_inv kw vit x t dino Hinit Ht).
  - intros img B H W Himg Hdepth Hheads HH HW Hgrid.
    exact (forward_returns kw vit img B H W dino Hinit Himg Hdepth Hheads HH HW Hgrid).
  - intros image prepare blks nrms xv.
    apply forward_is_mean_of_final_sequence.
  - exact mean_tokens_entry.
  - destruct mean_two_tokens as [-> ->]. intros Heq. inversion Heq. lra.
Qed.

(** C8 as stated fails: [forward] does not return on every input batch.  A
    batch of 32 x 32 images given to a model built for 224 x 224 images has
    5 tokens where the positional embedding has 197, and [forward]
    raises. *)
Lemma C8_counterexample_other_size :
  (v <- VisionTransformer_init vit_small_224 ;;
   forward v (image_batch 2 3 32 32) false)
  = Err (RuntimeError "The size of tensor a must match the size of tensor b").
Proof. vm_compute. reflexivity. Qed.

Lemma C8_witness :
  exists vit,
    VisionTransformer_init vit_small_224 = Ok vit /\
    (exists t,
       forward vit (image_batch 2 3 224 224) false = Ok t /\
       shape t = [2; 384]) /\
    (exists t,
       forward vit (image_batch 2 3 230 230) false = Ok t /\
       shape t = [2; 384]).
Proof.
  destruct (VisionTransformer_init vit_small_224) as [vit|e] eqn:Hinit;
    [|vm_compute in Hinit; discriminate].
  exists vit. split; [reflexivity|].
  destruct (C8_forward_mean_over_all_tokens vit_small_224 vit false Hinit)
    as (_ & Hreturns & _).
  split.
  - apply (Hreturns 224 2 224 224); try reflexivity; cbn; lia.
  - apply (Hreturns 224 2 230 230); try reflexivity; cbn; lia.
Defined.

(* ------------------------------------------------------------------ *)
(** ** The training step *)

Lemma update_module_id (f : Param -> Param) (name : string) (m : module) :
  Forall (fun np => f (snd np) = snd np) m -> update_module f name m = m.
Proof.
  induction 1 as [|[n p] m Hp _ IH]; cbn [update_module map]; [reflexivity|].
  fold (update_module f name m). rewrite IH. cbn [fst snd] in *.
  destruct (String.eqb n name); [now rewrite Hp|reflexivity].
Qed.

Lemma update_child_id (f : Param -> Param) (name : string) (children : list module)
    (i : nat) :
  Forall (Forall (fun np => f (snd np) = snd np)) children ->
  update_child f i name children = children.
Proof.
  intros H. revert i. induction H as [|c cs Hc _ IH]; intros i; [now destruct i|].
  destruct i as [|i]; cbn [update_child].
  - now rewrite update_module_id.
  - now rewrite IH.
Qed.

Lemma update_wrapper_id (f : Param -> Param) (pt : part) (name : string) (w : NetWrapper) :
  Forall (fun np => f (snd np) = snd np) (net w) ->
  Forall (Forall (fun np => f (snd np) = snd np)) (projector w) ->
  Forall (fun np => f (snd np) = snd np) (predictor w) ->
  update_wrapper f pt name w = w.
Proof.
  intros Hn Hp Hq. destruct w as [n p q]. cbn [net projector predictor] in *.
  destruct pt; cbn [update_wrapper net projector predictor].
  - now rewrite update_module_id.
  - now rewrite update_child_id.
  - now rewrite update_module_id.
Qed.

Lemma frozen_fixed (f : Param -> Param) (m : module) :
  (forall p, requires_grad p = false -> f p = p) ->
  frozen m -> Forall (fun np => f (snd np) = snd np) m.
Proof.
  intros Hf Hm. unfold frozen in Hm. rewrite Forall_forall in *.
  intros np Hin. apply Hf. now apply Hm.
Qed.

(** Writing through a reference to the student leaves the teacher as it is;
    so does writing anywhere with a function that leaves frozen parameters
    alone, when the teacher is frozen. *)
Lemma update_param_student (f : Param -> Param) (r : ref) (l : PLLearner) :
  ref_owner r = Student -> teacher (update_param f r l) = teacher l.
Proof. intros Hr. unfold update_param. now rewrite Hr. Qed.

Lemma update_param_frozen (f : Param -> Param) (r : ref) (l : PLLearner) :
  (forall p, requires_grad p = false -> f p = p) ->
  teacher_frozen l -> teacher (update_param f r l) = teacher l.
Proof.
  intros Hf (Hn & Hp & Hq). unfold update_param.
  destruct (ref_owner r); cbn [with_student with_teacher teacher]; [reflexivity|].
  apply update_wrapper_id.
  - now apply frozen_fixed.
  - rewrite Forall_forall in *. intros c Hc. apply frozen_fixed; auto.
  - now apply frozen_fixed.
Qed.

Lemma update_param_optimizer (f : Param -> Param) (r : ref) (l : PLLearner) :
  optimizer (update_param f r l) = optimizer l /\
  calls (update_param f r l) = calls l /\
  global_step (update_param f r l) = global_step l /\
  momentum_schedule (update_param f r l) = momentum_schedule l.
Proof. unfold update_param. destruct (ref_owner r); repeat split. Qed.

(** A loop of writes that each leave the teacher and the bookkeeping fields
    as they are. *)
Lemma fold_update_teacher {A : Type} (step : PLLearner -> A -> PLLearner) (xs : list A)
    (l : PLLearner) (P : A -> Prop) :
  (forall l x, P x -> teacher_frozen l ->
               teacher (step l x) = teacher l) ->
  Forall P xs -> teacher_frozen l ->
  teacher (fold_left step xs l) = teacher l.
Proof.
  intros Hstep Hxs. revert l.
  induction Hxs as [|x xs Hx _ IH]; intros l Hl; cbn [fold_left]; [reflexivity|].
  rewrite IH.
  - now apply Hstep.
  - unfold teacher_frozen in *. now rewrite (Hstep l x Hx Hl).
Qed.

Lemma fold_update_fields {A : Type} (step : PLLearner -> A -> PLLearner) (xs : list A)
    (l : PLLearner) :
  (forall l x, optimizer (step l x) = optimizer l /\ calls (step l x) = calls l /\
               global_step (step l x) = global_step l /\
               momentum_schedule (step l x) = momentum_schedule l) ->
  optimizer (fold_left step xs l) = optimizer l /\
  calls (fold_left step xs l) = calls l /\
  global_step (fold_left step xs l) = global_step l /\
  momentum_schedule (fold_left step xs l) = momentum_schedule l.
Proof.
  intros Hstep. revert l. induction xs as [|x xs IH]; intros l; cbn [fold_left].
  - repeat split.
  - destruct (IH (step l x)) as (H1 & H2 & H3 & H4).
    destruct (Hstep l x) as (K1 & K2 & K3 & K4).
    repeat split; congruence.
Qed.

Lemma optimizer_refs_cons (g : ParamGroup) (groups : list ParamGroup) :
  optimizer_refs (g :: groups) = params g ++ optimizer_refs groups.
Proof. reflexivity. Qed.

Lemma zero_grad_frame (set_to_none : bool) (self : PLLearner) :
  optimizer_on_student self -> teacher_frozen self ->
  teacher (zero_grad set_to_none self) = teacher self /\
  optimizer (zero_grad set_to_none self) = optimizer self /\
  global_step (zero_grad set_to_none self) = global_step self /\
  momentum_schedule (zero_grad set_to_none self) = momentum_schedule self /\
  (forall groups, optimizer self = Some groups ->
                  calls (zero_grad set_to_none self) = EvZeroGrad :: calls self).
Proof.
  intros Hopt Hfrozen. unfold zero_grad.
  destruct (optimizer self) as [groups|] eqn:Hg.
  2:{ split; [|split; [|split; [|split]]]; try reflexivity; try assumption.
      intros groups H; discriminate. }
  pose proof (fold_update_fields
                (fun l r => update_param (zero_param set_to_none) r l)
                (optimizer_refs groups) self
                (fun l x => update_param_optimizer _ x l)) as (H1 & H2 & H3 & H4).
  rewrite Hg in H1.
  cbn [with_call teacher optimizer global_step momentum_schedule calls].
  split; [|split; [|split; [|split]]]; try assumption.
  - apply (fold_update_teacher _ _ _ (fun r => ref_owner r = Student)).
    + intros l r Hr _. now apply update_param_student.
    + now apply Hopt.
    + assumption.
  - intros _ _. now rewrite H2.
Qed.

Lemma accumulate_frozen (g : tensor) (p : Param) :
  requires_grad p = false -> accumulate g p = p.
Proof. intros H. unfold accumulate. now rewrite H. Qed.

Lemma manual_backward_frame (self : PLLearner) (grads : list (ref * tensor)) :
  teacher_frozen self ->
  teacher (manual_backward self grads) = teacher self /\
  optimizer (manual_backward self grads) = optimizer self /\
  global_step (manual_backward self grads) = global_step self /\
  momentum_schedule (manual_backward self grads) = momentum_schedule self /\
  calls (manual_backward self grads) = EvBackward :: calls self.
Proof.
  intros Hfrozen. unfold manual_backward.
  pose proof (fold_update_fields
                (fun l rg => update_param (accumulate (snd rg)) (fst rg) l)
                grads self
                (fun l x => update_param_optimizer _ (fst x) l)) as (H1 & H2 & H3 & H4).
  cbn [with_call teacher optimizer global_step momentum_schedule calls].
  repeat split; try assumption.
  - apply (fold_update_teacher _ _ _ (fun _ => True)).
    + intros l rg _ Hl. apply update_param_frozen; [|assumption].
      intros p Hp. now apply accumulate_frozen.
    + rewrite Forall_forall. trivial.
    + assumption.
  - now rewrite H2.
Qed.

Lemma step_group_frame (rule : ParamGroup -> tensor -> tensor -> tensor)
    (l : PLLearner) (g : ParamGroup) :
  Forall (fun r => ref_owner r = Student) (params g) -> teacher_frozen l ->
  teacher (step_group rule l g) = teacher l.
Proof.
  intros Hg Hl. unfold step_group.
  apply (fold_update_teacher _ _ _ (fun r => ref_owner r = Student)); try assumption.
  intros l' r Hr _. now apply update_param_student.
Qed.

Lemma step_group_fields (rule : ParamGroup -> tensor -> tensor -> tensor)
    (l : PLLearner) (g : ParamGroup) :
  optimizer (step_group rule l g) = optimizer l /\
  calls (step_group rule l g) = calls l /\
  global_step (step_group rule l g) = global_step l /\
  momentum_schedule (step_group rule l g) = momentum_schedule l.
Proof.
  unfold step_group. apply fold_update_fields.
  intros l' r. apply update_param_optimizer.
Qed.

(** The optimizer step does not write the teacher. *)
Lemma optimizer_step_frame (rule : ParamGroup -> tensor -> tensor -> tensor)
    (self : PLLearner) :
  optimizer_on_student self -> teacher_frozen self ->
  teacher (optimizer_step rule self) = teacher self /\
  optimizer (optimizer_step rule self) = optimizer self /\
  global_step (optimizer_step rule self) = global_step self /\
  momentum_schedule (optimizer_step rule self) = momentum_schedule self /\
  (forall groups, optimizer self = Some groups ->
                  calls (optimizer_step rule self) = EvOptimizerStep :: calls self).
Proof.
  intros Hopt Hfrozen. unfold optimizer_step.
  destruct (optimizer self) as [groups|] eqn:Hg.
  2:{ split; [|split; [|split; [|split]]]; try reflexivity; try assumption.
      intros groups H; discriminate. }
  pose proof (fold_update_fields (step_group rule) groups self
                (step_group_fields rule)) as (H1 & H2 & H3 & H4).
  rewrite Hg in H1.
  cbn [with_call teacher optimizer global_step momentum_schedule calls].
  split; [|split; [|split; [|split]]]; try assumption.
  - apply (fold_update_teacher _ _ _
             (fun g => Forall (fun r => ref_owner r = Student) (params g))).
    + intros l g Hgr Hl. now apply step_group_frame.
    + specialize (Hopt groups Hg). clear -Hopt.
      induction groups as [|g gs IH]; [constructor|].
      rewrite optimizer_refs_cons in Hopt. apply Forall_app in Hopt as [Hg Hgs].
      constructor; [assumption|now apply IH].
    + assumption.
  - intros _ _. now rewrite H2.
Qed.

Lemma update_groups_params (self : PLLearner) (i : nat) (groups : list ParamGroup)
    (r : list ParamGroup * list (string * R * nat)) :
  update_groups self i groups = Ok r -> map params (fst r) = map params groups.
Proof.
  revert i r. induction groups as [|g rest IH]; intros i r; cbn [update_groups].
  - intros H. now inversion H.
  - destruct (index (lr_schedule self) (global_step self)) as [lr_|e]; cbn [bind];
      [|discriminate].
    destruct (if i =? 0 then index (wd_schedule self) (global_step self)
              else Ok (weight_decay g)) as [wd_|e]; cbn [bind]; [|discriminate].
    destruct (update_groups self (S i) rest) as [r'|e] eqn:Hr; cbn [bind]; [|discriminate].
    intros H. inversion H; subst r; clear H. cbn [fst map params].
    now rewrite (IH _ _ Hr).
Qed.

Lemma fold_add_scalar (logs : list (string * R * nat)) (l : PLLearner) :
  let l' := fold_left (fun l s => add_scalar l (fst (fst s)) (snd (fst s))) logs l in
  student l' = student l /\ teacher l' = teacher l /\ optimizer l' = optimizer l /\
  calls l' = calls l /\ global_step l' = global_step l /\
  momentum_schedule l' = momentum_schedule l.
Proof.
  revert l. induction logs as [|s logs IH]; intros l; cbn [fold_left].
  - repeat split.
  - destruct (IH (add_scalar l (fst (fst s)) (snd (fst s))))
      as (H1 & H2 & H3 & H4 & H5 & H6).
    repeat split; assumption.
Qed.

(** [update_lr] writes the ratio and the learning rate and weight decay of
    the groups; the parameters the groups refer to stay the same. *)
Lemma update_lr_frame (self s : PLLearner) :
  update_lr self = Ok s ->
  student s = student self /\ teacher s = teacher self /\
  calls s = calls self /\ global_step s = global_step self /\
  momentum_schedule s = momentum_schedule self /\
  exists groups groups',
    optimizer self = Some groups /\ optimizer s = Some groups' /\
    optimizer_refs groups' = optimizer_refs groups.
Proof.
  unfold update_lr.
  destruct (index (ratio_schedule self) (global_step self)) as [ratio_|e]; cbn [bind];
    [|discriminate].
  cbn [with_ratio optimizer].
  destruct (optimizer self) as [groups|] eqn:Hg; [|discriminate].
  destruct (update_groups _ 0 groups) as [r|e] eqn:Hr; cbn [bind]; [|discriminate].
  intros H. inversion H; subst s; clear H.
  match goal with
  | |- context [fold_left ?f ?logs ?l0] =>
      destruct (fold_add_scalar logs l0) as (H1 & H2 & H3 & H4 & H5 & H6)
  end.
  cbn [with_optimizer with_ratio student teacher optimizer calls global_step
       momentum_schedule] in *.
  repeat split; try assumption.
  exists groups, (fst r). repeat split; try assumption.
  unfold optimizer_refs. now rewrite (update_groups_params _ _ _ _ Hr).
Qed.

Lemma ema_zip_frozen (m : R) (current ma ma' : module) :
  ema_zip m current ma = Ok ma' -> frozen ma -> frozen ma'.
Proof.
  revert ma ma'. induction current as [|[nc pc] cs IH]; intros ma ma'.
  - destruct ma; cbn [ema_zip]; intros H; now inversion H.
  - destruct ma as [|[nm pm] ms]; cbn [ema_zip]; [intros H; now inversion H|].
    destruct (tadd _ _) as [w|e]; cbn [bind]; [|discriminate].
    destruct (ema_zip m cs ms) as [rest|e] eqn:Hrest; cbn [bind]; [|discriminate].
    intros H Hf. inversion H; subst ma'; clear H.
    inversion Hf as [|? ? Hp Hms]; subst.
    constructor; [exact Hp|]. now apply (IH ms).
Qed.

Lemma frozen_split (n : nat) (flat : module) :
  frozen flat -> frozen (firstn n flat) /\ frozen (skipn n flat).
Proof.
  intros Hf. unfold frozen in *.
  rewrite <- (firstn_skipn n flat) in Hf. now apply Forall_app in Hf.
Qed.

Lemma regroup_frozen (children : list module) (flat : module) :
  frozen flat -> Forall frozen (regroup children flat).
Proof.
  revert flat. induction children as [|c cs IH]; intros flat Hf; cbn [regroup];
    constructor.
  - now apply frozen_split.
  - apply IH. now apply frozen_split.
Qed.

Lemma frozen_concat (children : list module) :
  Forall frozen children -> frozen (concat children).
Proof.
  induction 1 as [|c cs Hc _ IH]; cbn [concat]; [constructor|].
  unfold frozen in *. now apply Forall_app.
Qed.

(** [momentum_update] writes the teacher only, after everything else, and
    leaves it frozen. *)
Lemma momentum_update_frame (self s : PLLearner) :
  momentum_update self = Ok s ->
  student s = student self /\ optimizer s = optimizer self /\
  global_step s = global_step self /\
  calls s = EvMomentumUpdate :: calls self /\
  (teacher_frozen self -> teacher_frozen s).
Proof.
  unfold momentum_update.
  destruct (index (momentum_schedule self) (global_step self)) as [m|e]; cbn [bind];
    [|discriminate].
  destruct (ema_zip m (net (student self)) (net (teacher self))) as [t_net|e] eqn:Hnet;
    cbn [bind]; [|discriminate].
  destruct (if negb (Bool.eqb (st_inter self) (t_inter self))
            then index_last (projector (student self))
            else Ok (projector_parameters (student self))) as [current|e];
    cbn [bind]; [|discriminate].
  destruct (ema_zip m current (projector_parameters (teacher self))) as [t_proj|e] eqn:Hproj;
    cbn [bind]; [|discriminate].
  intros H. inversion H; subst s; clear H.
  cbn [with_call with_teacher student teacher optimizer global_step calls].
  repeat split.
  - cbn [net]. apply (ema_zip_frozen _ _ _ _ Hnet). apply H.
  - cbn [projector]. apply regroup_frozen.
    apply (ema_zip_frozen _ _ _ _ Hproj). apply frozen_concat. apply H.
  - apply H.
Qed.

Lemma module_refs_owner (o : owner) (pt : part) (m : module) :
  Forall (fun rp => ref_owner (fst rp) = o) (module_refs o pt m).
Proof.
  unfold module_refs. rewrite Forall_forall. intros rp Hin.
  apply in_map_iff in Hin as (np & <- & _). reflexivity.
Qed.

Lemma children_refs_owner (o : owner) (i : nat) (children : list module) :
  Forall (fun rp => ref_owner (fst rp) = o) (children_refs o i children).
Proof.
  revert i. induction children as [|c cs IH]; intros i; cbn [children_refs].
  - constructor.
  - apply Forall_app. split; [apply module_refs_owner|apply IH].
Qed.

Lemma wrapper_refs_owner (o : owner) (w : NetWrapper) :
  Forall (fun rp => ref_owner (fst rp) = o) (wrapper_refs o w).
Proof.
  unfold wrapper_refs. repeat (apply Forall_app; split);
    auto using module_refs_owner, children_refs_owner.
Qed.

Lemma filter_refs_owner (o : owner) (keep : ref * Param -> bool) (l : list (ref * Param)) :
  Forall (fun rp => ref_owner (fst rp) = o) l ->
  Forall (fun r => ref_owner r = o) (map fst (filter keep l)).
Proof.
  rewrite !Forall_forall. intros H r Hin.
  apply in_map_iff in Hin as (rp & <- & Hrp).
  apply filter_In in Hrp as [Hrp _]. now apply H.
Qed.

(** The optimizer is built on [get_params_groups(self.student)]: its groups
    hold parameters of the student. *)
Lemma get_params_groups_owner (o : owner) (w : NetWrapper) :
  Forall (fun r => ref_owner r = o) (optimizer_refs (get_params_groups o w)).
Proof.
  unfold optimizer_refs, get_params_groups. cbn [map params concat].
  rewrite app_nil_r. apply Forall_app. split;
    apply filter_refs_owner;
    (rewrite Forall_forall; intros rp Hin; apply filter_In in Hin as [Hin _];
     revert rp Hin; rewrite <- Forall_forall; apply wrapper_refs_owner).
Qed.

Lemma freeze_module_frozen (m : module) : frozen (freeze_module m).
Proof.
  unfold frozen, freeze_module. rewrite Forall_forall. intros np Hin.
  apply in_map_iff in Hin as (x & <- & _). reflexivity.
Qed.

(** What [__init__] establishes: an optimizer on the student's parameters,
    a frozen teacher, no call made yet. *)
Lemma PLLearner_init_invariants (student_ teacher_ : NetWrapper) (st_inter_ : bool)
    (optimizer_name : string) (lr_s wd_s ratio_s momentum_s : list R) (self : PLLearner) :
  PLLearner_init student_ teacher_ st_inter_ optimizer_name lr_s wd_s ratio_s momentum_s
  = Ok self ->
  optimizer_on_student self /\ teacher_frozen self /\ calls self = [] /\
  student self = student_.
Proof.
  unfold PLLearner_init.
  destruct (load_state_dict (net teacher_) (net student_)) as [t_net|e]; cbn [bind];
    [|discriminate].
  destruct (if negb (Bool.eqb st_inter_ false)
            then index_last (projector student_)
            else Ok (projector_parameters student_)) as [src|e]; cbn [bind];
    [|discriminate].
  destruct (load_state_dict (projector_parameters teacher_) src) as [t_proj|e];
    cbn [bind]; [|discriminate].
  intros H. inversion H; subst self; clear H.
  split; [|split; [|split]]; try reflexivity.
  - unfold optimizer_on_student. cbn [optimizer]. intros groups Hg.
    destruct (_ || _)%bool; [|discriminate].
    inversion Hg; subst groups. apply get_params_groups_owner.
  - unfold teacher_frozen. cbn [teacher net projector predictor].
    repeat split; try apply freeze_module_frozen.
    rewrite Forall_forall. intros c Hc.
    apply in_map_iff in Hc as (x & <- & _). apply freeze_module_frozen.
Qed.

(** C7.  In an execution of [training_step] on a learner whose optimizer
    holds parameters of the student and whose teacher is frozen (as
    [__init__] leaves them), the calls are, in this order, [zero_grad], the
    backward pass, the optimizer step and [momentum_update]; the teacher is
    the same after the optimizer step as before the training step, so it is
    written by [momentum_update] alone, applied to the state the optimizer
    step leaves; and the learner after the step is again such a learner. *)
Theorem C7_momentum_update_after_optimizer_step (batch : Type)
    (loss_and_grads : PLLearner -> batch -> result (R * list (ref * tensor)))
    (optimizer_rule : ParamGroup -> tensor -> tensor -> tensor) (set_to_none : bool)
    (self self' : PLLearner) (b : batch) (loss : R) :
  optimizer_on_student self -> teacher_frozen self ->
  training_step loss_and_grads optimizer_rule set_to_none self b = Ok (self', loss) ->
  exists s_lr lg,
    update_lr self = Ok s_lr /\
    loss_and_grads s_lr b = Ok lg /\
    let s_zero := zero_grad set_to_none s_lr in
    let s_back := manual_backward s_zero (snd lg) in
    let s_opt := optimizer_step optimizer_rule s_back in
    teacher s_back = teacher self /\
    teacher s_opt = teacher self /\
    calls s_opt = EvOptimizerStep :: EvBackward :: EvZeroGrad :: calls self /\
    momentum_update (add_scalar s_opt "loss" (fst lg)) = Ok self' /\
    calls self'
    = EvMomentumUpdate :: EvOptimizerStep :: EvBackward :: EvZeroGrad :: calls self /\
    optimizer_on_student self' /\ teacher_frozen self'.
Proof.
  intros Hopt Hfrozen. unfold training_step.
  destruct (update_lr self) as [s_lr|e] eqn:Hlr; cbn [bind]; [|discriminate].
  destruct (loss_and_grads s_lr b) as [lg|e] eqn:Hlg; cbn [bind]; [|discriminate].
  destruct (momentum_update _) as [s_m|e] eqn:Hm; cbn [bind]; [|discriminate].
  intros H. inversion H; subst s_m loss; clear H.
  exists s_lr, lg. split; [reflexivity|]. split; [exact Hlg|].
  cbn zeta.
  destruct (update_lr_frame _ _ Hlr)
    as (Ls & Lt & Lc & Lg & Lm & groups & groups' & Lo & Lo' & Lrefs).
  assert (Hopt1 : optimizer_on_student s_lr).
  { intros gs Hgs. rewrite Lo' in Hgs. inversion Hgs; subst gs.
    rewrite Lrefs. now apply Hopt. }
  assert (Hfr1 : teacher_frozen s_lr) by (unfold teacher_frozen; now rewrite Lt).
  destruct (zero_grad_frame set_to_none s_lr Hopt1 Hfr1) as (Zt & Zo & Zg & Zm & Zc).
  set (s_zero := zero_grad set_to_none s_lr) in *.
  assert (Hopt2 : optimizer_on_student s_zero).
  { intros gs Hgs. apply Hopt1. now rewrite <- Zo. }
  assert (Hfr2 : teacher_frozen s_zero) by (unfold teacher_frozen; now rewrite Zt).
  destruct (manual_backward_frame s_zero (snd lg) Hfr2) as (Bt & Bo & Bg & Bm & Bc).
  set (s_back := manual_backward s_zero (snd lg)) in *.
  assert (Hopt3 : optimizer_on_student s_back).
  { intros gs Hgs. apply Hopt2. now rewrite <- Bo. }
  assert (Hfr3 : teacher_frozen s_back) by (unfold teacher_frozen; now rewrite Bt).
  destruct (optimizer_step_frame optimizer_rule s_back Hopt3 Hfr3)
    as (Ot & Oo & Og & Om & Oc).
  set (s_opt := optimizer_step optimizer_rule s_back) in *.
  assert (Hcalls : calls s_opt = EvOptimizerStep :: EvBackward :: EvZeroGrad :: calls self).
  { rewrite (Oc groups') by (now rewrite Bo, Zo).
    rewrite Bc, (Zc groups' Lo'), Lc. reflexivity. }
  assert (Hfr4 : teacher_frozen s_opt) by (unfold teacher_frozen; now rewrite Ot).
  destruct (momentum_update_frame _ _ Hm) as (Ms & Mo & Mg & Mc & Mf).
  cbn [add_scalar student optimizer global_step calls teacher] in Ms, Mo, Mg, Mc.
  split; [congruence|]. split; [congruence|]. split; [exact Hcalls|].
  split; [exact Hm|]. split; [now rewrite Mc, Hcalls|].
  split.
  - intros gs Hgs. apply Hopt3. rewrite <- Oo, <- Mo. exact Hgs.
  - apply Mf. exact Hfr4.
Qed.

(* ------------------------------------------------------------------ *)
(** ** A concrete learner *)

Lemma toy_learner_init :
  PLLearner_init toy_student toy_teacher false "adamw" [1%R] [0%R] [0%R] [(1 / 2)%R]
  = Ok toy_learner.
Proof. reflexivity. Qed.

Lemma C1_witness :
  exists self',
    momentum_update toy_learner = Ok self' /\
    student self' = student toy_learner /\
    net (teacher self')
    = ema_module (1 / 2) (net (student toy_learner)) (net (teacher toy_learner)) /\
    ((1 / 2 = 1)%R -> net (teacher self') = net (teacher toy_learner)) /\
    ((1 / 2 = 0)%R -> datas (net (teacher self')) = datas (net (student toy_learner))).
Proof.
  apply (C1_momentum_update_is_ema toy_learner (1 / 2)); reflexivity.
Defined.

Lemma toy_training_step :
  { self' | training_step toy_loss gradient_descent true toy_learner tt
            = Ok (self', 1%R) }.
Proof.
  eexists. cbv -[Rplus Rmult Rminus Rdiv Rinv IZR]. reflexivity.
Defined.

Lemma C7_witness :
  exists self',
    training_step toy_loss gradient_descent true toy_learner tt = Ok (self', 1%R) /\
    calls self' = [EvMomentumUpdate; EvOptimizerStep; EvBackward; EvZeroGrad] /\
    optimizer_on_student self' /\ teacher_frozen self'.
Proof.
  destruct toy_training_step as [self' Hstep].
  exists self'. split; [exact Hstep|].
  destruct (PLLearner_init_invariants _ _ _ _ _ _ _ _ _ toy_learner_init)
    as (Hopt & Hfrozen & _ & _).
  destruct (C7_momentum_update_after_optimizer_step unit toy_loss gradient_descent true
              toy_learner self' tt 1%R Hopt Hfrozen Hstep)
    as (s_lr & lg & _ & _ & _ & _ & _ & _ & Hcalls & Hopt' & Hfrozen').
  split; [exact Hcalls|]. split; assumption.
Defined.

(* ------------------------------------------------------------------ *)
(** ** The patch projection under training *)

Lemma in_union (n : string) (a b : list string) :
  In n (union a b) -> In n a \/ In n b.
Proof.
  unfold union. intros H. apply in_app_or in H as [H|H]; [now left|].
  apply filter_In in H as [H _]. now right.
Qed.

Lemma in_trainable_single (n : string) (p : PInfo) :
  In n (trainable [p]) -> n = p_name p.
Proof.
  unfold trainable. cbn [filter]. destruct (p_requires_grad p); cbn [map In];
    intros H; [destruct H as [H|[]]; now subst|destruct H].
Qed.

Lemma expand_batch_graph (p : PInfo) (B : nat) (t : Tensor) :
  expand_batch p B = Ok t -> graph t = trainable [p].
Proof.
  unfold expand_batch.
  destruct (p_shape p) as [|b [|n [|d [|? ?]]]]; try discriminate.
  destruct ((b =? 1) || (b =? B)); [|discriminate].
  intros H. now inversion H.
Qed.

Lemma cat_graph (a b t : Tensor) (dim : nat) :
  cat a b dim = Ok t -> graph t = union (graph a) (graph b).
Proof.
  unfold cat. destruct (_ && _); [|discriminate]. intros H. now inversion H.
Qed.

Lemma add_graph (a b t : Tensor) :
  add a b = Ok t -> graph t = union (graph a) (graph b).
Proof.
  unfold add. destruct (broadcast_rev _ _); cbn [bind]; [|discriminate].
  intros H. now inversion H.
Qed.

(** With [dino=False] the patch embedding is detached: whatever the model,
    the graph of the token sequence reaches the special tokens and the
    positional embedding only. *)
Lemma prepare_tokens_detached (self : VisionTransformer) (x t : Tensor) (n : string) :
  prepare_tokens self x false = Ok t ->
  In n (graph t) ->
  n = p_name (cls_token self) \/
  (exists dis, self_dis_token self = Some dis /\ n = p_name dis) \/
  n = p_name (pos_embed self).
Proof.
  unfold prepare_tokens.
  destruct (shape x) as [|B [|nc [|w [|h [|? ?]]]]]; try discriminate.
  destruct (PatchEmbed_forward (patch_embed self) x) as [y|e]; cbn [bind negb];
    [|discriminate].
  destruct (expand_batch (cls_token self) B) as [c|e] eqn:Hc; cbn [bind]; [|discriminate].
  apply expand_batch_graph in Hc.
  destruct (self_dis_token self) as [dis|].
  - destruct (expand_batch dis B) as [d|e] eqn:Hd; cbn [bind]; [|discriminate].
    apply expand_batch_graph in Hd.
    destruct (cat c d 1) as [cd|e] eqn:Hcd; cbn [bind]; [|discriminate].
    apply cat_graph in Hcd.
    destruct (cat cd (detach y) 1) as [z|e] eqn:Hz; cbn [bind]; [|discriminate].
    apply cat_graph in Hz. intros Ht. apply add_graph in Ht.
    rewrite Ht, Hz, Hcd, Hc, Hd. cbn [detach graph as_tensor]. intros Hin.
    apply in_union in Hin as [Hin|Hin].
    + apply in_union in Hin as [Hin|[]].
      apply in_union in Hin as [Hin|Hin].
      * left. now apply in_trainable_single.
      * right. left. exists dis. split; [reflexivity|now apply in_trainable_single].
    + right. right. now apply in_trainable_single.
  - destruct (cat c (detach y) 1) as [z|e] eqn:Hz; cbn [bind]; [|discriminate].
    apply cat_graph in Hz. intros Ht. apply add_graph in Ht.
    rewrite Ht, Hz, Hc. cbn [detach graph as_tensor]. intros Hin.
    apply in_union in Hin as [Hin|Hin].
    + apply in_union in Hin as [Hin|[]]. left. now apply in_trainable_single.
    + right. right. now apply in_trainable_single.
Qed.

Lemma update_module_keeps (f : Param -> Param) (name n : string) (p : Param) (m : module) :
  untouched f -> requires_grad p = false -> grad p = None ->
  In (n, p) m -> In (n, p) (update_module f name m).
Proof.
  intros Hf Hr Hg Hin. unfold update_module. apply in_map_iff.
  exists (n, p). split; [|assumption].
  cbn [fst snd]. destruct (String.eqb n name); [|reflexivity].
  now rewrite (Hf p Hr Hg).
Qed.

Lemma update_param_keeps (f : Param -> Param) (r : ref) (l : PLLearner) (n : string)
    (p : Param) :
  untouched f -> requires_grad p = false -> grad p = None ->
  In (n, p) (net (student l)) -> In (n, p) (net (student (update_param f r l))).
Proof.
  intros Hf Hr Hg Hin. unfold update_param.
  destruct (ref_owner r); cbn [with_student with_teacher student]; [|assumption].
  destruct (ref_part r); cbn [update_wrapper net]; try assumption.
  now apply update_module_keeps.
Qed.

Lemma fold_update_keeps {A : Type} (step : PLLearner -> A -> PLLearner) (xs : list A)
    (l : PLLearner) (n : string) (p : Param) :
  (forall l x, In (n, p) (net (student l)) -> In (n, p) (net (student (step l x)))) ->
  In (n, p) (net (student l)) -> In (n, p) (net (student (fold_left step xs l))).
Proof.
  intros Hstep. revert l. induction xs as [|x xs IH]; intros l Hin; cbn [fold_left].
  - assumption.
  - apply IH. now apply Hstep.
Qed.

Lemma zero_param_untouched (set_to_none : bool) : untouched (zero_param set_to_none).
Proof. intros p _ Hg. unfold zero_param. now rewrite Hg. Qed.

Lemma accumulate_untouched (g : tensor) : untouched (accumulate g).
Proof. intros p Hr _. now apply accumulate_frozen. Qed.

Lemma step_param_untouched (rule : ParamGroup -> tensor -> tensor -> tensor)
    (g : ParamGroup) : untouched (step_param rule g).
Proof. intros p _ Hg. unfold step_param. now rewrite Hg. Qed.

Lemma training_step_keeps (batch : Type)
    (loss_and_grads : PLLearner -> batch -> result (R * list (ref * tensor)))
    (rule : ParamGroup -> tensor -> tensor -> tensor) (set_to_none : bool)
    (self self' : PLLearner) (b : batch) (loss : R) (n : string) (p : Param) :
  requires_grad p = false -> grad p = None ->
  training_step loss_and_grads rule set_to_none self b = Ok (self', loss) ->
  In (n, p) (net (student self)) -> In (n, p) (net (student self')).
Proof.
  intros Hr Hg. unfold training_step.
  destruct (update_lr self) as [s_lr|e] eqn:Hlr; cbn [bind]; [|discriminate].
  destruct (loss_and_grads s_lr b) as [lg|e]; cbn [bind]; [|discriminate].
  destruct (momentum_update _) as [s_m|e] eqn:Hm; cbn [bind]; [|discriminate].
  intros H Hin. inversion H; subst s_m loss; clear H.
  destruct (update_lr_frame _ _ Hlr) as (Ls & _).
  destruct (momentum_update_frame _ _ Hm) as (Ms & _).
  rewrite Ms. cbn [add_scalar student].
  unfold optimizer_step.
  destruct (optimizer (manual_backward _ _)) as [groups|]; cbn [with_call student].
  2:{ unfold manual_backward. cbn [with_call student].
      apply fold_update_keeps.
      { intros l0 x0. apply update_param_keeps; auto using accumulate_untouched. }
      unfold zero_grad. destruct (optimizer s_lr) as [gs|]; cbn [with_call student];
        [|now rewrite Ls].
      apply fold_update_keeps; [|now rewrite Ls].
      intros l0 x0. apply update_param_keeps; auto using zero_param_untouched. }
  apply fold_update_keeps.
  { intros l0 g0. unfold step_group. apply fold_update_keeps.
    intros l1 r1. apply update_param_keeps; auto using step_param_untouched. }
  unfold manual_backward. cbn [with_call student].
  apply fold_update_keeps.
  { intros l0 x0. apply update_param_keeps; auto using accumulate_untouched. }
  unfold zero_grad. destruct (optimizer s_lr) as [gs|]; cbn [with_call student];
    [|now rewrite Ls].
  apply fold_update_keeps; [|now rewrite Ls].
  intros l0 x0. apply update_param_keeps; auto using zero_param_untouched.
Qed.

Lemma fit_keeps (batch : Type)
    (loss_and_grads : PLLearner -> batch -> result (R * list (ref * tensor)))
    (rule : ParamGroup -> tensor -> tensor -> tensor) (set_to_none : bool)
    (batches : list batch) (self self' : PLLearner) (n : string) (p : Param) :
  requires_grad p = false -> grad p = None ->
  fit loss_and_grads rule set_to_none self batches = Ok self' ->
  In (n, p) (net (student self)) -> In (n, p) (net (student self')).
Proof.
  intros Hr Hg. revert self.
  induction batches as [|b rest IH]; intros self; cbn [fit].
  - intros H. now inversion H.
  - destruct (training_step loss_and_grads rule set_to_none self b) as [[s loss]|e] eqn:Hs;
      cbn [bind fst]; [|discriminate].
    intros Hfit Hin. apply (IH _ Hfit). cbn [with_global_step student].
    now apply (training_step_keeps _ _ _ _ _ _ _ _ _ _ Hr Hg Hs).
Qed.

Lemma patch_embed_frozen (kw : Config) (vit : VisionTransformer) :
  VisionTransformer_init kw = Ok vit ->
  exists img,
    nth_error (img_size kw) 0 = Some img /\
    c_weight (pe_proj (patch_embed vit))
    = mkPInfo "patch_embed.proj.weight"
        [embed_dim kw; in_chans kw; patch_size kw; patch_size kw] false /\
    c_bias (pe_proj (patch_embed vit))
    = mkPInfo "patch_embed.proj.bias" [embed_dim kw] false /\
    p_name (cls_token vit) = "cls_token"%string /\
    p_name (pos_embed vit) = "pos_embed"%string /\
    (forall dis, self_dis_token vit = Some dis -> p_name dis = "dis_token"%string).
Proof.
  intros Hinit.
  apply VisionTransformer_init_inv in Hinit
    as (img & pe & bs & Himg & Hpe & _ & _ & _ & Hpatch & Hcls & Hdis & Hpos & _).
  apply PatchEmbed_init_inv in Hpe as [_ ->].
  exists img. rewrite Hpatch, Hcls, Hpos, Hdis.
  repeat split; try reflexivity; try assumption.
  intros dis. destruct (dis_token kw); intros H; inversion H. reflexivity.
Qed.

(** C9.  In a constructed model the weight and the bias of the patch
    projection are registered with [requires_grad = False]; with
    [dino=False] the token sequence of [prepare_tokens] does not reach them
    through the autograd graph; and when the student's backbone holds the
    parameters of the model, every sequence of training steps leaves the
    data of the two parameters as it was, without a gradient. *)
Theorem C9_patch_projection_never_trained (kw : Config) (vit : VisionTransformer) :
  VisionTransformer_init kw = Ok vit ->
  (p_requires_grad (c_weight (pe_proj (patch_embed vit))) = false /\
   p_requires_grad (c_bias (pe_proj (patch_embed vit))) = false /\
   In (mkPInfo "patch_embed.proj.weight"
         [embed_dim kw; in_chans kw; patch_size kw; patch_size kw] false)
      (named_parameters vit) /\
   In (mkPInfo "patch_embed.proj.bias" [embed_dim kw] false) (named_parameters vit)) /\
  (forall x t,
      prepare_tokens vit x false = Ok t ->
      ~ In "patch_embed.proj.weight"%string (graph t) /\
      ~ In "patch_embed.proj.bias"%string (graph t)) /\
  (forall (batch : Type)
          (loss_and_grads : PLLearner -> batch -> result (R * list (ref * tensor)))
          (optimizer_rule : ParamGroup -> tensor -> tensor -> tensor)
          (set_to_none : bool) (weights : string -> tensor)
          (self self' : PLLearner) (batches : list batch),
      net (student self) = module_of_vit vit weights ->
      fit loss_and_grads optimizer_rule set_to_none self batches = Ok self' ->
      forall name,
        name = "patch_embed.proj.weight"%string \/ name = "patch_embed.proj.bias"%string ->
        exists p,
          In (name, p) (net (student self')) /\
          data p = weights name /\ requires_grad p = false /\ grad p = None).
Proof.
  intros Hinit.
  destruct (patch_embed_frozen kw vit Hinit)
    as (img & Himg & Hw & Hb & Hcls & Hpos & Hdis).
  assert (Hnamed :
    In (mkPInfo "patch_embed.proj.weight"
          [embed_dim kw; in_chans kw; patch_size kw; patch_size kw] false)
       (named_parameters vit) /\
    In (mkPInfo "patch_embed.proj.bias" [embed_dim kw] false) (named_parameters vit)).
  { unfold named_parameters, Conv2d_parameters. rewrite Hw, Hb.
    split; right; apply in_or_app; right; apply in_or_app; right;
      apply in_or_app; left; [left|right; left]; reflexivity. }
  split; [|split].
  - rewrite Hw, Hb. repeat split; try reflexivity; apply Hnamed.
  - intros x t Ht.
    split; intros Hin;
      destruct (prepare_tokens_detached vit x t _ Ht Hin)
        as [Hn|[(dis & Hd & Hn)|Hn]];
      try rewrite (Hdis dis Hd) in Hn; try rewrite Hcls in Hn; try rewrite Hpos in Hn;
      discriminate.
  - intros batch loss_and_grads optimizer_rule set_to_none weights self self' batches
           Hnet Hfit name Hname.
    destruct Hnamed as [Hnw Hnb].
    destruct Hname as [-> | ->].
    + exists {| data := weights "patch_embed.proj.weight"%string; ndim := 4;
                requires_grad := false; grad := None |}.
      split; [|repeat split].
      eapply fit_keeps; [reflexivity|reflexivity|exact Hfit|].
      rewrite Hnet. unfold module_of_vit.
      apply in_map_iff. eexists. split; [|exact Hnw]. reflexivity.
    + exists {| data := weights "patch_embed.proj.bias"%string; ndim := 1;
                requires_grad := false; grad := None |}.
      split; [|repeat split].
      eapply fit_keeps; [reflexivity|reflexivity|exact Hfit|].
      rewrite Hnet. unfold module_of_vit.
      apply in_map_iff. eexists. split; [|exact Hnb]. reflexivity.
Qed.

Lemma C9_witness :
  exists vit,
    VisionTransformer_init vit_small_224 = Ok vit /\
    p_requires_grad (c_weight (pe_proj (patch_embed vit))) = false /\
    p_requires_grad (c_bias (pe_proj (patch_embed vit))) = false.
Proof.
  destruct (VisionTransformer_init vit_small_224) as [vit|e] eqn:Hinit;
    [|vm_compute in Hinit; discriminate].
  exists vit. split; [reflexivity|].
  destruct (C9_patch_projection_never_trained vit_small_224 vit Hinit)
    as [(Hw & Hb & _) _].
  split; assumption.
Defined.

(* ------------------------------------------------------------------ *)
(** ** The k-NN vote *)

Lemma sum_list_nonneg (g : nat -> R) (l : list nat) :
  (forall i, 0 <= g i)%R -> (0 <= sum_list (map g l))%R.
Proof.
  intros Hg. induction l as [|i l IH]; cbn [map sum_list fold_right]; [lra|].
  fold (sum_list (map g l)). pose proof (Hg i). lra.
Qed.

Lemma sum_list_member (g : nat -> R) (l : list nat) (d : nat) :
  (forall i, 0 <= g i)%R -> In d l -> (g d <= sum_list (map g l))%R.
Proof.
  intros Hg. induction l as [|i l IH]; cbn [map sum_list fold_right In]; [intros []|].
  fold (sum_list (map g l)). intros [->|Hin].
  - pose proof (sum_list_nonneg g l Hg). lra.
  - pose proof (IH Hin). pose proof (Hg i). lra.
Qed.

Lemma sum_list_le (g h : nat -> R) (l : list nat) :
  (forall i, In i l -> g i <= h i)%R ->
  (sum_list (map g l) <= sum_list (map h l))%R.
Proof.
  induction l as [|i l IH]; cbn [map sum_list fold_right]; intros H; [lra|].
  fold (sum_list (map g l)) (sum_list (map h l)).
  pose proof (H i (or_introl eq_refl)).
  assert (sum_list (map g l) <= sum_list (map h l))%R
    by (apply IH; intros j Hj; apply H; now right).
  lra.
Qed.

(** A sum of at most [n] terms, each below [b]. *)
Lemma sum_list_lt (g : nat -> R) (l : list nat) (n : nat) (b : R) :
  (0 < b)%R -> 0 < n -> length l <= n ->
  (forall i, In i l -> g i < b)%R ->
  (sum_list (map g l) < INR n * b)%R.
Proof.
  intros Hb. revert n. induction l as [|i l IH]; intros n Hn Hlen Hg;
    cbn [map sum_list fold_right].
  - apply Rmult_lt_0_compat; [now apply lt_0_INR|assumption].
  - fold (sum_list (map g l)). cbn [length] in Hlen.
    destruct n as [|n]; [lia|].
    pose proof (Hg i (or_introl eq_refl)) as Hi.
    rewrite S_INR.
    destruct l as [|i' l'].
    + cbn [map sum_list fold_right].
      pose proof (pos_INR n). nra.
    + assert (Hrec : (sum_list (map g (i' :: l')) < INR n * b)%R).
      { apply IH; [cbn [length] in Hlen; lia|cbn [length] in *; lia|].
        intros j Hj. apply Hg. now right. }
      lra.
Qed.

(** The terms a predicate selects: summing the others as zero. *)
Lemma sum_list_filter (keep : nat -> bool) (w : nat -> R) (l : list nat) :
  sum_list (map (fun i => if keep i then w i else 0%R) l)
  = sum_list (map w (filter keep l)).
Proof.
  unfold sum_list.
  induction l as [|i l IH]; cbn [map filter fold_right]; [reflexivity|].
  rewrite IH. destruct (keep i); cbn [map fold_right].
  - reflexivity.
  - lra.
Qed.

Lemma filter_drops {A : Type} (keep : A -> bool) (l : list A) (d : A) :
  In d l -> keep d = false -> length (filter keep l) < length l.
Proof.
  induction l as [|x l IH]; cbn [In filter length]; [intros []|].
  intros [->|Hin] Hd.
  - rewrite Hd. pose proof (filter_length_le keep l). lia.
  - specialize (IH Hin Hd). destruct (keep x); cbn [length]; lia.
Qed.

Lemma map2_map {A B C D : Type} (f : B -> C -> D) (a : A -> B) (b : A -> C) (l : list A) :
  map2 f (map a l) (map b l) = map (fun i => f (a i) (b i)) l.
Proof.
  induction l as [|x l IH]; cbn [map map2]; [reflexivity|]. now rewrite IH.
Qed.

(** The vote for class [c], neighbour by neighbour. *)
Lemma probs_entry (labels : nat -> nat) (w : nat -> R) (indices : list nat) (c : nat) :
  c < Knn.num_classes ->
  nth c (Knn.probs (map labels indices) (map w indices)) 0%R
  = sum_list (map (fun i => (Knn.one_hot (labels i) c * w i)%R) indices).
Proof.
  intros Hc. unfold Knn.probs. rewrite nth_map_seq by assumption.
  now rewrite map2_map.
Qed.

Lemma probs_length (retrieved : list nat) (weights : list R) :
  length (Knn.probs retrieved weights) = Knn.num_classes.
Proof. unfold Knn.probs. now rewrite length_map, length_seq. Qed.

(** The class with the strictly largest vote comes first in the sorted
    predictions. *)
Lemma sort_desc_head (row : list R) (order : list nat) (y : nat) :
  Knn.is_sort_desc row order ->
  y < length row ->
  (forall c, c < length row -> c <> y -> (nth c row 0 < nth y row 0)%R) ->
  exists rest, order = y :: rest.
Proof.
  intros [Hperm Hdesc] Hy Hmax.
  assert (Hin : In y order).
  { apply (Permutation_in _ (Permutation_sym Hperm)). apply in_seq. lia. }
  destruct order as [|p rest]; [destruct Hin|].
  destruct (Nat.eq_dec p y) as [->|Hne]; [now exists rest|].
  exfalso.
  destruct Hin as [Heq|Hin]; [contradiction|].
  assert (Hp : p < length row).
  { assert (In p (seq 0 (length row)))
      by (apply (Permutation_in _ Hperm); now left).
    apply in_seq in H. lia. }
  cbn [map] in Hdesc. apply StronglySorted_inv in Hdesc as [_ Hall].
  rewrite Forall_forall in Hall.
  specialize (Hall (nth y row 0%R) (in_map (fun c => nth c row 0%R) rest y Hin)).
  specialize (Hmax p Hp Hne). lra.
Qed.

Lemma dot_self_scaled (n : R) (v : list R) :
  n <> 0%R ->
  dot (map (fun x => (x / n)%R) v) (map (fun x => (x / n)%R) v)
  = (sum_list (map (fun x => (x * x)%R) v) / (n * n))%R.
Proof.
  intros Hn. unfold dot, sum_list.
  induction v as [|x v IH]; cbn [map map2 fold_right].
  - field. assumption.
  - rewrite IH. field. assumption.
Qed.

(** A vector whose norm is not below [eps] has cosine 1 with itself. *)
Lemma self_similarity (v : list R) :
  (normalize_eps <= l2norm v)%R ->
  dot (normalize_row v) (normalize_row v) = 1%R.
Proof.
  intros Hv. unfold normalize_row. rewrite (Rmax_left _ _ Hv).
  pose proof normalize_eps_pos as Heps.
  rewrite dot_self_scaled by lra.
  unfold l2norm in *. rewrite sqrt_sqrt by apply sum_squares_nonneg.
  apply Rdiv_diag.
  intros H0. rewrite H0, sqrt_0 in Hv. lra.
Qed.

Lemma similarity_entry (feature : list R) (bank : matrix) (i : nat) :
  i < length bank ->
  nth i (map (dot feature) (normalize bank)) 0%R
  = dot feature (normalize_row (nth i bank [])).
Proof.
  intros Hi. unfold normalize. rewrite map_map.
  rewrite (nth_indep _ 0%R (dot feature (normalize_row []))) by (now rewrite length_map).
  now rewrite (map_nth (fun r => dot feature (normalize_row r)) bank [] i).
Qed.

(** On a well separated bank every outcome of the vote puts the label of
    the sample first. *)
Lemma predicts_target_first (bank_features : matrix) (bank_labels : list nat)
    (v : list R) (y : nat) (predictions : list nat) :
  length bank_labels = length bank_features ->
  Forall (fun l => l < Knn.num_classes) bank_labels ->
  (normalize_eps <= l2norm v)%R ->
  (exists i, i < length bank_features /\
             nth i bank_features [] = v /\ nth i bank_labels 0 = y) ->
  (forall j, j < length bank_features ->
             nth j bank_labels 0 <> y ->
             (19 * exp (dot (normalize_row v) (normalize_row (nth j bank_features []))
                        / Knn.temperature)
              < exp (1 / Knn.temperature))%R) ->
  Knn.predicts (normalize bank_features) bank_labels (normalize_row v) predictions ->
  exists rest, predictions = y :: rest.
Proof.
  intros Hlen Hlabels Hv (d & Hd & Hdv & Hdy) Hsep (_ & distances & indices & Htopk & _ & _ & Hsort).
  destruct Htopk as (Hk & Hnodup & Hrange & Hdist & _ & Hout).
  set (row := map (dot (normalize_row v)) (normalize bank_features)) in *.
  assert (Hrow : length row = length bank_features).
  { unfold row, normalize. now rewrite !length_map. }
  set (E := exp (1 / Knn.temperature)).
  set (lab := fun i => nth i bank_labels 0).
  set (w := fun i => exp (nth i row 0%R / Knn.temperature)).
  assert (Hw : map (fun x => exp (x / Knn.temperature)) distances = map w indices).
  { rewrite Hdist, map_map. reflexivity. }
  rewrite Hw in Hsort. fold lab in Hsort.
  assert (Hy : y < Knn.num_classes).
  { rewrite <- Hdy. rewrite Forall_forall in Hlabels. apply Hlabels.
    apply nth_In. lia. }
  assert (Hwpos : forall i, (0 < w i)%R) by (intros i; apply exp_pos).
  assert (Hwd : w d = E).
  { unfold w, E, row. rewrite similarity_entry by assumption.
    now rewrite Hdv, self_similarity. }
  assert (Hother : forall i, In i indices -> lab i <> y -> (w i < E / 19)%R).
  { intros i Hi Hl. rewrite Forall_forall in Hrange.
    pose proof (Hrange i Hi) as Hir. rewrite Hrow in Hir.
    specialize (Hsep i Hir Hl). unfold w, row.
    rewrite similarity_entry by assumption. fold E in Hsep. lra. }
  apply (sort_desc_head _ _ y Hsort).
  { now rewrite probs_length. }
  intros c Hc Hcy. rewrite probs_length in Hc.
  rewrite !probs_entry by assumption.
  assert (Hnonneg : forall c' i, (0 <= Knn.one_hot (lab i) c' * w i)%R).
  { intros c' i. unfold Knn.one_hot. pose proof (Hwpos i).
    destruct (lab i =? c'); lra. }
  destruct (in_dec Nat.eq_dec d indices) as [Hin|Hnin].
  - (* the duplicate is among the neighbours *)
    assert (Hvote_y : (E <= sum_list (map (fun i => Knn.one_hot (lab i) y * w i) indices))%R).
    { pose proof (sum_list_member (fun i => (Knn.one_hot (lab i) y * w i)%R) indices d
                    (Hnonneg y) Hin) as H.
      cbn beta in H. unfold Knn.one_hot in H at 1. unfold lab in H at 1.
      rewrite Hdy, Nat.eqb_refl, Hwd in H. lra. }
    assert (Hvote_c :
      (sum_list (map (fun i => Knn.one_hot (lab i) c * w i) indices)
       <= sum_list (map w (filter (fun i => negb (lab i =? y)) indices)))%R).
    { rewrite <- sum_list_filter. apply sum_list_le. intros i _.
      unfold Knn.one_hot. pose proof (Hwpos i).
      destruct (lab i =? c) eqn:Hic; destruct (lab i =? y) eqn:Hiy; cbn [negb]; try lra.
      apply Nat.eqb_eq in Hic, Hiy. congruence. }
    assert (Hcount : length (filter (fun i => negb (lab i =? y)) indices) <= 19).
    { assert (length (filter (fun i => negb (lab i =? y)) indices) < length indices).
      { apply (filter_drops _ _ d Hin). unfold lab. now rewrite Hdy, Nat.eqb_refl. }
      rewrite Hk in H. unfold Knn.k in H. lia. }
    assert (HE : (0 < E / 19)%R) by (unfold E; pose proof (exp_pos (1 / Knn.temperature)); lra).
    pose proof (sum_list_lt w _ 19 (E / 19) HE ltac:(lia) Hcount) as Hlt.
    assert (Hbound : (sum_list (map w (filter (fun i => negb (lab i =? y)) indices))
                      < INR 19 * (E / 19))%R).
    { apply Hlt. intros i Hi. apply filter_In in Hi as [Hi Hl].
      apply Hother; [assumption|].
      apply negb_true_iff, Nat.eqb_neq in Hl. exact Hl. }
    replace (INR 19) with 19%R in Hbound by (cbn; lra).
    lra.
  - (* the duplicate was left out: every neighbour is as close, and has the
       label of the sample *)
    assert (Hall : forall i, In i indices -> lab i = y).
    { intros i Hi. destruct (Nat.eq_dec (lab i) y) as [|Hl]; [assumption|exfalso].
      pose proof (Hother i Hi Hl) as Hwi.
      assert (Hdr : d < length row) by (now rewrite Hrow).
      pose proof (Hout d Hdr Hnin) as Hfar. rewrite Forall_forall in Hfar.
      assert (Hle : (nth d row 0 <= nth i row 0)%R).
      { apply Hfar. rewrite Hdist. now apply (in_map (fun i => nth i row 0%R)). }
      assert (Hmono : (w d <= w i)%R).
      { unfold w. unfold Knn.temperature.
        destruct Hle as [Hlt|Heq].
        - left. apply exp_increasing. apply Rmult_lt_compat_r; [|assumption].
          apply Rinv_0_lt_compat. lra.
        - right. now rewrite Heq. }
      rewrite Hwd in Hmono. pose proof (exp_pos (1 / Knn.temperature)). fold E in H. lra. }
    assert (Hzero : sum_list (map (fun i => (Knn.one_hot (lab i) c * w i)%R) indices) = 0%R).
    { clear -Hall Hcy. unfold sum_list.
      induction indices as [|i l IH]; cbn [map fold_right]; [reflexivity|].
      rewrite IH by (intros j Hj; apply Hall; now right).
      unfold Knn.one_hot. rewrite (Hall i (or_introl eq_refl)).
      assert (Hne : (y =? c) = false) by (apply Nat.eqb_neq; congruence).
      rewrite Hne. lra. }
    rewrite Hzero.
    destruct indices as [|i0 rest]; [unfold Knn.k in Hk; discriminate|].
    pose proof (sum_list_member (fun i => (Knn.one_hot (lab i) y * w i)%R) (i0 :: rest) i0
                  (Hnonneg y) (or_introl eq_refl)) as H.
    cbn beta in H. unfold Knn.one_hot in H at 1.
    rewrite (Hall i0 (or_introl eq_refl)), Nat.eqb_refl in H.
    pose proof (Hwpos i0). lra.
Qed.

(* ------------------------------------------------------------------ *)
(** ** [topk] and [sort] have outcomes *)

Lemma desc_insert (f : nat -> R) (x : nat) (l : list nat) :
  Knn.desc (map f l) ->
  exists l', Permutation l' (x :: l) /\ Knn.desc (map f l').
Proof.
  unfold Knn.desc. induction l as [|a l IH]; intros Hs.
  - exists [x]. split; [reflexivity|]. cbn [map]. repeat constructor.
  - cbn [map] in Hs. apply StronglySorted_inv in Hs as [Hs Ha].
    destruct (Rle_or_lt (f a) (f x)) as [Hle|Hlt].
    + exists (x :: a :: l). split; [reflexivity|].
      cbn [map]. constructor; [constructor; assumption|].
      constructor; [assumption|].
      rewrite Forall_forall in *. intros b Hb. specialize (Ha b Hb). lra.
    + destruct (IH Hs) as (l' & Hperm & Hs').
      exists (a :: l'). split.
      * rewrite Hperm. apply perm_swap.
      * cbn [map]. constructor; [assumption|].
        rewrite Forall_forall in *. intros b Hb.
        apply in_map_iff in Hb as (i & <- & Hi).
        apply (Permutation_in _ Hperm) in Hi. destruct Hi as [->|Hi]; [lra|].
        apply Ha. now apply in_map.
Qed.

Lemma desc_sort_exists (f : nat -> R) (l : list nat) :
  exists l', Permutation l' l /\ Knn.desc (map f l').
Proof.
  induction l as [|x l (l' & Hperm & Hs)].
  - exists []. split; [reflexivity|constructor].
  - destruct (desc_insert f x l' Hs) as (l'' & Hperm' & Hs').
    exists l''. split; [|assumption].
    rewrite Hperm'. now constructor.
Qed.

Lemma sort_exists (row : list R) : exists order, Knn.is_sort_desc row order.
Proof. apply desc_sort_exists. Qed.

Lemma desc_app (l1 l2 : list R) :
  Knn.desc (l1 ++ l2) ->
  Knn.desc l1 /\ forall a b, In a l1 -> In b l2 -> (b <= a)%R.
Proof.
  unfold Knn.desc. induction l1 as [|x l1 IH]; cbn [app]; intros Hs.
  - split; [constructor|]. intros a b [].
  - apply StronglySorted_inv in Hs as [Hs Hx].
    destruct (IH Hs) as [Hs1 Hcross].
    apply Forall_app in Hx as [Hx1 Hx2].
    split; [now constructor|].
    intros a b [->|Ha] Hb.
    + rewrite Forall_forall in Hx2. now apply Hx2.
    + now apply Hcross.
Qed.

Lemma topk_exists (row : list R) :
  Knn.k <= length row -> exists distances indices, Knn.is_topk row distances indices.
Proof.
  intros Hk.
  destruct (sort_exists row) as (order & Hperm & Hs).
  set (f := fun i => nth i row 0%R) in *.
  exists (map f (firstn Knn.k order)), (firstn Knn.k order).
  assert (Hlen : length order = length row).
  { rewrite (Permutation_length Hperm). apply length_seq. }
  assert (Hsplit : order = firstn Knn.k order ++ skipn Knn.k order)
    by (symmetry; apply firstn_skipn).
  assert (Hnd : NoDup order).
  { apply (Permutation_NoDup (Permutation_sym Hperm)). apply seq_NoDup. }
  rewrite Hsplit, map_app in Hs. apply desc_app in Hs as [Hs1 Hcross].
  repeat split.
  - rewrite length_firstn. lia.
  - rewrite Hsplit in Hnd. now apply NoDup_app_remove_r in Hnd.
  - rewrite Forall_forall. intros i Hi.
    assert (In i order) by (rewrite Hsplit; apply in_or_app; now left).
    apply (Permutation_in _ Hperm), in_seq in H. lia.
  - assumption.
  - intros j Hj Hnot. rewrite Forall_forall. intros dist Hdist.
    apply (Hcross dist (f j) Hdist).
    apply in_map.
    assert (Hjo : In j order).
    { apply (Permutation_in _ (Permutation_sym Hperm)). apply in_seq. lia. }
    rewrite Hsplit in Hjo. apply in_app_or in Hjo as [Hjo|Hjo]; [contradiction|assumption].
Qed.

Lemma predicts_exists (train_features : matrix) (train_labels : list nat)
    (feature : list R) :
  has_width (length feature) train_features = true ->
  Knn.k <= length train_features ->
  length train_labels = length train_features ->
  Forall (fun l => l < Knn.num_classes) train_labels ->
  exists predictions, Knn.predicts train_features train_labels feature predictions.
Proof.
  intros Hw Hk Hlen Hlabels.
  assert (Hrow : length (map (dot feature) train_features) = length train_features)
    by apply length_map.
  destruct (topk_exists (map (dot feature) train_features)) as (distances & indices & Htopk);
    [now rewrite Hrow|].
  destruct (sort_exists
              (Knn.probs (map (fun i => nth i train_labels 0) indices)
                         (map (fun d => exp (d / Knn.temperature)) distances)))
    as (predictions & Hsort).
  exists predictions. split; [assumption|].
  exists distances, indices.
  assert (Hrange : Forall (fun i => i < length train_labels) indices).
  { destruct Htopk as (_ & _ & Hr & _). rewrite Hlen, <- Hrow. exact Hr. }
  repeat split; try assumption; try apply Htopk; try apply Hsort.
  rewrite Forall_forall in *. intros i Hi. apply Hlabels, nth_In. now apply Hrange.
Qed.

Lemma Forall2_exists {A B : Type} (P : A -> B -> Prop) (l : list A) :
  Forall (fun a => exists b, P a b) l -> exists bs, Forall2 P l bs.
Proof.
  induction 1 as [|a l [b Hb] _ [bs Hbs]].
  - exists []. constructor.
  - exists (b :: bs). now constructor.
Qed.

(* ------------------------------------------------------------------ *)
(** ** The accuracy the evaluation reports *)

Lemma has_width_normalize (d : nat) (x : matrix) :
  has_width d (normalize x) = has_width d x.
Proof.
  unfold has_width, normalize. induction x as [|r x IH]; cbn [map forallb]; [reflexivity|].
  rewrite IH. unfold normalize_row. now rewrite length_map.
Qed.

Lemma count_correct_all (samples : list (list R * nat)) (predictions : list (list nat)) :
  Forall2 (fun sample p => exists rest, p = snd sample :: rest) samples predictions ->
  Knn.count_correct 1 (map snd samples) predictions = length samples.
Proof.
  unfold Knn.count_correct.
  induction 1 as [|s p samples predictions [rest ->] _ IH];
    cbn [map map2 fold_right length]; [reflexivity|].
  rewrite IH. unfold Knn.correct. cbn [firstn existsb].
  now rewrite Nat.eqb_refl.
Qed.

Lemma Forall2_impl_in {A B : Type} (P Q : A -> B -> Prop) (l : list A) (l' : list B) :
  Forall (fun a => forall b, P a b -> Q a b) l ->
  Forall2 P l l' -> Forall2 Q l l'.
Proof.
  intros H H2. induction H2 as [|a b l l' Hab _ IH]; [constructor|].
  inversion H as [|? ? Ha Hl]; subst. constructor; [now apply Ha|now apply IH].
Qed.

(** Over the reals.  When every validation sample has an exact duplicate
    in the reference bank with its label, and moreover has a norm of at
    least [1e-12], and every reference feature with another label is so far
    from the sample that 19 votes of weight [exp(similarity / 0.07)] stay
    below one vote of weight [exp(1 / 0.07)] (a cosine below about 0.79),
    the bank holding at least 20 features with labels below 1000: the
    evaluation has an outcome, and every outcome reports a top-1 accuracy of
    exactly 100. *)
Lemma knn_top1_on_well_separated_bank
    (outs_by_rank : list (list (matrix * list nat)))
    (val_loader : list (list (list R * nat))) :
  Knn.well_separated
    (concat (map (fun outs => concat (map fst outs)) outs_by_rank))
    (concat (map (fun outs => concat (map snd outs)) outs_by_rank))
    (concat val_loader) ->
  concat val_loader <> [] ->
  (exists top1 top5, Knn.validation_epoch_end outs_by_rank val_loader top1 top5) /\
  (forall top1 top5,
      Knn.validation_epoch_end outs_by_rank val_loader top1 top5 -> top1 = 100%R).
Proof.
  set (bank_features := concat (map (fun outs => concat (map fst outs)) outs_by_rank)).
  set (bank_labels := concat (map (fun outs => concat (map snd outs)) outs_by_rank)).
  intros (Hlen & Hk & Hlabels & Hsamples) Hne.
  assert (Htotal : length (concat val_loader) <> 0).
  { destruct (concat val_loader); [congruence|discriminate]. }
  split.
  - assert (Hex : exists predictions,
              Forall2 (fun sample p =>
                         Knn.predicts (normalize bank_features) bank_labels
                                      (normalize_row (fst sample)) p)
                      (concat val_loader) predictions).
    { apply Forall2_exists. rewrite Forall_forall in Hsamples |- *. intros s Hs.
      destruct (Hsamples s Hs) as (_ & Hw & _).
      apply predicts_exists; try assumption.
      - rewrite has_width_normalize. unfold normalize_row. now rewrite length_map.
      - unfold normalize. now rewrite length_map.
      - unfold normalize. now rewrite length_map. }
    destruct Hex as (predictions & Hp).
    eexists; eexists. unfold Knn.validation_epoch_end. cbn zeta.
    exists predictions. fold bank_features bank_labels.
    split; [exact Hp|]. split; [exact Htotal|]. split; reflexivity.
  - intros top1 top5 (predictions & Hp & _ & -> & _).
    fold bank_features bank_labels in Hp.
    assert (Hfirst : Forall2 (fun sample p => exists rest, p = snd sample :: rest)
                             (concat val_loader) predictions).
    { apply (Forall2_impl_in
               (fun sample p =>
                  Knn.predicts (normalize bank_features) bank_labels
                               (normalize_row (fst sample)) p)
               _ _ _); [|exact Hp].
      rewrite Forall_forall in Hsamples |- *. intros s Hs p Hpred.
      destruct (Hsamples s Hs) as (Hv & _ & Hdup & Hsep).
      exact (predicts_target_first bank_features bank_labels (fst s) (snd s) p
               Hlen Hlabels Hv Hdup Hsep Hpred). }
    rewrite (count_correct_all _ _ Hfirst).
    field. now apply not_0_INR.
Qed.

(** Nineteen votes at a cosine of at most 1/2 weigh less than one vote at
    cosine 1. *)
Lemma half_votes (d : R) :
  (d <= 1 / 2)%R ->
  (19 * exp (d / Knn.temperature) < exp (1 / Knn.temperature))%R.
Proof.
  intros Hd. unfold Knn.temperature.
  assert (Hmono : (exp (d / (7 / 100)) <= exp (50 / 7))%R).
  { destruct (Req_dec (d / (7 / 100)) (50 / 7)) as [->|Hne]; [lra|].
    left. apply exp_increasing. lra. }
  replace (1 / (7 / 100))%R with (50 / 7 + 50 / 7)%R by lra. rewrite exp_plus.
  assert (H1 : (1 + 25 / 7 < exp (25 / 7))%R) by (apply exp_ineq1; lra).
  assert (H2 : (exp (50 / 7) = exp (25 / 7) * exp (25 / 7))%R).
  { rewrite <- exp_plus. f_equal. lra. }
  pose proof (exp_pos (d / (7 / 100))) as Hp.
  assert (H3 : (19 < exp (50 / 7))%R) by (rewrite H2; nra).
  nra.
Qed.

Lemma in_range_row_norm (v : list R) :
  Forall in_range v -> Exists (fun a => a <> 0%R) v -> (normalize_eps <= l2norm v)%R.
Proof.
  intros Hv Hex. apply Exists_exists in Hex as (a & Hin & Ha).
  rewrite Forall_forall in Hv. destruct (Hv a Hin) as [->|Hr]; [now elim Ha|].
  pose proof (l2norm_ge_entry a v Hin). pose proof eps_below_range. lra.
Qed.

Lemma clearly_separated_well (bank_features : matrix) (bank_labels : list nat)
    (samples : list (list R * nat)) :
  Knn.clearly_separated bank_features bank_labels samples ->
  Knn.well_separated bank_features bank_labels samples.
Proof.
  intros (Hlen & Hk & Hlabels & _ & Hsamples).
  split; [exact Hlen|]. split; [exact Hk|]. split; [exact Hlabels|].
  eapply Forall_impl; [|exact Hsamples].
  intros s (Hr & Hnz & Hw & Hdup & Hsep).
  split; [now apply in_range_row_norm|]. split; [exact Hw|]. split; [exact Hdup|].
  intros j Hj Hne. apply half_votes. now apply Hsep.
Qed.

(** The claim C6 as amended.  The validation set is not empty; the bank
    holds at least 20 features with labels below 1000; every entry of the
    bank and of the samples is zero or of a magnitude between [2^-30] and
    [2^30]; every validation sample has an entry that is not zero and an
    exact duplicate in the bank with its label; and every feature of the
    bank with another label is at a cosine of at most 1/2 of the sample.
    Then the evaluation has an outcome, and every outcome reports a top-1
    accuracy of exactly 100. *)
Theorem C6_knn_top1_on_separated_bank
    (outs_by_rank : list (list (matrix * list nat)))
    (val_loader : list (list (list R * nat))) :
  Knn.clearly_separated
    (concat (map (fun outs => concat (map fst outs)) outs_by_rank))
    (concat (map (fun outs => concat (map snd outs)) outs_by_rank))
    (concat val_loader) ->
  concat val_loader <> [] ->
  (exists top1 top5, Knn.validation_epoch_end outs_by_rank val_loader top1 top5) /\
  (forall top1 top5,
      Knn.validation_epoch_end outs_by_rank val_loader top1 top5 -> top1 = 100%R).
Proof.
  intros Hsep Hne.
  apply knn_top1_on_well_separated_bank; [|exact Hne].
  now apply clearly_separated_well.
Qed.

(* ------------------------------------------------------------------ *)
(** ** Two evaluation sets *)

Lemma sum_list_perm (g : nat -> R) (l l' : list nat) :
  Permutation l l' -> sum_list (map g l) = sum_list (map g l').
Proof.
  unfold sum_list.
  induction 1 as [|x l l' _ IH|x y l|l l' l'' _ IH1 _ IH2]; cbn [map fold_right].
  - reflexivity.
  - now rewrite IH.
  - lra.
  - now rewrite IH1.
Qed.

(** A vector of norm 1 is its own normalisation. *)
Lemma normalize_row_unit (v : list R) :
  sum_list (map (fun x => (x * x)%R) v) = 1%R -> normalize_row v = v.
Proof.
  intros H. unfold normalize_row, l2norm. rewrite H, sqrt_1.
  rewrite Rmax_left by (unfold normalize_eps; lra).
  rewrite <- (map_id v) at 2. apply map_ext. intros x. lra.
Qed.

Lemma l2norm_unit (v : list R) :
  sum_list (map (fun x => (x * x)%R) v) = 1%R -> (normalize_eps <= l2norm v)%R.
Proof.
  intros H. unfold l2norm. rewrite H, sqrt_1. unfold normalize_eps. lra.
Qed.

Lemma unit_10 : sum_list (map (fun x => (x * x)%R) [1; 0]%R) = 1%R.
Proof. unfold sum_list. cbn [map fold_right]. lra. Qed.

Lemma unit_01 : sum_list (map (fun x => (x * x)%R) [0; 1]%R) = 1%R.
Proof. unfold sum_list. cbn [map fold_right]. lra. Qed.

Lemma unit_near : sum_list (map (fun x => (x * x)%R) [24 / 25; 7 / 25]%R) = 1%R.
Proof. unfold sum_list. cbn [map fold_right]. lra. Qed.

(** The similarities of the sample [[1; 0]] to the bank [near_features]. *)
Lemma near_row :
  map (dot (normalize_row [1; 0]%R)) (normalize Knn.near_features)
  = 1%R :: repeat (24 / 25)%R 19.
Proof.
  unfold Knn.near_features, normalize. cbn [map]. rewrite !map_repeat.
  rewrite (normalize_row_unit _ unit_10), (normalize_row_unit _ unit_near).
  unfold dot, sum_list. cbn [map2 fold_right].
  apply f_equal2; [lra|]. apply f_equal2; [lra|reflexivity].
Qed.

(** Nineteen votes at cosine 0.96 weigh more than one vote at cosine 1. *)
Lemma near_votes :
  (exp (1 / Knn.temperature) < 19 * exp (24 / 25 / Knn.temperature))%R.
Proof.
  unfold Knn.temperature.
  replace (1 / (7 / 100))%R with (24 / 25 / (7 / 100) + 4 / 7)%R by lra.
  rewrite exp_plus.
  pose proof (exp_pos (24 / 25 / (7 / 100))) as Hpos.
  assert (Hlt : (exp (4 / 7) < exp 1)%R) by (apply exp_increasing; lra).
  pose proof exp_le_3 as H3.
  nra.
Qed.

(** On [near_features] every outcome of the vote for the sample [[1; 0]]
    puts class 1 first. *)
Lemma near_predicts (p : list nat) :
  Knn.predicts (normalize Knn.near_features) Knn.near_labels (normalize_row [1; 0]%R) p ->
  exists rest, p = 1 :: rest.
Proof.
  intros (_ & distances & indices & Htopk & _ & _ & Hsort).
  destruct Htopk as (Hk & Hnodup & Hrange & Hdist & _ & _).
  rewrite near_row in Hrange, Hdist.
  set (row := (1 :: repeat (24 / 25) 19)%R) in *.
  assert (Hperm : Permutation indices (seq 0 20)).
  { apply NoDup_Permutation_bis; [assumption|now rewrite length_seq, Hk|].
    intros i Hi. rewrite Forall_forall in Hrange. apply in_seq.
    specialize (Hrange i Hi). unfold row in Hrange. cbn [length repeat] in Hrange. lia. }
  set (lab := fun i => nth i Knn.near_labels 0) in *.
  set (w := fun i => exp (nth i row 0%R / Knn.temperature)).
  assert (Hw : map (fun x => exp (x / Knn.temperature)) distances = map w indices).
  { rewrite Hdist, map_map. reflexivity. }
  rewrite Hw in Hsort.
  apply (sort_desc_head _ _ 1 Hsort).
  { rewrite probs_length. unfold Knn.num_classes. lia. }
  intros c Hc Hc1. rewrite probs_length in Hc.
  rewrite !probs_entry by (assumption || (unfold Knn.num_classes; lia)).
  rewrite !(sum_list_perm _ _ _ Hperm).
  unfold lab, w, row, Knn.near_labels, sum_list, Knn.one_hot.
  cbn [seq map fold_right nth repeat].
  pose proof near_votes as Hv.
  pose proof (exp_pos (24 / 25 / Knn.temperature)) as Hpos.
  set (E := exp (1 / Knn.temperature)) in *.
  set (F := exp (24 / 25 / Knn.temperature)) in *.
  destruct c as [|[|c]]; [|contradiction|]; cbn [Nat.eqb]; lra.
Qed.

Lemma near_bank :
  concat (map (fun outs : list (matrix * list nat) => concat (map fst outs)) Knn.near_outs)
  = Knn.near_features /\
  concat (map (fun outs : list (matrix * list nat) => concat (map snd outs)) Knn.near_outs)
  = Knn.near_labels.
Proof.
  unfold Knn.near_outs. cbn [map concat fst snd]. now rewrite !app_nil_r.
Qed.

(** The claim C6 fails where the duplicate is outvoted.  In the bank
    [near_features] the sample [[1; 0]] with label 0 has its exact duplicate,
    with label 0; the 19 other features, at cosine 0.96, have label 1.  The
    bank holds 20 features, so all of them are the neighbours, and the 19
    votes of weight [exp(0.96 / 0.07)] for class 1 exceed the one vote of
    weight [exp(1 / 0.07)] for class 0: the evaluation has an outcome, and
    every outcome reports a top-1 accuracy of 0, not 100. *)
Lemma C6_counterexample_outvoted_duplicate :
  Knn.has_duplicates
    (concat (map (fun outs => concat (map fst outs)) Knn.near_outs))
    (concat (map (fun outs => concat (map snd outs)) Knn.near_outs))
    (concat Knn.near_val) /\
  (exists top1 top5, Knn.validation_epoch_end Knn.near_outs Knn.near_val top1 top5) /\
  (forall top1 top5,
      Knn.validation_epoch_end Knn.near_outs Knn.near_val top1 top5 ->
      top1 = 0%R /\ top1 <> 100%R).
Proof.
  destruct near_bank as [Hf Hl]. unfold matrix in Hf, Hl.
  split; [|split].
  - change (Knn.has_duplicates Knn.near_features Knn.near_labels (concat Knn.near_val)).
    unfold Knn.has_duplicates, Knn.near_val. cbn [concat app].
    apply Forall_cons; [|apply Forall_nil].
    exists 0. unfold Knn.near_features, Knn.near_labels. cbn [length repeat nth fst snd].
    split; [lia|split; reflexivity].
  - destruct (predicts_exists (normalize Knn.near_features) Knn.near_labels
                (normalize_row [1; 0]%R)) as (p & Hp).
    + rewrite has_width_normalize. unfold normalize_row. rewrite length_map. reflexivity.
    + unfold normalize. rewrite length_map. unfold Knn.k. cbn. lia.
    + unfold normalize. rewrite length_map. reflexivity.
    + unfold Knn.near_labels. cbn [repeat]. unfold Knn.num_classes.
      repeat (apply Forall_cons; [lia|]). apply Forall_nil.
    + eexists; eexists. unfold Knn.validation_epoch_end. cbn zeta.
      unfold matrix. rewrite Hf, Hl. exists [p]. unfold Knn.near_val. cbn [concat app length].
      split; [|split; [discriminate|split; reflexivity]].
      apply Forall2_cons; [exact Hp|apply Forall2_nil].
  - intros top1 top5 (predictions & Hp & _ & -> & _).
    unfold matrix in Hp. rewrite Hf, Hl in Hp. unfold Knn.near_val in *. cbn [concat app] in *.
    inversion Hp as [|s p ss ps Hs Hrest]; subst. inversion Hrest; subst.
    cbn [fst] in Hs. destruct (near_predicts p Hs) as [rest ->].
    unfold Knn.count_correct, Knn.correct.
    cbn [map map2 fold_right firstn existsb snd Nat.eqb orb length Nat.add INR].
    split; [|intros H]; lra.
Qed.

Lemma far_dot_10_01 : dot (normalize_row [1; 0]%R) (normalize_row [0; 1]%R) = 0%R.
Proof.
  rewrite (normalize_row_unit _ unit_10), (normalize_row_unit _ unit_01).
  unfold dot, sum_list. cbn [map2 fold_right]. lra.
Qed.

Lemma far_dot_01_10 : dot (normalize_row [0; 1]%R) (normalize_row [1; 0]%R) = 0%R.
Proof.
  rewrite (normalize_row_unit _ unit_10), (normalize_row_unit _ unit_01).
  unfold dot, sum_list. cbn [map2 fold_right]. lra.
Qed.

(** Nineteen votes at cosine 0 weigh less than one vote at cosine 1. *)
Lemma far_votes : (19 * exp (0 / Knn.temperature) < exp (1 / Knn.temperature))%R.
Proof.
  unfold Knn.temperature.
  replace (0 / (7 / 100))%R with 0%R by lra. rewrite exp_0.
  replace (1 / (7 / 100))%R with (50 / 7 + 50 / 7)%R by lra. rewrite exp_plus.
  assert (H : (1 + 50 / 7 < exp (50 / 7))%R) by (apply exp_ineq1; lra).
  nra.
Qed.

Ltac far_neighbour :=
  match goal with
  | Hne : _ <> _ |- _ =>
      first [ now (exfalso; apply Hne)
            | unfold Knn.far_features; cbn [nth repeat app fst];
              rewrite ?far_dot_10_01, ?far_dot_01_10; exact far_votes ]
  end.

(** The bank [far_features] is well separated for the samples of
    [far_val]. *)
Lemma far_separated :
  Knn.well_separated
    (concat (map (fun outs => concat (map fst outs)) Knn.far_outs))
    (concat (map (fun outs => concat (map snd outs)) Knn.far_outs))
    (concat Knn.far_val).
Proof.
  change (Knn.well_separated Knn.far_features Knn.far_labels
            [([1; 0]%R, 0); ([0; 1]%R, 1)]).
  unfold Knn.well_separated.
  split; [reflexivity|]. split; [unfold Knn.k; cbn; lia|]. split.
  { unfold Knn.far_labels, Knn.num_classes. cbn [repeat app].
    repeat (apply Forall_cons; [lia|]). apply Forall_nil. }
  apply Forall_cons; [|apply Forall_cons; [|apply Forall_nil]]; cbn [fst snd].
  - split; [exact (l2norm_unit _ unit_10)|]. split; [reflexivity|]. split.
    + exists 0. split; [cbn; lia|split; reflexivity].
    + intros j Hj Hne.
      do 20 (destruct j as [|j]; [far_neighbour|]).
      cbn in Hj. lia.
  - split; [exact (l2norm_unit _ unit_01)|]. split; [reflexivity|]. split.
    + exists 10. split; [cbn; lia|split; reflexivity].
    + intros j Hj Hne.
      do 20 (destruct j as [|j]; [far_neighbour|]).
      cbn in Hj. lia.
Defined.

Lemma in_range_0_1 : in_range 0 /\ in_range 1.
Proof.
  split; [now left|]. apply in_range_small. rewrite Rabs_pos_eq; lra.
Defined.

Ltac far_cosine :=
  match goal with
  | Hne : _ <> _ |- _ =>
      first [ now (exfalso; apply Hne)
            | unfold Knn.far_features; cbn [nth repeat app fst];
              rewrite ?far_dot_10_01, ?far_dot_01_10; lra ]
  end.

(** The bank [far_features] is clearly separated for the samples of
    [far_val]. *)
Lemma far_clearly_separated :
  Knn.clearly_separated
    (concat (map (fun outs => concat (map fst outs)) Knn.far_outs))
    (concat (map (fun outs => concat (map snd outs)) Knn.far_outs))
    (concat Knn.far_val).
Proof.
  change (Knn.clearly_separated Knn.far_features Knn.far_labels
            [([1; 0]%R, 0); ([0; 1]%R, 1)]).
  destruct in_range_0_1 as [H0 H1].
  unfold Knn.clearly_separated.
  split; [reflexivity|]. split; [unfold Knn.k; cbn; lia|]. split.
  { unfold Knn.far_labels, Knn.num_classes. cbn [repeat app].
    repeat (apply Forall_cons; [lia|]). apply Forall_nil. }
  split.
  { unfold Knn.far_features. cbn [repeat app].
    repeat (apply Forall_cons; [repeat (apply Forall_cons; [assumption|]); apply Forall_nil|]).
    apply Forall_nil. }
  apply Forall_cons; [|apply Forall_cons; [|apply Forall_nil]]; cbn [fst snd].
  - split; [repeat (apply Forall_cons; [assumption|]); apply Forall_nil|].
    split; [apply Exists_cons_hd; lra|]. split; [reflexivity|]. split.
    + exists 0. split; [cbn; lia|split; reflexivity].
    + intros j Hj Hne.
      do 20 (destruct j as [|j]; [far_cosine|]).
      cbn in Hj. lia.
  - split; [repeat (apply Forall_cons; [assumption|]); apply Forall_nil|].
    split; [apply Exists_cons_tl, Exists_cons_hd; lra|]. split; [reflexivity|]. split.
    + exists 10. split; [cbn; lia|split; reflexivity].
    + intros j Hj Hne.
      do 20 (destruct j as [|j]; [far_cosine|]).
      cbn in Hj. lia.
Defined.

Lemma C6_witness :
  (exists top1 top5, Knn.validation_epoch_end Knn.far_outs Knn.far_val top1 top5) /\
  (forall top1 top5,
      Knn.validation_epoch_end Knn.far_outs Knn.far_val top1 top5 -> top1 = 100%R).
Proof.
  apply (C6_knn_top1_on_separated_bank Knn.far_outs Knn.far_val).
  - exact far_clearly_separated.
  - discriminate.
Defined.

(* ------------------------------------------------------------------ *)
(** ** When [VisionTransformer.__init__] returns *)

Lemma build_blocks_returns (dim heads ratio : nat) (bias : bool) (indices : list nat) :
  heads <> 0 -> heads <= dim ->
  exists bs, build_blocks dim heads ratio bias indices = Ok bs.
Proof.
  intros Hh Hd.
  assert (Hq : dim / heads <> 0).
  { intros H0. apply Nat.div_small_iff in H0; lia. }
  apply Nat.eqb_neq in Hh, Hq.
  induction indices as [|i rest [bs IH]]; cbn [build_blocks].
  - now exists [].
  - unfold Block_init, Attention_init. rewrite Hh, Hq. cbn [bind]. rewrite IH. cbn [bind].
    eexists; reflexivity.
Qed.


(** The linear layers of built blocks: all have a bias but [attn.qkv],
    which has one when [qkv_bias] is set. *)
Lemma init_linear_weights_blocks (dim heads ratio : nat) (bias : bool) (bs : list Block)
    (tail : list Linear) :
  Forall (built_block dim heads ratio bias) bs ->
  init_linear_weights (concat (map Block_linears bs) ++ tail)
  = match bs with
    | [] => init_linear_weights tail
    | _ :: _ => if bias then init_linear_weights tail else Err AttributeError
    end.
Proof.
  induction 1 as [|b bs (_ & _ & prefix & ->) Hbs IH]; [reflexivity|].
  cbn [map concat Block_linears b_proj attn mlp qkv a_proj fc1 fc2 Mlp_init app
       init_linear_weights Linear_init l_bias].
  destruct bias; [|reflexivity].
  rewrite IH. destruct bs; reflexivity.
Qed.

(** Arguments for which [__init__] returns. *)
Lemma VisionTransformer_init_returns (kw : Config) :
  img_size kw <> [] -> patch_size kw <> 0 -> embed_dim kw mod 4 = 0 ->
  num_heads kw <> 0 -> num_heads kw <= embed_dim kw -> qkv_bias kw = true ->
  exists vit, VisionTransformer_init kw = Ok vit.
Proof.
  intros Himg Hp HD Hh Hle Hbias.
  unfold VisionTransformer_init, index.
  destruct (img_size kw) as [|img imgs]; [congruence|]. cbn [nth_error bind].
  assert (Hpe : PatchEmbed_init img (patch_size kw) (in_chans kw) (embed_dim kw)
                = Ok {| pe_img_size := img;
                        pe_patch_size := (patch_size kw, patch_size kw);
                        grid_size := (mkQuotient img (patch_size kw),
                                      mkQuotient img (patch_size kw));
                        num_patches := (img / patch_size kw) * (img / patch_size kw);
                        pe_proj := Conv2d_init "patch_embed.proj" (in_chans kw)
                                     (embed_dim kw) (patch_size kw) (patch_size kw) |}).
  { unfold PatchEmbed_init. apply Nat.eqb_neq in Hp. now rewrite Hp. }
  rewrite Hpe. cbn [bind].
  rewrite (build_2d_sincos_ok _ _ _ _ _ _ Hpe HD). cbn [bind].
  destruct (build_blocks_returns (embed_dim kw) (num_heads kw) (mlp_ratio kw) (qkv_bias kw)
              (seq 0 (depth kw)) Hh Hle) as [bs Hbs].
  rewrite Hbs. cbn [bind].
  destruct (build_blocks_built _ _ _ _ _ _ Hbs) as [Hbuilt Hlen].
  rewrite (init_linear_weights_blocks _ _ _ _ _ _ Hbuilt), Hbias.
  assert (Htail : init_linear_weights
                    (opt_list (if 0 <? num_classes kw
                               then Some (Linear_init "head" (embed_dim kw) (num_classes kw) true)
                               else None)) = Ok tt).
  { destruct (0 <? num_classes kw); reflexivity. }
  destruct bs; rewrite Htail; cbn [bind]; eexists; reflexivity.
Qed.



(** With valid sizes and at least one block, [qkv_bias=False] (the default of
    [__init__]) makes the weight initialisation fail: [nn.init.zeros_] is
    called on the missing bias of [attn.qkv]. *)
Theorem VisionTransformer_init_needs_qkv_bias (kw : Config) :
  img_size kw <> [] -> patch_size kw <> 0 -> embed_dim kw mod 4 = 0 ->
  num_heads kw <> 0 -> num_heads kw <= embed_dim kw -> 1 <= depth kw ->
  qkv_bias kw = false ->
  VisionTransformer_init kw = Err AttributeError.
Proof.
  intros Himg Hp HD Hh Hle Hdepth Hbias.
  unfold VisionTransformer_init, index.
  destruct (img_size kw) as [|img imgs]; [congruence|]. cbn [nth_error bind].
  assert (Hpe : PatchEmbed_init img (patch_size kw) (in_chans kw) (embed_dim kw)
                = Ok {| pe_img_size := img;
                        pe_patch_size := (patch_size kw, patch_size kw);
                        grid_size := (mkQuotient img (patch_size kw),
                                      mkQuotient img (patch_size kw));
                        num_patches := (img / patch_size kw) * (img / patch_size kw);
                        pe_proj := Conv2d_init "patch_embed.proj" (in_chans kw)
                                     (embed_dim kw) (patch_size kw) (patch_size kw) |}).
  { unfold PatchEmbed_init. apply Nat.eqb_neq in Hp. now rewrite Hp. }
  rewrite Hpe. cbn [bind].
  rewrite (build_2d_sincos_ok _ _ _ _ _ _ Hpe HD). cbn [bind].
  destruct (build_blocks_returns (embed_dim kw) (num_heads kw) (mlp_ratio kw) (qkv_bias kw)
              (seq 0 (depth kw)) Hh Hle) as [bs Hbs].
  rewrite Hbs. cbn [bind].
  destruct (build_blocks_built _ _ _ _ _ _ Hbs) as [Hbuilt Hlen].
  rewrite (init_linear_weights_blocks _ _ _ _ _ _ Hbuilt).
  rewrite length_seq in Hlen.
  destruct bs as [|b bs']; [cbn [length] in Hlen; lia|].
  now rewrite Hbias.
Qed.

Lemma VisionTransformer_init_needs_qkv_bias_witness :
  VisionTransformer_init vit_defaults = Err AttributeError.
Proof.
  apply VisionTransformer_init_needs_qkv_bias;
    cbn [vit_defaults img_size patch_size embed_dim depth num_heads qkv_bias];
    try discriminate; try reflexivity; lia.
Defined.

(* ------------------------------------------------------------------ *)
(** ** The factories and the backbones of [main] *)

Lemma factory_config_returns (p D depth_ heads : nat) (dis : bool) (kwargs : Kwargs) :
  p <> 0 -> kw_img_size kwargs <> Some [] -> D mod 4 = 0 -> heads <> 0 -> heads <= D ->
  exists vit,
    VisionTransformer_init (factory_config p D depth_ heads dis kwargs) = Ok vit /\
    self_embed_dim vit = D /\ length (blocks vit) = depth_ /\
    length (norms vit) = depth_.
Proof.
  intros Hp Himg HD Hh Hle.
  destruct (VisionTransformer_init (factory_config p D depth_ heads dis kwargs))
    as [vit|e] eqn:Hinit.
  - exists vit. split; [reflexivity|].
    apply VisionTransformer_init_inv in Hinit
      as (img & pe & bs & _ & _ & _ & Hbs & HE & _ & _ & _ & _ & Hblocks & Hnorms).
    apply build_blocks_built in Hbs as [_ Hlen]. rewrite length_seq in Hlen.
    cbn [factory_config embed_dim depth] in *.
    rewrite HE, Hblocks, Hnorms, length_map, length_seq. now repeat split.
  - exfalso.
    destruct (VisionTransformer_init_returns (factory_config p D depth_ heads dis kwargs))
      as [vit Hvit]; cbn [factory_config img_size patch_size embed_dim depth num_heads qkv_bias];
      try assumption; try reflexivity.
    + destruct (kw_img_size kwargs) as [[|? ?]|]; cbn [default]; congruence.
    + rewrite Hvit in Hinit. discriminate.
Qed.







(* ------------------------------------------------------------------ *)
(** ** The patch embedding and the configured image size *)

Lemma ceil_div_indivisible (a b : nat) :
  b <> 0 -> a mod b <> 0 -> ceil_div a b = a / b + 1.
Proof.
  intros Hb Hr. unfold ceil_div.
  pose proof (Nat.div_mod_eq a b) as Hdiv.
  pose proof (Nat.mod_upper_bound a b Hb) as Hub.
  symmetry. apply (Nat.div_unique (a + b - 1) b (a / b + 1) (a mod b - 1)); [lia|]. nia.
Qed.

(** The patch embedding takes every batch with the model's channels whose
    sides are at least one patch long, of the configured size or not: the
    sequence has one token per whole patch, the rows and columns that do not
    fill a patch being dropped.  Other batches are rejected. *)
Theorem PatchEmbed_forward_shape (img p ic D : nat) (pe : PatchEmbed)
    (B C H W : nat) (g : list string) :
  PatchEmbed_init img p ic D = Ok pe ->
  (C = ic -> p <= H -> p <= W ->
   exists y, PatchEmbed_forward pe (mkTensor [B; C; H; W] g) = Ok y /\
             shape y = [B; (H / p) * (W / p); D]) /\
  (C <> ic \/ H < p \/ W < p ->
   exists e, PatchEmbed_forward pe (mkTensor [B; C; H; W] g) = Err e).
Proof.
  intros Hpe. apply PatchEmbed_init_inv in Hpe as [Hp ->].
  unfold PatchEmbed_forward, Conv2d_forward.
  cbn [shape graph pe_proj Conv2d_init in_channels out_channels kernel_size stride].
  split.
  - intros -> HH HW. rewrite Nat.eqb_refl. cbn [negb].
    pose proof HH as HH'. pose proof HW as HW'.
    apply Nat.ltb_ge in HH', HW'. rewrite HH', HW'. cbn [orb].
    pose proof Hp as Hp'. apply Nat.eqb_neq in Hp'. rewrite Hp'. cbn [bind shape graph].
    rewrite (patch_count_floor H p Hp HH), (patch_count_floor W p Hp HW).
    eexists; split; reflexivity.
  - intros Hbad.
    destruct (C =? ic) eqn:HC; cbn [negb]; [|eexists; reflexivity].
    apply Nat.eqb_eq in HC.
    destruct (H <? p) eqn:HH; cbn [orb]; [eexists; reflexivity|].
    destruct (W <? p) eqn:HW; cbn [orb]; [eexists; reflexivity|].
    apply Nat.ltb_ge in HH, HW. exfalso. lia.
Qed.

Lemma PatchEmbed_forward_shape_witness :
  exists pe, PatchEmbed_init 224 16 3 384 = Ok pe /\
  exists y, PatchEmbed_forward pe (mkTensor [2; 3; 100; 40] []) = Ok y /\
            shape y = [2; (100 / 16) * (40 / 16); 384].
Proof.
  eexists. split; [reflexivity|].
  refine (proj1 (PatchEmbed_forward_shape 224 16 3 384 _ 2 3 100 40 [] eq_refl)
                eq_refl _ _); lia.
Defined.

Lemma add_mismatch (B N N' D : nat) (ga gb : list string) :
  2 <= N -> 2 <= N' -> N <> N' ->
  add (mkTensor [B; N; D] ga) (mkTensor [1; N'; D] gb) = Err shape_error.
Proof.
  intros HN HN' Hne. unfold add. cbn [shape graph rev app broadcast_rev bind].
  assert (HB : (if B =? 1 then Ok [B]
                else if B =? 1 then Ok [1] else if 1 =? 1 then Ok [B] else Err shape_error)
               = Ok [B]).
  { destruct (B =? 1); reflexivity. }
  rewrite HB. cbn [bind].
  assert (H1 : (N =? N') = false) by (apply Nat.eqb_neq; lia).
  assert (H2 : (N =? 1) = false) by (apply Nat.eqb_neq; lia).
  assert (H3 : (N' =? 1) = false) by (apply Nat.eqb_neq; lia).
  now rewrite H1, H2, H3.
Qed.

(** A model whose image size is not a multiple of its patch size takes no
    batch of that image size.  The positional embedding is built for
    [ceil(img_size / patch_size)] patches a side (the grid size is a float
    quotient), the convolution yields [floor(img_size / patch_size)]:
    [x + self.pos_embed] raises, or the convolution does when the image is
    smaller than a patch. *)
Theorem configured_size_rejected (kw : Config) (vit : VisionTransformer)
    (img B : nat) (dino : bool) :
  VisionTransformer_init kw = Ok vit ->
  nth_error (img_size kw) 0 = Some img ->
  img mod patch_size kw <> 0 ->
  prepare_tokens vit (image_batch B (in_chans kw) img img) dino
  = Err (if img <? patch_size kw
         then RuntimeError "Kernel size can't be greater than actual input size"
         else shape_error) /\
  exists e, forward vit (image_batch B (in_chans kw) img img) dino = Err e.
Proof.
  intros Hinit Himg Hmod.
  assert (Hprep : prepare_tokens vit (image_batch B (in_chans kw) img img) dino
                  = Err (if img <? patch_size kw
                         then RuntimeError "Kernel size can't be greater than actual input size"
                         else shape_error)).
  { apply VisionTransformer_init_inv in Hinit
      as (img' & pe & bs & Himg' & Hpe & HD & Hbs & HE & Hpatch & Hcls & Hdis & Hpos & _).
    rewrite Himg in Himg'. inversion Himg'; subst img'; clear Himg'.
    apply PatchEmbed_init_inv in Hpe as [Hp ->].
    unfold prepare_tokens. cbn [image_batch shape].
    rewrite Hpatch. unfold PatchEmbed_forward, Conv2d_forward, image_batch.
    cbn [shape graph freeze_patch_embed pe_proj Conv2d_init in_channels out_channels
         kernel_size stride c_weight c_bias].
    rewrite Nat.eqb_refl. cbn [negb].
    destruct (img <? patch_size kw) eqn:Hlt; cbn [orb bind]; [reflexivity|].
    apply Nat.ltb_ge in Hlt.
    pose proof Hp as Hp'. apply Nat.eqb_neq in Hp'. rewrite Hp'. cbn [bind shape graph].
    rewrite Hcls, Hdis, Hpos, expand_batch_token. cbn [bind].
    unfold as_tensor. cbn [p_shape].
    rewrite (patch_count_floor img _ Hp Hlt), (ceil_div_indivisible img _ Hp Hmod).
    assert (Hq : 1 <= img / patch_size kw).
    { pose proof (Nat.div_mod_eq img (patch_size kw)).
      pose proof (Nat.mod_upper_bound img (patch_size kw) Hp).
      destruct (img / patch_size kw); [lia|lia]. }
    set (q := img / patch_size kw) in *.
    destruct (dis_token kw); cbn [num_token].
    - rewrite expand_batch_token. cbn [bind].
      rewrite cat_dim1_3d. cbn [bind].
      destruct dino; cbn [negb]; unfold detach; cbn [shape graph];
        rewrite cat_dim1_3d; cbn [bind]; apply add_mismatch; nia.
    - destruct dino; cbn [negb]; unfold detach; cbn [shape graph];
        rewrite cat_dim1_3d; cbn [bind]; apply add_mismatch; nia. }
  split; [exact Hprep|].
  unfold forward. rewrite Hprep. cbn [bind]. eexists; reflexivity.
Qed.

Lemma configured_size_rejected_witness :
  exists vit,
    VisionTransformer_init (factory_config 16 384 12 12 false
                              (mkKwargs (Some [100]) None None None)) = Ok vit /\
    prepare_tokens vit (image_batch 1 3 100 100) false = Err shape_error.
Proof.
  destruct (factory_config_returns 16 384 12 12 false (mkKwargs (Some [100]) None None None)
              ltac:(discriminate) ltac:(discriminate) eq_refl ltac:(discriminate) ltac:(lia))
    as (vit & Hinit & _).
  exists vit. split; [exact Hinit|].
  exact (proj1 (configured_size_rejected _ vit 100 1 false Hinit eq_refl
                  ltac:(discriminate))).
Defined.

(* ------------------------------------------------------------------ *)
(** ** [get_intermediate_layers] and [forward_with_momentum] *)

Lemma cat_dim0_shapes (a b : Tensor) (m k N D : nat) :
  shape a = [m; N; D] -> shape b = [k; N; D] ->
  exists c, cat a b 0 = Ok c /\ shape c = [m + k; N; D].
Proof.
  intros Ha Hb. unfold cat. rewrite Ha, Hb.
  cbn [length set_nth nth shape_eqb Nat.eqb Nat.ltb Nat.leb andb].
  rewrite !Nat.eqb_refl. cbn [andb]. eexists; split; reflexivity.
Qed.

Lemma cat_last_shapes (a b : Tensor) (B N d : nat) :
  shape a = [B; N; d] -> shape b = [B; N; d] ->
  exists c, cat_last a b = Ok c /\ shape c = [B; N; d + d].
Proof.
  intros Ha Hb. unfold cat_last, cat. rewrite Ha, Hb.
  cbn [length set_nth nth shape_eqb Nat.sub Nat.eqb Nat.ltb Nat.leb andb].
  rewrite !Nat.eqb_refl. cbn [andb]. eexists; split; reflexivity.
Qed.

Lemma cat_onto_shape (ts : list Tensor) (acc : Tensor) (m B N D : nat) :
  Forall (fun t => shape t = [B; N; D]) ts -> shape acc = [m; N; D] ->
  exists c, cat_onto acc ts 0 = Ok c /\ shape c = [m + length ts * B; N; D].
Proof.
  intros Hts. revert acc m.
  induction Hts as [|t ts Ht _ IH]; intros acc m Hacc; cbn [cat_onto length].
  - exists acc. split; [reflexivity|]. now rewrite Nat.mul_0_l, Nat.add_0_r.
  - destruct (cat_dim0_shapes acc t m B N D Hacc Ht) as (c & -> & Hc). cbn [bind].
    destruct (IH c (m + B) Hc) as (c' & -> & Hc').
    exists c'. split; [reflexivity|]. rewrite Hc'. f_equal. cbn [Nat.mul]. lia.
Qed.

Lemma cat_list_shape (ts : list Tensor) (B N D : nat) :
  ts <> [] -> Forall (fun t => shape t = [B; N; D]) ts ->
  exists c, cat_list ts 0 = Ok c /\ shape c = [length ts * B; N; D].
Proof.
  intros Hne Hts. destruct ts as [|t ts]; [congruence|].
  inversion Hts as [|? ? Ht Hrest]; subst.
  cbn [cat_list length].
  destruct (cat_onto_shape ts t B B N D Hrest Ht) as (c & -> & Hc).
  exists c. split; [reflexivity|]. rewrite Hc. reflexivity.
Qed.

(** The norms [__init__] registers: one per block, each for the embedding
    dimension. *)
Lemma norms_indexed (dim depth_ j : nat) :
  j < depth_ ->
  exists nm,
    nth_error (map (fun i => LayerNorm_init ("norms." ++ str_of_nat i) dim) (seq 0 depth_)) j
    = Some nm /\ normalized_shape nm = dim.
Proof.
  intros Hj.
  set (f := fun i => LayerNorm_init ("norms." ++ str_of_nat i) dim).
  exists (nth j (map f (seq 0 depth_)) (f 0)). split.
  - apply nth_error_nth'. now rewrite length_map, length_seq.
  - rewrite (map_nth f). reflexivity.
Qed.

Section Loops.

Variables (dim heads ratio : nat) (bias : bool) (nrms : list LayerNorm) (B N len : nat).
Hypothesis Hheads : dim mod heads = 0.
Hypothesis Hnrms : forall j, j < len ->
  exists nm, nth_error nrms j = Some nm /\ normalized_shape nm = dim.

Lemma block_then_norm (blk : Block) (t : Tensor) (j : nat) :
  built_block dim heads ratio bias blk -> shape t = [B; N; dim + dim] -> j < len ->
  exists t' nm y,
    Block_forward blk t false = Ok t' /\ shape t' = [B; N; dim] /\
    index nrms j = Ok nm /\ LayerNorm_forward nm t' = Ok y /\ shape y = [B; N; dim].
Proof.
  intros Hb Ht Hj.
  destruct (Block_forward_doubled dim heads ratio bias blk t B N Hb Hheads Ht)
    as (t' & Ht' & Hs').
  destruct (Hnrms j Hj) as (nm & Hnm & Hdim).
  destruct (LayerNorm_forward_3d nm t' B N dim Hdim Hs') as (y & Hy & Hsy).
  exists t', nm, y. repeat split; try assumption.
  unfold index. now rewrite Hnm.
Qed.

Lemma intermediate_loop_ok (n : nat) (blks : list Block) :
  forall (i : nat) (x : Tensor) (output : list Tensor),
    Forall (built_block dim heads ratio bias) blks ->
    i + length blks = len ->
    shape x = [B; N; dim] ->
    Forall (fun t => shape t = [B; N; dim]) output ->
    exists out,
      intermediate_loop len n i blks nrms x output = Ok out /\
      Forall (fun t => shape t = [B; N; dim]) out /\
      length out = length output + Nat.min n (length blks).
Proof.
  induction blks as [|blk rest IH]; intros i x output Hbuilt Hlen Hx Hout;
    cbn [intermediate_loop length].
  - exists output. split; [reflexivity|]. split; [assumption|]. lia.
  - apply Forall_cons_iff in Hbuilt as [Hb Hrest].
    cbn [length] in Hlen |- *.
    destruct (cat_last_doubles x B N dim Hx) as (x2 & -> & Hx2). cbn [bind].
    destruct (block_then_norm blk x2 i Hb Hx2 ltac:(lia))
      as (x3 & nm & y & -> & Hx3 & Hnm & Hy & Hsy).
    cbn [bind].
    replace (len - i) with (S (length rest)) by lia.
    destruct (S (length rest) <=? n) eqn:Hcmp.
    + apply Nat.leb_le in Hcmp. rewrite Hnm. cbn [bind]. rewrite Hy. cbn [bind].
      destruct (IH (S i) x3 (output ++ [y]) Hrest ltac:(lia) Hx3) as (out & -> & Hf & Hl).
      { apply Forall_app. split; [assumption|]. now constructor. }
      exists out. split; [reflexivity|]. split; [assumption|].
      rewrite Hl, length_app. cbn [length]. lia.
    + apply Nat.leb_gt in Hcmp. cbn [bind].
      destruct (IH (S i) x3 output Hrest ltac:(lia) Hx3 Hout) as (out & -> & Hf & Hl).
      exists out. split; [reflexivity|]. split; [assumption|]. lia.
Qed.

Lemma momentum_loop_ok (M : nat) (blks : list Block) :
  forall (i : nat) (x temp : Tensor) (output : list Tensor),
    Forall (built_block dim heads ratio bias) blks ->
    i + length blks = len -> len <= M ->
    shape x = [M; B; N; dim] ->
    (0 < i -> shape temp = [B; N; dim]) ->
    Forall (fun t => shape t = [B; N; dim]) output ->
    exists out,
      momentum_loop i blks nrms x temp output = Ok out /\
      Forall (fun t => shape t = [B; N; dim]) out /\
      length out = length output + length blks.
Proof.
  induction blks as [|blk rest IH]; intros i x temp output Hbuilt Hlen HM Hx Htemp Hout;
    cbn [momentum_loop length].
  - exists output. split; [reflexivity|]. split; [assumption|]. lia.
  - apply Forall_cons_iff in Hbuilt as [Hb Hrest].
    cbn [length] in Hlen |- *.
    assert (Hsel : forall j, j < M ->
              exists xj, select0 x j = Ok xj /\ shape xj = [B; N; dim]).
    { intros j Hj. unfold select0. rewrite Hx.
      apply Nat.ltb_lt in Hj. rewrite Hj. eexists; split; reflexivity. }
    assert (Ht : exists t,
              (if 0 <? i
               then xi <- select0 x i ;; cat_last temp xi
               else x0 <- select0 x 0 ;; cat_last x0 x0) = Ok t /\
              shape t = [B; N; dim + dim]).
    { destruct (0 <? i) eqn:Hi.
      - apply Nat.ltb_lt in Hi.
        destruct (Hsel i ltac:(lia)) as (xi & -> & Hxi). cbn [bind].
        exact (cat_last_shapes temp xi B N dim (Htemp Hi) Hxi).
      - destruct (Hsel 0 ltac:(lia)) as (x0 & -> & Hx0). cbn [bind].
        exact (cat_last_shapes x0 x0 B N dim Hx0 Hx0). }
    destruct Ht as (t & -> & Hst). cbn [bind].
    destruct (block_then_norm blk t i Hb Hst ltac:(lia))
      as (t' & nm & y & -> & Hst' & Hnm & Hy & Hsy).
    cbn [bind]. rewrite Hnm. cbn [bind]. rewrite Hy. cbn [bind].
    destruct (IH (S i) x t' (output ++ [y]) Hrest ltac:(lia) HM Hx (fun _ => Hst'))
      as (out & -> & Hf & Hl).
    { apply Forall_app. split; [assumption|]. now constructor. }
    exists out. split; [reflexivity|]. split; [assumption|].
    rewrite Hl, length_app. cbn [length]. lia.
Qed.

Lemma momentum_loop_short (M : nat) (blks : list Block) :
  forall (i : nat) (x temp : Tensor) (output : list Tensor),
    Forall (built_block dim heads ratio bias) blks ->
    i + length blks = len -> 1 <= M -> M < len -> i <= M ->
    shape x = [M; B; N; dim] ->
    (0 < i -> shape temp = [B; N; dim]) ->
    momentum_loop i blks nrms x temp output = Err IndexError.
Proof.
  induction blks as [|blk rest IH]; intros i x temp output Hbuilt Hlen HM1 HM Hi Hx Htemp;
    cbn [momentum_loop length] in Hlen |- *.
  - lia.
  - apply Forall_cons_iff in Hbuilt as [Hb Hrest].
    destruct (Nat.eq_dec i M) as [->|Hne].
    + assert (H0 : (0 <? M) = true) by (apply Nat.ltb_lt; lia).
      rewrite H0. unfold select0. rewrite Hx, Nat.ltb_irrefl. reflexivity.
    + assert (Hsel : forall j, j < M ->
                exists xj, select0 x j = Ok xj /\ shape xj = [B; N; dim]).
      { intros j Hj. unfold select0. rewrite Hx.
        apply Nat.ltb_lt in Hj. rewrite Hj. eexists; split; reflexivity. }
      assert (Ht : exists t,
                (if 0 <? i
                 then xi <- select0 x i ;; cat_last temp xi
                 else x0 <- select0 x 0 ;; cat_last x0 x0) = Ok t /\
                shape t = [B; N; dim + dim]).
      { destruct (0 <? i) eqn:Hi0.
        - apply Nat.ltb_lt in Hi0.
          destruct (Hsel i ltac:(lia)) as (xi & -> & Hxi). cbn [bind].
          exact (cat_last_shapes temp xi B N dim (Htemp Hi0) Hxi).
        - destruct (Hsel 0 ltac:(lia)) as (x0 & -> & Hx0). cbn [bind].
          exact (cat_last_shapes x0 x0 B N dim Hx0 Hx0). }
      destruct Ht as (t & -> & Hst). cbn [bind].
      destruct (block_then_norm blk t i Hb Hst ltac:(lia))
        as (t' & nm & y & -> & Hst' & Hnm & Hy & Hsy).
      cbn [bind]. rewrite Hnm. cbn [bind]. rewrite Hy. cbn [bind].
      apply IH; try assumption; try lia. intros _. exact Hst'.
Qed.

End Loops.

(** [get_intermediate_layers(x, n)] on a batch the model accepts returns the
    normed outputs of the last [n] blocks (of all of them when [n] exceeds
    the depth), stacked along the batch axis; with [n = 0] nothing is
    collected and [torch.cat] raises. *)
Theorem get_intermediate_layers_shape (kw : Config) (vit : VisionTransformer)
    (img B H W n : nat) (dino : bool) :
  VisionTransformer_init kw = Ok vit ->
  nth_error (img_size kw) 0 = Some img ->
  1 <= depth kw ->
  embed_dim kw mod num_heads kw = 0 ->
  0 < H -> 0 < W ->
  H mod patch_size kw = 0 -> W mod patch_size kw = 0 ->
  (H / patch_size kw) * (W / patch_size kw)
  = ceil_div img (patch_size kw) * ceil_div img (patch_size kw) ->
  (1 <= n ->
   exists t,
     get_intermediate_layers vit (image_batch B (in_chans kw) H W) n dino = Ok t /\
     shape t = [Nat.min n (depth kw) * B;
                (H / patch_size kw) * (W / patch_size kw) + num_token (dis_token kw);
                embed_dim kw]) /\
  (n = 0 ->
   get_intermediate_layers vit (image_batch B (in_chans kw) H W) n dino
   = Err (ValueError "torch.cat(): expected a non-empty list of Tensors")).
Proof.
  intros Hinit Himg Hdepth Hheads HH HW HmH HmW Hgrid.
  unfold get_intermediate_layers.
  rewrite (prepare_tokens_ok kw vit img B H W dino Hinit Himg HH HW HmH HmW Hgrid).
  cbn [bind].
  apply VisionTransformer_init_inv in Hinit
    as (img' & pe & bs & _ & _ & _ & Hbs & _ & _ & _ & _ & _ & Hblocks & Hnorms).
  apply build_blocks_built in Hbs as [Hbuilt Hlen]. rewrite length_seq in Hlen.
  rewrite Hblocks, Hnorms, Hlen.
  match goal with
  | |- context [intermediate_loop _ _ 0 bs ?nrms ?x []] =>
      pose proof (fun n => intermediate_loop_ok (embed_dim kw) (num_heads kw) (mlp_ratio kw)
                    (qkv_bias kw) nrms B
                    ((H / patch_size kw) * (W / patch_size kw) + num_token (dis_token kw))
                    (depth kw) Hheads (norms_indexed (embed_dim kw) (depth kw))
                    n bs 0 x [] Hbuilt Hlen eq_refl (Forall_nil _)) as Hloop
  end.
  split.
  - intros Hn. destruct (Hloop n) as (out & -> & Hf & Hl). cbn [bind].
    cbn [length Nat.add] in Hl. rewrite Hlen in Hl.
    destruct (cat_list_shape out B
                ((H / patch_size kw) * (W / patch_size kw) + num_token (dis_token kw))
                (embed_dim kw)) as (c & -> & Hc); try assumption.
    { intros ->. cbn [length] in Hl. lia. }
    exists c. split; [reflexivity|]. now rewrite Hc, Hl.
  - intros ->. destruct (Hloop 0) as (out & -> & Hf & Hl). cbn [bind].
    cbn [length Nat.add Nat.min] in Hl.
    destruct out; [reflexivity|discriminate].
Qed.

Lemma get_intermediate_layers_shape_witness :
  exists vit,
    VisionTransformer_init vit_small_224 = Ok vit /\
    exists t,
      get_intermediate_layers vit (image_batch 2 3 224 224) 4 false = Ok t /\
      shape t = [8; 197; 384].
Proof.
  destruct (VisionTransformer_init vit_small_224) as [vit|e] eqn:Hinit;
    [|vm_compute in Hinit; discriminate].
  exists vit. split; [reflexivity|].
  exact (proj1 (get_intermediate_layers_shape vit_small_224 vit 224 2 224 224 4 false
                  Hinit eq_refl ltac:(cbn; lia) eq_refl ltac:(lia) ltac:(lia)
                  eq_refl eq_refl eq_refl) ltac:(lia)).
Defined.

(** [forward_with_momentum] reads [x[i]] for every block [i]: the momentum
    outputs must hold at least [depth - 1] layers.  Then the result stacks
    one normed sequence per block along the batch axis; with fewer layers
    the loop raises an [IndexError]. *)
Theorem forward_with_momentum_layers (kw : Config) (vit : VisionTransformer)
    (img B H W M : nat) (g : list string) :
  VisionTransformer_init kw = Ok vit ->
  nth_error (img_size kw) 0 = Some img ->
  1 <= depth kw ->
  embed_dim kw mod num_heads kw = 0 ->
  0 < H -> 0 < W ->
  H mod patch_size kw = 0 -> W mod patch_size kw = 0 ->
  (H / patch_size kw) * (W / patch_size kw)
  = ceil_div img (patch_size kw) * ceil_div img (patch_size kw) ->
  let tokens := (H / patch_size kw) * (W / patch_size kw) + num_token (dis_token kw) in
  let momentum_output := mkTensor [M; B; tokens; embed_dim kw] g in
  (depth kw <= M + 1 ->
   exists t,
     forward_with_momentum vit (image_batch B (in_chans kw) H W) momentum_output = Ok t /\
     shape t = [depth kw * B; tokens; embed_dim kw]) /\
  (M + 1 < depth kw ->
   forward_with_momentum vit (image_batch B (in_chans kw) H W) momentum_output
   = Err IndexError).
Proof.
  intros Hinit Himg Hdepth Hheads HH HW HmH HmW Hgrid tokens momentum_output.
  unfold forward_with_momentum.
  rewrite (prepare_tokens_ok kw vit img B H W false Hinit Himg HH HW HmH HmW Hgrid).
  cbn [bind]. fold tokens.
  apply VisionTransformer_init_inv in Hinit
    as (img' & pe & bs & _ & _ & _ & Hbs & _ & _ & _ & _ & _ & Hblocks & Hnorms).
  apply build_blocks_built in Hbs as [Hbuilt Hlen]. rewrite length_seq in Hlen.
  rewrite Hblocks, Hnorms.
  unfold cat, unsqueeze0, momentum_output.
  cbn [shape graph length set_nth nth shape_eqb Nat.eqb Nat.ltb Nat.leb andb].
  rewrite !Nat.eqb_refl. cbn [andb bind].
  split.
  - intros HM.
    match goal with
    | |- context [momentum_loop 0 bs ?nrms ?x ?temp []] =>
        destruct (momentum_loop_ok (embed_dim kw) (num_heads kw) (mlp_ratio kw)
                    (qkv_bias kw) nrms B tokens (depth kw) Hheads
                    (norms_indexed (embed_dim kw) (depth kw))
                    (1 + M) bs 0 x temp [] Hbuilt Hlen ltac:(lia) eq_refl
                    ltac:(intros Hlt; inversion Hlt) (Forall_nil _))
          as (out & -> & Hf & Hl)
    end.
    cbn [bind]. cbn [length Nat.add] in Hl. rewrite Hlen in Hl.
    destruct (cat_list_shape out B tokens (embed_dim kw)) as (c & -> & Hc); try assumption.
    { intros ->. cbn [length] in Hl. lia. }
    exists c. split; [reflexivity|]. now rewrite Hc, Hl.
  - intros HM.
    match goal with
    | |- context [momentum_loop 0 bs ?nrms ?x ?temp []] =>
        rewrite (momentum_loop_short (embed_dim kw) (num_heads kw) (mlp_ratio kw)
                   (qkv_bias kw) nrms B tokens (depth kw) Hheads
                   (norms_indexed (embed_dim kw) (depth kw))
                   (1 + M) bs 0 x temp [] Hbuilt Hlen ltac:(lia) ltac:(lia) ltac:(lia)
                   eq_refl ltac:(intros Hlt; inversion Hlt))
    end.
    reflexivity.
Qed.

Lemma forward_with_momentum_layers_witness :
  exists vit,
    VisionTransformer_init vit_small_224 = Ok vit /\
    forward_with_momentum vit (image_batch 2 3 224 224) (mkTensor [10; 2; 197; 384] [])
    = Err IndexError.
Proof.
  destruct (VisionTransformer_init vit_small_224) as [vit|e] eqn:Hinit;
    [|vm_compute in Hinit; discriminate].
  exists vit. split; [reflexivity|].
  exact (proj2 (forward_with_momentum_layers vit_small_224 vit 224 2 224 224 10 []
                  Hinit eq_refl ltac:(cbn; lia) eq_refl ltac:(lia) ltac:(lia)
                  eq_refl eq_refl eq_refl) ltac:(cbn; lia)).
Defined.

(* ------------------------------------------------------------------ *)
(** ** The parameters the forward pass reaches *)

Lemma in_trainable (n : string) (ps : list PInfo) :
  In n (trainable ps) -> In n (map p_name ps).
Proof.
  unfold trainable. intros H. apply in_map_iff in H as (p & <- & Hp).
  apply filter_In in Hp as [Hp _]. now apply in_map.
Qed.

Lemma Linear_forward_graph (l : Linear) (x y : Tensor) (n : string) :
  Linear_forward l x = Ok y -> In n (graph y) ->
  In n (graph x) \/ In n (map p_name (Linear_parameters l)).
Proof.
  unfold Linear_forward. destruct (rev (shape x)) as [|last lead]; [discriminate|].
  destruct (last =? in_features l); [|discriminate].
  intros H Hin. inversion H; subst y; clear H. cbn [graph] in Hin.
  apply in_union in Hin as [Hin|Hin]; [now left|right; now apply in_trainable].
Qed.

Lemma LayerNorm_forward_graph (l : LayerNorm) (x y : Tensor) (n : string) :
  LayerNorm_forward l x = Ok y -> In n (graph y) ->
  In n (graph x) \/ In n (map p_name (LayerNorm_parameters l)).
Proof.
  unfold LayerNorm_forward. destruct (rev (shape x)) as [|last lead]; [discriminate|].
  destruct (last =? normalized_shape l); [|discriminate].
  intros H Hin. inversion H; subst y; clear H. cbn [graph] in Hin.
  apply in_union in Hin as [Hin|Hin]; [now left|right; now apply in_trainable].
Qed.

Lemma Mlp_forward_graph (m : Mlp) (x y : Tensor) (n : string) :
  Mlp_forward m x = Ok y -> In n (graph y) ->
  In n (graph x) \/ In n (map p_name (Mlp_parameters m)).
Proof.
  unfold Mlp_forward, Mlp_parameters.
  destruct (Linear_forward (fc1 m) x) as [h|e] eqn:H1; cbn [bind]; [|discriminate].
  intros H2 Hin. rewrite map_app, in_app_iff.
  destruct (Linear_forward_graph _ _ _ n H2 Hin) as [Hh|Hp]; [|now right; right].
  destruct (Linear_forward_graph _ _ _ n H1 Hh) as [Hx|Hp]; [now left|now right; left].
Qed.

Lemma Attention_forward_graph (self : Attention) (x y a : Tensor) (n : string) :
  Attention_forward self x = Ok (y, a) -> In n (graph y) ->
  In n (graph x) \/ In n (map p_name (Attention_parameters self)).
Proof.
  unfold Attention_forward, Attention_parameters.
  destruct (shape x) as [|B [|N [|C [|? ?]]]]; try discriminate.
  destruct (Linear_forward (qkv self) x) as [q|e] eqn:Hq; cbn [bind]; [|discriminate].
  destruct (a_num_heads self =? 0); [discriminate|].
  unfold reshape at 1. destruct (numel (shape q) =? _); cbn [bind]; [|discriminate].
  unfold matmul4. cbn [shape graph].
  destruct ((B =? B) && (a_num_heads self =? a_num_heads self)
            && (C / a_num_heads self =? C / a_num_heads self)); cbn [bind shape graph];
    [|discriminate].
  destruct ((B =? B) && (a_num_heads self =? a_num_heads self) && (N =? N));
    cbn [bind shape graph]; [|discriminate].
  unfold reshape. cbn [shape graph].
  destruct (numel _ =? numel _); cbn [bind]; [|discriminate].
  destruct (Linear_forward (a_proj self) _) as [o|e] eqn:Ho; cbn [bind]; [|discriminate].
  intros H Hin. inversion H; subst o a; clear H.
  rewrite map_app, in_app_iff.
  destruct (Linear_forward_graph _ _ _ n Ho Hin) as [Hg|Hp]; [|now right; right].
  cbn [graph] in Hg.
  assert (Hgq : In n (graph q)).
  { repeat (apply in_union in Hg as [Hg|Hg]; try assumption). }
  destruct (Linear_forward_graph _ _ _ n Hq Hgq) as [Hx|Hp]; [now left|now right; left].
Qed.

Lemma Block_forward_graph (self : Block) (x y : Tensor) (n : string) :
  Block_forward self x false = Ok y -> In n (graph y) ->
  In n (graph x) \/ In n (map p_name (Block_parameters self)).
Proof.
  unfold Block_forward, Block_parameters.
  destruct (Linear_forward (b_proj self) x) as [x1|e] eqn:H1; cbn [bind]; [|discriminate].
  destruct (LayerNorm_forward (norm1 self) x1) as [n1|e] eqn:H2; cbn [bind]; [|discriminate].
  destruct (Attention_forward (attn self) n1) as [[ya aw]|e] eqn:H3; cbn [bind fst snd];
    [|discriminate].
  destruct (add x1 ya) as [x2|e] eqn:H4; cbn [bind]; [|discriminate].
  destruct (LayerNorm_forward (norm2 self) x2) as [n2|e] eqn:H5; cbn [bind]; [|discriminate].
  destruct (Mlp_forward (mlp self) n2) as [m|e] eqn:H6; cbn [bind]; [|discriminate].
  intros H7 Hin. rewrite !map_app, !in_app_iff.
  assert (Hx1 : In n (graph x1) -> In n (graph x) \/ In n (map p_name (Linear_parameters (b_proj self)))).
  { intros Hg. exact (Linear_forward_graph _ _ _ n H1 Hg). }
  assert (Hx2 : In n (graph x2) ->
                In n (graph x1) \/ In n (map p_name (LayerNorm_parameters (norm1 self)))
                \/ In n (map p_name (Attention_parameters (attn self)))).
  { intros Hg. rewrite (add_graph _ _ _ H4) in Hg.
    apply in_union in Hg as [Hg|Hg]; [now left|].
    destruct (Attention_forward_graph _ _ _ _ n H3 Hg) as [Hg'|Hp]; [|now right; right].
    destruct (LayerNorm_forward_graph _ _ _ n H2 Hg') as [Hg''|Hp]; [now left|now right; left]. }
  rewrite (add_graph _ _ _ H7) in Hin.
  assert (Hcase : In n (graph x2) \/ In n (map p_name (LayerNorm_parameters (norm2 self)))
                  \/ In n (map p_name (Mlp_parameters (mlp self)))).
  { apply in_union in Hin as [Hg|Hg]; [now left|].
    destruct (Mlp_forward_graph _ _ _ n H6 Hg) as [Hg'|Hp]; [|now right; right].
    destruct (LayerNorm_forward_graph _ _ _ n H5 Hg') as [Hg''|Hp]; [now left|now right; left]. }
  destruct Hcase as [Hg|[Hp|Hp]]; [|tauto|tauto].
  destruct (Hx2 Hg) as [Hg'|[Hp|Hp]]; [|tauto|tauto].
  destruct (Hx1 Hg') as [Hg''|Hp]; tauto.
Qed.

Lemma forward_blocks_graph (blks : list Block) (x y : Tensor) (n : string) :
  forward_blocks blks x = Ok y -> In n (graph y) ->
  In n (graph x) \/ In n (map p_name (concat (map Block_parameters blks))).
Proof.
  revert x. induction blks as [|blk rest IH]; intros x; cbn [forward_blocks].
  - intros H Hin. inversion H; subst. now left.
  - destruct (cat_last x x) as [x2|e] eqn:H1; cbn [bind]; [|discriminate].
    destruct (Block_forward blk x2 false) as [x3|e] eqn:H2; cbn [bind]; [|discriminate].
    intros H3 Hin. cbn [map concat]. rewrite map_app, in_app_iff.
    destruct (IH x3 H3 Hin) as [Hg|Hp]; [|now right; right].
    destruct (Block_forward_graph _ _ _ n H2 Hg) as [Hg'|Hp]; [|now right; left].
    left. unfold cat_last in H1. rewrite (cat_graph _ _ _ _ H1) in Hg'.
    apply in_union in Hg' as [Hg'|Hg']; assumption.
Qed.

(** The parameters of the blocks [__init__] builds are registered under
    [blocks.]. *)
Lemma build_blocks_names (dim heads ratio : nat) (bias : bool) (indices : list nat)
    (bs : list Block) :
  build_blocks dim heads ratio bias indices = Ok bs ->
  Forall (fun p => startswith (p_name p) "blocks." = true)
         (concat (map Block_parameters bs)).
Proof.
  revert bs; induction indices as [|i rest IH]; intros bs; cbn [build_blocks].
  - intros H. inversion H. constructor.
  - unfold Block_init, Attention_init.
    destruct (heads =? 0); cbn [bind]; [discriminate|].
    destruct (dim / heads =? 0); cbn [bind]; [discriminate|].
    destruct (build_blocks dim heads ratio bias rest) as [bs'|e]; cbn [bind];
      [|discriminate].
    intros H. inversion H; subst bs; clear H.
    cbn [map concat]. apply Forall_app. split; [|now apply IH].
    unfold Block_parameters, Linear_parameters, LayerNorm_parameters, Attention_parameters,
      Mlp_parameters.
    cbn [b_proj norm1 attn norm2 mlp qkv a_proj fc1 fc2 Mlp_init Linear_init LayerNorm_init
         l_weight l_bias ln_weight ln_bias opt_list app].
    destruct bias; cbn [opt_list app];
      repeat (apply Forall_cons; [reflexivity|]); apply Forall_nil.
Qed.

Lemma prepare_tokens_graph (kw : Config) (vit : VisionTransformer) (x t : Tensor)
    (dino : bool) (n : string) :
  VisionTransformer_init kw = Ok vit ->
  prepare_tokens vit x dino = Ok t ->
  In n (graph t) ->
  In n (graph x) \/ n = "cls_token"%string \/
  (dis_token kw = true /\ n = "dis_token"%string).
Proof.
  intros Hinit.
  apply VisionTransformer_init_inv in Hinit
    as (img & pe & bs & Himg & Hpe & HD & Hbs & HE & Hpatch & Hcls & Hdis & Hpos & _).
  apply PatchEmbed_init_inv in Hpe as [Hp ->].
  unfold prepare_tokens.
  destruct (shape x) as [|B [|C [|H [|W [|? ?]]]]] eqn:Hx; try discriminate.
  rewrite Hpatch. unfold PatchEmbed_forward, Conv2d_forward. rewrite Hx.
  cbn [freeze_patch_embed pe_proj Conv2d_init in_channels out_channels
       kernel_size stride c_weight c_bias].
  destruct (negb (C =? in_chans kw)); cbn [bind]; [discriminate|].
  destruct ((H <? patch_size kw) || (W <? patch_size kw)); cbn [bind]; [discriminate|].
  destruct (patch_size kw =? 0); cbn [bind shape graph]; [discriminate|].
  unfold Conv2d_parameters, freeze, trainable.
  cbn [c_weight c_bias filter p_requires_grad map].
  rewrite Hcls, Hdis, Hpos.
  destruct (expand_batch _ B) as [c|e] eqn:Hc; cbn [bind]; [|discriminate].
  apply expand_batch_graph in Hc.
  assert (Hy : forall m, In m (graph (if negb dino
                                      then detach {| shape := [B; ((H - patch_size kw) / patch_size kw + 1)
                                                              * ((W - patch_size kw) / patch_size kw + 1);
                                                              embed_dim kw];
                                                     graph := union (graph x) [] |}
                                      else {| shape := [B; ((H - patch_size kw) / patch_size kw + 1)
                                                           * ((W - patch_size kw) / patch_size kw + 1);
                                                           embed_dim kw];
                                              graph := union (graph x) [] |})) ->
                         In m (graph x)).
  { intros m. destruct dino; cbn [negb detach graph]; [|intros []].
    intros Hm. apply in_union in Hm as [Hm|[]]. exact Hm. }
  destruct (dis_token kw).
  - destruct (expand_batch _ B) as [d|e] eqn:Hd; cbn [bind]; [|discriminate].
    apply expand_batch_graph in Hd.
    destruct (cat c d 1) as [cd|e] eqn:Hcd; cbn [bind]; [|discriminate].
    apply cat_graph in Hcd.
    destruct (cat cd _ 1) as [z|e] eqn:Hz; cbn [bind]; [|discriminate].
    apply cat_graph in Hz. intros Ht. apply add_graph in Ht.
    rewrite Ht, Hz, Hcd, Hc, Hd. cbn [graph as_tensor]. intros Hin.
    apply in_union in Hin as [Hin|Hin].
    + apply in_union in Hin as [Hin|Hin]; [|left; now apply Hy].
      apply in_union in Hin as [Hin|Hin]; apply in_trainable_single in Hin.
      * right. left. exact Hin.
      * right. right. split; [reflexivity|exact Hin].
    + cbn in Hin. destruct Hin.
  - destruct (cat c _ 1) as [z|e] eqn:Hz; cbn [bind]; [|discriminate].
    apply cat_graph in Hz. intros Ht. apply add_graph in Ht.
    rewrite Ht, Hz, Hc. cbn [graph as_tensor]. intros Hin.
    apply in_union in Hin as [Hin|Hin].
    + apply in_union in Hin as [Hin|Hin]; [|left; now apply Hy].
      apply in_trainable_single in Hin. right. left. exact Hin.
    + cbn in Hin. destruct Hin.
Qed.

(** What the output of [forward] depends on, for an input that carries no
    gradient: the special tokens, the parameters of the blocks, and the last
    of the norms.  The model's [norm], the positional embedding, the patch
    projection and the head are never reached: [backward] leaves them
    without a gradient. *)
Theorem forward_reaches (kw : Config) (vit : VisionTransformer) (x t : Tensor)
    (dino : bool) :
  VisionTransformer_init kw = Ok vit ->
  graph x = [] ->
  forward vit x dino = Ok t ->
  (forall n, In n (graph t) ->
     n = "cls_token"%string \/ (dis_token kw = true /\ n = "dis_token"%string) \/
     startswith n "blocks." = true \/
     n = (("norms." ++ str_of_nat (depth kw - 1)) ++ ".weight")%string \/
     n = (("norms." ++ str_of_nat (depth kw - 1)) ++ ".bias")%string) /\
  ~ In "norm.weight"%string (graph t) /\ ~ In "norm.bias"%string (graph t) /\
  ~ In "pos_embed"%string (graph t) /\
  ~ In "patch_embed.proj.weight"%string (graph t) /\
  ~ In "patch_embed.proj.bias"%string (graph t) /\
  ~ In "head.weight"%string (graph t) /\ ~ In "head.bias"%string (graph t).
Proof.
  intros Hinit Hx Hfwd.
  assert (Hclass : forall n, In n (graph t) ->
     n = "cls_token"%string \/ (dis_token kw = true /\ n = "dis_token"%string) \/
     startswith n "blocks." = true \/
     n = (("norms." ++ str_of_nat (depth kw - 1)) ++ ".weight")%string \/
     n = (("norms." ++ str_of_nat (depth kw - 1)) ++ ".bias")%string).
  { intros n Hin. unfold forward in Hfwd.
    destruct (prepare_tokens vit x dino) as [x1|e] eqn:H1; cbn [bind] in Hfwd;
      [|discriminate].
    destruct (forward_blocks (blocks vit) x1) as [x2|e] eqn:H2; cbn [bind] in Hfwd;
      [|discriminate].
    destruct (index_last (norms vit)) as [nm|e] eqn:H3; cbn [bind] in Hfwd; [|discriminate].
    destruct (LayerNorm_forward nm x2) as [x3|e] eqn:H4; cbn [bind] in Hfwd; [|discriminate].
    unfold mean_dim1 in Hfwd.
    destruct (shape x3) as [|b [|? rest]]; try discriminate.
    inversion Hfwd; subst t; clear Hfwd. cbn [graph] in Hin.
    pose proof Hinit as Hinv.
    apply VisionTransformer_init_inv in Hinv
      as (img & pe & bs & _ & _ & _ & Hbs & _ & _ & _ & _ & _ & Hblocks & Hnorms).
    destruct (LayerNorm_forward_graph _ _ _ n H4 Hin) as [Hg|Hp].
    - destruct (forward_blocks_graph _ _ _ n H2 Hg) as [Hg'|Hp].
      + destruct (prepare_tokens_graph kw vit x x1 dino n Hinit H1 Hg') as [Hgx|[Hc|Hd]].
        * rewrite Hx in Hgx. destruct Hgx.
        * now left.
        * right. now left.
      + right. right. left. rewrite Hblocks in Hp.
        apply in_map_iff in Hp as (p & <- & Hp).
        pose proof (build_blocks_names _ _ _ _ _ _ Hbs) as Hnames.
        rewrite Forall_forall in Hnames. now apply Hnames.
    - right. right. right.
      rewrite Hnorms in H3. unfold index_last in H3.
      destruct (depth kw) as [|d]; [discriminate|].
      rewrite seq_S, map_app, rev_app_distr in H3. cbn [map rev app Nat.add] in H3.
      inversion H3; subst nm; clear H3.
      cbn [Nat.sub]. rewrite Nat.sub_0_r.
      cbn [LayerNorm_parameters LayerNorm_init ln_weight ln_bias map p_name In] in Hp.
      destruct Hp as [Hp|[Hp|[]]]; [left|right]; now symmetry. }
  split; [exact Hclass|].
  repeat split; intros Hin; apply Hclass in Hin;
    destruct Hin as [H|[[_ H]|[H|[H|H]]]]; cbn in H; discriminate.
Qed.

Lemma forward_reaches_witness :
  exists vit t,
    VisionTransformer_init vit_small_224 = Ok vit /\
    forward vit (image_batch 1 3 224 224) true = Ok t /\
    ~ In "norm.weight"%string (graph t).
Proof.
  destruct (VisionTransformer_init vit_small_224) as [vit|e] eqn:Hinit;
    [|vm_compute in Hinit; discriminate].
  destruct (forward_ok vit_small_224 vit 224 1 224 224 true Hinit eq_refl
              ltac:(cbn; lia) eq_refl ltac:(lia) ltac:(lia) eq_refl eq_refl eq_refl)
    as (t & Hfwd & _).
  exists vit, t. split; [reflexivity|]. split; [exact Hfwd|].
  exact (proj1 (proj2 (forward_reaches vit_small_224 vit (image_batch 1 3 224 224) t true
                         Hinit eq_refl Hfwd))).
Defined.

(* ------------------------------------------------------------------ *)
(** ** The projection heads *)

Lemma sequential_forward_app (training : bool) (a b : list layer) (x : Tensor) :
  sequential_forward training (a ++ b) x
  = (y <- sequential_forward training a x ;; sequential_forward training b y).
Proof.
  revert x. induction a as [|l a IH]; intros x; cbn [app sequential_forward bind];
    [reflexivity|].
  destruct (layer_forward training l x) as [y|e]; cbn [bind]; [apply IH|reflexivity].
Qed.

Lemma Sequential_init_app (prefix : string) (i : nat) (a b : list layer_kind) :
  Sequential_init prefix i (a ++ b)
  = Sequential_init prefix i a ++ Sequential_init prefix (i + length a) b.
Proof.
  revert i. induction a as [|k a IH]; intros i; cbn [app Sequential_init length].
  - now rewrite Nat.add_0_r.
  - rewrite IH. do 3 f_equal. lia.
Qed.

Lemma stage_forward (training use_bn : bool) (prefix : string) (i in_f out_f B : nat)
    (x : Tensor) :
  batch_norm_takes training use_bn B ->
  shape x = [B; in_f] ->
  exists y,
    sequential_forward training (Sequential_init prefix i (stage in_f out_f use_bn)) x = Ok y /\
    shape y = [B; out_f].
Proof.
  intros Hbn Hx. unfold stage.
  cbn [Sequential_init sequential_forward layer_forward].
  unfold Linear_forward. rewrite Hx. cbn [rev app Linear_init in_features out_features].
  rewrite Nat.eqb_refl. cbn [bind].
  destruct use_bn; cbn [app Sequential_init sequential_forward layer_forward bind].
  - unfold BatchNorm1d_forward.
    cbn [shape length Nat.ltb Nat.leb numel fold_right BatchNorm1d_init num_features].
    rewrite Nat.eqb_refl, Nat.mul_1_r.
    assert (Hb : training && (B =? 1) = false).
    { destruct Hbn as [H|[H|H]]; [discriminate|now rewrite H|].
      apply Nat.eqb_neq in H. rewrite H. apply andb_false_r. }
    rewrite Hb. cbn [bind]. eexists; split; reflexivity.
  - eexists; split; reflexivity.
Qed.

Lemma stage_length (in_f out_f : nat) (use_bn : bool) :
  length (stage in_f out_f use_bn) = if use_bn then 3 else 2.
Proof. unfold stage. destruct use_bn; reflexivity. Qed.

Lemma stages_forward (training use_bn : bool) (prefix : string) (d B k : nat) :
  batch_norm_takes training use_bn B ->
  forall (i : nat) (x : Tensor),
    shape x = [B; d] ->
    exists y,
      sequential_forward training
        (Sequential_init prefix i (concat (repeat (stage d d use_bn) k))) x = Ok y /\
      shape y = [B; d].
Proof.
  intros Hbn. induction k as [|k IH]; intros i x Hx; cbn [repeat concat].
  - exists x. split; [reflexivity|exact Hx].
  - rewrite Sequential_init_app, sequential_forward_app.
    destruct (stage_forward training use_bn prefix i d d B x Hbn Hx) as (y & -> & Hy).
    cbn [bind]. now apply IH.
Qed.

Lemma head_mlp_forward (training use_bn : bool) (prefix : string)
    (in_dim hidden_dim bottleneck_dim nlayers B : nat) (x : Tensor) :
  batch_norm_takes training use_bn B \/ nlayers <= 1 ->
  shape x = [B; in_dim] ->
  exists y,
    sequential_forward training
      (head_mlp prefix in_dim hidden_dim bottleneck_dim nlayers use_bn) x = Ok y /\
    shape y = [B; bottleneck_dim].
Proof.
  intros Hbn Hx. unfold head_mlp.
  destruct (Nat.max nlayers 1 =? 1) eqn:Hn.
  - cbn [sequential_forward layer_forward]. unfold Linear_forward. rewrite Hx.
    cbn [rev app Linear_init in_features out_features]. rewrite Nat.eqb_refl. cbn [bind].
    eexists; split; reflexivity.
  - apply Nat.eqb_neq in Hn.
    destruct Hbn as [Hbn|Hle]; [|lia].
    unfold mlp_kinds. rewrite !Sequential_init_app, !sequential_forward_app.
    destruct (stage_forward training use_bn prefix 0 in_dim hidden_dim B x Hbn Hx)
      as (y1 & -> & Hy1).
    cbn [bind]. rewrite sequential_forward_app.
    destruct (stages_forward training use_bn prefix hidden_dim B (Nat.max nlayers 1 - 2) Hbn
                (0 + length (stage in_dim hidden_dim use_bn)) y1 Hy1) as (y2 & -> & Hy2).
    cbn [bind Sequential_init sequential_forward layer_forward].
    unfold Linear_forward. rewrite Hy2.
    cbn [rev app Linear_init in_features out_features]. rewrite Nat.eqb_refl. cbn [bind].
    eexists; split; reflexivity.
Qed.

Lemma last_layer_forward (prefix : string) (bottleneck_dim out_dim B : nat)
    (norm_last_layer : bool) (x : Tensor) :
  shape x = [B; bottleneck_dim] ->
  exists y,
    (z <- normalize_shape x 1 ;;
     WeightNormLinear_forward (last_layer_init prefix bottleneck_dim out_dim norm_last_layer) z)
    = Ok y /\
    shape y = [B; out_dim].
Proof.
  intros Hx. unfold normalize_shape, WeightNormLinear_forward. rewrite Hx.
  cbn [length Nat.ltb Nat.leb bind]. rewrite Hx.
  cbn [rev app last_layer_init wn_in_features wn_out_features].
  rewrite Nat.eqb_refl. eexists; split; reflexivity.
Qed.

Lemma count_linear_app (a b : list layer) :
  count_linear (a ++ b) = count_linear a + count_linear b.
Proof. unfold count_linear. now rewrite filter_app, length_app. Qed.

Lemma count_linear_stage (prefix : string) (i in_f out_f : nat) (use_bn : bool) :
  count_linear (Sequential_init prefix i (stage in_f out_f use_bn)) = 1.
Proof. unfold stage. destruct use_bn; reflexivity. Qed.

Lemma count_linear_stages (prefix : string) (d k : nat) (use_bn : bool) (i : nat) :
  count_linear (Sequential_init prefix i (concat (repeat (stage d d use_bn) k))) = k.
Proof.
  revert i. induction k as [|k IH]; intros i; cbn [repeat concat]; [reflexivity|].
  now rewrite Sequential_init_app, count_linear_app, count_linear_stage, IH.
Qed.

Lemma count_linear_head_mlp (prefix : string) (in_dim hidden_dim bottleneck_dim nlayers : nat)
    (use_bn : bool) :
  count_linear (head_mlp prefix in_dim hidden_dim bottleneck_dim nlayers use_bn)
  = Nat.max nlayers 1.
Proof.
  unfold head_mlp. destruct (Nat.max nlayers 1 =? 1) eqn:Hn.
  - apply Nat.eqb_eq in Hn. now rewrite Hn.
  - apply Nat.eqb_neq in Hn. unfold mlp_kinds.
    rewrite !Sequential_init_app, !count_linear_app, count_linear_stage, count_linear_stages.
    cbn [Sequential_init count_linear filter length]. lia.
Qed.

(** [DINOHead.forward] maps a batch of [B] rows of [in_dim] features to [B]
    rows of [out_dim], whatever [nlayers] (0 counts as 1, and then
    [hidden_dim] and [use_bn] play no part): the [mlp] has
    [max(nlayers, 1)] linear layers.  With batch norm, in training mode, a
    batch of a single row is rejected. *)
Theorem DINOHead_forward_shape (in_dim out_dim nlayers hidden_dim bottleneck_dim B : nat)
    (use_bn norm_last_layer training : bool) (g : list string) :
  let self := DINOHead_init in_dim out_dim use_bn norm_last_layer nlayers hidden_dim
                bottleneck_dim in
  count_linear (dh_mlp self) = Nat.max nlayers 1 /\
  (use_bn = false \/ training = false \/ B <> 1 \/ nlayers <= 1 ->
   exists y, DINOHead_forward training self (mkTensor [B; in_dim] g) = Ok y /\
             shape y = [B; out_dim]) /\
  (use_bn = true -> training = true -> B = 1 -> 2 <= nlayers ->
   DINOHead_forward training self (mkTensor [B; in_dim] g)
   = Err (ValueError "Expected more than 1 value per channel when training")).
Proof.
  cbn zeta. unfold DINOHead_init, DINOHead_forward. cbn [dh_mlp dh_last_layer].
  split; [apply count_linear_head_mlp|]. split.
  - intros Hok.
    destruct (head_mlp_forward training use_bn "mlp" in_dim hidden_dim bottleneck_dim nlayers
                B (mkTensor [B; in_dim] g)) as (y & -> & Hy); [|reflexivity|].
    { unfold batch_norm_takes. tauto. }
    cbn [bind]. rewrite Hy. cbn [length Nat.sub].
    exact (last_layer_forward "last_layer" bottleneck_dim out_dim B norm_last_layer y Hy).
  - intros -> -> -> Hn. unfold head_mlp.
    assert (Hmax : (Nat.max nlayers 1 =? 1) = false) by (apply Nat.eqb_neq; lia).
    rewrite Hmax. unfold mlp_kinds, stage. cbn [app Sequential_init sequential_forward].
    cbn [layer_forward]. unfold Linear_forward.
    cbn [shape rev app Linear_init in_features out_features].
    rewrite Nat.eqb_refl. cbn [bind sequential_forward layer_forward].
    reflexivity.
Qed.

Lemma DINOHead_forward_shape_witness :
  exists y, DINOHead_forward true (DINOHead_init 384 512 true true 3 2048 256)
              (mkTensor [8; 384] []) = Ok y /\
            shape y = [8; 512].
Proof.
  apply (proj1 (proj2 (DINOHead_forward_shape 384 512 3 2048 256 8 true true true []))).
  right. right. left. discriminate.
Defined.

Lemma shape_eqb_refl (s : list nat) : shape_eqb s s = true.
Proof. induction s as [|x s IH]; cbn [shape_eqb]; [reflexivity|]. now rewrite Nat.eqb_refl. Qed.

Lemma cat_dim0_rows (a b : Tensor) (m k : nat) (rest : list nat) :
  shape a = m :: rest -> shape b = k :: rest ->
  exists c, cat a b 0 = Ok c /\ shape c = (m + k) :: rest.
Proof.
  intros Ha Hb. unfold cat. rewrite Ha, Hb.
  cbn [length set_nth nth shape_eqb Nat.eqb Nat.ltb Nat.leb andb].
  rewrite !Nat.eqb_refl, shape_eqb_refl. cbn [andb]. eexists; split; reflexivity.
Qed.

Lemma cat_onto_rows (ts : list Tensor) (acc : Tensor) (m B : nat) (rest : list nat) :
  Forall (fun t => shape t = B :: rest) ts -> shape acc = m :: rest ->
  exists c, cat_onto acc ts 0 = Ok c /\ shape c = (m + length ts * B) :: rest.
Proof.
  intros Hts. revert acc m.
  induction Hts as [|t ts Ht _ IH]; intros acc m Hacc; cbn [cat_onto length].
  - exists acc. split; [reflexivity|]. now rewrite Nat.mul_0_l, Nat.add_0_r.
  - destruct (cat_dim0_rows acc t m B rest Hacc Ht) as (c & -> & Hc). cbn [bind].
    destruct (IH c (m + B) Hc) as (c' & -> & Hc').
    exists c'. split; [reflexivity|]. rewrite Hc'. f_equal. cbn [Nat.mul]. lia.
Qed.

(** Tensors of one shape stacked along their first axis. *)
Lemma cat_list_rows (ts : list Tensor) (B : nat) (rest : list nat) :
  ts <> [] -> Forall (fun t => shape t = B :: rest) ts ->
  exists c, cat_list ts 0 = Ok c /\ shape c = (length ts * B) :: rest.
Proof.
  intros Hne Hts. destruct ts as [|t ts]; [congruence|].
  inversion Hts as [|? ? Ht Hrest]; subst.
  cbn [cat_list length].
  destruct (cat_onto_rows ts t B B rest Hrest Ht) as (c & -> & Hc).
  exists c. split; [reflexivity|]. rewrite Hc. reflexivity.
Qed.

Lemma Forall_combine_map {A B C : Type} (f : A -> B) (g : A -> C) (P : B * C -> Prop)
    (l : list A) :
  (forall a, In a l -> P (f a, g a)) -> Forall P (combine (map f l) (map g l)).
Proof.
  induction l as [|a l IH]; intros H; cbn [map combine]; constructor.
  - apply H. now left.
  - apply IH. intros b Hb. apply H. now right.
Qed.

Lemma student_heads_ok (training : bool) (in_dim bottleneck_dim out_dim B : nat)
    (heads : list (list layer * WeightNormLinear)) :
  Forall (fun h => (forall xi, shape xi = [B; in_dim] ->
                      exists y, sequential_forward training (fst h) xi = Ok y /\
                                shape y = [B; bottleneck_dim]) /\
                   exists prefix nl,
                     snd h = last_layer_init prefix bottleneck_dim out_dim nl) heads ->
  forall (i : nat) (x : Tensor),
    i + length heads <= 12 ->
    shape x = [12; B; in_dim] ->
    exists ys,
      student_heads training i heads x = Ok ys /\
      Forall (fun y => shape y = [B; out_dim]) ys /\ length ys = length heads.
Proof.
  induction 1 as [|[mlp_ last] heads (Hmlp & prefix & nl & Hlast) _ IH]; intros i x Hi Hx;
    cbn [student_heads length] in *.
  - exists []. repeat split. constructor.
  - cbn [fst snd] in Hmlp, Hlast. unfold select0. rewrite Hx.
    assert (Hlt : (i <? 12) = true) by (apply Nat.ltb_lt; lia).
    rewrite Hlt. cbn [bind].
    destruct (Hmlp {| shape := [B; in_dim]; graph := graph x |} eq_refl) as (y & -> & Hy).
    cbn [bind]. subst last.
    destruct (last_layer_forward prefix bottleneck_dim out_dim B nl y Hy) as (z & Hz & Hsz).
    destruct (normalize_shape y 1) as [y'|e]; cbn [bind] in Hz |- *; [|discriminate].
    rewrite Hz. cbn [bind].
    destruct (IH (S i) x ltac:(lia) Hx) as (ys & -> & Hf & Hl).
    cbn [bind]. exists (z :: ys). split; [reflexivity|].
    split; [now constructor|cbn [length]; now rewrite Hl].
Qed.

(** [StudentDINOHead.forward] splits its rows into twelve groups, one per
    head: a batch whose number of rows is a multiple of 12 comes back with as
    many rows of [out_dim] features, any other is rejected.  The twelfth head
    has three linear layers whatever [nlayers] says; the eleven others
    have [max(nlayers, 1)]. *)
Theorem StudentDINOHead_forward_shape
    (in_dim out_dim nlayers hidden_dim bottleneck_dim rows : nat)
    (use_bn norm_last_layer training : bool) (g : list string) :
  let self := StudentDINOHead_init in_dim out_dim use_bn norm_last_layer nlayers hidden_dim
                bottleneck_dim in
  (rows mod 12 = 0 ->
   use_bn = false \/ training = false \/ rows <> 12 ->
   exists y, StudentDINOHead_forward training self (mkTensor [rows; in_dim] g) = Ok y /\
             shape y = [rows; out_dim]) /\
  (rows mod 12 <> 0 ->
   exists e, StudentDINOHead_forward training self (mkTensor [rows; in_dim] g) = Err e) /\
  map count_linear (sh_layers self) = repeat (Nat.max nlayers 1) 11 ++ [3].
Proof.
  cbn zeta. unfold StudentDINOHead_init, StudentDINOHead_forward, rearrange_layers.
  cbn [sh_layers sh_last_layers shape graph].
  split; [|split].
  - intros Hmod Hbn. rewrite Hmod. cbn [Nat.eqb bind].
    set (B := rows / 12).
    assert (HB : rows = 12 * B).
    { unfold B. pose proof (Nat.div_mod_eq rows 12). lia. }
    assert (Htakes : batch_norm_takes training use_bn B).
    { unfold batch_norm_takes. destruct Hbn as [H|[H|H]]; [tauto|tauto|]. right. right. lia. }
    match goal with
    | |- context [student_heads training 0 ?heads ?t] =>
        assert (Hheads : exists ys,
                  student_heads training 0 heads t = Ok ys /\
                  Forall (fun y => shape y = [B; out_dim]) ys /\
                  length ys = length heads)
    end.
    { apply (student_heads_ok training in_dim bottleneck_dim out_dim B).
      - apply Forall_combine_map. intros i _. cbn [fst snd]. split.
        + intros xi Hxi. apply head_mlp_forward; [now left|exact Hxi].
        + eexists; eexists; reflexivity.
      - rewrite length_combine, !length_map, length_seq. cbn. lia.
      - reflexivity. }
    destruct Hheads as (ys & -> & Hf & Hl).
    cbn [bind].
    rewrite length_combine, !length_map, length_seq in Hl. cbn [Nat.min] in Hl.
    destruct (cat_list_rows ys B [out_dim]) as (c & -> & Hc); [|exact Hf|].
    { intros ->. discriminate. }
    exists c. split; [reflexivity|]. rewrite Hc, Hl, HB. reflexivity.
  - intros Hmod. apply Nat.eqb_neq in Hmod. rewrite Hmod. cbn [bind].
    eexists; reflexivity.
  - cbn [seq map]. rewrite !count_linear_head_mlp. cbn [Nat.eqb]. reflexivity.
Qed.

Lemma StudentDINOHead_forward_shape_witness :
  exists y, StudentDINOHead_forward true (StudentDINOHead_init 384 512 false true 1 2048 256)
              (mkTensor [24; 384] []) = Ok y /\
            shape y = [24; 512].
Proof.
  apply (proj1 (StudentDINOHead_forward_shape 384 512 1 2048 256 24 false true true []));
    [reflexivity|now left].
Defined.

(* ------------------------------------------------------------------ *)
(** ** Bounds on similarities *)

Lemma sum_squares_cons (a : R) (v : list R) :
  sum_list (map (fun x => (x * x)%R) (a :: v))
  = (a * a + sum_list (map (fun x => (x * x)%R) v))%R.
Proof. reflexivity. Qed.

(** The inequality of Cauchy and Schwarz, for [dot], which multiplies as far
    as the shorter vector goes. *)
Lemma dot_square_le (u v : list R) :
  (dot u v * dot u v
   <= sum_list (map (fun x => x * x) u) * sum_list (map (fun x => x * x) v))%R.
Proof.
  revert v. induction u as [|a u IH]; intros [|b v].
  - change (dot [] []) with 0%R. rewrite Rmult_0_l.
    change (sum_list (map (fun x => (x * x)%R) [])) with 0%R. lra.
  - change (dot [] (b :: v)) with 0%R.
    change (sum_list (map (fun x => (x * x)%R) [])) with 0%R. rewrite !Rmult_0_l. lra.
  - change (dot (a :: u) []) with 0%R.
    change (sum_list (map (fun x => (x * x)%R) [])) with 0%R.
    rewrite Rmult_0_l, Rmult_0_r. lra.
  - rewrite !sum_squares_cons.
    replace (dot (a :: u) (b :: v)) with (a * b + dot u v)%R by reflexivity.
    specialize (IH v).
    pose proof (sum_squares_nonneg u) as HA. pose proof (sum_squares_nonneg v) as HB.
    set (S := dot u v) in *.
    set (A := sum_list (map (fun x => (x * x)%R) u)) in *.
    set (Bv := sum_list (map (fun x => (x * x)%R) v)) in *.
    assert (Hcross : (2 * (a * b) * S <= a * a * Bv + b * b * A)%R).
    { destruct (Req_dec_T A 0) as [HA0|HA0].
      - assert (HS : S = 0%R).
        { rewrite HA0, Rmult_0_l in IH.
          pose proof (Rle_0_sqr S) as Hs. unfold Rsqr in Hs.
          apply Rsqr_0_uniq. unfold Rsqr. lra. }
        rewrite HS, HA0, !Rmult_0_r.
        pose proof (Rle_0_sqr a) as Ha. unfold Rsqr in Ha.
        assert (0 <= a * a * Bv)%R by (apply Rmult_le_pos; assumption). lra.
      - assert (HApos : (0 < A)%R) by lra.
        pose proof (Rle_0_sqr (a * S - b * A)) as Hsq. unfold Rsqr in Hsq.
        pose proof (Rle_0_sqr a) as Ha. unfold Rsqr in Ha.
        assert (H1 : (0 <= a * a * (A * Bv - S * S))%R) by (apply Rmult_le_pos; lra).
        assert (Hm : (0 <= A * (a * a * Bv + b * b * A - 2 * (a * b) * S))%R).
        { replace (A * (a * a * Bv + b * b * A - 2 * (a * b) * S))%R
            with ((a * S - b * A) * (a * S - b * A) + a * a * (A * Bv - S * S))%R by ring.
          lra. }
        assert (0 <= a * a * Bv + b * b * A - 2 * (a * b) * S)%R; [|lra].
        apply (Rmult_le_reg_l A); [exact HApos|]. now rewrite Rmult_0_r. }
    replace ((a * b + S) * (a * b + S))%R
      with (a * b * (a * b) + 2 * (a * b) * S + S * S)%R by ring.
    replace ((a * a + A) * (b * b + Bv))%R
      with (a * b * (a * b) + (a * a * Bv + b * b * A) + A * Bv)%R by ring.
    lra.
Qed.

Lemma dot_abs_le (u v : list R) :
  (Rabs (dot u v) <= l2norm u * l2norm v)%R.
Proof.
  unfold l2norm. rewrite <- sqrt_mult_alt by apply sum_squares_nonneg.
  rewrite <- sqrt_Rsqr_abs. apply sqrt_le_1_alt. unfold Rsqr. apply dot_square_le.
Qed.

Lemma l2norm_nonneg (v : list R) : (0 <= l2norm v)%R.
Proof. unfold l2norm. apply sqrt_pos. Qed.

Lemma l2norm_div (m : R) (v : list R) :
  (0 < m)%R -> l2norm (map (fun x => (x / m)%R) v) = (l2norm v / m)%R.
Proof.
  intros Hm.
  replace (map (fun x => (x / m)%R) v) with (map (Rmult (/ m)) v)
    by (apply map_ext; intros x; unfold Rdiv; ring).
  rewrite l2norm_scale, Rabs_right.
  - unfold Rdiv. ring.
  - apply Rle_ge. left. now apply Rinv_0_lt_compat.
Qed.

(** A normalised row has norm at most 1: exactly 1 above the [eps] of
    [F.normalize], less below it. *)
Lemma l2norm_normalize_row (v : list R) : (l2norm (normalize_row v) <= 1)%R.
Proof.
  unfold normalize_row.
  pose proof normalize_eps_pos as Heps. pose proof (l2norm_nonneg v) as Hv.
  assert (Hm : (0 < Rmax (l2norm v) normalize_eps)%R).
  { pose proof (Rmax_r (l2norm v) normalize_eps). lra. }
  rewrite (l2norm_div _ _ Hm).
  apply (Rmult_le_reg_r (Rmax (l2norm v) normalize_eps)); [exact Hm|].
  unfold Rdiv. rewrite Rmult_assoc, Rinv_l, Rmult_1_r, Rmult_1_l by lra.
  apply Rmax_l.
Qed.

(** The cosine of two rows, as the code computes it. *)
Lemma cosine_bounds (u v : list R) :
  (-1 <= dot (normalize_row u) (normalize_row v) <= 1)%R.
Proof.
  pose proof (dot_abs_le (normalize_row u) (normalize_row v)) as Hcs.
  pose proof (l2norm_normalize_row u) as Hu. pose proof (l2norm_normalize_row v) as Hv.
  pose proof (l2norm_nonneg (normalize_row u)) as Hu0.
  pose proof (l2norm_nonneg (normalize_row v)) as Hv0.
  assert (Hle : (Rabs (dot (normalize_row u) (normalize_row v)) <= 1)%R) by nra.
  unfold Rabs in Hle. destruct (Rcase_abs _); lra.
Qed.

Lemma in_map2 {A B C : Type} (f : A -> B -> C) (xs : list A) (ys : list B) (c : C) :
  In c (map2 f xs ys) -> exists a b, In a xs /\ In b ys /\ c = f a b.
Proof.
  revert ys. induction xs as [|x xs IH]; intros [|y ys]; cbn [map2 In]; try tauto.
  intros [<-|Hin].
  - exists x, y. repeat split; now left.
  - destruct (IH ys Hin) as (a & b & Ha & Hb & ->).
    exists a, b. repeat split; now right.
Qed.

Lemma l2norm_times (c : R) (v : list R) :
  l2norm (map (fun x => (x * c)%R) v) = (Rabs c * l2norm v)%R.
Proof.
  replace (map (fun x => (x * c)%R) v) with (map (Rmult c) v)
    by (apply map_ext; intros x; ring).
  apply l2norm_scale.
Qed.

(* ------------------------------------------------------------------ *)
(** ** [loss_fn] and [cos_fn] *)

Lemma sequence_length {A : Type} (rs : list (result A)) (l : list A) :
  sequence rs = Ok l -> length l = length rs.
Proof.
  revert l. induction rs as [|r rs IH]; intros l; cbn [sequence].
  - intros H. now inversion H.
  - destruct r as [a|e]; cbn [bind]; [|discriminate].
    destruct (sequence rs) as [as_|e]; cbn [bind]; [|discriminate].
    intros H. inversion H; subst l. cbn [length]. now rewrite (IH as_ eq_refl).
Qed.

Lemma mul2_length (x y p : matrix) :
  x <> [] -> y <> [] -> mul2 x y = Ok p -> p <> [].
Proof.
  intros Hx Hy. unfold mul2.
  assert (Hlen : forall l : matrix, l <> [] -> length l <> 0)
    by (intros [|? ?]; [congruence|discriminate]).
  pose proof (Hlen x Hx) as Hlx. pose proof (Hlen y Hy) as Hly.
  destruct (length x =? length y) eqn:E.
  - apply Nat.eqb_eq in E. intros H. apply sequence_length in H.
    rewrite map2_length_eq in H by assumption.
    intros ->. cbn [length] in H. lia.
  - destruct (length x =? 1).
    + intros H. apply sequence_length in H. rewrite length_map in H.
      intros ->. cbn [length] in H. lia.
    + destruct (length y =? 1); [|discriminate].
      intros H. apply sequence_length in H. rewrite length_map in H.
      intros ->. cbn [length] in H. lia.
Qed.

Lemma mean_affine (f : list R -> R) (p : matrix) :
  p <> [] ->
  mean (map (fun r => (2 - 2 * f r)%R) p) = (2 - 2 * mean (map f p))%R.
Proof.
  intros Hp. unfold mean. rewrite !length_map.
  assert (Hn : INR (length p) <> 0%R).
  { apply not_0_INR. destruct p; [congruence|discriminate]. }
  assert (Hsum : sum_list (map (fun r => (2 - 2 * f r)%R) p)
                 = (2 * INR (length p) - 2 * sum_list (map f p))%R).
  { clear. unfold sum_list. induction p as [|r p IH]; [cbn; lra|].
    cbn [map fold_right]. rewrite IH. cbn [length]. rewrite S_INR. lra. }
  rewrite Hsum. field. exact Hn.
Qed.

Lemma mul_row_comm (u v : list R) : mul_row u v = mul_row v u.
Proof.
  unfold mul_row. rewrite (Nat.eqb_sym (length v) (length u)).
  destruct (length u =? length v) eqn:E.
  - f_equal. apply Nat.eqb_eq in E. clear -E. revert v E.
    induction u as [|a u IH]; intros [|b v] E; cbn [map2]; try discriminate; [reflexivity|].
    rewrite Rmult_comm. f_equal. apply IH. cbn [length] in E. lia.
  - destruct (length u =? 1) eqn:Eu; destruct (length v =? 1) eqn:Ev.
    + apply Nat.eqb_eq in Eu, Ev. apply Nat.eqb_neq in E. lia.
    + f_equal. apply map_ext. intros; ring.
    + f_equal. apply map_ext. intros; ring.
    + reflexivity.
Qed.

Lemma mul2_comm (x y : matrix) : mul2 x y = mul2 y x.
Proof.
  unfold mul2. rewrite (Nat.eqb_sym (length y) (length x)).
  destruct (length x =? length y) eqn:E.
  - f_equal. apply Nat.eqb_eq in E. clear -E. revert y E.
    induction x as [|a x IH]; intros [|b y] E; cbn [map2]; try discriminate; [reflexivity|].
    rewrite mul_row_comm. f_equal. apply IH. cbn [length] in E. lia.
  - destruct (length x =? 1) eqn:Ex; destruct (length y =? 1) eqn:Ey.
    + apply Nat.eqb_eq in Ex, Ey. apply Nat.eqb_neq in E. lia.
    + f_equal. apply map_ext. intros; apply mul_row_comm.
    + f_equal. apply map_ext. intros; apply mul_row_comm.
    + reflexivity.
Qed.

Lemma loss_of_cos (x y : matrix) :
  x <> [] -> y <> [] ->
  loss_fn x y = (c <- cos_fn x y ;; Ok (2 - 2 * c)%R).
Proof.
  intros Hx Hy. unfold loss_fn, cos_fn.
  assert (Hn : forall m : matrix, m <> [] -> normalize m <> []).
  { intros [|? ?]; [congruence|discriminate]. }
  destruct (mul2 (normalize x) (normalize y)) as [p|e] eqn:Hp; cbn [bind]; [|reflexivity].
  f_equal. apply mean_affine.
  exact (mul2_length _ _ _ (Hn x Hx) (Hn y Hy) Hp).
Qed.

(** [loss_fn] and [cos_fn] are symmetric in their arguments, value or
    exception, and one raises exactly where the other does: the entries are
    multiplied pairwise, and the product of two numbers does not depend on
    their order. *)
Theorem loss_fn_symmetric (x y : matrix) :
  loss_fn x y = loss_fn y x /\
  cos_fn x y = cos_fn y x /\
  is_ok (loss_fn x y) = is_ok (cos_fn x y).
Proof.
  unfold loss_fn, cos_fn. rewrite (mul2_comm (normalize x) (normalize y)).
  repeat split.
  now destruct (mul2 (normalize y) (normalize x)).
Qed.

Lemma mul_row_same_length (u v : list R) :
  length u = length v -> mul_row u v = Ok (map2 Rmult u v).
Proof. intros H. unfold mul_row. now rewrite H, Nat.eqb_refl. Qed.

Lemma mul2_same_shape (d : nat) (x y : matrix) :
  length x = length y -> has_width d x = true -> has_width d y = true ->
  mul2 x y = Ok (map2 (map2 Rmult) x y).
Proof.
  intros Hlen Hx Hy. unfold mul2. rewrite Hlen, Nat.eqb_refl.
  clear Hlen. revert y Hy. unfold has_width in *.
  induction x as [|u x IH]; intros [|v y] Hy; cbn [map2 sequence]; try reflexivity.
  cbn [forallb] in Hx, Hy. apply andb_prop in Hx as [Hu Hx], Hy as [Hv Hy].
  apply Nat.eqb_eq in Hu, Hv.
  rewrite mul_row_same_length by congruence. cbn [bind].
  rewrite (IH Hx y Hy). reflexivity.
Qed.

Lemma map_sum_products (x y : matrix) :
  map sum_list (map2 (map2 Rmult) x y) = map2 dot x y.
Proof.
  revert y. induction x as [|u x IH]; intros [|v y]; cbn [map2 map]; try reflexivity.
  now rewrite IH.
Qed.

Lemma mean_bounds (lo hi : R) (v : list R) :
  v <> [] -> Forall (fun c => (lo <= c <= hi)%R) v -> (lo <= mean v <= hi)%R.
Proof.
  intros Hne Hv. unfold mean.
  assert (Hn : (0 < INR (length v))%R).
  { apply lt_0_INR. destruct v; [congruence|cbn; lia]. }
  assert (Hsum : (lo * INR (length v) <= sum_list v <= hi * INR (length v))%R).
  { clear Hne Hn. unfold sum_list.
    induction Hv as [|c v Hc _ IH]; [cbn; lra|].
    cbn [fold_right length]. rewrite S_INR. lra. }
  split.
  - apply (Rmult_le_reg_r (INR (length v))); [exact Hn|].
    unfold Rdiv. rewrite Rmult_assoc, Rinv_l, Rmult_1_r by lra. lra.
  - apply (Rmult_le_reg_r (INR (length v))); [exact Hn|].
    unfold Rdiv. rewrite Rmult_assoc, Rinv_l, Rmult_1_r by lra. lra.
Qed.

Lemma map2_nonempty {A B C : Type} (f : A -> B -> C) (xs : list A) (ys : list B) :
  xs <> [] -> length xs = length ys -> map2 f xs ys <> [].
Proof.
  destruct xs as [|a xs]; [congruence|]. destruct ys as [|b ys]; [discriminate|].
  discriminate.
Qed.

Lemma cosines (x y : matrix) :
  length (normalize x) = length (normalize y) ->
  mean (map2 dot (normalize x) (normalize y))
  = mean (map2 (fun u v => dot (normalize_row u) (normalize_row v)) x y).
Proof.
  intros _. f_equal. unfold normalize. revert y.
  induction x as [|u x IH]; intros [|v y]; cbn [map map2]; try reflexivity.
  now rewrite IH.
Qed.

Lemma mean_constant (c : R) (v : list R) :
  v <> [] -> Forall (fun a => a = c) v -> mean v = c.
Proof.
  intros Hne Hv.
  assert (H : (c <= mean v <= c)%R).
  { apply mean_bounds; [exact Hne|].
    eapply Forall_impl; [|exact Hv]. intros a ->. lra. }
  lra.
Qed.

Lemma normalize_row_zero (v : list R) :
  Forall (fun a => a = 0%R) v -> Forall (fun a => a = 0%R) (normalize_row v).
Proof.
  intros Hv. unfold normalize_row. rewrite Forall_forall in *. intros a Ha.
  apply in_map_iff in Ha as (b & <- & Hb). rewrite (Hv b Hb). unfold Rdiv. ring.
Qed.

Lemma dot_zero_l (u v : list R) : Forall (fun a => a = 0%R) u -> dot u v = 0%R.
Proof.
  intros Hu. revert v. unfold dot, sum_list.
  induction Hu as [|a u -> _ IH]; intros [|b v]; cbn [map2 fold_right]; try reflexivity.
  rewrite IH. ring.
Qed.

(** A collapsed embedding: against a batch [x] of the same shape whose
    rows are all zero, [loss_fn] is exactly 2 and [cos_fn] exactly 0,
    whatever the other batch. *)
Theorem loss_fn_collapsed (d : nat) (x y : matrix) :
  x <> [] -> has_width d x = true ->
  length x = length y -> has_width d y = true ->
  Forall (Forall (fun a => a = 0%R)) x ->
  loss_fn x y = Ok 2%R /\ cos_fn x y = Ok 0%R.
Proof.
  intros Hx Hwx Hlen Hwy Hzero.
  assert (Hy : y <> []) by (destruct x, y; try congruence; discriminate).
  assert (Hc : cos_fn x y = Ok 0%R).
  { unfold cos_fn.
    rewrite (mul2_same_shape d) by
      (try rewrite has_width_normalize; try assumption;
       unfold normalize; now rewrite !length_map).
    cbn [bind]. rewrite map_sum_products, cosines
      by (unfold normalize; now rewrite !length_map).
    f_equal. apply mean_constant; [now apply map2_nonempty|].
    rewrite Forall_forall in *. intros c Hin.
    apply in_map2 in Hin as (u & v & Hu & _ & ->).
    apply dot_zero_l, normalize_row_zero. now apply Hzero. }
  pose proof (loss_of_cos x y Hx Hy) as Hrel.
  rewrite Hc in Hrel. cbn [bind] in Hrel. rewrite Hrel.
  split; [f_equal; ring|exact Hc].
Qed.

Lemma loss_fn_collapsed_witness :
  loss_fn [[0; 0]%R] [[3; 4]%R] = Ok 2%R /\ cos_fn [[0; 0]%R] [[3; 4]%R] = Ok 0%R.
Proof.
  apply (loss_fn_collapsed 2 [[0; 0]%R] [[3; 4]%R]);
    [discriminate|reflexivity|reflexivity|reflexivity|].
  repeat constructor.
Defined.

(* ------------------------------------------------------------------ *)
(** ** [drop_path] *)

Lemma floor_keep (keep_prob u : R) :
  (0 < keep_prob < 1)%R -> (0 <= u < 1)%R ->
  IZR (Int_part (keep_prob + u)) = if Rle_dec (1 - keep_prob) u then 1%R else 0%R.
Proof.
  intros Hk Hu. destruct (Rle_dec (1 - keep_prob) u) as [Hle|Hgt].
  - rewrite <- (Int_part_spec (keep_prob + u) 1); [reflexivity|]. lra.
  - rewrite <- (Int_part_spec (keep_prob + u) 0); [reflexivity|]. lra.
Qed.

(** Stochastic depth.  In evaluation mode or with [drop_prob = 0] the input
    comes back as it is.  In training mode with [0 < drop_prob < 1], sample
    [i] is dropped (all zeros) when its random number is below [drop_prob],
    and is otherwise the input divided by [1 - drop_prob]. *)
Theorem drop_path_samples (x : matrix) (drop_prob : R) (rand : list R) :
  (forall training, training = false \/ drop_prob = 0%R ->
                    drop_path x drop_prob training rand = x) /\
  ((0 < drop_prob < 1)%R -> length rand = length x ->
   Forall (fun u => (0 <= u < 1)%R) rand ->
   drop_path x drop_prob true rand
   = map2 (fun xi u => if Rle_dec drop_prob u
                       then map (fun v => (v / (1 - drop_prob))%R) xi
                       else map (fun _ => 0%R) xi) x rand).
Proof.
  split.
  - intros training [-> | ->]; unfold drop_path.
    + destruct (Req_dec_T drop_prob 0); reflexivity.
    + destruct (Req_dec_T 0 0); [reflexivity|congruence].
  - intros Hp Hlen Hrand. unfold drop_path.
    destruct (Req_dec_T drop_prob 0) as [H0|_]; [lra|]. cbn [negb].
    clear Hlen. revert x. induction Hrand as [|u rand Hu _ IH]; intros [|xi x];
      cbn [map map2]; try reflexivity.
    rewrite IH. f_equal.
    rewrite (floor_keep (1 - drop_prob) u) by lra.
    replace (1 - (1 - drop_prob))%R with drop_prob by ring.
    destruct (Rle_dec drop_prob u); apply map_ext; intros v; unfold Rdiv; ring.
Qed.

Lemma drop_path_samples_witness :
  drop_path [[2; 4]%R; [6; 8]%R] (1 / 2) true [(1 / 4)%R; (3 / 4)%R]
  = map2 (fun xi u => if Rle_dec (1 / 2) u
                      then map (fun v => (v / (1 - 1 / 2))%R) xi
                      else map (fun _ => 0%R) xi)
         [[2; 4]%R; [6; 8]%R] [(1 / 4)%R; (3 / 4)%R].
Proof.
  apply (proj2 (drop_path_samples [[2; 4]%R; [6; 8]%R] (1 / 2) [(1 / 4)%R; (3 / 4)%R]));
    [lra|reflexivity|].
  repeat (apply Forall_cons; [lra|]). apply Forall_nil.
Defined.

(* ------------------------------------------------------------------ *)
(** ** The labels of the cross-batch loss and the gathered teacher batch *)

Lemma nth_concat_uniform {A : Type} (ls : list (list A)) (B r i : nat) (d : A) :
  Forall (fun l => length l = B) ls -> r < length ls -> i < B ->
  nth (i + B * r) (concat ls) d = nth i (nth r ls []) d.
Proof.
  intros Hls. revert r. induction Hls as [|l ls Hl _ IH]; intros r Hr Hi; cbn [length] in Hr.
  - lia.
  - cbn [concat]. destruct r as [|r].
    + rewrite Nat.mul_0_r, Nat.add_0_r. cbn [nth]. apply app_nth1. lia.
    + cbn [nth]. rewrite app_nth2 by lia.
      replace (i + B * S r - length l) with (i + B * r) by nia.
      apply IH; lia.
Qed.

Lemma length_concat_uniform {A : Type} (ls : list (list A)) (B : nat) :
  Forall (fun l => length l = B) ls -> length (concat ls) = length ls * B.
Proof.
  induction 1 as [|l ls Hl _ IH]; [reflexivity|].
  cbn [concat length]. rewrite length_app, IH, Hl. cbn [Nat.mul]. lia.
Qed.

Lemma arange_plus_nth (n off i : nat) :
  i < n -> nth i (arange_plus n off) 0 = i + off.
Proof.
  intros Hi. unfold arange_plus.
  rewrite (nth_indep _ 0 (0 + off)) by (now rewrite length_map, length_seq).
  rewrite (map_nth (fun k => k + off)), seq_nth by assumption. reflexivity.
Qed.

(** With every rank holding a teacher batch of [B] rows, the label
    [arange(B) + B * rank] of row [i] on a rank is the position, in the
    gathered teacher batch, of the teacher output of that same sample: the
    positive of a student row is its own image under the teacher. *)
Theorem concat_all_gather_labels (tensors_gather : list matrix) (B rank i : nat) :
  Forall (fun t => length t = B) tensors_gather ->
  rank < length tensors_gather -> i < B ->
  length (concat_all_gather tensors_gather) = length tensors_gather * B /\
  nth (nth i (arange_plus B (B * rank)) 0) (concat_all_gather tensors_gather) []
  = nth i (nth rank tensors_gather []) [].
Proof.
  intros Hall Hrank Hi. unfold concat_all_gather. split.
  - now apply length_concat_uniform.
  - rewrite arange_plus_nth by assumption. now apply nth_concat_uniform.
Qed.

Lemma concat_all_gather_labels_witness :
  length (concat_all_gather [[[1]; [2]]%R; [[3]; [4]]%R]) = 2 * 2 /\
  nth (nth 1 (arange_plus 2 (2 * 1)) 0) (concat_all_gather [[[1]; [2]]%R; [[3]; [4]]%R]) []
  = nth 1 (nth 1 [[[1]; [2]]%R; [[3]; [4]]%R] []) [].
Proof.
  apply (concat_all_gather_labels [[[1]; [2]]%R; [[3]; [4]]%R] 2 1 1).
  - repeat constructor.
  - cbn. lia.
  - lia.
Defined.

(* ------------------------------------------------------------------ *)
(** ** When the cross-batch loss returns, and what *)

Lemma ln_le_compat (x y : R) : (0 < x)%R -> (x <= y)%R -> (ln x <= ln y)%R.
Proof.
  intros Hx [Hlt| ->]; [|lra]. left. now apply ln_increasing.
Qed.

Lemma sum_exp_pos (row : list R) : row <> [] -> (0 < sum_list (map exp row))%R.
Proof.
  unfold sum_list. induction row as [|a row IH]; [congruence|]. intros _.
  cbn [map fold_right]. pose proof (exp_pos a).
  destruct row as [|b row]; [cbn; lra|].
  assert (0 < fold_right Rplus 0 (map exp (b :: row)))%R by (apply IH; discriminate). lra.
Qed.

Lemma sum_exp_member (row : list R) (j : nat) :
  j < length row -> (exp (nth j row 0) <= sum_list (map exp row))%R.
Proof.
  unfold sum_list. revert j. induction row as [|a row IH]; intros j Hj; cbn [length] in Hj;
    [lia|].
  cbn [map fold_right]. destruct j as [|j]; cbn [nth].
  - destruct row as [|b row]; [cbn; lra|].
    pose proof (sum_exp_pos (b :: row) ltac:(discriminate)) as H. unfold sum_list in H. lra.
  - pose proof (exp_pos a). specialize (IH j ltac:(lia)). lra.
Qed.

Lemma sum_exp_le (M : R) (row : list R) :
  Forall (fun v => (v <= M)%R) row ->
  (sum_list (map exp row) <= INR (length row) * exp M)%R.
Proof.
  unfold sum_list. induction 1 as [|a row Ha _ IH]; [cbn; lra|].
  cbn [map fold_right length]. rewrite S_INR.
  assert (exp a <= exp M)%R.
  { destruct Ha as [Hlt| ->]; [left; now apply exp_increasing|lra]. }
  lra.
Qed.

(** One term of the cross-entropy, for logits between [-M] and [M]. *)
Lemma nll_bounds (M : R) (row : list R) (label : nat) :
  label < length row -> Forall (fun v => (- M <= v <= M)%R) row ->
  (0 <= nll row label <= ln (INR (length row)) + 2 * M)%R.
Proof.
  intros Hlabel Hrow. unfold nll, logsumexp.
  assert (Hne : row <> []) by (destruct row; [cbn in Hlabel; lia|discriminate]).
  pose proof (sum_exp_pos row Hne) as Hpos.
  pose proof (sum_exp_member row label Hlabel) as Hmem.
  assert (Hle : (sum_list (map exp row) <= INR (length row) * exp M)%R).
  { apply sum_exp_le. eapply Forall_impl; [|exact Hrow]. intros v Hv. apply Hv. }
  assert (Hlab : (- M <= nth label row 0 <= M)%R).
  { rewrite Forall_forall in Hrow. apply Hrow. now apply nth_In. }
  assert (Hn : (0 < INR (length row))%R) by (apply lt_0_INR; lia).
  split.
  - pose proof (ln_le_compat _ _ (exp_pos (nth label row 0%R)) Hmem) as H.
    rewrite ln_exp in H. lra.
  - pose proof (ln_le_compat _ _ Hpos Hle) as H.
    rewrite ln_mult, ln_exp in H by (try apply exp_pos; assumption). lra.
Qed.

Lemma width_of_rows (d : nat) (x : matrix) :
  x <> [] -> has_width d x = true -> width x = d.
Proof.
  destruct x as [|r x]; [congruence|]. intros _. unfold has_width. cbn [forallb width].
  intros H. apply andb_prop in H as [H _]. now apply Nat.eqb_eq.
Qed.

Lemma matmul_T_rows (d : nat) (a b : matrix) :
  a <> [] -> has_width d a = true -> has_width d b = true ->
  matmul_T a b = Ok (map (fun ai => map (fun bj => dot ai bj) b) a).
Proof.
  intros Hne Ha Hb. unfold matmul_T.
  assert (Hw : match a with [] => width b | _ :: _ => width a end = d).
  { destruct a; [congruence|]. now apply width_of_rows. }
  now rewrite Hw, Ha, Hb.
Qed.

Lemma forallb_arange (n off T : nat) :
  forallb (fun l => l <? T) (arange_plus n off) = (n =? 0) || (n + off <=? T).
Proof.
  unfold arange_plus.
  destruct (Nat.eq_dec n 0) as [->|Hn]; [reflexivity|].
  assert (Hn0 : (n =? 0) = false) by now apply Nat.eqb_neq.
  rewrite Hn0. cbn [orb].
  destruct (n + off <=? T) eqn:Hle.
  - apply Nat.leb_le in Hle. apply forallb_forall. intros l Hl.
    apply in_map_iff in Hl as (i & <- & Hi). apply in_seq in Hi. apply Nat.ltb_lt. lia.
  - apply Nat.leb_gt in Hle.
    destruct (forallb _ _) eqn:Hall; [|reflexivity].
    rewrite forallb_forall in Hall.
    specialize (Hall (n - 1 + off)
                  ltac:(apply in_map_iff; exists (n - 1); split; [reflexivity|apply in_seq; lia])).
    apply Nat.ltb_lt in Hall. lia.
Qed.

Lemma forallb_labels (T : nat) (logits : matrix) (labels : list nat) :
  Forall (fun r => length r = T) logits -> length logits = length labels ->
  forallb (fun rl => snd rl <? length (fst rl)) (combine logits labels)
  = forallb (fun l => l <? T) labels.
Proof.
  intros Hrows. revert labels.
  induction Hrows as [|r logits Hr _ IH]; intros [|l labels] Hlen; cbn [length] in Hlen;
    try lia; cbn [combine forallb fst snd]; [reflexivity|].
  rewrite Hr, IH by lia. reflexivity.
Qed.

(** The logits of the cross-batch losses: the cosines of the rows, divided
    by the temperature. *)
Lemma logits_rows (temp : R) (s t : matrix) :
  (0 < temp)%R ->
  let logits := div_scalar (map (fun ai => map (fun bj => dot ai bj) (normalize t))
                                (normalize s)) temp in
  length logits = length s /\
  Forall (fun r => length r = length t /\
                   Forall (fun v => (- (1 / temp) <= v <= 1 / temp)%R) r) logits.
Proof.
  intros Htemp. cbn zeta. unfold div_scalar, normalize. split.
  - now rewrite !length_map.
  - rewrite Forall_forall. intros r Hr.
    apply in_map_iff in Hr as (r' & <- & Hr').
    apply in_map_iff in Hr' as (si & <- & Hsi).
    apply in_map_iff in Hsi as (s0 & <- & _).
    split; [now rewrite !length_map|].
    rewrite Forall_forall. intros v Hv.
    apply in_map_iff in Hv as (c & <- & Hc).
    apply in_map_iff in Hc as (tj & <- & Htj).
    apply in_map_iff in Htj as (t0 & <- & _).
    pose proof (cosine_bounds s0 t0) as Hcos.
    assert (Hinv : (0 < / temp)%R) by now apply Rinv_0_lt_compat.
    unfold Rdiv. rewrite Rmult_1_l. split; nra.
Qed.

Lemma criterion_bounds (M : R) (T : nat) (logits : matrix) (labels : list nat) :
  logits <> [] -> length logits = length labels ->
  Forall (fun r => length r = T /\ Forall (fun v => (- M <= v <= M)%R) r) logits ->
  (forallb (fun l => l <? T) labels = true ->
   exists loss, criterion logits labels = Ok loss /\
                (0 <= loss <= ln (INR T) + 2 * M)%R) /\
  (forallb (fun l => l <? T) labels = false -> criterion logits labels = Err IndexError).
Proof.
  intros Hne Hlen Hrows. unfold criterion.
  assert (Heq : (length logits =? length labels) = true) by now apply Nat.eqb_eq.
  rewrite Heq. cbn [negb].
  assert (HrowsT : Forall (fun r => length r = T) logits).
  { eapply Forall_impl; [|exact Hrows]. intros r Hr. apply Hr. }
  rewrite (forallb_labels T logits labels HrowsT Hlen).
  split; intros Hall; rewrite Hall; cbn [negb]; [|reflexivity].
  eexists. split; [reflexivity|].
  assert (Hlen2 : length (map2 nll logits labels) = length logits)
    by now apply map2_length_eq.
  rewrite <- Hlen2. apply (mean_bounds 0 (ln (INR T) + 2 * M)).
  - rewrite <- length_zero_iff_nil, Hlen2. destruct logits; [congruence|discriminate].
  - rewrite Forall_forall. intros c Hc.
    apply in_map2 in Hc as (r & l & Hr & Hl & ->).
    rewrite Forall_forall in Hrows. destruct (Hrows r Hr) as [HrT Hrv].
    rewrite forallb_forall in Hall. specialize (Hall l Hl). apply Nat.ltb_lt in Hall.
    rewrite <- HrT. apply nll_bounds; [lia|exact Hrv].
Qed.

(** [info_nce_loss] on [B >= 1] student rows and [T] teacher rows of the
    same width.  When the labels of the rank, [B * rank .. B * rank + B - 1],
    are rows of the teacher batch, it returns a loss between 0 and
    [0.4 * ln T + 4]; when the teacher batch is too short for them (the
    teacher outputs of the other ranks were not gathered), it raises an
    [IndexError]. *)
Theorem info_nce_loss_outcome (rank d : nat) (s t : matrix) :
  s <> [] -> has_width d s = true -> has_width d t = true ->
  (length s * (rank + 1) <= length t ->
   exists loss, info_nce_loss rank s t = Ok loss /\
                (0 <= loss <= 4 / 10 * ln (INR (length t)) + 4)%R) /\
  (length t < length s * (rank + 1) -> info_nce_loss rank s t = Err IndexError).
Proof.
  intros Hs Hws Hwt. unfold info_nce_loss.
  assert (Hns : normalize s <> []) by (destruct s; [congruence|discriminate]).
  rewrite (matmul_T_rows d) by (try rewrite has_width_normalize; assumption).
  cbn [bind].
  assert (Htau : (0 < tau)%R) by (unfold tau; lra).
  destruct (logits_rows tau s t Htau) as [Hlen Hrows]. cbn zeta in Hlen, Hrows.
  set (logits := div_scalar _ tau) in *.
  assert (Hlogits : logits <> []).
  { intros Hnil. apply (f_equal (@length _)) in Hnil. rewrite Hlen in Hnil.
    destruct s; [congruence|discriminate]. }
  assert (Hlabels : length logits = length (arange_plus (length s) (length s * rank))).
  { unfold arange_plus. now rewrite Hlen, length_map, length_seq. }
  destruct (criterion_bounds (1 / tau) (length t) logits _ Hlogits Hlabels Hrows)
    as [Hok Herr].
  rewrite forallb_arange in Hok, Herr.
  assert (Hs0 : (length s =? 0) = false).
  { apply Nat.eqb_neq. destruct s; [congruence|discriminate]. }
  rewrite Hs0 in Hok, Herr. cbn [orb] in Hok, Herr.
  split; intros Hcmp.
  - destruct Hok as (loss & -> & Hloss); [apply Nat.leb_le; lia|].
    cbn [bind]. eexists. split; [reflexivity|].
    unfold tau in *. lra.
  - rewrite Herr; [reflexivity|]. apply Nat.leb_gt. lia.
Qed.

Lemma info_nce_loss_outcome_witness :
  info_nce_loss 1 [[1; 0]%R; [0; 1]%R] [[1; 0]%R; [0; 1]%R] = Err IndexError.
Proof.
  apply (proj2 (info_nce_loss_outcome 1 2 [[1; 0]%R; [0; 1]%R] [[1; 0]%R; [0; 1]%R]
                  ltac:(discriminate) eq_refl eq_refl)).
  cbn. lia.
Defined.

Lemma length_concat_repeat {A : Type} (l : list A) (n : nat) :
  length (concat (repeat l n)) = n * length l.
Proof.
  induction n as [|n IH]; [reflexivity|].
  cbn [repeat concat]. rewrite length_app, IH. cbn [Nat.mul]. lia.
Qed.

Lemma forallb_concat_repeat {A : Type} (p : A -> bool) (l : list A) (n : nat) :
  n <> 0 -> forallb p (concat (repeat l n)) = forallb p l.
Proof.
  intros Hn. destruct n as [|n]; [congruence|]. clear Hn.
  induction n as [|n IH]; cbn [repeat concat].
  - now rewrite app_nil_r.
  - rewrite forallb_app. cbn [repeat concat] in IH. rewrite IH. apply andb_diag.
Qed.

Lemma ceil_div_divisible (a b : nat) : b <> 0 -> a mod b = 0 -> ceil_div a b = a / b.
Proof.
  intros Hb Hr. unfold ceil_div.
  pose proof (Nat.div_mod_eq a b) as Hdiv. rewrite Hr, Nat.add_0_r in Hdiv.
  symmetry. apply (Nat.div_unique (a + b - 1) b (a / b) (b - 1)); lia.
Qed.

(** The layer-wise losses label [depth] stacked layers with
    [depth * ceil(B / depth)] labels for [B] rows.  A batch whose number of
    rows [depth] does not divide is rejected by the cross-entropy, with a
    [ValueError]; this holds for [info_nce_loss_layer], with [depth] given
    or at its default 11 or 1, and for [info_nce_loss_intermediate], whose
    depth is 11.  A divisible batch whose labels are rows of the teacher
    batch gives a loss that is not negative. *)
Theorem layer_losses_batch (st_inter : bool) (rank d : nat) (depth_ : option nat)
    (s t : matrix) :
  let depth := default_depth st_inter depth_ in
  s <> [] -> has_width d s = true -> has_width d t = true -> depth <> 0 ->
  (length s mod depth <> 0 ->
   info_nce_loss_layer st_inter rank s t depth_
   = Err (ValueError "Expected input batch_size to match target batch_size")) /\
  (length s mod depth = 0 ->
   length s / depth + length s * rank / depth <= length t ->
   exists loss, info_nce_loss_layer st_inter rank s t depth_ = Ok loss /\ (0 <= loss)%R) /\
  (length s mod 11 <> 0 ->
   info_nce_loss_intermediate s t
   = Err (ValueError "Expected input batch_size to match target batch_size")).
Proof.
  intros depth Hs Hws Hwt Hdepth.
  assert (Hns : normalize s <> []) by (destruct s; [congruence|discriminate]).
  assert (Hmm : matmul_T (normalize s) (normalize t)
                = Ok (map (fun ai => map (fun bj => dot ai bj) (normalize t)) (normalize s)))
    by (apply (matmul_T_rows d); try rewrite has_width_normalize; assumption).
  assert (Hshort : forall (temp : R) (k : nat) (off : nat),
            k <> 0 -> length s mod k <> 0 ->
            criterion (div_scalar (map (fun ai => map (fun bj => dot ai bj) (normalize t))
                                       (normalize s)) temp)
                      (concat (repeat (arange_plus (ceil_div (length s) k) off) k))
            = Err (ValueError "Expected input batch_size to match target batch_size")).
  { intros temp k off Hk Hmod. unfold criterion, div_scalar, normalize.
    rewrite !length_map, length_concat_repeat.
    unfold arange_plus at 1. rewrite length_map, length_seq.
    rewrite (ceil_div_indivisible _ _ Hk Hmod).
    assert (Hne : (length s =? k * (length s / k + 1)) = false).
    { apply Nat.eqb_neq. pose proof (Nat.div_mod_eq (length s) k).
      pose proof (Nat.mod_upper_bound (length s) k Hk). nia. }
    now rewrite Hne. }
  split; [|split].
  - intros Hmod. unfold info_nce_loss_layer. fold (default_depth st_inter depth_).
    fold depth. apply Nat.eqb_neq in Hdepth. rewrite Hdepth.
    apply Nat.eqb_neq in Hdepth.
    rewrite Hmm. cbn [bind]. rewrite (Hshort tau depth _ Hdepth Hmod). reflexivity.
  - intros Hmod Hrange. unfold info_nce_loss_layer. fold (default_depth st_inter depth_).
    fold depth. apply Nat.eqb_neq in Hdepth. rewrite Hdepth.
    apply Nat.eqb_neq in Hdepth.
    rewrite Hmm. cbn [bind].
    assert (Htau : (0 < tau)%R) by (unfold tau; lra).
    destruct (logits_rows tau s t Htau) as [Hlen Hrows]. cbn zeta in Hlen, Hrows.
    set (logits := div_scalar _ tau) in *.
    assert (Hlogits : logits <> []).
    { intros Hnil. apply (f_equal (@length _)) in Hnil. rewrite Hlen in Hnil.
      destruct s; [congruence|discriminate]. }
    set (labels := concat (repeat _ depth)).
    assert (Hlabels : length logits = length labels).
    { unfold labels. rewrite length_concat_repeat. unfold arange_plus.
      rewrite length_map, length_seq, Hlen, (ceil_div_divisible _ _ Hdepth Hmod).
      pose proof (Nat.div_mod_eq (length s) depth). lia. }
    destruct (criterion_bounds (1 / tau) (length t) logits labels Hlogits Hlabels Hrows)
      as [Hok _].
    destruct Hok as (loss & -> & Hloss).
    { unfold labels. rewrite forallb_concat_repeat by assumption.
      rewrite forallb_arange, (ceil_div_divisible _ _ Hdepth Hmod).
      apply orb_true_iff. right. apply Nat.leb_le. exact Hrange. }
    cbn [bind]. eexists. split; [reflexivity|]. unfold tau. lra.
  - intros Hmod. unfold info_nce_loss_intermediate.
    rewrite Hmm. cbn [bind]. apply Hshort; [discriminate|exact Hmod].
Qed.

Lemma layer_losses_batch_witness :
  info_nce_loss_layer true 0 [[1; 0]%R; [0; 1]%R; [1; 1]%R] [[1; 0]%R] (Some 2)
  = Err (ValueError "Expected input batch_size to match target batch_size").
Proof.
  apply (proj1 (layer_losses_batch true 0 2 (Some 2) [[1; 0]%R; [0; 1]%R; [1; 1]%R] [[1; 0]%R]
                  ltac:(discriminate) eq_refl eq_refl ltac:(discriminate))).
  discriminate.
Defined.

(* ------------------------------------------------------------------ *)
(** ** [update_lr] *)

Lemma index_inv {A : Type} (xs : list A) (i : nat) (x : A) :
  index xs i = Ok x -> nth_error xs i = Some x.
Proof. unfold index. destruct (nth_error xs i); intros H; now inversion H. Qed.

Lemma index_out_of_range {A : Type} (xs : list A) (i : nat) :
  length xs <= i -> index xs i = Err IndexError.
Proof.
  intros H. unfold index. apply nth_error_None in H. now rewrite H.
Qed.

Lemma update_groups_later (self : PLLearner) (i : nat) (groups : list ParamGroup)
    (r : list ParamGroup * list (string * R * nat)) :
  0 < i -> update_groups self i groups = Ok r ->
  map weight_decay (fst r) = map weight_decay groups /\
  Forall (fun g' => nth_error (lr_schedule self) (global_step self) = Some (lr g')) (fst r) /\
  snd r = [].
Proof.
  revert i r. induction groups as [|g rest IH]; intros i r Hi; cbn [update_groups].
  - intros H. inversion H. repeat split. constructor.
  - destruct (index (lr_schedule self) (global_step self)) as [lr_|e] eqn:Hlr; cbn [bind];
      [|discriminate].
    assert (Hi0 : (i =? 0) = false) by (apply Nat.eqb_neq; lia).
    rewrite Hi0. cbn [bind].
    destruct (update_groups self (S i) rest) as [r'|e] eqn:Hr; cbn [bind]; [|discriminate].
    intros H. inversion H; subst r; clear H. cbn [fst snd map weight_decay app].
    destruct (IH (S i) r' ltac:(lia) Hr) as (Hwd & Hlrs & Hlogs).
    split; [now rewrite Hwd|]. split; [|exact Hlogs].
    constructor; [|exact Hlrs]. cbn [lr]. now apply index_inv.
Qed.

(** [update_lr] sets the ratio and the learning rate of every group from the
    schedules at the current step, and the weight decay of the first group
    only: the groups after it (the parameters exempt from decay) keep
    theirs.  The learning rate is logged once.  A step beyond the end of the
    ratio schedule raises an [IndexError]. *)
Theorem update_lr_rates (self : PLLearner) :
  (forall s groups,
     optimizer self = Some groups -> update_lr self = Ok s ->
     exists groups',
       optimizer s = Some groups' /\
       nth_error (ratio_schedule self) (global_step self) = Some (ratio s) /\
       map params groups' = map params groups /\
       Forall (fun g' => nth_error (lr_schedule self) (global_step self) = Some (lr g'))
              groups' /\
       match groups, groups' with
       | [], [] => scalars s = scalars self
       | g0 :: rest, g0' :: rest' =>
           nth_error (wd_schedule self) (global_step self) = Some (weight_decay g0') /\
           map weight_decay rest' = map weight_decay rest /\
           scalars s = ("lr"%string, lr g0', global_step self) :: scalars self
       | _, _ => False
       end) /\
  (length (ratio_schedule self) <= global_step self -> update_lr self = Err IndexError).
Proof.
  split.
  - intros s groups Hopt. unfold update_lr.
    destruct (index (ratio_schedule self) (global_step self)) as [ratio_|e] eqn:Hratio;
      cbn [bind]; [|discriminate].
    cbn [with_ratio optimizer]. rewrite Hopt.
    destruct (update_groups _ 0 groups) as [r|e] eqn:Hr; cbn [bind]; [|discriminate].
    intros H. inversion H; subst s; clear H.
    exists (fst r).
    pose proof (update_groups_params _ _ _ _ Hr) as Hparams.
    destruct groups as [|g0 rest]; cbn [update_groups] in Hr.
    + inversion Hr; subst r. cbn [fst snd fold_left with_optimizer with_ratio optimizer
                                  ratio scalars].
      repeat split; [now apply index_inv|constructor].
    + cbn [with_ratio lr_schedule wd_schedule global_step] in Hr.
      destruct (index (lr_schedule self) (global_step self)) as [lr_|e] eqn:Hlr;
        cbn [bind Nat.eqb] in Hr; [|discriminate].
      destruct (index (wd_schedule self) (global_step self)) as [wd_|e] eqn:Hwd;
        cbn [bind] in Hr; [|discriminate].
      destruct (update_groups _ 1 rest) as [r'|e] eqn:Hr'; cbn [bind] in Hr; [|discriminate].
      inversion Hr; subst r; clear Hr.
      destruct (update_groups_later _ 1 rest r' ltac:(lia) Hr') as (Hwds & Hlrs & Hlogs).
      cbn [fst snd] in *. rewrite Hlogs.
      cbn [app fold_left add_scalar with_optimizer with_ratio optimizer ratio scalars
           global_step fst snd].
      split; [reflexivity|]. split; [now apply index_inv|]. split; [exact Hparams|].
      split.
      * constructor; [cbn [lr]; now apply index_inv|exact Hlrs].
      * cbn [weight_decay lr]. split; [now apply index_inv|]. split; [exact Hwds|reflexivity].
  - intros Hlen. unfold update_lr. now rewrite index_out_of_range.
Qed.

Lemma update_lr_rates_witness :
  update_lr (with_global_step toy_learner 1) = Err IndexError.
Proof.
  apply (proj2 (update_lr_rates (with_global_step toy_learner 1))). cbn. lia.
Defined.

(* ------------------------------------------------------------------ *)
(** ** The teacher under [momentum_update] *)

Lemma same_layout_length (a b : module) : same_layout a b = true -> length a = length b.
Proof.
  revert b. induction a as [|[na pa] a IH]; intros [|[nb pb] b] H; cbn [same_layout] in H;
    try discriminate; [reflexivity|].
  apply andb_prop in H as [_ H]. cbn [length]. now rewrite (IH b H).
Qed.

Lemma ema_module_layout (m : R) (current ma : module) :
  same_layout current ma = true -> layout (ema_module m current ma) = layout ma.
Proof.
  revert ma. induction current as [|[nc pc] cs IH]; intros [|[nm pm] ms] H;
    cbn [same_layout] in H; try discriminate; [reflexivity|].
  apply andb_prop in H as [H Hrest]. apply andb_prop in H as [_ Hlen].
  apply Nat.eqb_eq in Hlen.
  unfold ema_module in *. cbn [map2 layout map fst snd set_data data ndim requires_grad grad].
  fold (layout ms). rewrite <- (IH ms Hrest). unfold layout. f_equal.
  rewrite map2_length_eq by lia. reflexivity.
Qed.

Lemma layout_length (a b : module) : layout a = layout b -> length a = length b.
Proof.
  unfold layout. intros H. apply (f_equal (@length _)) in H. now rewrite !length_map in H.
Qed.

Lemma regroup_concat (children : list module) (flat : module) :
  length flat = length (concat children) ->
  concat (regroup children flat) = flat /\
  map (@length _) (regroup children flat) = map (@length _) children.
Proof.
  revert flat. induction children as [|c cs IH]; intros flat Hlen; cbn [regroup concat map].
  - cbn [concat length] in Hlen. destruct flat; [split; reflexivity|discriminate].
  - cbn [concat] in Hlen. rewrite length_app in Hlen.
    destruct (IH (skipn (length c) flat)) as [Hc Hl].
    { rewrite length_skipn. lia. }
    rewrite Hc, Hl, firstn_skipn. split; [reflexivity|].
    f_equal. rewrite length_firstn. lia.
Qed.

(** [momentum_update] on a teacher that mirrors the student: the teacher's
    projector becomes the moving average with the student's (with the
    student's last head when the intermediate modes differ), head by head;
    names, sizes, flags and gradients of the teacher's parameters, its
    predictor, and the student are as before. *)
Theorem momentum_update_teacher (self : PLLearner) (m : R) :
  nth_error (momentum_schedule self) (global_step self) = Some m ->
  mirrored self = true ->
  exists s current,
    momentum_update self = Ok s /\
    current_projector self = Ok current /\
    projector_parameters (teacher s)
    = ema_module m current (projector_parameters (teacher self)) /\
    map (@length _) (projector (teacher s)) = map (@length _) (projector (teacher self)) /\
    layout (net (teacher s)) = layout (net (teacher self)) /\
    layout (projector_parameters (teacher s))
    = layout (projector_parameters (teacher self)) /\
    predictor (teacher s) = predictor (teacher self) /\
    student s = student self.
Proof.
  intros Hm Hmirror. unfold mirrored in Hmirror.
  apply andb_prop in Hmirror as [Hnet Hproj].
  unfold momentum_update, current_projector.
  rewrite (index_nth_error _ _ _ Hm). cbn [bind].
  rewrite (ema_zip_same_layout m _ _ Hnet). cbn [bind].
  assert (Hcur : exists current,
            (if negb (Bool.eqb (st_inter self) (t_inter self))
             then index_last (projector (student self))
             else Ok (projector_parameters (student self))) = Ok current /\
            same_layout current (projector_parameters (teacher self)) = true).
  { destruct (negb (Bool.eqb (st_inter self) (t_inter self))).
    - destruct (index_last (projector (student self))) as [head|e]; [|discriminate].
      exists head. now split.
    - eexists. split; [reflexivity|exact Hproj]. }
  destruct Hcur as (current & -> & Hlay). cbn [bind].
  rewrite (ema_zip_same_layout m _ _ Hlay). cbn [bind].
  eexists; exists current. split; [reflexivity|]. split; [reflexivity|].
  cbn [with_call with_teacher teacher student projector net predictor].
  pose proof (ema_module_layout m _ _ Hlay) as Hl.
  destruct (regroup_concat (projector (teacher self))
              (ema_module m current (projector_parameters (teacher self)))) as [Hc Hlens].
  { apply (layout_length _ _ Hl). }
  assert (Hpp : projector_parameters
                  {| net := ema_module m (net (student self)) (net (teacher self));
                     projector := regroup (projector (teacher self))
                                    (ema_module m current (projector_parameters (teacher self)));
                     predictor := predictor (teacher self) |}
                = ema_module m current (projector_parameters (teacher self))).
  { unfold projector_parameters at 1. cbn [projector]. exact Hc. }
  rewrite Hpp.
  repeat split; try assumption. now apply ema_module_layout.
Qed.

Lemma momentum_update_teacher_witness :
  exists s current,
    momentum_update toy_learner = Ok s /\
    current_projector toy_learner = Ok current /\
    projector_parameters (teacher s)
    = ema_module (1 / 2) current (projector_parameters (teacher toy_learner)).
Proof.
  destruct (momentum_update_teacher toy_learner (1 / 2) eq_refl eq_refl)
    as (s & current & H1 & H2 & H3 & _).
  exists s, current. repeat split; assumption.
Defined.

Lemma ema_zip_app (m : R) (c1 c2 ma1 ma2 : module) :
  same_layout c1 ma1 = true -> c2 = [] \/ ma2 = [] ->
  ema_zip m (c1 ++ c2) (ma1 ++ ma2) = Ok (ema_module m c1 ma1 ++ ma2).
Proof.
  intros Hlay Hend. revert ma1 Hlay.
  induction c1 as [|[nc pc] c1 IH]; intros [|[nm pm] ma1] Hlay;
    cbn [same_layout] in Hlay; try discriminate.
  - cbn [app ema_module map2]. destruct Hend as [-> | ->].
    + now destruct ma2.
    + destruct c2 as [|[? ?] ?]; reflexivity.
  - apply andb_prop in Hlay as [H Hrest]. apply andb_prop in H as [_ Hlen].
    apply Nat.eqb_eq in Hlen.
    cbn [app ema_zip]. rewrite tadd_same_size
      by (unfold tmul_scalar, scalar_tmul; rewrite !length_map; lia).
    cbn [bind]. rewrite (IH ma1 Hrest). cbn [bind].
    unfold ema_module. cbn [map2 app fst snd]. now rewrite ema_entries.
Qed.

(** The loops of [momentum_update] run over [zip], which stops at the
    shorter list without a word.  When the backbones differ in length (and
    agree on the common prefix), the update returns: surplus parameters of
    the teacher keep their old values, surplus parameters of the student are
    not read. *)
Theorem momentum_update_zip_stops (self : PLLearner) (m : R) (c1 c2 ma1 ma2 : module)
    (current : module) :
  nth_error (momentum_schedule self) (global_step self) = Some m ->
  net (student self) = c1 ++ c2 -> net (teacher self) = ma1 ++ ma2 ->
  same_layout c1 ma1 = true -> c2 = [] \/ ma2 = [] ->
  current_projector self = Ok current ->
  same_layout current (projector_parameters (teacher self)) = true ->
  exists s,
    momentum_update self = Ok s /\
    net (teacher s) = ema_module m c1 ma1 ++ ma2.
Proof.
  intros Hm Hs Ht Hlay Hend Hcur Hproj.
  unfold momentum_update. unfold current_projector in Hcur.
  rewrite (index_nth_error _ _ _ Hm). cbn [bind].
  rewrite Hs, Ht, (ema_zip_app m c1 c2 ma1 ma2 Hlay Hend). cbn [bind].
  rewrite Hcur. cbn [bind].
  rewrite (ema_zip_same_layout m _ _ Hproj). cbn [bind].
  eexists. split; reflexivity.
Qed.

Lemma momentum_update_zip_stops_witness :
  exists s,
    momentum_update
      (with_teacher toy_learner
         {| net := net (teacher toy_learner)
                   ++ [("extra"%string,
                        {| data := [7%R]; ndim := 1; requires_grad := false;
                           grad := None |})];
            projector := projector (teacher toy_learner);
            predictor := predictor (teacher toy_learner) |}) = Ok s /\
    net (teacher s)
    = ema_module (1 / 2) (net toy_student) (net (teacher toy_learner))
      ++ [("extra"%string,
           {| data := [7%R]; ndim := 1; requires_grad := false; grad := None |})].
Proof.
  apply (momentum_update_zip_stops _ (1 / 2) (net toy_student) []
           (net (teacher toy_learner)) _ (projector_parameters toy_student)).
  - reflexivity.
  - cbn. reflexivity.
  - reflexivity.
  - reflexivity.
  - now left.
  - reflexivity.
  - reflexivity.
Defined.

(* ------------------------------------------------------------------ *)
(** ** The steps of [fit] *)








(* ------------------------------------------------------------------ *)
(** ** The accuracies of the k-NN evaluation *)

Lemma correct_le (target : nat) (p : list nat) :
  Knn.correct 1 target p <= Knn.correct 5 target p /\ Knn.correct 5 target p <= 1.
Proof.
  unfold Knn.correct. split.
  - destruct p as [|a p]; [reflexivity|]. cbn [firstn existsb].
    destruct (target =? a); cbn [orb]; [lia|].
    destruct (existsb _ _); lia.
  - destruct (existsb _ _); lia.
Qed.

Lemma count_correct_le (targets : list nat) (predictions : list (list nat)) :
  Knn.count_correct 1 targets predictions <= Knn.count_correct 5 targets predictions /\
  Knn.count_correct 5 targets predictions <= length targets.
Proof.
  unfold Knn.count_correct. revert predictions.
  induction targets as [|t targets IH]; intros [|p predictions];
    cbn [map2 fold_right length]; try lia.
  destruct (IH predictions) as [H1 H2]. destruct (correct_le t p) as [H3 H4]. lia.
Qed.

Lemma topk_needs_k (row distances : list R) (indices : list nat) :
  Knn.is_topk row distances indices -> Knn.k <= length row.
Proof.
  intros (Hk & Hnodup & Hrange & _). rewrite <- Hk.
  replace (length row) with (length (seq 0 (length row))) by apply length_seq.
  apply NoDup_incl_length; [exact Hnodup|].
  intros i Hi. rewrite Forall_forall in Hrange. apply in_seq. specialize (Hrange i Hi). lia.
Qed.

(** Whatever [validation_epoch_end] reports: there was at least one
    validation sample and the reference bank held at least 20 features
    (otherwise the division by [total], or [topk], raises), and the two
    accuracies are percentages with [top1 <= top5]. *)
Theorem validation_epoch_end_range (outs_by_rank : list (list (matrix * list nat)))
    (val_loader : list (list (list R * nat))) (top1 top5 : R) :
  Knn.validation_epoch_end outs_by_rank val_loader top1 top5 ->
  concat val_loader <> [] /\
  20 <= length (concat (map (fun outs => concat (map fst outs)) outs_by_rank)) /\
  (0 <= top1 <= top5)%R /\ (top5 <= 100)%R.
Proof.
  unfold Knn.validation_epoch_end. cbn zeta.
  intros (predictions & Hp & Htotal & -> & ->).
  set (samples := concat val_loader) in *.
  assert (Hne : samples <> []) by (intros E; rewrite E in Htotal; now apply Htotal).
  split; [exact Hne|]. split.
  - destruct Hp as [|s p ss ps (_ & distances & indices & Htopk & _) _]; [congruence|].
    apply topk_needs_k in Htopk. unfold normalize in Htopk.
    rewrite !length_map in Htopk. exact Htopk.
  - destruct (count_correct_le (map snd samples) predictions) as [H1 H5].
    rewrite length_map in H5.
    set (c1 := Knn.count_correct 1 (map snd samples) predictions) in *.
    set (c5 := Knn.count_correct 5 (map snd samples) predictions) in *.
    assert (Hn : (0 < INR (length samples))%R) by (apply lt_0_INR; lia).
    pose proof (pos_INR c1) as P1. apply le_INR in H1, H5.
    assert (Hinv : (0 < / INR (length samples))%R) by now apply Rinv_0_lt_compat.
    unfold Rdiv. repeat split.
    + apply Rmult_le_pos; [|lra]. apply Rmult_le_pos; lra.
    + apply Rmult_le_compat_r; [lra|]. lra.
    + apply (Rmult_le_reg_r (INR (length samples))); [exact Hn|].
      rewrite Rmult_assoc, Rinv_l by lra. lra.
Qed.

Lemma validation_epoch_end_range_witness :
  exists top1 top5,
    Knn.validation_epoch_end Knn.far_outs Knn.far_val top1 top5 /\
    (0 <= top1 <= top5)%R /\ (top5 <= 100)%R.
Proof.
  destruct (predicts_exists (normalize Knn.far_features) Knn.far_labels
              (normalize_row [1; 0]%R)) as (p1 & Hp1);
    [rewrite has_width_normalize; reflexivity
    |unfold normalize, Knn.far_features, Knn.k;
     rewrite length_map, length_app, !repeat_length; lia
    |unfold normalize, Knn.far_features, Knn.far_labels;
     now rewrite length_map, !length_app, !repeat_length| |].
  { unfold Knn.far_labels, Knn.num_classes. cbn [repeat app].
    repeat (apply Forall_cons; [lia|]). apply Forall_nil. }
  destruct (predicts_exists (normalize Knn.far_features) Knn.far_labels
              (normalize_row [0; 1]%R)) as (p2 & Hp2);
    [rewrite has_width_normalize; reflexivity
    |unfold normalize, Knn.far_features, Knn.k;
     rewrite length_map, length_app, !repeat_length; lia
    |unfold normalize, Knn.far_features, Knn.far_labels;
     now rewrite length_map, !length_app, !repeat_length| |].
  { unfold Knn.far_labels, Knn.num_classes. cbn [repeat app].
    repeat (apply Forall_cons; [lia|]). apply Forall_nil. }
  assert (Hout : Knn.validation_epoch_end Knn.far_outs Knn.far_val
                   (INR (Knn.count_correct 1 [0; 1] [p1; p2]) * 100 / INR 2)
                   (INR (Knn.count_correct 5 [0; 1] [p1; p2]) * 100 / INR 2)).
  { exists [p1; p2]. split; [|split; [discriminate|split; reflexivity]].
    constructor; [exact Hp1|]. constructor; [exact Hp2|constructor]. }
  eexists; eexists. split; [exact Hout|].
  exact (proj2 (proj2 (validation_epoch_end_range _ _ _ _ Hout))).
Defined.


(* ------------------------------------------------------------------ *)
(** ** The SimCLR loss and the masks it caches *)

Lemma select_map {A B : Type} (r : B -> A) (m : B -> bool) (l : list B) :
  map fst (filter snd (combine (map r l) (map m l))) = map r (filter m l).
Proof.
  induction l as [|x l IH]; [reflexivity|].
  cbn [map combine filter snd]. destruct (m x); cbn [map fst]; now rewrite IH.
Qed.

Lemma map_nth_seq {A B : Type} (f : A -> B) (d : A) (l : list A) :
  map f l = map (fun i => f (nth i l d)) (seq 0 (length l)).
Proof.
  induction l as [|x l IH]; [reflexivity|].
  cbn [length seq map nth]. f_equal. rewrite <- seq_shift, map_map. exact IH.
Qed.

Lemma masked_select_map {A B : Type} (r : B -> list A) (m : B -> list bool) (l : list B) :
  (forall x, In x l -> length (r x) = length (m x)) ->
  masked_select (map r l) (map m l)
  = Ok (concat (map (fun x => map fst (filter snd (combine (r x) (m x)))) l)).
Proof.
  intros H. unfold masked_select. rewrite !length_map, Nat.eqb_refl, map2_map. cbn [andb].
  assert (Hall : forallb (fun rm : list A * list bool => length (fst rm) =? length (snd rm))
                   (combine (map r l) (map m l)) = true).
  { induction l as [|x l IH]; [reflexivity|]. cbn [map combine forallb fst snd].
    rewrite (H x (or_introl eq_refl)), Nat.eqb_refl. cbn [andb].
    apply IH. intros y Hy. apply H. now right. }
  now rewrite Hall.
Qed.

Lemma chunks_concat {A : Type} (w : nat) (rows : list (list A)) :
  Forall (fun r => length r = w) rows -> chunks (length rows) w (concat rows) = rows.
Proof.
  induction 1 as [|r rows Hr _ IH]; [reflexivity|].
  cbn [length chunks concat].
  assert (E1 : firstn w (r ++ concat rows) = r).
  { rewrite <- Hr. rewrite firstn_app, Nat.sub_diag, firstn_all. cbn [firstn]. apply app_nil_r. }
  assert (E2 : skipn w (r ++ concat rows) = concat rows).
  { rewrite <- Hr. rewrite skipn_app, Nat.sub_diag, skipn_all. reflexivity. }
  now rewrite E1, E2, IH.
Qed.

Lemma view_rows_concat {A : Type} (n w : nat) (rows : list (list A)) :
  n <> 0 -> w <> 0 -> length rows = n -> Forall (fun r => length r = w) rows ->
  view_rows n (concat rows) = Ok rows.
Proof.
  intros Hn Hw Hlen Hrows. unfold view_rows.
  apply Nat.eqb_neq in Hn as Hn'.
  rewrite (length_concat_uniform _ _ Hrows), Hlen, (Nat.mul_comm n w).
  assert (Hnw : (w * n =? 0) = false) by (apply Nat.eqb_neq; nia).
  rewrite Hnw, Hn'.
  rewrite Nat.Div0.mod_mul, Nat.div_mul by exact Hn. cbn [Nat.eqb].
  rewrite <- Hlen. now rewrite chunks_concat.
Qed.

(** Selecting by a mask and viewing the result as one row per index: when
    every row keeps the same number of entries the selection is row-wise. *)
Lemma masked_view {A I B : Type} (D : I -> B -> A) (R : I -> B -> bool) (c : I -> list B)
    (l : list I) (w n : nat) :
  n <> 0 -> w <> 0 -> length l = n ->
  (forall i, In i l -> length (filter (R i) (c i)) = w) ->
  masked_select (map (fun i => map (D i) (c i)) l) (map (fun i => map (R i) (c i)) l)
  = Ok (concat (map (fun i => map (D i) (filter (R i) (c i))) l)) /\
  view_rows n (concat (map (fun i => map (D i) (filter (R i) (c i))) l))
  = Ok (map (fun i => map (D i) (filter (R i) (c i))) l).
Proof.
  intros Hn Hw0 Hlen Hw. split.
  - rewrite (masked_select_map (fun i => map (D i) (c i)) (fun i => map (R i) (c i)))
      by (intros i _; now rewrite !length_map).
    do 2 f_equal. apply map_ext. intros i. apply select_map.
  - apply view_rows_concat with (w := w); [exact Hn|exact Hw0|now rewrite length_map|].
    rewrite Forall_forall. intros r Hr. apply in_map_iff in Hr as (i & <- & Hi).
    rewrite length_map. now apply Hw.
Qed.

Lemma filter_eq_seq (c a n : nat) :
  filter (fun j => c =? j) (seq a n) = if (a <=? c) && (c <? a + n) then [c] else [].
Proof.
  revert a. induction n as [|n IH]; intros a; cbn [seq filter].
  - destruct (Nat.leb_spec a c), (Nat.ltb_spec c (a + 0)); cbn [andb]; try reflexivity; lia.
  - rewrite IH.
    destruct (Nat.eqb_spec c a), (Nat.leb_spec a c), (Nat.ltb_spec c (a + S n)),
      (Nat.leb_spec (S a) c), (Nat.ltb_spec c (S a + n));
      cbn [andb]; subst; try reflexivity; lia.
Qed.

Lemma filter_eq_seq_length (c n : nat) :
  c < n -> length (filter (fun j => c =? j) (seq 0 n)) = 1.
Proof.
  intros H. rewrite filter_eq_seq. cbn [Nat.leb andb Nat.add].
  destruct (Nat.ltb_spec c n); [reflexivity|lia].
Qed.

Lemma filter_neq_seq_length (c n : nat) :
  c < n -> length (filter (fun j => negb (c =? j)) (seq 0 n)) = n - 1.
Proof.
  intros H. pose proof (filter_length (fun j => c =? j) (seq 0 n)) as E.
  rewrite (filter_eq_seq_length c n H), length_seq in E. lia.
Qed.

Lemma filter_both {A : Type} (p q : A -> bool) (l : list A) :
  filter p (filter q l) = filter (fun x => q x && p x) l.
Proof.
  induction l as [|x l IH]; [reflexivity|]. cbn [filter].
  destruct (q x); cbn [andb filter]; [destruct (p x)|]; now rewrite IH.
Qed.

Lemma pair_labels_length (h : nat) :
  length (arange_plus h 0 ++ arange_plus h 0) = 2 * h.
Proof.
  unfold arange_plus. rewrite length_app, !length_map, !length_seq. lia.
Qed.

Lemma pair_labels_nth (h j : nat) :
  j < 2 * h ->
  nth j (arange_plus h 0 ++ arange_plus h 0) 0 = if j <? h then j else j - h.
Proof.
  intros Hj.
  assert (Hlen : length (arange_plus h 0) = h)
    by (unfold arange_plus; now rewrite length_map, length_seq).
  destruct (Nat.ltb_spec j h).
  - rewrite app_nth1 by lia. rewrite arange_plus_nth by lia. lia.
  - rewrite app_nth2 by lia. rewrite Hlen, arange_plus_nth by lia. lia.
Qed.

(** Off the diagonal, every row of the label matrix marks exactly one
    position: the other view of the same image. *)
Lemma one_positive (h i : nat) :
  i < 2 * h ->
  let v := arange_plus h 0 ++ arange_plus h 0 in
  length (filter (fun j => nth j v 0 =? nth i v 0)
            (filter (fun j => negb (i =? j)) (seq 0 (2 * h)))) = 1.
Proof.
  intros Hi v. rewrite filter_both.
  rewrite (filter_ext_in _ (fun j => (if i <? h then i + h else i - h) =? j)).
  - apply filter_eq_seq_length. destruct (Nat.ltb_spec i h); lia.
  - intros j Hj. apply in_seq in Hj. unfold v.
    rewrite !pair_labels_nth by lia.
    destruct (Nat.ltb_spec i h), (Nat.ltb_spec j h);
      repeat match goal with
             | |- context [?a =? ?b] => destruct (Nat.eqb_spec a b)
             end; cbn [negb andb]; try reflexivity; lia.
Qed.

Lemma matmul_T_length (a b s : matrix) : matmul_T a b = Ok s -> length s = length a.
Proof.
  unfold matmul_T. destruct (_ && _); [|discriminate].
  intros H. injection H as <-. apply length_map.
Qed.

Lemma matmul_T_self (d : nat) (x : matrix) :
  has_width d x = true ->
  matmul_T x x = Ok (map (fun i => map (fun j => dot (nth i x []) (nth j x []))
                                     (seq 0 (length x))) (seq 0 (length x))).
Proof.
  intros Hw. assert (Hx : x = [] \/ x <> []) by (destruct x; [now left|now right]).
  destruct Hx as [->|Hne]; [reflexivity|].
  rewrite (matmul_T_rows d) by assumption.
  f_equal. rewrite (map_nth_seq _ [] x). apply map_ext. intros i.
  now rewrite (map_nth_seq _ [] x).
Qed.

Lemma normalize_nth (i : nat) (x : matrix) :
  nth i (normalize x) [] = normalize_row (nth i x []).
Proof.
  unfold normalize. change (@nil R) with (normalize_row []) at 1. apply map_nth.
Qed.

Lemma mask_not_eye (n : nat) :
  mask_not (eye n)
  = map (fun i => map (fun j => negb (i =? j)) (seq 0 n)) (seq 0 n).
Proof.
  unfold mask_not, eye. rewrite map_map. apply map_ext. intros i. now rewrite map_map.
Qed.

Lemma pair_labels_rows (h : nat) :
  let v := arange_plus h 0 ++ arange_plus h 0 in
  map (fun vi => map (fun vj => vj =? vi) v) v
  = map (fun i => map (fun j => nth j v 0 =? nth i v 0) (seq 0 (2 * h))) (seq 0 (2 * h)).
Proof.
  intros v. rewrite (map_nth_seq _ 0 v). unfold v at 3. rewrite pair_labels_length.
  apply map_ext. intros i. rewrite (map_nth_seq _ 0 v). unfold v at 3.
  now rewrite pair_labels_length.
Qed.

Lemma scaled_cosine (temp : R) (u v : list R) :
  (0 < temp)%R ->
  (- (1 / temp) <= dot (normalize_row u) (normalize_row v) / temp <= 1 / temp)%R.
Proof.
  intros Ht. pose proof (cosine_bounds u v) as [H1 H2].
  assert (Hi : (0 < / temp)%R) by now apply Rinv_0_lt_compat.
  unfold Rdiv. split; nra.
Qed.

Lemma forallb_repeat_zero (T k : nat) :
  1 <= T -> forallb (fun l => l <? T) (repeat 0 k) = true.
Proof.
  intros HT. induction k as [|k IH]; [reflexivity|]. cbn [repeat forallb].
  rewrite IH. now destruct (Nat.ltb_spec 0 T); [|lia].
Qed.

(** The steps of the loss on a fresh learner and an even batch of at least
    four rows. *)
Lemma simclr_steps (temp : R) (features : matrix) (h d : nat) :
  length features = 2 * h -> 2 <= h -> has_width d features = true -> (0 < temp)%R ->
  exists loss self',
    Simclr.info_nce_loss (Simclr.mkPLLearner temp None None None) features
    = Ok (loss, self') /\
    (0 <= loss <= ln (INR (2 * h - 1)) + 2 * (1 / temp))%R /\
    Simclr.mask self' = Some (eye (2 * h)) /\
    Simclr.label self' = Some (repeat 0 (2 * h)).
Proof.
  intros Hb Hh Hw Ht.
  set (n := 2 * h) in *.
  set (v := arange_plus h 0 ++ arange_plus h 0).
  set (l := seq 0 n).
  set (nf := normalize features).
  set (Lab := fun i j : nat => nth j v 0 =? nth i v 0).
  set (Off := fun i j : nat => negb (i =? j)).
  set (Dot := fun i j : nat => dot (nth i nf []) (nth j nf [])).
  assert (Hn : n <> 0) by (unfold n; lia).
  assert (Hl : length l = n) by apply length_seq.
  assert (Hv : length v = n) by apply pair_labels_length.
  assert (Hc : ceil_div n 2 = h).
  { rewrite ceil_div_divisible by (unfold n; rewrite ?(Nat.mul_comm 2 h), ?Nat.Div0.mod_mul; lia).
    unfold n. rewrite (Nat.mul_comm 2 h). apply Nat.div_mul. lia. }
  assert (EL : map (fun vi => map (fun vj => vj =? vi) v) v = map (fun i => map (Lab i) l) l)
    by apply pair_labels_rows.
  assert (ES : matmul_T nf nf = Ok (map (fun i => map (Dot i) l) l)).
  { unfold nf. rewrite (matmul_T_self d) by now rewrite has_width_normalize.
    unfold normalize at 3 4. now rewrite length_map, Hb. }
  assert (EM : mask_not (eye n) = map (fun i => map (Off i) l) l) by apply mask_not_eye.
  assert (Hoff : forall i, In i l -> length (filter (Off i) l) = n - 1).
  { intros i Hi. apply in_seq in Hi. apply filter_neq_seq_length. lia. }
  assert (Hn1 : n - 1 <> 0) by (unfold n; lia).
  assert (Hn2 : n - 2 <> 0) by (unfold n; lia).
  destruct (masked_view Lab Off (fun _ => l) l (n - 1) n Hn Hn1 Hl Hoff) as [E1 E1'].
  destruct (masked_view Dot Off (fun _ => l) l (n - 1) n Hn Hn1 Hl Hoff) as [E2 E2'].
  assert (Hpos : forall i, In i l -> length (filter (Lab i) (filter (Off i) l)) = 1).
  { intros i Hi. apply in_seq in Hi. apply (one_positive h i). fold n. lia. }
  destruct (masked_view Dot Lab (fun i => filter (Off i) l) l 1 n Hn ltac:(discriminate) Hl Hpos)
    as [E3 E3'].
  assert (Hneg : forall i, In i l ->
             length (filter (fun j => negb (Lab i j)) (filter (Off i) l)) = n - 2).
  { intros i Hi. pose proof (filter_length (Lab i) (filter (Off i) l)) as E.
    rewrite (Hpos i Hi), (Hoff i Hi) in E. lia. }
  destruct (masked_view Dot (fun i j => negb (Lab i j)) (fun i => filter (Off i) l) l
              (n - 2) n Hn Hn2 Hl Hneg) as [E4 E4'].
  set (rows1 := map (fun i => map (Lab i) (filter (Off i) l)) l) in *.
  set (rows2 := map (fun i => map (Dot i) (filter (Off i) l)) l) in *.
  set (rows3 := map (fun i => map (Dot i) (filter (Lab i) (filter (Off i) l))) l) in *.
  set (rows4 := map (fun i => map (Dot i) (filter (fun j => negb (Lab i j))
                                          (filter (Off i) l))) l) in *.
  assert (EN : mask_not rows1
               = map (fun i => map (fun j => negb (Lab i j)) (filter (Off i) l)) l).
  { unfold mask_not, rows1. rewrite map_map. apply map_ext. intros i. now rewrite map_map. }
  set (logits := map (fun i => map (Dot i) (filter (Lab i) (filter (Off i) l))
                               ++ map (Dot i) (filter (fun j => negb (Lab i j))
                                                 (filter (Off i) l))) l).
  assert (EC : cat_dim1 rows3 rows4 = Ok logits).
  { unfold cat_dim1, rows3, rows4. rewrite !length_map, Nat.eqb_refl. f_equal.
    apply map2_map. }
  destruct (criterion_bounds (1 / temp) (n - 1) (div_scalar logits temp) (repeat 0 n))
    as [Hcrit _].
  { unfold div_scalar, logits, l. destruct n; [lia|discriminate]. }
  { unfold div_scalar, logits. now rewrite !length_map, repeat_length. }
  { unfold div_scalar. rewrite Forall_forall. intros r Hr.
    apply in_map_iff in Hr as (r' & <- & Hr').
    apply in_map_iff in Hr' as (i & <- & Hi). split.
    - rewrite length_map, length_app, !length_map, (Hpos i Hi), (Hneg i Hi). lia.
    - rewrite Forall_forall. intros x Hx.
      apply in_map_iff in Hx as (y & <- & Hy).
      assert (Hdot : exists j, y = Dot i j).
      { apply in_app_or in Hy as [Hy|Hy]; apply in_map_iff in Hy as (j & <- & _);
          now exists j. }
      destruct Hdot as (j & ->). unfold Dot, nf. rewrite !normalize_nth.
      now apply scaled_cosine. }
  destruct Hcrit as (loss & Hloss & Hbounds).
  { apply forallb_repeat_zero. unfold n. lia. }
  assert (Hr1 : length rows1 = n) by (unfold rows1; now rewrite length_map).
  assert (Hr2 : length rows2 = n) by (unfold rows2; now rewrite length_map).
  assert (Hlog : length logits = n) by (unfold logits; now rewrite length_map).
  exists loss. eexists. split; [|split; [exact Hbounds|]].
  - unfold Simclr.info_nce_loss.
    cbn [Simclr.labels Simclr.mask Simclr.label Simclr.temperature].
    rewrite Hb, Hc. cbv zeta. fold v nf. rewrite EL, ES. cbn [bind].
    rewrite !length_map, Hl, EM, E1. cbn [bind]. rewrite E1'. cbn [bind].
    rewrite E2. cbn [bind]. rewrite E2'. cbn [bind].
    fold rows1 rows2. rewrite E3. cbn [bind].
    rewrite Hr1, E3'. cbn [bind].
    rewrite EN, E4. cbn [bind]. rewrite Hr2, E4'. cbn [bind].
    rewrite EC. cbn [bind]. rewrite Hlog, Hloss. cbn [bind]. reflexivity.
  - cbn [Simclr.mask Simclr.label]. split; reflexivity.
Qed.

(** On an odd batch the label matrix has one row more than the similarity
    matrix, and the mask built from it does not fit. *)
Lemma simclr_odd (temp : R) (features : matrix) (k d : nat) :
  length features = 2 * k + 1 -> has_width d features = true ->
  Simclr.info_nce_loss (Simclr.mkPLLearner temp None None None) features = Err IndexError.
Proof.
  intros Hb Hw.
  set (h := k + 1).
  set (n := 2 * h) in *.
  set (v := arange_plus h 0 ++ arange_plus h 0).
  set (l := seq 0 n).
  set (nf := normalize features).
  set (Lab := fun i j : nat => nth j v 0 =? nth i v 0).
  set (Off := fun i j : nat => negb (i =? j)).
  assert (Hn : n <> 0) by (unfold n, h; lia).
  assert (Hl : length l = n) by apply length_seq.
  assert (Hc : ceil_div (2 * k + 1) 2 = h).
  { unfold ceil_div, h. replace (2 * k + 1 + 2 - 1) with ((k + 1) * 2) by lia.
    apply Nat.div_mul. lia. }
  assert (EL : map (fun vi => map (fun vj => vj =? vi) v) v = map (fun i => map (Lab i) l) l)
    by apply pair_labels_rows.
  destruct (matmul_T nf nf) as [S|e] eqn:ES.
  2:{ unfold nf in ES. rewrite (matmul_T_self d) in ES by now rewrite has_width_normalize.
      discriminate. }
  assert (HS : length S = 2 * k + 1).
  { rewrite (matmul_T_length _ _ _ ES). unfold nf, normalize. now rewrite length_map. }
  assert (EM : mask_not (eye n) = map (fun i => map (Off i) l) l) by apply mask_not_eye.
  assert (Hoff : forall i, In i l -> length (filter (Off i) l) = n - 1).
  { intros i Hi. apply in_seq in Hi. apply filter_neq_seq_length. lia. }
  assert (Hn1 : n - 1 <> 0) by (unfold n, h; lia).
  destruct (masked_view Lab Off (fun _ => l) l (n - 1) n Hn Hn1 Hl Hoff) as [E1 E1'].
  assert (E2 : masked_select S (map (fun i => map (Off i) l) l) = Err IndexError).
  { unfold masked_select. rewrite length_map, Hl, HS.
    destruct (Nat.eqb_spec (2 * k + 1) n) as [E|_]; [unfold n, h in E; lia|reflexivity]. }
  unfold Simclr.info_nce_loss.
  cbn [Simclr.labels Simclr.mask Simclr.label Simclr.temperature].
  rewrite Hb, Hc. cbv zeta. fold v nf. rewrite EL, ES. cbn [bind].
  rewrite !length_map, Hl, EM, E1. cbn [bind]. rewrite E1'. cbn [bind].
  rewrite E2. reflexivity.
Qed.

(** A successful call leaves a learner on which the same features give the
    same loss and the same learner. *)
Lemma simclr_cached (self self' : Simclr.PLLearner) (features : matrix) (loss : R) :
  Simclr.info_nce_loss self features = Ok (loss, self') ->
  Simclr.info_nce_loss self' features = Ok (loss, self') /\
  exists L M, Simclr.labels self' = Some L /\ Simclr.mask self' = Some M /\
              length M = length features /\
              exists rows, (l_flat <- masked_select L (mask_not M) ;;
                            view_rows (length L) l_flat) = Ok rows.
Proof.
  intros H. unfold Simclr.info_nce_loss in H. cbv zeta in H.
  set (L := match Simclr.labels self with Some l => l | None => _ end) in H.
  set (M := match Simclr.mask self with Some m => m | None => _ end) in H.
  destruct (matmul_T (normalize features) (normalize features)) as [S|] eqn:ES;
    cbn [bind] in H; [|discriminate].
  destruct (masked_select L (mask_not M)) as [l_flat|] eqn:E1; cbn [bind] in H; [|discriminate].
  destruct (view_rows (length L) l_flat) as [labels_|] eqn:E2; cbn [bind] in H; [|discriminate].
  destruct (masked_select S (mask_not M)) as [s_flat|] eqn:E3; cbn [bind] in H; [|discriminate].
  destruct (view_rows (length S) s_flat) as [S'|] eqn:E4; cbn [bind] in H; [|discriminate].
  destruct (masked_select S' labels_) as [p_flat|] eqn:E5; cbn [bind] in H; [|discriminate].
  destruct (view_rows (length labels_) p_flat) as [pos|] eqn:E6; cbn [bind] in H;
    [|discriminate].
  destruct (masked_select S' (mask_not labels_)) as [n_flat|] eqn:E7; cbn [bind] in H;
    [|discriminate].
  destruct (view_rows (length S') n_flat) as [neg|] eqn:E8; cbn [bind] in H; [|discriminate].
  destruct (cat_dim1 pos neg) as [logits|] eqn:E9; cbn [bind] in H; [|discriminate].
  set (l0 := match Simclr.label self with Some l => l | None => _ end) in H.
  destruct (criterion _ l0) as [loss0|] eqn:E10; cbn [bind] in H; [|discriminate].
  injection H as <- <-. split.
  - unfold Simclr.info_nce_loss.
    cbn [Simclr.labels Simclr.mask Simclr.label Simclr.temperature]. cbv zeta.
    rewrite ES. cbn [bind]. rewrite E1. cbn [bind]. rewrite E2. cbn [bind].
    rewrite E3. cbn [bind]. rewrite E4. cbn [bind]. rewrite E5. cbn [bind].
    rewrite E6. cbn [bind]. rewrite E7. cbn [bind]. rewrite E8. cbn [bind].
    rewrite E9. cbn [bind]. rewrite E10. reflexivity.
  - exists L, M. cbn [Simclr.labels Simclr.mask]. repeat split.
    + apply matmul_T_length in ES. unfold normalize in ES. rewrite length_map in ES.
      rewrite <- ES. unfold masked_select in E3.
      destruct (Nat.eqb_spec (length S) (length (mask_not M))) as [E|_];
        [|discriminate]. unfold mask_not in E. now rewrite length_map in E.
    + exists labels_. rewrite E1. cbn [bind]. exact E2.
Qed.

(** [PLLearner.info_nce_loss] of [pl_train_simclr.py] on a learner whose
    caches are still empty, for features of one width and a positive
    temperature: an even batch of at least four rows gives a loss between 0
    and [ln (b - 1) + 2 / temperature] and caches the [b x b] mask and [b]
    zero labels; an odd batch raises [IndexError]. *)
Theorem simclr_info_nce_loss_batch (self : Simclr.PLLearner) (features : matrix) (d : nat) :
  Simclr.labels self = None -> Simclr.mask self = None -> Simclr.label self = None ->
  (0 < Simclr.temperature self)%R ->
  has_width d features = true ->
  let b := length features in
  (Nat.even b = true -> 4 <= b ->
   exists loss self',
     Simclr.info_nce_loss self features = Ok (loss, self') /\
     (0 <= loss <= ln (INR (b - 1)) + 2 / Simclr.temperature self)%R /\
     Simclr.mask self' = Some (eye b) /\
     Simclr.label self' = Some (repeat 0 b)) /\
  (Nat.odd b = true -> Simclr.info_nce_loss self features = Err IndexError).
Proof.
  destruct self as [temp labels mask label].
  cbn [Simclr.labels Simclr.mask Simclr.label Simclr.temperature].
  intros -> -> -> Ht Hw. split.
  - intros Heven Hb. apply Nat.even_spec in Heven as [h Hh].
    destruct (simclr_steps temp features h d) as (loss & self' & H & Hbounds & Hm & Hl);
      [exact Hh|lia|exact Hw|exact Ht|].
    exists loss, self'. rewrite Hh.
    replace (2 / temp)%R with (2 * (1 / temp))%R by (field; lra).
    now repeat split.
  - intros Hodd. apply Nat.odd_spec in Hodd as [k Hk].
    now apply (simclr_odd temp features k d).
Qed.

Lemma simclr_info_nce_loss_batch_witness :
  exists loss self',
    Simclr.info_nce_loss (Simclr.mkPLLearner (1 / 10) None None None)
      [[1]; [1]; [1]; [1]]%R = Ok (loss, self') /\
    (0 <= loss <= ln (INR 3) + 2 / (1 / 10))%R /\
    Simclr.mask self' = Some (eye 4) /\
    Simclr.label self' = Some [0; 0; 0; 0].
Proof.
  assert (Ht : (0 < 1 / 10)%R) by lra.
  destruct (simclr_info_nce_loss_batch (Simclr.mkPLLearner (1 / 10) None None None)
              [[1]; [1]; [1]; [1]]%R 1 eq_refl eq_refl eq_refl Ht eq_refl) as [Heven _].
  apply Heven; [reflexivity|cbn [length]; lia].
Defined.

(** After a successful call the masks are kept at the size of that batch:
    the same features give the same loss and leave the learner unchanged,
    and features with another number of rows raise [IndexError]. *)
Theorem simclr_info_nce_loss_cached (self self' : Simclr.PLLearner) (features : matrix)
    (loss : R) :
  Simclr.info_nce_loss self features = Ok (loss, self') ->
  Simclr.info_nce_loss self' features = Ok (loss, self') /\
  forall (d : nat) (other : matrix),
    has_width d other = true -> length other <> length features ->
    Simclr.info_nce_loss self' other = Err IndexError.
Proof.
  intros H. destruct (simclr_cached _ _ _ _ H) as (Hsame & L & M & HL & HM & Hlen & rows & Hrows).
  split; [exact Hsame|]. intros d other Hw Hne.
  unfold Simclr.info_nce_loss. rewrite HL, HM. cbv zeta.
  rewrite (matmul_T_self d) by now rewrite has_width_normalize. cbn [bind].
  destruct (masked_select L (mask_not M)) as [l_flat|] eqn:E1; cbn [bind] in Hrows;
    [|discriminate]. cbn [bind]. rewrite Hrows. cbn [bind].
  unfold masked_select at 1. unfold mask_not at 1.
  rewrite !length_map, length_seq.
  assert (Hlo : length (normalize other) = length other)
    by (unfold normalize; now rewrite length_map).
  destruct (Nat.eqb_spec (length (normalize other)) (length M)) as [E|_];
    [congruence|reflexivity].
Qed.

Lemma simclr_info_nce_loss_cached_witness :
  exists loss self',
    Simclr.info_nce_loss (Simclr.mkPLLearner (1 / 10) None None None)
      [[1]; [1]; [1]; [1]]%R = Ok (loss, self') /\
    Simclr.info_nce_loss self' [[1]; [1]; [1]; [1]]%R = Ok (loss, self') /\
    Simclr.info_nce_loss self' [[1]; [1]]%R = Err IndexError.
Proof.
  assert (Ht : (0 < 1 / 10)%R) by lra.
  destruct (simclr_steps (1 / 10) [[1]; [1]; [1]; [1]]%R 2 1 eq_refl (le_n 2) eq_refl Ht)
    as (loss & self' & H & _).
  exists loss, self'. split; [exact H|].
  destruct (simclr_info_nce_loss_cached _ _ _ _ H) as [Hsame Hother].
  split; [exact Hsame|]. apply (Hother 1); [reflexivity|cbn [length]; lia].
Defined.
